(** * vtkImageMutualInformation: joint histogram, entropies, MI and NMI

    A shallow embedding of [ImageRegistration/vtkImageMutualInformation.cxx]:
    the two binning kernels, the per-thread histogram storage, the extent
    clipping of [ThreadedRequestData], the two execution strategies of
    [RequestData] and the reduction of [ReduceRequestData].

    Numbers are modelled as the code has them.  A C++ [double] is a primitive
    binary64 [float] of the kernel, so that every addition, product, quotient
    and comparison rounds and treats NaN, infinities and signed zeros as the
    hardware does.  An [int] or a [vtkIdType] is a [Z]; the places where the
    C++ would overflow or index outside an array are written out as [None].
    Where a statement bounds a rounding error, the value of a double is a
    real number of the Standard Library. *)

From Stdlib Require Reals Lra.
From Stdlib Require Import ZArith Lia Floats String.
From Stdlib Require Uint63.
From stdpp Require Import list.

Local Open Scope Z_scope.

(** ** Machine numbers *)

Definition INT_MIN : Z := -2147483648.
Definition INT_MAX : Z := 2147483647.

Definition int_range (z : Z) : bool := (INT_MIN <=? z) && (z <=? INT_MAX).

(** Conversion of an integer ([int], [vtkIdType], an integral pixel) to
    [double]: exact below 2^53, rounded to nearest-even above. *)
Definition of_int (z : Z) : float :=
  if z <? 0 then (- of_uint63 (Uint63.of_Z (- z)))%float
  else of_uint63 (Uint63.of_Z z).

(** [static_cast<int>(d)]: truncation toward zero.  The conversion is undefined
    for NaN, for the infinities and when the truncated value does not fit an
    [int]. *)
Definition static_cast_int (d : float) : option Z :=
  match Prim2SF d with
  | S754_zero _ => Some 0
  | S754_finite s m e =>
      let z := cond_Zopp s (Z.shiftl (Zpos m) e) in
      if int_range z then Some z else None
  | _ => None
  end.

(** [vtkMath::Floor(d)]: the largest [int] not above [d]. *)
Definition vtkMath_Floor (d : float) : option Z :=
  match Prim2SF d with
  | S754_zero _ => Some 0
  | S754_finite s m e =>
      let z := Z.shiftl (cond_Zopp s (Zpos m)) e in
      if int_range z then Some z else None
  | _ => None
  end.

(** ** Data model *)

(** VTK's scalar type tags. *)
Inductive ScalarType : Set :=
  | VTK_VOID | VTK_BIT | VTK_CHAR | VTK_SIGNED_CHAR | VTK_UNSIGNED_CHAR
  | VTK_SHORT | VTK_UNSIGNED_SHORT | VTK_INT | VTK_UNSIGNED_INT
  | VTK_LONG | VTK_UNSIGNED_LONG | VTK_FLOAT | VTK_DOUBLE | VTK_ID_TYPE
  | VTK_STRING | VTK_OPAQUE | VTK_LONG_LONG | VTK_UNSIGNED_LONG_LONG.

(** [VTK_SIZEOF_LONG] of the build: an LP64 one, as the 32-bit [int] and the
    64-bit [vtkIdType] of this model. *)
Definition VTK_SIZEOF_LONG : Z := 8.

(** Whether the sized alias of a type tag is a 64-bit integer,
    [VTK_TYPE_SIZED_...] being [INT64] or [UINT64]: always for [long long]
    and [unsigned long long], for [long] and [unsigned long] where they are
    8 bytes wide. *)
Definition sized_alias_64 (t : ScalarType) : bool :=
  match t with
  | VTK_LONG_LONG | VTK_UNSIGNED_LONG_LONG => true
  | VTK_LONG | VTK_UNSIGNED_LONG => VTK_SIZEOF_LONG =? 8
  | _ => false
  end.

(** The cases [vtkTemplateAliasMacro] expands to.  The macro gives a case to
    [double], [float] and the eleven integer types from [char] to
    [unsigned long long].  The case of a type whose sized alias is switched on
    calls the template, the case of a type whose sized alias is switched off
    only warns, and every other tag falls to the [default:] label of the
    enclosing switch.  [allow64] is the value of VTK_USE_INT64 and
    VTK_USE_UINT64 where the macro is expanded: the reduction dispatches on
    the output type with the full macro, the input dispatch comes after the
    file has set both to 0.

    [vtkTemplateAliasMacro allow64 t] tells whether the switch reaches the
    templated call for the tag [t]. *)
Definition vtkTemplateAliasMacro (allow64 : bool) (t : ScalarType) : bool :=
  match t with
  | VTK_DOUBLE | VTK_FLOAT | VTK_INT
  | VTK_UNSIGNED_INT | VTK_SHORT | VTK_UNSIGNED_SHORT | VTK_CHAR
  | VTK_SIGNED_CHAR | VTK_UNSIGNED_CHAR => true
  | VTK_LONG | VTK_UNSIGNED_LONG
  | VTK_LONG_LONG | VTK_UNSIGNED_LONG_LONG => allow64 || negb (sized_alias_64 t)
  | _ => false
  end.

(** [#typeN], the name the macro is given for a tag. *)
Definition type_name (t : ScalarType) : string :=
  match t with
  | VTK_VOID => "VOID"
  | VTK_BIT => "BIT"
  | VTK_CHAR => "CHAR"
  | VTK_SIGNED_CHAR => "SIGNED_CHAR"
  | VTK_UNSIGNED_CHAR => "UNSIGNED_CHAR"
  | VTK_SHORT => "SHORT"
  | VTK_UNSIGNED_SHORT => "UNSIGNED_SHORT"
  | VTK_INT => "INT"
  | VTK_UNSIGNED_INT => "UNSIGNED_INT"
  | VTK_LONG => "LONG"
  | VTK_UNSIGNED_LONG => "UNSIGNED_LONG"
  | VTK_FLOAT => "FLOAT"
  | VTK_DOUBLE => "DOUBLE"
  | VTK_ID_TYPE => "ID_TYPE"
  | VTK_STRING => "STRING"
  | VTK_OPAQUE => "OPAQUE"
  | VTK_LONG_LONG => "LONG_LONG"
  | VTK_UNSIGNED_LONG_LONG => "UNSIGNED_LONG_LONG"
  end.

(** What a switch over the macro reports for a tag that does not reach the
    templated call: the warning of the switched-off case,
    [vtkGenericWarningMacro("Support for VTK_" #typeN " not compiled.")], or
    the error message of the [default:] label. *)
Definition no_template_call (allow64 : bool) (t : ScalarType) (message : string)
  : string :=
  if sized_alias_64 t && negb allow64
  then String.append "Support for VTK_"
         (String.append (type_name t) " not compiled.")
  else message.

(** A stored pixel: integral element types hold an integer, [float] and
    [double] images hold a floating-point number. *)
Inductive Pixel : Type :=
  | IntegralPixel (z : Z)
  | RealPixel (d : float).

(** [double x = *inPtr]. *)
Definition to_double (p : Pixel) : float :=
  match p with
  | IntegralPixel z => of_int z
  | RealPixel d => d
  end.

(** [int x = *inPtr] through an [unsigned char] pointer. *)
Definition read_uchar (p : Pixel) : option Z :=
  match p with
  | IntegralPixel z => if (0 <=? z) && (z <=? 255) then Some z else None
  | RealPixel _ => None
  end.

(** One span of the two [vtkImageStencilIterator]s, which walk both images in
    lockstep over the same stencil and extent: whether the span lies inside
    the stencil, and the first components of its voxels in both images. *)
Record Span : Type := {
  IsInStencil : bool;
  Voxels : list (Pixel * Pixel)
}.

(** An extent [xmin,xmax,ymin,ymax,zmin,zmax], one range per axis. *)
Definition Extent : Type := ((Z * Z) * (Z * Z) * (Z * Z))%type.

Definition ext_x (e : Extent) : Z * Z := e.1.1.
Definition ext_y (e : Extent) : Z * Z := e.1.2.
Definition ext_z (e : Extent) : Z * Z := e.2.

Definition ext_nonempty (e : Extent) : bool :=
  ((ext_x e).1 <=? (ext_x e).2) && ((ext_y e).1 <=? (ext_y e).2)
  && ((ext_z e).1 <=? (ext_z e).2).

(** What the pipeline hands to one invocation: the element types and extents of
    the two inputs, the spans the stencil iterators deliver for an execute
    extent, and the update extent of the output. *)
Record Pipeline : Type := {
  ScalarType0 : ScalarType;
  ScalarType1 : ScalarType;
  Extent0 : Extent;
  Extent1 : Extent;
  StencilSpans : Extent -> list Span;
  UpdateExtent : Extent
}.

(** The filter object. *)
Record vtkImageMutualInformation : Type := {
  NumberOfBins : Z * Z;
  BinOrigin : float * float;
  BinSpacing : float * float;
  OutputScalarType : ScalarType;
  MutualInformation : float;
  NormalizedMutualInformation : float
}.

(** Constructor sets default values. *)
Definition constructor : vtkImageMutualInformation := {|
  NumberOfBins := (64, 64);
  BinOrigin := (0%float, 0%float);
  BinSpacing := (1%float, 1%float);
  OutputScalarType := VTK_FLOAT;
  MutualInformation := 0%float;
  NormalizedMutualInformation := 0%float
|}.

(** [vtkImageMutualInformationThreadData]: the [Data] pointer of one worker,
    [None] while it is null. *)
Abbreviation ThreadData := (option (list Z)) (only parsing).

(** State threaded through the workers: the thread-local storage (slot [i] is
    [MT[i]] of the fixed pool, or the storage of pool thread [i] under
    vtkSMPTools) and the diagnostics, errors and warnings, reported so far. *)
Record RunState : Type := {
  Storage : list ThreadData;
  ErrorLog : list string
}.

(** ** Binning kernels *)

Fixpoint foldl_opt {A B : Type} (f : A -> B -> option A) (a : A) (l : list B)
  : option A :=
  match l with
  | [] => Some a
  | b :: l' =>
      match f a b with
      | Some a' => foldl_opt f a' l'
      | None => None
      end
  end.

(** The increment of the cell at [outPtr + off]: a write outside the buffer is
    a memory error. *)
Definition increment (outPtr : list Z) (off : Z) : option (list Z) :=
  if (0 <=? off) && (off <? Z.of_nat (length outPtr))
  then Some (alter Z.succ (Z.to_nat off) outPtr)
  else None.

(** [outPtr + yi*outIncY + xi]: the product is [int] arithmetic. *)
Definition cell_offset (yi outIncY xi : Z) : option Z :=
  if int_range (yi * outIncY) then Some (yi * outIncY + xi) else None.

(** One axis of the generic kernel: shift, scale, the two clamping ternaries
    and the rounding cast. *)
Definition affine_bin (shift scale min max : float) (v : float) : option Z :=
  let x := (v + shift)%float in
  let x := (x * scale)%float in
  let x := if (min <? x)%float then x else min in
  let x := if (x <? max)%float then x else max in
  static_cast_int (x + 0.5)%float.

Definition vtkImageMutualInformationExecute
    (spans : list Span) (outPtr : list Z)
    (numBins : Z * Z) (binOrigin binSpacing : float * float)
  : option (list Z) :=
  let xmin := 0%float in
  let ymin := 0%float in
  let xmax := of_int (numBins.1 - 1) in
  let ymax := of_int (numBins.2 - 1) in
  let xshift := (- binOrigin.1)%float in
  let yshift := (- binOrigin.2)%float in
  let xscale := (1 / binSpacing.1)%float in
  let yscale := (1 / binSpacing.2)%float in
  let outIncY := numBins.2 in
  foldl_opt (fun outPtr span =>
    if IsInStencil span then
      foldl_opt (fun outPtr (v : Pixel * Pixel) =>
        xi ← affine_bin xshift xscale xmin xmax (to_double v.1);
        yi ← affine_bin yshift yscale ymin ymax (to_double v.2);
        off ← cell_offset yi outIncY xi;
        increment outPtr off) outPtr (Voxels span)
    else Some outPtr) outPtr spans.

Definition vtkImageMutualInformationExecutePreScaled
    (spans : list Span) (outPtr : list Z) (numBins : Z * Z)
  : option (list Z) :=
  let xmax := numBins.1 - 1 in
  let ymax := numBins.2 - 1 in
  let outIncY := numBins.2 in
  foldl_opt (fun outPtr span =>
    if IsInStencil span then
      foldl_opt (fun outPtr (v : Pixel * Pixel) =>
        x ← read_uchar v.1;
        y ← read_uchar v.2;
        let x := if x <? xmax then x else xmax in
        let y := if y <? ymax then y else ymax in
        off ← cell_offset y outIncY x;
        increment outPtr off) outPtr (Voxels span)
    else Some outPtr) outPtr spans.

(** ** ThreadedRequestData *)

(** The loop that keeps the execute extent inside both inputs; [None] is its
    early return on an empty intersection. *)
Definition clip_axis (r in0 in1 : Z * Z) : option (Z * Z) :=
  let lo := if in0.1 <? r.1 then r.1 else in0.1 in
  let lo := if in1.1 <? lo then lo else in1.1 in
  let hi := if r.2 <? in0.2 then r.2 else in0.2 in
  let hi := if hi <? in1.2 then hi else in1.2 in
  if hi <? lo then None else Some (lo, hi).

Definition clip_extent (extent inExt0 inExt1 : Extent) : option Extent :=
  x ← clip_axis (ext_x extent) (ext_x inExt0) (ext_x inExt1);
  y ← clip_axis (ext_y extent) (ext_y inExt0) (ext_y inExt1);
  z ← clip_axis (ext_z extent) (ext_z inExt0) (ext_z inExt1);
  Some (x, y, z).

Definition is_unsigned_char (t : ScalarType) : bool :=
  match t with VTK_UNSIGNED_CHAR => true | _ => false end.

(** The test that selects the pre-scaled kernel. *)
Definition prescaled_selected (self : vtkImageMutualInformation) (p : Pipeline)
  : bool :=
  let binOrigin := BinOrigin self in
  let binSpacing := BinSpacing self in
  let maxX := (NumberOfBins self).1 - 1 in
  let maxY := (NumberOfBins self).2 - 1 in
  bool_decide (vtkMath_Floor (binOrigin.1 + 0.5) = Some 0)
  && bool_decide (vtkMath_Floor (binOrigin.2 + 0.5) = Some 0)
  && bool_decide
       (vtkMath_Floor (binOrigin.1 + binSpacing.1 * of_int maxX + 0.5) = Some maxX)
  && bool_decide
       (vtkMath_Floor (binOrigin.2 + binSpacing.2 * of_int maxY + 0.5) = Some maxY)
  && is_unsigned_char (ScalarType0 p)
  && is_unsigned_char (ScalarType1 p).

(** The first-use allocation of the worker's histogram, zero filled. *)
Definition allocate (self : vtkImageMutualInformation) : option (list Z) :=
  let outCount := (NumberOfBins self).1 * (NumberOfBins self).2 in
  if 0 <? outCount then Some (replicate (Z.to_nat outCount) 0) else None.

Definition report (msg : string) (st : RunState) : RunState :=
  {| Storage := Storage st; ErrorLog := ErrorLog st ++ [msg] |}.

Definition store (slot : nat) (outPtr : list Z) (st : RunState) : RunState :=
  {| Storage := <[slot := Some outPtr]> (Storage st); ErrorLog := ErrorLog st |}.

(** [slot] is the element [this->ThreadData->Local(threadId)] resolves to. *)
Definition ThreadedRequestData
    (self : vtkImageMutualInformation) (p : Pipeline)
    (extent : Extent) (slot : nat) (st : RunState) : option RunState :=
  threadLocal ← Storage st !! slot;
  outPtr ← (match threadLocal with
            | Some data => Some data
            | None => allocate self
            end);
  let st := store slot outPtr st in
  match clip_extent extent (Extent0 p) (Extent1 p) with
  | None => Some st
  | Some extent =>
      let spans := StencilSpans p extent in
      if prescaled_selected self p then
        outPtr ← vtkImageMutualInformationExecutePreScaled
                   spans outPtr (NumberOfBins self);
        Some (store slot outPtr st)
      else if vtkTemplateAliasMacro false (ScalarType0 p) then
        (* vtkImageMutualInformationExecute1 *)
        if vtkTemplateAliasMacro false (ScalarType1 p) then
          outPtr ← vtkImageMutualInformationExecute
                     spans outPtr (NumberOfBins self)
                     (BinOrigin self) (BinSpacing self);
          Some (store slot outPtr st)
        else Some (report (no_template_call false (ScalarType1 p)
                             "Execute: Unknown input ScalarType") st)
      else Some (report (no_template_call false (ScalarType0 p)
                           "Execute: Unknown ScalarType") st)
  end.

(** ** Reduction *)

Definition sumZ (l : list Z) : Z := foldr Z.add 0 l.

(** Row [iy] of a worker's histogram, as the reduction addresses it:
    [iter->Data + nx*iy], [nx] cells. *)
Definition row_of (nx iy : nat) (data : list Z) : list Z :=
  take nx (drop (nx * iy) data).

(** "add the contribution from thread j": the row is added into [xyHist] and
    its cells into the running row total [a]; a worker whose [Data] is null is
    skipped. *)
Definition add_contribution (nx iy : nat) (acc : list Z * Z) (td : ThreadData)
  : list Z * Z :=
  match td with
  | Some data =>
      let r := row_of nx iy data in
      (zip_with Z.add acc.1 r, acc.2 + sumZ r)
  | None => acc
  end.

(** What a completed invocation leaves behind.  [Divisors] is a ghost trace: the
    divisors of the floating-point divisions the reduction evaluated, in
    order. *)
Record Outcome (OutValue : Type) : Type := {
  Self : vtkImageMutualInformation;
  OutData : list OutValue;
  Diagnostics : list string;
  Divisors : list float
}.
Arguments Self {OutValue} _.
Arguments OutData {OutValue} _.
Arguments Diagnostics {OutValue} _.
Arguments Divisors {OutValue} _.

Section Run.

(** [log] of <math.h>. *)
Variable log : float -> float.

(** [vtkThreadedImageAlgorithm::SplitExtent(splitExt, startExt, num, total)]:
    the piece [num] of [total] requested pieces, and the number of pieces the
    extent was actually split into. *)
Variable SplitExtent : Extent -> nat -> nat -> Extent * nat.

(** [static_cast<T>] of a [vtkIdType] count to the element type of the output
    image: "with conversion but without type range checking". *)
Variable OutValue : Type.
Variable static_cast : ScalarType -> Z -> OutValue.

(** [if (d > 0) { entropy += d*log(d); }] for a count converted to double. *)
Definition accumulate_entropy (entropy : float) (c : Z) : float :=
  let d := of_int c in
  if (0 <? d)%float then (entropy + d * log d)%float else entropy.

(** copy one row of the joint histogram to the output, with conversion but
    without type range checking *)
Definition vtkImageMutualInformationCopyRow
    (T : ScalarType) (xyHist : list Z) (outStart outEnd : Z) : list OutValue :=
  let n := outEnd - outStart + 1 in
  static_cast T <$> take (Z.to_nat n) (drop (Z.to_nat outStart) xyHist).

(** The variables the row loop of the reduction carries. *)
Record Reduction : Type := {
  xHist : list Z;
  yEntropy : float;
  xyEntropy : float;
  outPtr : list OutValue;
  errors : list string
}.

(** One iteration of "piece together the joint histogram results from each
    thread". *)
Definition reduce_row
    (self : vtkImageMutualInformation) (updateExtent : Extent)
    (tls : list ThreadData) (r : Reduction) (iy : nat) : Reduction :=
  let nx := Z.to_nat (NumberOfBins self).1 in
  let outScalarType := OutputScalarType self in
  let '(outStart, outEnd) :=
    if (Z.of_nat iy <? (ext_y updateExtent).1)
       || ((ext_y updateExtent).2 <? Z.of_nat iy)
    then (0, -1) else ext_x updateExtent in
  let '(xyHist, a) := foldl (add_contribution nx iy) (replicate nx 0, 0) tls in
  let '(out, errs) :=
    if outStart <=? outEnd then
      if vtkTemplateAliasMacro true outScalarType
      then (outPtr r ++ vtkImageMutualInformationCopyRow
                          outScalarType xyHist outStart outEnd, errors r)
      else (outPtr r, errors r ++ ["Execute: Unknown output ScalarType"%string])
    else (outPtr r, errors r) in
  {| xHist := zip_with Z.add (xHist r) xyHist;
     yEntropy := accumulate_entropy (yEntropy r) a;
     xyEntropy := foldl accumulate_entropy (xyEntropy r) xyHist;
     outPtr := out;
     errors := errs |}.

(** "compute total pixel count and entropy of first image". *)
Definition count_and_entropy (xHist : list Z) : Z * float :=
  foldl (fun '(count, xEntropy) b => (count + b, accumulate_entropy xEntropy b))
        (0, 0%float) xHist.

Definition ReduceRequestData
    (self : vtkImageMutualInformation) (p : Pipeline) (st : RunState)
  : Outcome OutValue :=
  let nx := Z.to_nat (NumberOfBins self).1 in
  let ny := Z.to_nat (NumberOfBins self).2 in
  let r := foldl (reduce_row self (UpdateExtent p) (Storage st))
                 {| xHist := replicate nx 0;
                    yEntropy := 0; xyEntropy := 0;
                    outPtr := []; errors := ErrorLog st |}
                 (seq 0 ny) in
  let '(count, xEntropy) := count_and_entropy (xHist r) in
  let yEntropy := yEntropy r in
  let xyEntropy := xyEntropy r in
  (* minimum possible values *)
  let mutualInformation := 0%float in
  let normalizedMutualInformation := 1%float in
  let '(mutualInformation, normalizedMutualInformation, divs) :=
    if count =? 0 then (mutualInformation, normalizedMutualInformation, [])
    else
      (* correct for total voxel count, convert to negative *)
      let dc := of_int count in
      let ldc := log dc in
      let xEntropy := (- xEntropy / dc + ldc)%float in
      let yEntropy := (- yEntropy / dc + ldc)%float in
      let xyEntropy := (- xyEntropy / dc + ldc)%float in
      ((xEntropy + yEntropy - xyEntropy)%float,
       ((xEntropy + yEntropy) / xyEntropy)%float,
       [dc; dc; dc; xyEntropy]) in
  {| Self := {| NumberOfBins := NumberOfBins self;
                BinOrigin := BinOrigin self;
                BinSpacing := BinSpacing self;
                OutputScalarType := OutputScalarType self;
                MutualInformation := mutualInformation;
                NormalizedMutualInformation := normalizedMutualInformation |};
     OutData := outPtr r;
     Diagnostics := errors r;
     Divisors := divs |}.

(** ** Execution strategies *)

(** What one worker does with piece [num] of [total]: the body of
    [vtkImageMutualInformationThreadedExecute] for the fixed pool, where the
    slot is the thread's own index, and the per-piece step VTK's
    [SMPRequestData] performs under vtkSMPTools, where the slot is the storage
    of the pool thread that happens to run the piece. *)
Definition vtkImageMutualInformationThreadedExecute
    (self : vtkImageMutualInformation) (p : Pipeline)
    (num total slot : nat) (st : RunState) : option RunState :=
  let extent := Extent0 p in
  let '(splitExt, pieces) := SplitExtent extent num total in
  if (num <? pieces)%nat && ext_nonempty splitExt
  then ThreadedRequestData self p splitExt slot st
  else Some st.

(** The run-time flag [EnableSMP] and, for vtkSMPTools, the schedule the
    elastic scheduler happened to follow: the pool thread and the piece of each
    task, in the order the tasks ran. *)
Inductive Strategy : Type :=
  | MultiThreader
  | SMPTools (schedule : list (nat * nat)).

(** The tasks of a run, each a piece number with the storage slot it
    accumulates into, and the number of storage slots. *)
Definition tasks (p : Pipeline) (numberOfThreads : nat) (s : Strategy)
  : nat * nat * list (nat * nat) :=
  match s with
  | MultiThreader =>
      (numberOfThreads, numberOfThreads,
       (fun i => (i, i)) <$> seq 0 numberOfThreads)
  | SMPTools schedule =>
      let pieces := (SplitExtent (Extent0 p) 0 numberOfThreads).2 in
      (pieces, S (max_list (schedule.*1)), schedule)
  end.

Definition run_tasks
    (self : vtkImageMutualInformation) (p : Pipeline) (total : nat)
    (l : list (nat * nat)) (st : RunState) : option RunState :=
  foldl_opt (fun st (t : nat * nat) =>
    vtkImageMutualInformationThreadedExecute self p t.2 total t.1 st) st l.

(** [RequestData]: accumulate on every worker, then reduce once all of them
    have returned.  The workers touch disjoint storage slots, so running them
    one after the other yields the storage any interleaving yields. *)
Definition RequestData
    (self : vtkImageMutualInformation) (p : Pipeline)
    (numberOfThreads : nat) (s : Strategy) : option (Outcome OutValue) :=
  let '(total, slots, l) := tasks p numberOfThreads s in
  st ← run_tasks self p total l
         {| Storage := replicate slots None; ErrorLog := [] |};
  Some (ReduceRequestData self p st).

End Run.
(** ** Notions used by the statements *)

(** [between A B f]: the spec float [f] is a non-negative finite number whose
    exact value lies between the integers [A] and [B]. *)
Definition between (A B : Z) (f : spec_float) : Prop :=
  match f with
  | S754_zero _ => A <= 0 <= B
  | S754_finite false m e => e <= 0 /\ A * 2 ^ (- e) <= Zpos m <= B * 2 ^ (- e)
  | _ => False
  end.

(** The two ternaries of the kernel, on an arbitrary double. *)
Definition clamp (xmin xmax x : float) : float :=
  let x := if (xmin <? x)%float then x else xmin in
  if (x <? xmax)%float then x else xmax.

(** The bin coordinate the generic kernel computes on axis [k], from the
    statements of [vtkImageMutualInformationExecute]. *)
Definition kernel_bin (numBins : Z) (binOrigin binSpacing v : float) : option Z :=
  affine_bin (- binOrigin) (1 / binSpacing) 0 (of_int (numBins - 1)) v.

(** The bin coordinate as the specification words it:
    truncate(clamp((v - binOrigin)/binSpacing, 0, numBins-1) + 0.5). *)
Definition spec_bin (numBins : Z) (binOrigin binSpacing v : float) : option Z :=
  static_cast_int
    (clamp 0 (of_int (numBins - 1)) ((v - binOrigin) / binSpacing) + 0.5).

(** What the row loop of the reduction reads from the workers' storage: the
    merged row [iy] and its total. *)
Definition merged_row (nx : nat) (tls : list ThreadData) (iy : nat) : list Z :=
  (foldl (add_contribution nx iy) (replicate nx 0, 0) tls).1.

Definition row_total (nx : nat) (tls : list ThreadData) (iy : nat) : Z :=
  (foldl (add_contribution nx iy) (replicate nx 0, 0) tls).2.

(** The joint histogram the reduction pieces together, row by row. *)
Definition joint_histogram (self : vtkImageMutualInformation)
    (tls : list ThreadData) : list (list Z) :=
  merged_row (Z.to_nat (NumberOfBins self).1) tls
    <$> seq 0 (Z.to_nat (NumberOfBins self).2).

Definition row_totals (self : vtkImageMutualInformation)
    (tls : list ThreadData) : list Z :=
  row_total (Z.to_nat (NumberOfBins self).1) tls
    <$> seq 0 (Z.to_nat (NumberOfBins self).2).

Definition column_totals (self : vtkImageMutualInformation)
    (tls : list ThreadData) : list Z :=
  foldl (zip_with Z.add) (replicate (Z.to_nat (NumberOfBins self).1) 0)
        (joint_histogram self tls).

(** The specification's words for the reduction: the accumulator
    S = sum of c*log(c) over the non-zero counts, the entropy
    H = -S/N + log(N), and the two metrics. *)
Definition spec_S (log : float -> float) (counts : list Z) : float :=
  foldl (accumulate_entropy log) 0%float counts.

Definition spec_H (log : float -> float) (S : float) (N : Z) : float :=
  (- S / of_int N + log (of_int N))%float.

Definition spec_MI (HA HB HAB : float) : float := (HA + HB - HAB)%float.

Definition spec_NMI (HA HB HAB : float) : float := ((HA + HB) / HAB)%float.

(** The total count [N] of the merged histogram (the reduction's [count]). *)
Definition total_count (self : vtkImageMutualInformation)
    (tls : list ThreadData) : Z :=
  sumZ (column_totals self tls).

(** The three entropies of a merged histogram, in the specification's words:
    H(A) from the column totals, H(B) from the row totals, H(A,B) from the
    cells. *)
Definition spec_entropies (log : float -> float)
    (self : vtkImageMutualInformation) (tls : list ThreadData)
  : float * float * float :=
  let N := total_count self tls in
  (spec_H log (spec_S log (column_totals self tls)) N,
   spec_H log (spec_S log (row_totals self tls)) N,
   spec_H log (spec_S log (concat (joint_histogram self tls))) N).

Definition spec_metrics (log : float -> float)
    (self : vtkImageMutualInformation) (tls : list ThreadData)
  : float * float :=
  let '(HA, HB, HAB) := spec_entropies log self tls in
  (spec_MI HA HB HAB, spec_NMI HA HB HAB).

(** The voxels a kernel visits: those of the spans inside the stencil, in
    iteration order. *)
Fixpoint in_stencil (spans : list Span) : list (Pixel * Pixel) :=
  match spans with
  | [] => []
  | span :: spans' =>
      (if IsInStencil span then Voxels span else []) ++ in_stencil spans'
  end.

(** The cell a voxel is counted in, as an offset into the worker's buffer,
    for each kernel. *)
Definition affine_offset (numBins : Z * Z) (binOrigin binSpacing : float * float)
    (v : Pixel * Pixel) : option Z :=
  xi ← kernel_bin numBins.1 binOrigin.1 binSpacing.1 (to_double v.1);
  yi ← kernel_bin numBins.2 binOrigin.2 binSpacing.2 (to_double v.2);
  cell_offset yi numBins.2 xi.

Definition prescaled_offset (numBins : Z * Z) (v : Pixel * Pixel) : option Z :=
  x ← read_uchar v.1;
  y ← read_uchar v.2;
  cell_offset (if y <? numBins.2 - 1 then y else numBins.2 - 1) numBins.2
              (if x <? numBins.1 - 1 then x else numBins.1 - 1).

Definition accumulate (offset : Pixel * Pixel -> option Z)
    (outPtr : list Z) (vs : list (Pixel * Pixel)) : option (list Z) :=
  foldl_opt (fun outPtr v => off ← offset v; increment outPtr off) outPtr vs.

(** A buffer after counting the given offsets. *)
Definition count_offsets (h : list Z) (offs : list Z) : list Z :=
  foldl (fun h off => alter Z.succ (Z.to_nat off) h) h offs.

(** Whether [ThreadedRequestData] reaches a kernel at all, and the offset the
    kernel it selects gives a voxel. *)
Definition kernel_runs (self : vtkImageMutualInformation) (p : Pipeline) : bool :=
  prescaled_selected self p
  || (vtkTemplateAliasMacro false (ScalarType0 p)
      && vtkTemplateAliasMacro false (ScalarType1 p)).

Definition selected_offset (self : vtkImageMutualInformation) (p : Pipeline)
    (v : Pixel * Pixel) : option Z :=
  if prescaled_selected self p then prescaled_offset (NumberOfBins self) v
  else affine_offset (NumberOfBins self) (BinOrigin self) (BinSpacing self) v.

(** The in-mask voxel pairs one call of [ThreadedRequestData] processes. *)
Definition request_voxels (self : vtkImageMutualInformation) (p : Pipeline)
    (extent : Extent) : list (Pixel * Pixel) :=
  match clip_extent extent (Extent0 p) (Extent1 p) with
  | Some extent =>
      if kernel_runs self p then in_stencil (StencilSpans p extent) else []
  | None => []
  end.

(** The in-mask voxel pairs a whole run processes, task after task. *)
Definition processed (SplitExtent : Extent -> nat -> nat -> Extent * nat)
    (self : vtkImageMutualInformation) (p : Pipeline) (total : nat)
    (l : list (nat * nat)) : list (Pixel * Pixel) :=
  concat ((fun t : nat * nat =>
             let '(splitExt, pieces) := SplitExtent (Extent0 p) t.2 total in
             if (t.2 <? pieces)%nat && ext_nonempty splitExt
             then request_voxels self p splitExt else []) <$> l).

(** The offsets of a list of voxels (0 stands in where the kernel computes
    none; the statements below exclude that case). *)
Definition offsets (offset : Pixel * Pixel -> option Z)
    (vs : list (Pixel * Pixel)) : list Z :=
  (fun v => default 0 (offset v)) <$> vs.

(** The cell-wise sum of the workers' histograms. *)
Definition storage_total (L : nat) (tls : list ThreadData) : list Z :=
  foldr (fun (td : ThreadData) acc =>
           match td with
           | Some data => zip_with Z.add data acc
           | None => acc
           end) (replicate L 0) tls.

(** Every allocated histogram has [L] cells. *)
Definition storage_wf (L : nat) (tls : list ThreadData) : Prop :=
  Forall (fun td : ThreadData =>
            match td with Some data => length data = L | None => True end) tls.

Definition cells (self : vtkImageMutualInformation) : nat :=
  Z.to_nat ((NumberOfBins self).1 * (NumberOfBins self).2).

(** The kernel computes an offset for the voxel, and it lies inside the
    worker's buffer. *)
Definition in_buffer (self : vtkImageMutualInformation) (p : Pipeline)
    (v : Pixel * Pixel) : Prop :=
  exists off, selected_offset self p v = Some off
              /\ 0 <= off < Z.of_nat (cells self).

(** The computation completes, with a result that satisfies [P]. *)
Definition completes {A : Type} (o : option A) (P : A -> Prop) : Prop :=
  match o with
  | Some a => P a
  | None => False
  end.

(** An [unsigned char] image stores values 0..255; other element types put no
    constraint on what the kernels read. *)
Definition pixel_of_type (t : ScalarType) (px : Pixel) : Prop :=
  t = VTK_UNSIGNED_CHAR -> exists z, px = IntegralPixel z /\ 0 <= z <= 255.

Definition well_typed (p : Pipeline) : Prop :=
  forall extent,
    Forall (fun v : Pixel * Pixel =>
              pixel_of_type (ScalarType0 p) v.1
              /\ pixel_of_type (ScalarType1 p) v.2)
           (in_stencil (StencilSpans p extent)).

(** The storage a run starts from. *)
Definition initial_state (slots : nat) : RunState :=
  {| Storage := replicate slots None; ErrorLog := [] |}.

(** The entropy the reduction computes when all [n] voxels fall into one bin:
    S = 0 + n*log(n) and H = -S/n + log(n). *)
Definition one_bin_entropy (log : float -> float) (n : Z) : float :=
  spec_H log (spec_S log [n]) n.

(** Whether the reduction copies row [iy] to the output: the row lies in the
    update extent and the requested columns are not empty. *)
Definition row_requested (update : Extent) (iy : nat) : bool :=
  negb ((Z.of_nat iy <? (ext_y update).1) || ((ext_y update).2 <? Z.of_nat iy))
  && ((ext_x update).1 <=? (ext_x update).2).

Definition requested_rows (self : vtkImageMutualInformation) (update : Extent)
  : list nat :=
  filter (fun iy => row_requested update iy = true)
         (seq 0 (Z.to_nat (NumberOfBins self).2)).


(** The two input images exchanged: image B on port 0, image A on port 1. *)
Definition swap_span (s : Span) : Span :=
  {| IsInStencil := IsInStencil s; Voxels := prod_swap <$> Voxels s |}.

Definition swap_inputs (p : Pipeline) : Pipeline := {|
  ScalarType0 := ScalarType1 p;
  ScalarType1 := ScalarType0 p;
  Extent0 := Extent1 p;
  Extent1 := Extent0 p;
  StencilSpans := fun extent => swap_span <$> StencilSpans p extent;
  UpdateExtent := UpdateExtent p
|}.

(** Both axes use the same bin mapping. *)
Definition symmetric_bins (self : vtkImageMutualInformation) : Prop :=
  (NumberOfBins self).1 = (NumberOfBins self).2
  /\ (BinOrigin self).1 = (BinOrigin self).2
  /\ (BinSpacing self).1 = (BinSpacing self).2.

(** Cell [(i, j)] of a histogram given by its rows, 0 outside. *)
Definition cell (rows : list (list Z)) (i j : nat) : Z :=
  default 0 (row ← rows !! i; row !! j).

(** The transpose of an [n] by [n] histogram. *)
Definition transpose (n : nat) (rows : list (list Z)) : list (list Z) :=
  (fun j => (fun i => cell rows i j) <$> seq 0 n) <$> seq 0 n.

(** How often the cell at offset [k] occurs among the offsets. *)
Definition count_at (k : nat) (offs : list Z) : nat :=
  length (filter (fun off => Z.to_nat off = k) offs).


(** The update extent asks for the whole histogram image. *)
Definition whole_update (self : vtkImageMutualInformation) (update : Extent)
  : Prop :=
  ext_x update = (0, (NumberOfBins self).1 - 1)
  /\ (ext_y update).1 <= 0
  /\ (NumberOfBins self).2 - 1 <= (ext_y update).2.

(** A voxel pair and the exchanged pair are counted in mirrored cells of an
    [N] by [N] buffer, by the offset functions [f] and [g]. *)
Definition mirrored (N : Z) (f g : Pixel * Pixel -> option Z) (v : Pixel * Pixel)
  : Prop :=
  exists xi yi, 0 <= xi < N /\ 0 <= yi < N
                /\ f v = Some (yi * N + xi)
                /\ g (prod_swap v) = Some (xi * N + yi).
(** ** Concrete inputs *)

(** A [SplitExtent] that leaves the extent in one piece. *)
Definition one_piece (extent : Extent) (num total : nat) : Extent * nat :=
  (extent, 1%nat).

Definition extent_4x4 : Extent := ((0, 3), (0, 3), (0, 0)).

(** A pair of 4x4x1 images, every voxel of A holding [a] and every voxel of B
    holding [b], iterated as one span per row; [inside] tells whether the
    stencil includes the voxels. *)
Definition constant_images (t0 t1 : ScalarType) (a b : Pixel) (inside : bool)
    (update : Extent) : Pipeline := {|
  ScalarType0 := t0;
  ScalarType1 := t1;
  Extent0 := extent_4x4;
  Extent1 := extent_4x4;
  StencilSpans := fun _ =>
    replicate 4 {| IsInStencil := inside; Voxels := replicate 4 (a, b) |};
  UpdateExtent := update
|}.

(** A freshly constructed filter with its bin mapping and output type set. *)
Definition configure (numBins : Z * Z) (binOrigin binSpacing : float * float)
    (T : ScalarType) : vtkImageMutualInformation := {|
  NumberOfBins := numBins;
  BinOrigin := binOrigin;
  BinSpacing := binSpacing;
  OutputScalarType := T;
  MutualInformation := MutualInformation constructor;
  NormalizedMutualInformation := NormalizedMutualInformation constructor
|}.

(** The double nearest to ln 16, and a logarithm that is right at 16.0. *)
Definition ln16 : float := 0x1.62e42fefa39efp+1%float.

Definition log_at_16 (x : float) : float := ln16.

(** An output conversion that keeps the count. *)
Definition keep_count (T : ScalarType) (c : Z) : Z := c.

(** The scenario of the specification: two 4x4x1 byte images, A all zeros and
    B all ones, 2 bins per axis, the identity bin mapping. *)
Definition zeros_and_ones : Pipeline :=
  constant_images VTK_UNSIGNED_CHAR VTK_UNSIGNED_CHAR
    (IntegralPixel 0) (IntegralPixel 1) true ((0, 1), (0, 1), (0, 0)).

Definition two_bins (T : ScalarType) : vtkImageMutualInformation :=
  configure (2, 2) (0%float, 0%float) (1%float, 1%float) T.

(** The same images behind a stencil that excludes every voxel. *)
Definition masked_out : Pipeline :=
  constant_images VTK_UNSIGNED_CHAR VTK_UNSIGNED_CHAR
    (IntegralPixel 0) (IntegralPixel 1) false ((0, 1), (0, 1), (0, 0)).

(** One row of bins for image A, two for image B. *)
Definition one_by_two : vtkImageMutualInformation :=
  configure (1, 2) (0%float, 0%float) (1%float, 1%float) VTK_INT.

(** Three bins per axis with the bin origin at -0.5: the end points
    -0.5 + 0.5 = 0 and -0.5 + 1*2 + 0.5 = 2 pass the integer-endpoint check,
    although the mapping is not the identity. *)
Definition half_bin_shift : vtkImageMutualInformation :=
  configure (3, 3) ((-0.5)%float, (-0.5)%float) (1%float, 1%float) VTK_INT.

(** Byte images, A all ones and B all zeros. *)
Definition ones_and_zeros : Pipeline :=
  constant_images VTK_UNSIGNED_CHAR VTK_UNSIGNED_CHAR
    (IntegralPixel 1) (IntegralPixel 0) true ((0, 2), (0, 2), (0, 0)).


(** Two voxels in a row: image A holds 0 and 1, image B holds 0 and 4. *)
Definition two_voxels : Pipeline := {|
  ScalarType0 := VTK_SHORT;
  ScalarType1 := VTK_SHORT;
  Extent0 := ((0, 1), (0, 0), (0, 0));
  Extent1 := ((0, 1), (0, 0), (0, 0));
  StencilSpans := fun _ =>
    [{| IsInStencil := true;
        Voxels := [(IntegralPixel 0, IntegralPixel 0);
                   (IntegralPixel 1, IntegralPixel 4)] |}];
  UpdateExtent := ((0, 1), (0, 1), (0, 0))
|}.

(** Two bins per axis, of width 1 for the first input and of width 4 for the
    second one. *)
Definition coarse_second_axis : vtkImageMutualInformation :=
  configure (2, 2) (0%float, 0%float) (1%float, 4%float) VTK_INT.

(** The double nearest to ln 2, and a logarithm that is right at 1.0 and at
    2.0. *)
Definition ln2 : float := 0x1.62e42fefa39efp-1%float.

Definition log_1_2 (x : float) : float :=
  if (x =? 1)%float then 0%float else ln2.

(** Four bins for the first input and two for the second, identity mapping. *)
Definition wide_bins : vtkImageMutualInformation :=
  configure (4, 2) (0%float, 0%float) (1%float, 1%float) VTK_INT.

(** Two voxels in a row: image A holds 2 and 0, image B holds 0 and 1. *)
Definition crossing_voxels : Pipeline := {|
  ScalarType0 := VTK_SHORT;
  ScalarType1 := VTK_SHORT;
  Extent0 := ((0, 1), (0, 0), (0, 0));
  Extent1 := ((0, 1), (0, 0), (0, 0));
  StencilSpans := fun _ =>
    [{| IsInStencil := true;
        Voxels := [(IntegralPixel 2, IntegralPixel 0);
                   (IntegralPixel 0, IntegralPixel 1)] |}];
  UpdateExtent := ((0, 3), (0, 1), (0, 0))
|}.

(** * The rest of the filter *)

(** ** Thread-local storage *)

Section ThreadLocal.

(** The element type [T], and [T()]. *)
Variable T : Type.
Variable T_default : T.

(** [vtkImageSimilarityMetricTLSIterator]: [Pter] points into the array [MT]
    ([Some i] is [MT + i], [None] the null pointer); [Iter] is a position in
    the [vtkSMPThreadLocal] container ([None] while default constructed). *)
Record vtkImageSimilarityMetricTLSIterator : Type := {
  Pter : option nat;
  Iter : option nat
}.

(** The two converting constructors. *)
Definition iterator_of_TLS (iter : nat) : vtkImageSimilarityMetricTLSIterator :=
  {| Pter := None; Iter := Some iter |}.

Definition iterator_of_pointer (iter : option nat)
  : vtkImageSimilarityMetricTLSIterator :=
  {| Pter := iter; Iter := None |}.

(** [operator++]: advancing a default-constructed [Iter] is undefined. *)
Definition iterator_increment (it : vtkImageSimilarityMetricTLSIterator)
  : option vtkImageSimilarityMetricTLSIterator :=
  match Pter it with
  | Some i => Some {| Pter := Some (S i); Iter := Iter it |}
  | None => i ← Iter it; Some {| Pter := None; Iter := Some (S i) |}
  end.

(** [operator==] and [operator!=]: only the member the left operand uses is
    compared. *)
Definition iterator_eq (it other : vtkImageSimilarityMetricTLSIterator)
  : option bool :=
  match Pter it with
  | Some i => Some (bool_decide (Some i = Pter other))
  | None => i ← Iter it; j ← Iter other; Some (bool_decide (i = j))
  end.

Definition iterator_ne (it other : vtkImageSimilarityMetricTLSIterator)
  : option bool :=
  match Pter it with
  | Some i => Some (negb (bool_decide (Some i = Pter other)))
  | None => i ← Iter it; j ← Iter other; Some (negb (bool_decide (i = j)))
  end.

(** [vtkImageSimilarityMetricTLS]: the storage of the threads that have one
    under vtkSMPTools ([SMP]), or the array of the fixed pool ([MT]). *)
Record vtkImageSimilarityMetricTLS : Type := {
  SMP : option (list T);
  MT : option (list T);
  NumberOfThreads : nat
}.

Definition TLS_new (threads : nat) : vtkImageSimilarityMetricTLS :=
  if (0 <? threads)%nat
  then {| SMP := None; MT := Some (replicate threads T_default);
          NumberOfThreads := threads |}
  else {| SMP := Some []; MT := None; NumberOfThreads := 0 |}.

(** [operator*] on an iterator of this storage. *)
Definition iterator_deref (tls : vtkImageSimilarityMetricTLS)
    (it : vtkImageSimilarityMetricTLSIterator) : option T :=
  match Pter it with
  | Some i => mt ← MT tls; mt !! i
  | None => i ← Iter it; smp ← SMP tls; smp !! i
  end.

(** [begin()] and [end()]. *)
Definition TLS_begin (tls : vtkImageSimilarityMetricTLS)
  : vtkImageSimilarityMetricTLSIterator :=
  match SMP tls with
  | Some smp => iterator_of_TLS 0
  | None =>
      iterator_of_pointer
        (match MT tls with Some _ => Some 0%nat | None => None end)
  end.

Definition TLS_end (tls : vtkImageSimilarityMetricTLS)
  : vtkImageSimilarityMetricTLSIterator :=
  match SMP tls with
  | Some smp => iterator_of_TLS (length smp)
  | None =>
      iterator_of_pointer
        (match MT tls with
         | Some _ => Some (0 + NumberOfThreads tls)%nat
         | None => None
         end)
  end.

(** [Local(threadId)] of the fixed pool, read and written through the
    reference it returns: [MT[threadId]], without a bounds check. *)
Definition MT_Local (tls : vtkImageSimilarityMetricTLS) (threadId : nat)
  : option T :=
  mt ← MT tls; mt !! threadId.

Definition MT_Local_assign (tls : vtkImageSimilarityMetricTLS) (threadId : nat)
    (x : T) : option vtkImageSimilarityMetricTLS :=
  mt ← MT tls;
  if (threadId <? length mt)%nat
  then Some {| SMP := SMP tls; MT := Some (<[threadId := x]> mt);
               NumberOfThreads := NumberOfThreads tls |}
  else None.

(** [for (iter = begin(); iter != end(); ++iter) { ... *iter ... }]: the
    elements the loop visits, in order. *)
Fixpoint TLS_loop (fuel : nat) (tls : vtkImageSimilarityMetricTLS)
    (iter end_ : vtkImageSimilarityMetricTLSIterator) : option (list T) :=
  match fuel with
  | O => None
  | S fuel =>
      ne ← iterator_ne iter end_;
      if ne : bool then
        x ← iterator_deref tls iter;
        iter' ← iterator_increment iter;
        rest ← TLS_loop fuel tls iter' end_;
        Some (x :: rest)
      else Some []
  end.

End ThreadLocal.

Arguments SMP {T} _.
Arguments MT {T} _.
Arguments NumberOfThreads {T} _.
Arguments TLS_new {T} _ _.
Arguments iterator_deref {T} _ _.
Arguments TLS_begin {T} _.
Arguments TLS_end {T} _.
Arguments MT_Local {T} _ _.
Arguments MT_Local_assign {T} _ _ _.
Arguments TLS_loop {T} _ _ _ _.

(** ** Pipeline passes *)

(** What [RequestInformation] sets on the output information object. *)
Record OutputInformation : Type := {
  WHOLE_EXTENT : Extent;
  ORIGIN : float * float * float;
  SPACING : float * float * float;
  ActiveScalarType : ScalarType;
  ActiveScalarComponents : Z
}.

Definition RequestInformation (self : vtkImageMutualInformation)
  : OutputInformation := {|
  WHOLE_EXTENT :=
    ((0, (NumberOfBins self).1 - 1), (0, (NumberOfBins self).2 - 1), (0, 0));
  ORIGIN := ((BinOrigin self).1, (BinOrigin self).2, 0%float);
  SPACING := ((BinSpacing self).1, (BinSpacing self).2, 1%float);
  ActiveScalarType := OutputScalarType self;
  ActiveScalarComponents := 1
|}.

(** The pipeline requests exactly the extent [update] of the output. *)
Definition with_update (p : Pipeline) (update : Extent) : Pipeline := {|
  ScalarType0 := ScalarType0 p;
  ScalarType1 := ScalarType1 p;
  Extent0 := Extent0 p;
  Extent1 := Extent1 p;
  StencilSpans := StencilSpans p;
  UpdateExtent := update
|}.

(** ** The search for the extent a worker splits *)

(** The data object on the first connection of an input port, as
    [vtkImageData::SafeDownCast] sees it. *)
Inductive DataObject : Type :=
  | ImageData (extent : Extent)
  | NotImageData.

Record InputPort : Type := {
  NumberOfInputConnections : nat;
  DATA_OBJECT : DataObject
}.

(** The loop over the input ports at the head of
    [vtkImageMutualInformationThreadedExecute]: the extent of the first
    connected port that holds image data, [None] while [foundConnection]
    stays false. *)
Fixpoint found_extent (ports : list InputPort) : option Extent :=
  match ports with
  | [] => None
  | port :: ports' =>
      if (0 <? NumberOfInputConnections port)%nat then
        match DATA_OBJECT port with
        | ImageData extent => Some extent
        | NotImageData => found_extent ports'
        end
      else found_extent ports'
  end.

Section PortSearch.

Variable SplitExtent : Extent -> nat -> nat -> Extent * nat.

(** [vtkImageMutualInformationThreadedExecute] with its search for the
    extent. *)
Definition ThreadedExecute_from_ports
    (self : vtkImageMutualInformation) (p : Pipeline) (ports : list InputPort)
    (num total slot : nat) (st : RunState) : option RunState :=
  match found_extent ports with
  | Some extent =>
      let '(splitExt, pieces) := SplitExtent extent num total in
      if (num <? pieces)%nat && ext_nonempty splitExt
      then ThreadedRequestData self p splitExt slot st
      else Some st
  | None => Some st
  end.

(** Whether a task reaches [ThreadedRequestData]. *)
Definition executes (p : Pipeline) (total : nat) (t : nat * nat) : bool :=
  let '(splitExt, pieces) := SplitExtent (Extent0 p) t.2 total in
  (t.2 <? pieces)%nat && ext_nonempty splitExt.


End PortSearch.


(** ** Notions for the statements *)

(** The pair of bin coordinates the selected kernel computes for a voxel
    pair. *)
Definition voxel_bins (self : vtkImageMutualInformation) (p : Pipeline)
    (v : Pixel * Pixel) : option (Z * Z) :=
  if prescaled_selected self p then
    x ← read_uchar v.1;
    y ← read_uchar v.2;
    Some (if x <? (NumberOfBins self).1 - 1 then x else (NumberOfBins self).1 - 1,
          if y <? (NumberOfBins self).2 - 1 then y else (NumberOfBins self).2 - 1)
  else
    xi ← kernel_bin (NumberOfBins self).1 (BinOrigin self).1 (BinSpacing self).1
                    (to_double v.1);
    yi ← kernel_bin (NumberOfBins self).2 (BinOrigin self).2 (BinSpacing self).2
                    (to_double v.2);
    Some (xi, yi).

(** How many of the voxel pairs fall in the bin pair [(ix, iy)]. *)
Definition pairs_in_bin (self : vtkImageMutualInformation) (p : Pipeline)
    (ix iy : nat) (vs : list (Pixel * Pixel)) : nat :=
  length (filter (fun v => voxel_bins self p v = Some (Z.of_nat ix, Z.of_nat iy)) vs).

(** A point lies in an extent. *)
Definition in_range (r : Z * Z) (c : Z) : Prop := r.1 <= c <= r.2.

Definition in_extent (e : Extent) (pt : Z * Z * Z) : Prop :=
  in_range (ext_x e) pt.1.1 /\ in_range (ext_y e) pt.1.2
  /\ in_range (ext_z e) pt.2.

(** The requested columns of a merged row. *)
Definition requested_columns (update : Extent) (row : list Z) : list Z :=
  take (Z.to_nat ((ext_x update).2 - (ext_x update).1 + 1))
       (drop (Z.to_nat (ext_x update).1) row).

(** How many of the voxel pairs the kernel counts at offset [k] of the
    worker's buffer: those with [yi*numBins[1] + xi = k]. *)
Definition pairs_at_offset (self : vtkImageMutualInformation) (p : Pipeline)
    (k : nat) (vs : list (Pixel * Pixel)) : nat :=
  length (filter (fun v =>
                    (fun b : Z * Z => b.2 * (NumberOfBins self).2 + b.1)
                      <$> voxel_bins self p v = Some (Z.of_nat k)) vs).

(** ** More concrete inputs *)



(** Two byte images whose extents have no point in common. *)
Definition images_apart : Pipeline := {|
  ScalarType0 := VTK_UNSIGNED_CHAR;
  ScalarType1 := VTK_UNSIGNED_CHAR;
  Extent0 := extent_4x4;
  Extent1 := ((4, 7), (0, 3), (0, 0));
  StencilSpans := fun _ =>
    replicate 4 {| IsInStencil := true;
                   Voxels := replicate 4 (IntegralPixel 0, IntegralPixel 1) |};
  UpdateExtent := ((0, 1), (0, 1), (0, 0))
|}.

(** One worker that has counted 16 voxel pairs in the cell at offset 2 of a
    2 by 2 histogram. *)
Definition one_worker_counts : RunState :=
  {| Storage := [Some [0; 0; 16; 0]]; ErrorLog := [] |}.

(** The second row of the first column of the histogram. *)
Definition lower_left : Extent := ((0, 0), (1, 1), (0, 0)).

(** A configuration without bins for the first input. *)
Definition no_bins : vtkImageMutualInformation :=
  configure (0, 2) (0%float, 0%float) (1%float, 1%float) VTK_INT.

(** The same 16 counts spread over two workers of three, the third never
    allocated. *)
Definition two_workers_counts : RunState :=
  {| Storage := [Some [0; 0; 10; 0]; None; Some [0; 0; 6; 0]]; ErrorLog := [] |}.

(** Two identical byte images, every voxel holding 1. *)
Definition ones_and_ones : Pipeline :=
  constant_images VTK_UNSIGNED_CHAR VTK_UNSIGNED_CHAR
    (IntegralPixel 1) (IntegralPixel 1) true ((0, 1), (0, 1), (0, 0)).

(** A [SplitExtent] that cuts the rows of an extent into a lower and an upper
    slab as soon as two pieces are requested, and reports two pieces. *)
Definition two_slabs (extent : Extent) (num total : nat) : Extent * nat :=
  let '(y1, y2) := ext_y extent in
  let mid := (y1 + y2) / 2 in
  if (2 <=? total)%nat && (y1 <? y2) then
    ((ext_x extent, if (num =? 0)%nat then (y1, mid) else (mid + 1, y2),
      ext_z extent), 2%nat)
  else (extent, 1%nat).

(** The rows of an extent. *)
Definition rows_of (extent : Extent) : list Z :=
  (fun k => (ext_y extent).1 + Z.of_nat k)
    <$> seq 0 (Z.to_nat ((ext_y extent).2 - (ext_y extent).1 + 1)).

(** A pair of 4x4x1 images of shorts, iterated as one span per row of the
    execute extent: both hold 0 in the rows 0 and 1, and 1 in the rows 2 and
    3. *)
Definition two_halves : Pipeline := {|
  ScalarType0 := VTK_SHORT;
  ScalarType1 := VTK_SHORT;
  Extent0 := extent_4x4;
  Extent1 := extent_4x4;
  StencilSpans := fun extent =>
    (fun y => {| IsInStencil := true;
                 Voxels := replicate 4
                             (if y <? 2 then (IntegralPixel 0, IntegralPixel 0)
                              else (IntegralPixel 1, IntegralPixel 1)) |})
      <$> rows_of extent;
  UpdateExtent := ((0, 1), (0, 1), (0, 0))
|}.

(** The double nearest to ln 8, and a logarithm that is right at 8.0 and at
    16.0. *)
Definition ln8 : float := 0x1.0a2b23f3bab73p+1%float.

Definition log_8_16 (x : float) : float :=
  if (x =? 8)%float then ln8 else ln16.

(** Eleven voxel pairs in a row: four pairs (0,0), three pairs (1,0) and four
    pairs (0,1). *)
Definition eleven_voxels : Pipeline := {|
  ScalarType0 := VTK_SHORT;
  ScalarType1 := VTK_SHORT;
  Extent0 := ((0, 10), (0, 0), (0, 0));
  Extent1 := ((0, 10), (0, 0), (0, 0));
  StencilSpans := fun _ =>
    [{| IsInStencil := true;
        Voxels := replicate 4 (IntegralPixel 0, IntegralPixel 0)
                  ++ replicate 3 (IntegralPixel 1, IntegralPixel 0)
                  ++ replicate 4 (IntegralPixel 0, IntegralPixel 1) |}];
  UpdateExtent := ((0, 1), (0, 1), (0, 0))
|}.

(** A logarithm that returns the double nearest to ln 3, ln 4, ln 7, ln 8 and
    ln 11 at these arguments. *)
Definition log_of_counts (x : float) : float :=
  if (x =? 3)%float then 0x1.193ea7aad030bp+0%float
  else if (x =? 4)%float then 0x1.62e42fefa39efp+0%float
  else if (x =? 7)%float then 0x1.f2272ae325a57p+0%float
  else if (x =? 8)%float then ln8
  else 0x1.32ee3b77f374cp+1%float.
(** ** Real values of doubles

    The notions the tolerance of the swapped run is stated with: the real
    number a finite double stands for, the bound [eps] on the relative error
    of one rounding, the bound [eta] on the absolute error of a quotient that
    underflows, and the exact sum of the terms an entropy accumulator adds. *)

Section RealValues.
Import Reals.
Local Open Scope R_scope.

Definition with_sign (s : bool) (f : spec_float) : spec_float :=
  match f with
  | S754_zero _ => S754_zero s
  | S754_infinity _ => S754_infinity s
  | S754_nan => S754_nan
  | S754_finite _ m e => S754_finite s m e
  end.

Definition sign_of (s : bool) : R := if s then -1 else 1.

(** The real number a finite double stands for; 0 for NaN and the
    infinities. *)
Definition SF2R (f : spec_float) : R :=
  match f with
  | S754_finite s m e => sign_of s * IZR (Zpos m) * powerRZ 2 e
  | _ => 0
  end.

Definition F2R (x : float) : R := SF2R (Prim2SF x).

(** Neither NaN nor an infinity. *)
Definition finite_SF (f : spec_float) : bool :=
  match f with
  | S754_zero _ | S754_finite _ _ _ => true
  | _ => false
  end.

Definition finite (x : float) : bool := finite_SF (Prim2SF x).

Definition eps : R := powerRZ 2 (-52).

Definition eta : R := powerRZ 2 (-1074).

Variable log : float -> float.

(** The value of the term [d*log(d)] an accumulator adds for a count, 0 for a
    count it skips. *)
Definition term_value (c : Z) : R :=
  if (0 <? of_int c)%float then F2R (of_int c * log (of_int c)) else 0.

(** The exact sum of the terms of a list of counts. *)
Definition sum_of_terms (counts : list Z) : R :=
  foldr (fun c acc => term_value c + acc) 0 counts.

(** No term [d*log(d)] of the counts is negative. *)
Definition terms_not_negative (counts : list Z) : Prop :=
  Forall (fun c => (of_int c * log (of_int c) <? 0)%float = false) counts.

(** The relative error of [-S/N] against [-T/N], for an accumulator [S] of at
    most [k] additions whose terms sum up to [T] exactly. *)
Definition accumulation_error (k : nat) : R :=
  2 * INR k * eps + eps * (1 + 2 * INR k * eps).

(** The distance an entropy [H = -S/N + log(N)] keeps from its reference
    value [h = log(N) - a], [a = T/N]. *)
Definition entropy_tolerance (k : nat) (a h : R) : R :=
  eps * Rabs h + (1 + eps) * (accumulation_error k * a + eta).

(** The distance MI keeps from [A - h], and NMI from [A / h], where [A] is the
    computed sum of the marginal entropies. *)
Definition MI_tolerance (k : nat) (a h A : R) : R :=
  eps * Rabs (A - h) + (1 + eps) * entropy_tolerance k a h.

Definition NMI_tolerance (k : nat) (a h A : R) : R :=
  Rabs A / Rabs h * (2 * eps + 2 * entropy_tolerance k a h / Rabs h) + eta.

End RealValues.

(** * Facts about binary64 arithmetic

    Everything below is derived from the specification of the primitive
    operations ([Prim2SF], [SF64add], ...). *)

Lemma digits2_pos_bounds (p : positive) :
  2 ^ (Zpos (digits2_pos p) - 1) <= Zpos p < 2 ^ Zpos (digits2_pos p).
Proof.
  induction p as [p IH | p IH | ]; cbn [digits2_pos].
  - rewrite Pos2Z.inj_succ.
    replace (Z.succ (Zpos (digits2_pos p)) - 1) with (Z.succ (Zpos (digits2_pos p) - 1)) by lia.
    rewrite !Z.pow_succ_r by lia. lia.
  - rewrite Pos2Z.inj_succ.
    replace (Z.succ (Zpos (digits2_pos p)) - 1) with (Z.succ (Zpos (digits2_pos p) - 1)) by lia.
    rewrite !Z.pow_succ_r by lia. lia.
  - cbn. lia.
Qed.

Lemma digits2_pos_unique (p : positive) (d : Z) :
  2 ^ (d - 1) <= Zpos p < 2 ^ d -> Zpos (digits2_pos p) = d.
Proof.
  intros [Hlo Hhi].
  pose proof (digits2_pos_bounds p) as [Blo Bhi].
  assert (Hd : 0 < d).
  { destruct (Z_lt_le_dec 0 d) as [|Hd]; [assumption|].
    exfalso. assert (2 ^ d <= 2 ^ 0) by (apply Z.pow_le_mono_r; lia). 
    change (2 ^ 0) with 1 in *. lia. }
  set (D := Zpos (digits2_pos p)) in *.
  destruct (Z.lt_trichotomy D d) as [Hlt | [Heq | Hgt]]; [ | assumption | ].
  - exfalso. assert (2 ^ D <= 2 ^ (d - 1)) by (apply Z.pow_le_mono_r; lia). lia.
  - exfalso. assert (2 ^ d <= 2 ^ (D - 1)) by (apply Z.pow_le_mono_r; lia). lia.
Qed.

Lemma iter_pos_nat {A : Type} (f : A -> A) (p : positive) (x : A) :
  SpecFloat.iter_pos f p x = Nat.iter (Pos.to_nat p) f x.
Proof.
  revert x. induction p as [p IH | p IH | ]; intros x; cbn [SpecFloat.iter_pos].
  - rewrite !IH, Pos2Nat.inj_xI.
    replace (S (2 * Pos.to_nat p)) with (Pos.to_nat p + S (Pos.to_nat p))%nat by lia.
    rewrite Nat.iter_add, Nat.iter_succ_r. reflexivity.
  - rewrite !IH, Pos2Nat.inj_xO.
    replace (2 * Pos.to_nat p)%nat with (Pos.to_nat p + Pos.to_nat p)%nat by lia.
    rewrite Nat.iter_add. reflexivity.
  - reflexivity.
Qed.

Lemma shr_1_nonneg (m : Z) (r s : bool) :
  0 <= m ->
  shr_1 {| shr_m := m; shr_r := r; shr_s := s |} =
  {| shr_m := m / 2; shr_r := Z.odd m; shr_s := r || s |}.
Proof.
  intros Hm. rewrite <- Z.div2_div.
  destruct m as [ | [p | p | ] | p]; try reflexivity; lia.
Qed.

Lemma shr_iter_spec (k : nat) (M : Z) :
  0 <= M ->
  let rec := Nat.iter k shr_1 {| shr_m := M; shr_r := false; shr_s := false |} in
  shr_m rec = M / 2 ^ Z.of_nat k /\
  (M mod 2 ^ Z.of_nat k = 0 -> shr_r rec = false /\ shr_s rec = false).
Proof.
  intros HM. induction k as [ | k IH].
  - cbn. rewrite Z.div_1_r. auto.
  - cbn zeta in *. rewrite Nat.iter_succ.
    destruct IH as [IHm IHf].
    destruct (Nat.iter k shr_1 _) as [mk rk sk] eqn:E. cbn [shr_m shr_r shr_s] in *.
    assert (Hk : 0 < 2 ^ Z.of_nat k) by (apply Z.pow_pos_nonneg; lia).
    assert (Hmk : 0 <= mk) by (subst mk; apply Z.div_pos; lia).
    rewrite shr_1_nonneg by assumption. cbn [shr_m shr_r shr_s].
    rewrite Nat2Z.inj_succ, Z.pow_succ_r by lia.
    split.
    + subst mk. rewrite Z.div_div by lia. f_equal. lia.
    + intros Hmod.
      assert (Hdiv : M = 2 * 2 ^ Z.of_nat k * (M / (2 * 2 ^ Z.of_nat k))).
      { pose proof (Z.div_mod M (2 * 2 ^ Z.of_nat k)). lia. }
      set (q := M / (2 * 2 ^ Z.of_nat k)) in *.
      assert (Hmodk : M mod 2 ^ Z.of_nat k = 0).
      { rewrite Hdiv. replace (2 * 2 ^ Z.of_nat k * q) with ((2 * q) * 2 ^ Z.of_nat k) by ring.
        apply Z.mod_mul. lia. }
      destruct (IHf Hmodk) as [-> ->].
      split; [ | reflexivity].
      subst mk. rewrite Hdiv.
      replace (2 * 2 ^ Z.of_nat k * q) with ((2 * q) * 2 ^ Z.of_nat k) by ring.
      rewrite Z.div_mul by lia. rewrite Z.odd_mul. reflexivity.
Qed.

Lemma shr_spec (M e n : Z) :
  0 <= M -> 0 <= n ->
  exists rec, shr {| shr_m := M; shr_r := false; shr_s := false |} e n = (rec, e + n) /\
    shr_m rec = M / 2 ^ n /\
    (M mod 2 ^ n = 0 -> loc_of_shr_record rec = loc_Exact).
Proof.
  intros HM Hn. destruct n as [ | p | p]; [ | | lia].
  - eexists. cbn [shr]. rewrite Z.add_0_r. split; [reflexivity | ].
    cbn. rewrite Z.div_1_r. auto.
  - cbn [shr]. rewrite iter_pos_nat.
    pose proof (shr_iter_spec (Pos.to_nat p) M HM) as H. cbn zeta in H.
    rewrite positive_nat_Z in H. destruct H as [H1 H2].
    eexists. split; [reflexivity | ]. split; [assumption | ].
    intros Hmod. destruct (H2 Hmod) as [Hr Hs].
    destruct (Nat.iter _ _ _) as [mm rr ss]. cbn in Hr, Hs. subst. reflexivity.
Qed.

Lemma round_nearest_even_cases (m : Z) (l : location) :
  round_nearest_even m l = m \/ (round_nearest_even m l = m + 1 /\ l <> loc_Exact).
Proof.
  destruct l as [ | [ | | ]]; cbn; try destruct (Z.even m);
    first [left; reflexivity | right; split; [reflexivity | discriminate]].
Qed.

Lemma fexp_normal (d e : Z) : 53 <= d -> -1074 <= e -> fexp prec emax (d + e) = d + e - 53.
Proof. intros. unfold fexp, SpecFloat.emin, prec, emax. lia. Qed.

Lemma binary_round_aux_normal (M : positive) (ex : Z) :
  53 <= Zpos (digits2_pos M) -> -1074 <= ex ->
  let n := Zpos (digits2_pos M) - 53 in
  exists m2 : Z,
    (m2 = Zpos M / 2 ^ n \/ (m2 = Zpos M / 2 ^ n + 1 /\ Zpos M mod 2 ^ n <> 0)) /\
    2 ^ 52 <= m2 <= 2 ^ 53 /\
    binary_round_aux prec emax false (Zpos M) ex loc_Exact =
      if m2 =? 2 ^ 53
      then (if ex + n + 1 <=? 971 then S754_finite false (2 ^ 52)%positive (ex + n + 1)
            else S754_infinity false)
      else (if ex + n <=? 971 then S754_finite false (Z.to_pos m2) (ex + n)
            else S754_infinity false).
Proof.
  intros HD Hex n.
  pose proof (digits2_pos_bounds M) as [Blo Bhi].
  set (D := Zpos (digits2_pos M)) in *.
  assert (Hn : 0 <= n) by (unfold n; lia).
  assert (Hpn : 0 < 2 ^ n) by (apply Z.pow_pos_nonneg; lia).
  assert (HDn : D = 53 + n) by (unfold n; lia).
  (* the truncated mantissa has exactly 53 bits *)
  assert (Hm1 : 2 ^ 52 <= Zpos M / 2 ^ n < 2 ^ 53).
  { split.
    - apply Z.div_le_lower_bound; [lia | ].
      rewrite Z.mul_comm, <- Z.pow_add_r by lia.
      replace (52 + n) with (D - 1) by lia. assumption.
    - apply Z.div_lt_upper_bound; [lia | ].
      rewrite <- Z.pow_add_r by lia.
      replace (n + 53) with D by lia. assumption. }
  unfold binary_round_aux, shr_fexp. cbn [Zdigits2 shr_record_of_loc].
  fold D. rewrite fexp_normal by assumption.
  replace (D + ex - 53 - ex) with n by lia.
  destruct (shr_spec (Zpos M) ex n ltac:(lia) Hn) as (rec & -> & Hrm & Hrl).
  set (m2 := round_nearest_even (shr_m rec) (loc_of_shr_record rec)).
  exists m2.
  assert (Hm2 : m2 = Zpos M / 2 ^ n \/ (m2 = Zpos M / 2 ^ n + 1 /\ Zpos M mod 2 ^ n <> 0)).
  { unfold m2. rewrite Hrm.
    destruct (round_nearest_even_cases (Zpos M / 2 ^ n) (loc_of_shr_record rec))
      as [-> | [-> Hne]]; [left; reflexivity | right].
    split; [reflexivity | ]. intros Hz. apply Hne, Hrl, Hz. }
  split; [exact Hm2 | ].
  assert (Hb : 2 ^ 52 <= m2 <= 2 ^ 53) by lia.
  split; [exact Hb | ].
  destruct (Z.eqb_spec m2 (2 ^ 53)) as [E | NE].
  - rewrite E. change (Zdigits2 (2 ^ 53)) with 54.
    rewrite fexp_normal by lia.
    replace (54 + (ex + n) - 53 - (ex + n)) with 1 by lia.
    cbn [shr SpecFloat.iter_pos]. 
    change (shr_1 {| shr_m := 2 ^ 53; shr_r := false; shr_s := false |})
      with {| shr_m := 2 ^ 52; shr_r := false; shr_s := false |}.
    cbn [shr_m]. change (2 ^ 52) with (Zpos (2 ^ 52)%positive) at 1.
    cbn iota beta. reflexivity.
  - assert (Hd2 : Zdigits2 m2 = 53).
    { destruct m2 as [ | p2 | p2]; try lia. cbn [Zdigits2].
      apply digits2_pos_unique. lia. }
    rewrite Hd2, fexp_normal by lia.
    replace (53 + (ex + n) - 53 - (ex + n)) with 0 by lia.
    cbn [shr shr_m].
    destruct m2 as [ | p2 | p2]; try lia. reflexivity.
Qed.

Lemma pos_iter_xO (k p : positive) : Zpos (Pos.iter xO p k) = Zpos p * 2 ^ Zpos k.
Proof.
  induction k as [ | k IH] using Pos.peano_ind.
  - cbn. lia.
  - rewrite Pos.iter_succ, Pos2Z.inj_xO, IH, Pos2Z.inj_succ, Z.pow_succ_r by lia. ring.
Qed.

Lemma shl_align_spec (m : positive) (e e' : Z) :
  e' <= e ->
  exists m', shl_align m e e' = (m', e') /\ Zpos m' = Zpos m * 2 ^ (e - e').
Proof.
  intros Hle. unfold shl_align.
  destruct (e' - e) as [ | d | d] eqn:E; try lia.
  - assert (e' = e) by lia. subst e'. exists m. rewrite Z.sub_diag. split; [reflexivity | cbn; lia].
  - eexists. split; [reflexivity | ]. rewrite pos_iter_xO. f_equal. f_equal. lia.
Qed.

Lemma shl_align_id (m : positive) (e e' : Z) : e <= e' -> shl_align m e e' = (m, e).
Proof. intros Hle. unfold shl_align. destruct (e' - e) eqn:E; try reflexivity; lia. Qed.

(** Normal form of a positive integer below 2^53 converted to double. *)
Lemma binary_normalize_int (P : positive) :
  let d := Zpos (digits2_pos P) in
  d <= 53 ->
  binary_normalize prec emax (Zpos P) 0 false =
  S754_finite false (Z.to_pos (Zpos P * 2 ^ (53 - d))) (d - 53).
Proof.
  intros d Hd. cbn [binary_normalize]. unfold binary_round.
  pose proof (digits2_pos_bounds P) as [Blo Bhi]. fold d in Blo, Bhi.
  assert (Hdpos : 0 < d) by (unfold d; lia).
  assert (Hf : fexp prec emax (Zpos (digits2_pos P) + 0) = d - 53).
  { fold d. unfold fexp, SpecFloat.emin, prec, emax. lia. }
  rewrite Hf.
  destruct (shl_align_spec P 0 (d - 53) ltac:(lia)) as (M & -> & HM).
  replace (0 - (d - 53)) with (53 - d) in HM by lia.
  assert (Hp : 0 < 2 ^ (53 - d)) by (apply Z.pow_pos_nonneg; lia).
  assert (HMb : 2 ^ 52 <= Zpos M < 2 ^ 53).
  { rewrite HM. split.
    - replace 52 with ((d - 1) + (53 - d)) by lia. rewrite Z.pow_add_r by lia.
      apply Z.mul_le_mono_nonneg_r; lia.
    - replace 53 with (d + (53 - d)) at 2 by lia. rewrite Z.pow_add_r by lia.
      apply Z.mul_lt_mono_pos_r; lia. }
  assert (HMd : Zpos (digits2_pos M) = 53) by (apply digits2_pos_unique; lia).
  destruct (binary_round_aux_normal M (d - 53) ltac:(lia) ltac:(lia)) as (m2 & Hm2 & Hb & ->).
  rewrite HMd in *. change (53 - 53) with 0 in *. change (2 ^ 0) with 1 in *.
  rewrite Z.div_1_r, Z.mod_1_r in Hm2.
  assert (m2 = Zpos M) by (destruct Hm2 as [ | [_ ?]]; [assumption | congruence]). subst m2.
  destruct (Z.eqb_spec (Zpos M) (2 ^ 53)) as [ | _]; [lia | ].
  replace (d - 53 + 0 <=? 971) with true by (symmetry; apply Z.leb_le; lia).
  rewrite <- HM, Z.add_0_r. reflexivity.
Qed.

Lemma of_int_zero : Prim2SF (of_int 0) = S754_zero false.
Proof. reflexivity. Qed.

Lemma of_int_pos (N : Z) :
  0 < N < 2 ^ 53 ->
  exists (m : positive) (e : Z),
    Prim2SF (of_int N) = S754_finite false m e /\ e <= 0 /\ Zpos m = N * 2 ^ (- e) /\
    e = Z.log2 N - 52.
Proof.
  intros [Hlo Hhi]. unfold of_int.
  replace (N <? 0) with false by (symmetry; apply Z.ltb_ge; lia).
  rewrite of_uint63_spec, Uint63.of_Z_spec.
  assert (Hw : Uint63.wB = 2 ^ 63) by reflexivity.
  rewrite Z.mod_small by (rewrite Hw; lia).
  destruct N as [ | P | P]; try lia.
  pose proof (digits2_pos_bounds P) as [Blo Bhi].
  set (d := Zpos (digits2_pos P)) in *.
  assert (Hd : d <= 53).
  { destruct (Z_le_gt_dec d 53); [assumption | exfalso].
    assert (2 ^ 53 <= 2 ^ (d - 1)) by (apply Z.pow_le_mono_r; lia). lia. }
  rewrite binary_normalize_int by exact Hd. fold d.
  assert (Hp : 0 < 2 ^ (53 - d)) by (apply Z.pow_pos_nonneg; lia).
  eexists _, _. split; [reflexivity | ].
  split; [lia | ]. split.
  - rewrite Z2Pos.id by lia. f_equal. f_equal. lia.
  - assert (Z.log2 (Zpos P) = d - 1); [ | lia].
    apply Z.log2_unique; [unfold d; lia | ].
    replace (Z.succ (d - 1)) with d by lia. lia.
Qed.

Lemma valid_finite (s : bool) (m : positive) (e : Z) :
  valid_binary (S754_finite s m e) = true ->
  -1074 <= e <= 971 /\ Zpos (digits2_pos m) <= 53 /\
  (-1074 < e -> Zpos (digits2_pos m) = 53).
Proof.
  cbn [SpecFloat.valid_binary]. unfold bounded, canonical_mantissa, fexp, SpecFloat.emin.
  rewrite andb_true_iff, Z.eqb_eq, Z.leb_le. unfold prec, emax. lia.
Qed.

Lemma between_of_int (N : Z) : 0 <= N < 2 ^ 53 -> between N N (Prim2SF (of_int N)).
Proof.
  intros [Hlo Hhi]. destruct (Z.eq_dec N 0) as [-> | Hne].
  - rewrite of_int_zero. cbn. lia.
  - destruct (of_int_pos N ltac:(lia)) as (m & e & -> & He & Hm & _).
    cbn. lia.
Qed.

Lemma half_spec : Prim2SF 0.5 = S754_finite false (2 ^ 52)%positive (-53).
Proof. reflexivity. Qed.

Lemma pow2_lt_inv (a b : Z) : 0 <= b -> 2 ^ a < 2 ^ b -> a < b.
Proof.
  intros Hb H. destruct (Z_lt_le_dec a b) as [ | Hle]; [assumption | exfalso].
  assert (2 ^ b <= 2 ^ a) by (apply Z.pow_le_mono_r; lia). lia.
Qed.

Lemma add_half_sandwich (x : float) (A B : Z) :
  0 <= A -> B <= INT_MAX ->
  between A B (Prim2SF x) ->
  exists k, static_cast_int (x + 0.5) = Some k /\ A <= k <= B.
Proof.
  intros HA HB Hbt. unfold INT_MAX in HB.
  pose proof (Prim2SF_valid x) as Hv.
  unfold static_cast_int, int_range. rewrite FloatAxioms.add_spec, half_spec.
  destruct (Prim2SF x) as [s | s | | s m e]; cbn [between] in Hbt; try contradiction.
  - (* x is a zero: the sum is 0.5 *)
    exists 0. split; [destruct s; reflexivity | lia].
  - destruct s; [contradiction | ].
    destruct Hbt as (He & Hlo & Hhi).
    apply valid_finite in Hv. destruct Hv as (Hemin & _ & _).
    unfold SF64add, SFadd. cbn [cond_Zopp].
    set (ez := Z.min e (-53)).
    destruct (shl_align_spec m e ez ltac:(unfold ez; lia)) as (m' & -> & Hm').
    destruct (shl_align_spec (2 ^ 52) (-53) ez ltac:(unfold ez; lia)) as (h' & -> & Hh').
    cbn [fst]. change (Zpos m' + Zpos h') with (Zpos (m' + h')).
    cbn [binary_normalize]. unfold binary_round.
    set (M := (m' + h')%positive).
    set (c := - ez). set (a := - e) in *.
    assert (Hc : 53 <= c) by (unfold c, ez; lia).
    assert (Hac : 0 <= a <= c) by (unfold a, c, ez; lia).
    set (W := 2 ^ (c - 1)).
    assert (HW : 2 ^ 52 <= W) by (apply Z.pow_le_mono_r; lia).
    assert (Hh2 : Zpos h' = W).
    { rewrite Hh'. change (Zpos (2 ^ 52)) with (2 ^ 52). rewrite <- Z.pow_add_r by lia.
      unfold W. f_equal. lia. }
    assert (Hm2 : Zpos m' * 2 ^ a = Zpos m * (2 * W)).
    { rewrite Hm'. rewrite <- Z.mul_assoc, <- Z.pow_add_r by lia.
      unfold W. rewrite <- Z.pow_succ_r by lia. do 2 f_equal. lia. }
    assert (Hpa : 0 < 2 ^ a) by (apply Z.pow_pos_nonneg; lia).
    assert (HMlo : (2 * A + 1) * W <= Zpos M).
    { unfold M. rewrite Pos2Z.inj_add, Hh2.
      assert (A * (2 * W) <= Zpos m'); [ | lia].
      apply Z.mul_le_mono_pos_r with (p := 2 ^ a); [assumption | ].
      rewrite Hm2. nia. }
    assert (HMhi : Zpos M <= (2 * B + 1) * W).
    { unfold M. rewrite Pos2Z.inj_add, Hh2.
      assert (Zpos m' <= B * (2 * W)); [ | lia].
      apply Z.mul_le_mono_pos_r with (p := 2 ^ a); [assumption | ].
      rewrite Hm2. nia. }
    pose proof (digits2_pos_bounds M) as [Dlo Dhi].
    set (D := Zpos (digits2_pos M)) in *.
    assert (HD : 53 <= D).
    { assert (52 < D); [ | lia]. apply pow2_lt_inv; [unfold D; lia | lia]. }
    assert (HDc : D <= c + 31).
    { assert (D - 1 < c + 31); [ | lia]. apply pow2_lt_inv; [lia | ].
      replace (c + 31) with (32 + (c - 1)) by lia. rewrite Z.pow_add_r by lia. fold W.
      assert ((2 * B + 1) * W < 2 ^ 32 * W); [ | lia].
      apply Z.mul_lt_mono_pos_r; lia. }
    rewrite shl_align_id by (cbn [Zdigits2]; fold D; rewrite fexp_normal by lia; lia).
    destruct (binary_round_aux_normal M ez HD ltac:(unfold ez; lia)) as (m2 & Hr & Hb & ->).
    fold D in Hr |- *. set (n := D - 53) in *.
    set (j := c - 1 - n).
    assert (Hj : 0 <= j) by (unfold j, n; lia).
    assert (Hn : 0 <= n) by (unfold n; lia).
    set (P := 2 ^ j).
    assert (HP : 0 < P) by (apply Z.pow_pos_nonneg; lia).
    assert (Hpn : 0 < 2 ^ n) by (apply Z.pow_pos_nonneg; lia).
    assert (HWP : W = P * 2 ^ n).
    { unfold W, P. rewrite <- Z.pow_add_r by lia. f_equal. unfold j. lia. }
    assert (Hm1lo : (2 * A + 1) * P <= Zpos M / 2 ^ n).
    { apply Z.div_le_lower_bound; [lia | ]. rewrite HWP in HMlo. lia. }
    assert (Hm2b : (2 * A + 1) * P <= m2 <= (2 * B + 1) * P).
    { destruct Hr as [-> | [-> Hmod]].
      - split; [assumption | ].
        apply Z.div_le_upper_bound; [lia | ]. rewrite HWP in HMhi. lia.
      - split; [lia | ].
        assert (Zpos M / 2 ^ n < (2 * B + 1) * P); [ | lia].
        apply Z.div_lt_upper_bound; [lia | ].
        assert (Zpos M <> (2 * B + 1) * P * 2 ^ n); [ | rewrite HWP in HMhi; lia].
        intros E. apply Hmod. rewrite E. apply Z.mod_mul. lia. }
    assert (Hk : A <= m2 / (2 * P) <= B).
    { split.
      - apply Z.div_le_lower_bound; lia.
      - assert (m2 / (2 * P) < B + 1); [ | lia].
        apply Z.div_lt_upper_bound; lia. }
    assert (Hez : ez + n = - (j + 1)) by (unfold j, c; lia).
    exists (m2 / (2 * P)). split; [ | exact Hk].
    destruct (Z.eqb_spec m2 (2 ^ 53)) as [E | NE].
    + replace (ez + n + 1 <=? 971) with true by (symmetry; apply Z.leb_le; lia).
      cbn [cond_Zopp]. rewrite Z.shiftl_div_pow2 by lia.
      replace (- (ez + n + 1)) with j by lia. fold P.
      assert (Hq : Zpos (2 ^ 52) / P = m2 / (2 * P)).
      { rewrite E. change (2 ^ 53) with (2 * Zpos (2 ^ 52)).
        rewrite Z.div_mul_cancel_l by lia. reflexivity. }
      rewrite Hq.
      replace ((INT_MIN <=? m2 / (2 * P)) && (m2 / (2 * P) <=? INT_MAX)) with true; [reflexivity | ].
      symmetry. apply andb_true_iff. unfold INT_MIN, INT_MAX. split; apply Z.leb_le; lia.
    + replace (ez + n <=? 971) with true by (symmetry; apply Z.leb_le; lia).
      cbn [cond_Zopp]. rewrite Z.shiftl_div_pow2 by lia.
      replace (- (ez + n)) with (Z.succ j) by lia. rewrite Z.pow_succ_r by lia. fold P.
      rewrite Z2Pos.id by lia.
      replace ((INT_MIN <=? m2 / (2 * P)) && (m2 / (2 * P) <=? INT_MAX)) with true; [reflexivity | ].
      symmetry. apply andb_true_iff. unfold INT_MIN, INT_MAX. split; apply Z.leb_le; lia.
Qed.

Lemma between_weaken (A A' B B' : Z) (f : spec_float) :
  A' <= A -> B <= B' -> between A B f -> between A' B' f.
Proof.
  intros HA HB. destruct f as [s | s | | [ | ] m e]; cbn; try tauto; try lia.
  intros (He & Hlo & Hhi).
  assert (0 < 2 ^ (- e)) by (apply Z.pow_pos_nonneg; lia).
  split; [assumption | ]. split; nia.
Qed.

Lemma finite_ltb_between (m mN : positive) (e eN A B : Z) :
  valid_binary (S754_finite false m e) = true ->
  valid_binary (S754_finite false mN eN) = true ->
  between A B (S754_finite false mN eN) ->
  SFltb (S754_finite false m e) (S754_finite false mN eN) = true ->
  between 0 B (S754_finite false m e).
Proof.
  intros Hv HvN (HeN & _ & Hhi) Hlt.
  apply valid_finite in Hv, HvN.
  destruct Hv as (Hemin & Hd & _). destruct HvN as (_ & _ & HdN).
  pose proof (digits2_pos_bounds m) as [_ Bm].
  pose proof (digits2_pos_bounds mN) as [BN _].
  unfold SFltb, SFcompare in Hlt. cbn [between].
  assert (Hm53 : Zpos m < 2 ^ 53).
  { assert (2 ^ Zpos (digits2_pos m) <= 2 ^ 53) by (apply Z.pow_le_mono_r; lia). lia. }
  destruct (Z.compare_spec e eN) as [-> | Hlt' | Hgt]; [ | | discriminate].
  - change (Pos.compare_cont Eq m mN) with (Pos.compare m mN) in Hlt.
    destruct (Pos.compare_spec m mN); try discriminate. lia.
  - split; [lia | ]. split; [lia | ].
    rewrite HdN in BN by lia. change (2 ^ (53 - 1)) with (2 ^ 52) in BN.
    replace (- e) with ((- eN) + (eN - e)) by lia. rewrite Z.pow_add_r by lia.
    assert (2 <= 2 ^ (eN - e)).
    { change 2 with (2 ^ 1) at 1. apply Z.pow_le_mono_r; lia. }
    assert (0 < 2 ^ (- eN)) by (apply Z.pow_pos_nonneg; lia).
    nia.
Qed.

Lemma clamp_cases (N : Z) (t : float) :
  clamp 0 (of_int N) t = of_int N \/
  (clamp 0 (of_int N) t = 0%float /\ (0 <? of_int N)%float = true) \/
  (clamp 0 (of_int N) t = t /\ (0 <? t)%float = true /\ (t <? of_int N)%float = true).
Proof.
  unfold clamp.
  destruct (0 <? t)%float eqn:E1.
  - destruct (t <? of_int N)%float eqn:E2; auto.
  - destruct (0 <? of_int N)%float eqn:E2; auto.
Qed.

Lemma clamp_between (N : Z) (t : float) :
  0 <= N < 2 ^ 53 -> between 0 N (Prim2SF (clamp 0 (of_int N) t)).
Proof.
  intros HN.
  pose proof (between_of_int N HN) as HbN.
  destruct (clamp_cases N t) as [-> | [[-> _] | (-> & H0 & Ht)]].
  - apply between_weaken with (A := N) (B := N); [lia | lia | assumption].
  - cbn. lia.
  - rewrite ltb_spec in H0, Ht.
    pose proof (Prim2SF_valid t) as Hv. pose proof (Prim2SF_valid (of_int N)) as HvN.
    change (Prim2SF 0) with (S754_zero false) in H0.
    destruct (Prim2SF t) as [s | s | | [ | ] m e]; try discriminate;
      destruct (Prim2SF (of_int N)) as [sN | sN | | [ | ] mN eN] eqn:EN;
      try destruct s; try destruct sN; try discriminate.
    all: cbn in H0, Ht; try discriminate; try (cbn in HbN; contradiction).
    apply finite_ltb_between with (mN := mN) (eN := eN) (A := N); assumption.
Qed.

(** Conversion of non-negative integers below 2^53 is strictly monotone. *)
Lemma of_int_ltb (a b : Z) :
  0 <= a < 2 ^ 53 -> 0 <= b < 2 ^ 53 ->
  (of_int a <? of_int b)%float = (a <? b).
Proof.
  intros Ha Hb. rewrite ltb_spec.
  destruct (Z.eq_dec a 0) as [-> | Hane]; destruct (Z.eq_dec b 0) as [-> | Hbne].
  - reflexivity.
  - rewrite of_int_zero. destruct (of_int_pos b ltac:(lia)) as (mb & eb & -> & _).
    cbn. symmetry. apply Z.ltb_lt. lia.
  - rewrite of_int_zero. destruct (of_int_pos a ltac:(lia)) as (ma & ea & -> & _).
    cbn. symmetry. apply Z.ltb_ge. lia.
  - destruct (of_int_pos a ltac:(lia)) as (ma & ea & -> & Hea & Hma & Hla).
    destruct (of_int_pos b ltac:(lia)) as (mb & eb & -> & Heb & Hmb & Hlb).
    unfold SFltb, SFcompare.
    assert (Hpa : 0 < 2 ^ (- ea)) by (apply Z.pow_pos_nonneg; lia).
    destruct (Z.compare_spec ea eb) as [E | Hlt | Hgt].
    + change (Pos.compare_cont Eq ma mb) with (Pos.compare ma mb).
      rewrite <- E in Hmb.
      destruct (Pos.compare_spec ma mb) as [E2 | L | G]; symmetry.
      * apply Z.ltb_ge. assert (Zpos ma = Zpos mb) by congruence.
        assert (a = b); [ | lia]. apply Z.mul_reg_r with (p := 2 ^ (- ea)); lia.
      * apply Z.ltb_lt. apply Z.mul_lt_mono_pos_r with (p := 2 ^ (- ea)); lia.
      * apply Z.ltb_ge. apply Z.lt_le_incl.
        apply Z.mul_lt_mono_pos_r with (p := 2 ^ (- ea)); lia.
    + symmetry. apply Z.ltb_lt.
      assert (Z.log2 a < Z.log2 b) by lia.
      destruct (Z_lt_le_dec a b) as [ | Hle]; [assumption | exfalso].
      pose proof (Z.log2_le_mono b a Hle). lia.
    + symmetry. apply Z.ltb_ge.
      assert (Z.log2 b < Z.log2 a) by lia.
      destruct (Z_lt_le_dec a b) as [Hlt | ]; [exfalso | assumption].
      pose proof (Z.log2_le_mono a b ltac:(lia)). lia.
Qed.

(** * The binning kernels, one axis at a time *)

Lemma sub_as_add (x y : float) : (x - y)%float = (x + - y)%float.
Proof.
  apply Prim2SF_inj.
  rewrite FloatAxioms.sub_spec, FloatAxioms.add_spec, FloatAxioms.opp_spec.
  destruct (Prim2SF x) as [sx | sx | | sx mx ex];
    destruct (Prim2SF y) as [sy | sy | | sy my ey];
    try destruct sx; try destruct sy; try reflexivity.
  all: unfold SF64sub, SFsub, SF64add, SFadd, SFopp; cbn [negb cond_Zopp];
    f_equal; lia.
Qed.

Lemma is_nan_spec (v : float) : is_nan v = true -> Prim2SF v = S754_nan.
Proof.
  unfold is_nan. rewrite FloatAxioms.eqb_spec. unfold SFeqb, SFcompare.
  destruct (Prim2SF v) as [s | s | | s m e]; try reflexivity;
    try (destruct s; discriminate).
  change (Pos.compare_cont Eq m m) with (Pos.compare m m).
  rewrite Z.compare_refl, Pos.compare_refl. destruct s; discriminate.
Qed.

Lemma is_infinity_spec (v : float) :
  is_infinity v = true -> exists s, Prim2SF v = S754_infinity s.
Proof.
  unfold is_infinity. rewrite FloatAxioms.eqb_spec, FloatAxioms.abs_spec.
  change (Prim2SF infinity) with (S754_infinity false).
  destruct (Prim2SF v) as [s | s | | s m e]; try discriminate; eauto.
Qed.

Lemma affine_bin_clamp (shift scale max v : float) :
  affine_bin shift scale 0 max v
  = static_cast_int (clamp 0 max ((v + shift) * scale) + 0.5).
Proof. reflexivity. Qed.

Lemma INT_MAX_lt : INT_MAX < 2 ^ 53.
Proof. reflexivity. Qed.

(** Whatever the scaled coordinate is, the two ternaries and the rounding
    cast yield an index in range. *)
Lemma affine_bin_range (shift scale v : float) (N : Z) :
  0 <= N <= INT_MAX ->
  exists k, affine_bin shift scale 0 (of_int N) v = Some k /\ 0 <= k <= N.
Proof.
  intros HN. rewrite affine_bin_clamp.
  pose proof INT_MAX_lt.
  apply add_half_sandwich; [lia | lia | ].
  apply clamp_between. lia.
Qed.

Lemma cast_of_int_half (N : Z) :
  0 <= N <= INT_MAX -> static_cast_int (of_int N + 0.5) = Some N.
Proof.
  intros HN. pose proof INT_MAX_lt.
  destruct (add_half_sandwich (of_int N) N N) as (k & -> & Hk);
    [lia | lia | apply between_of_int; lia | ].
  f_equal. lia.
Qed.

Lemma cast_half : static_cast_int (0 + 0.5) = Some 0.
Proof. reflexivity. Qed.

(** Saturation at the lower edge: a scaled coordinate that is not above zero,
    NaN included, lands in bin 0. *)
Lemma affine_bin_low (shift scale v : float) (N : Z) :
  0 <= N <= INT_MAX ->
  (0 <? (v + shift) * scale)%float = false ->
  affine_bin shift scale 0 (of_int N) v = Some 0.
Proof.
  intros HN Hx. rewrite affine_bin_clamp. unfold clamp. rewrite Hx.
  destruct (0 <? of_int N)%float eqn:E; [reflexivity | ].
  destruct (Z.eq_dec N 0) as [-> | Hne]; [reflexivity | ].
  pose proof INT_MAX_lt.
  pose proof (of_int_ltb 0 N ltac:(lia) ltac:(lia)) as Hlt.
  change (of_int 0) with 0%float in Hlt. rewrite E in Hlt.
  symmetry in Hlt. apply Z.ltb_ge in Hlt. lia.
Qed.

(** Saturation at the upper edge. *)
Lemma affine_bin_high (shift scale v : float) (N : Z) :
  0 <= N <= INT_MAX ->
  (0 <? (v + shift) * scale)%float = true ->
  ((v + shift) * scale <? of_int N)%float = false ->
  affine_bin shift scale 0 (of_int N) v = Some N.
Proof.
  intros HN H0 Hx. rewrite affine_bin_clamp. unfold clamp. rewrite H0, Hx.
  apply cast_of_int_half. exact HN.
Qed.

Lemma affine_bin_nan (shift scale v : float) (N : Z) :
  0 <= N <= INT_MAX -> is_nan v = true ->
  affine_bin shift scale 0 (of_int N) v = Some 0.
Proof.
  intros HN Hv. apply affine_bin_low; [exact HN | ].
  rewrite FloatAxioms.ltb_spec, FloatAxioms.mul_spec, FloatAxioms.add_spec, (is_nan_spec v Hv).
  reflexivity.
Qed.

Lemma affine_bin_infinity (shift scale v : float) (N : Z) :
  0 <= N <= INT_MAX -> is_infinity v = true ->
  affine_bin shift scale 0 (of_int N) v = Some 0 \/
  affine_bin shift scale 0 (of_int N) v = Some N.
Proof.
  intros HN Hv.
  destruct (0 <? (v + shift) * scale)%float eqn:H0;
    [right | left; apply affine_bin_low; assumption].
  apply affine_bin_high; [exact HN | exact H0 | ].
  destruct (is_infinity_spec v Hv) as [s Hs].
  pose proof INT_MAX_lt.
  pose proof (between_of_int N ltac:(lia)) as HbN.
  rewrite FloatAxioms.ltb_spec, FloatAxioms.mul_spec, FloatAxioms.add_spec, Hs in *.
  change (Prim2SF 0) with (S754_zero false) in H0.
  destruct (Prim2SF shift) as [s1 | s1 | | s1 m1 e1];
    destruct (Prim2SF scale) as [s2 | s2 | | s2 m2 e2];
    destruct s; try destruct s1; try destruct s2; try discriminate H0;
    destruct (Prim2SF (of_int N)) as [s3 | s3 | | [ | ] m3 e3];
    try contradiction; reflexivity.
Qed.

(** C6, as amended.  For every pixel value [v] and every configuration with
    [1 <= numBins[k] <= INT_MAX], the bin coordinate the generic affine kernel
    computes on axis [k] is
    truncate(clamp((v - binOrigin[k]) * (1/binSpacing[k]), 0, numBins[k]-1) + 0.5),
    every operation rounded to double and the clamp applied before the
    rounding cast; the coordinate always exists and lies in
    [0, numBins[k]-1]; a scaled value that is not above 0 (NaN included) lands
    in bin 0 and one that is not below numBins[k]-1 lands in bin
    numBins[k]-1, so that no voxel is dropped for being out of range. *)
Theorem generic_bin_clamp_then_round
    (numBins : Z) (binOrigin binSpacing v : float) :
  1 <= numBins <= INT_MAX ->
  let x := ((v - binOrigin) * (1 / binSpacing))%float in
  exists k : Z,
    kernel_bin numBins binOrigin binSpacing v = Some k /\
    static_cast_int (clamp 0 (of_int (numBins - 1)) x + 0.5) = Some k /\
    0 <= k <= numBins - 1 /\
    ((0 <? x)%float = false -> k = 0) /\
    ((0 <? x)%float = true ->
     (x <? of_int (numBins - 1))%float = false -> k = numBins - 1).
Proof.
  intros HN x. unfold kernel_bin. subst x. rewrite sub_as_add.
  assert (HN' : 0 <= numBins - 1 <= INT_MAX) by lia.
  destruct (affine_bin_range (- binOrigin) (1 / binSpacing) v (numBins - 1) HN')
    as (k & Hk & Hr).
  exists k. split; [exact Hk | ]. split; [rewrite <- affine_bin_clamp; exact Hk | ].
  split; [exact Hr | ]. split.
  - intros Hlow.
    rewrite (affine_bin_low _ _ _ _ HN' Hlow) in Hk. congruence.
  - intros H0 Hhigh.
    rewrite (affine_bin_high _ _ _ _ HN' H0 Hhigh) in Hk. congruence.
Qed.

Lemma generic_bin_clamp_then_round_witness :
  exists k : Z,
    kernel_bin 64 0 1 (of_int 70) = Some k /\
    static_cast_int
      (clamp 0 (of_int (64 - 1)) ((of_int 70 - 0) * (1 / 1)) + 0.5) = Some k /\
    0 <= k <= 64 - 1 /\
    ((0 <? (of_int 70 - 0) * (1 / 1))%float = false -> k = 0) /\
    ((0 <? (of_int 70 - 0) * (1 / 1))%float = true ->
     ((of_int 70 - 0) * (1 / 1) <? of_int (64 - 1))%float = false -> k = 64 - 1).
Proof.
  apply (generic_bin_clamp_then_round 64 0 1 (of_int 70)).
  unfold INT_MAX. lia.
Defined.

(** C6 as stated fails: with binOrigin 0 and binSpacing 98 the pixel value 147
    is binned by the kernel as 147 * (1.0/98) = 1.4999999999999998, bin 1,
    while (147 - 0)/98 = 1.5 rounds to bin 2. *)
Lemma generic_bin_is_not_a_quotient :
  kernel_bin 64 0 98 (of_int 147) = Some 1 /\
  spec_bin 64 0 98 (of_int 147) = Some 2 /\
  kernel_bin 64 0 98 (of_int 147) <> spec_bin 64 0 98 (of_int 147).
Proof.
  split; [vm_compute; reflexivity | ].
  split; [vm_compute; reflexivity | ].
  vm_compute. discriminate.
Qed.

(** * The reduction *)

Section Reduce.

Variable log : float -> float.
Variable OutValue : Type.
Variable static_cast : ScalarType -> Z -> OutValue.

Lemma foldl_sum (l : list Z) (a : Z) : foldl Z.add a l = a + sumZ l.
Proof.
  revert a. induction l as [ | x l IH]; intros a; unfold sumZ; cbn [foldl foldr];
    [lia | ].
  rewrite IH. unfold sumZ. lia.
Qed.

Lemma sumZ_cons (x : Z) (l : list Z) : sumZ (x :: l) = x + sumZ l.
Proof. reflexivity. Qed.

Lemma sumZ_app (l1 l2 : list Z) : sumZ (l1 ++ l2) = sumZ l1 + sumZ l2.
Proof.
  induction l1 as [ | x l1 IH]; [reflexivity | ].
  cbn [app]. rewrite !sumZ_cons, IH. lia.
Qed.

Lemma count_and_entropy_spec (xHist : list Z) :
  count_and_entropy log xHist = (sumZ xHist, spec_S log xHist).
Proof.
  unfold count_and_entropy, spec_S.
  assert (H : forall c e,
    foldl (fun '(count, xEntropy) b =>
             (count + b, accumulate_entropy log xEntropy b)) (c, e) xHist
    = (c + sumZ xHist, foldl (accumulate_entropy log) e xHist)).
  { induction xHist as [ | b l IH]; intros c e; cbn [foldl].
    - f_equal. change (sumZ []) with 0. lia.
    - rewrite IH, sumZ_cons. f_equal. lia. }
  rewrite H. reflexivity.
Qed.

(** The row loop, as three independent accumulations over the merged rows. *)
Lemma reduce_rows_spec (self : vtkImageMutualInformation) (upd : Extent)
    (tls : list ThreadData) (rows : list nat) (r0 : Reduction OutValue) :
  let nx := Z.to_nat (NumberOfBins self).1 in
  let r := foldl (reduce_row log OutValue static_cast self upd tls) r0 rows in
  xHist OutValue r
    = foldl (zip_with Z.add) (xHist OutValue r0) (merged_row nx tls <$> rows) /\
  yEntropy OutValue r
    = foldl (accumulate_entropy log) (yEntropy OutValue r0)
            (row_total nx tls <$> rows) /\
  xyEntropy OutValue r
    = foldl (accumulate_entropy log) (xyEntropy OutValue r0)
            (concat (merged_row nx tls <$> rows)).
Proof.
  intros nx. revert r0. induction rows as [ | iy rows IH]; intros r0.
  - cbn. auto.
  - cbn [foldl fmap list_fmap concat]. cbn zeta in IH |- *.
    destruct (IH (reduce_row log OutValue static_cast self upd tls r0 iy))
      as (Hx & Hy & Hxy).
    rewrite Hx, Hy, Hxy. clear IH Hx Hy Hxy.
    unfold reduce_row, merged_row, row_total. fold nx.
    destruct (foldl (add_contribution nx iy) (replicate nx 0, 0) tls)
      as [xyHist a].
    destruct (if (Z.of_nat iy <? (ext_y upd).1) || ((ext_y upd).2 <? Z.of_nat iy)
              then (0, -1) else ext_x upd) as [outStart outEnd].
    destruct (if outStart <=? outEnd then _ else _) as [out errs].
    cbn [xHist yEntropy xyEntropy fst snd].
    rewrite foldl_app. auto.
Qed.

Lemma reduce_accumulators (self : vtkImageMutualInformation) (p : Pipeline)
    (st : RunState) :
  let r := foldl (reduce_row log OutValue static_cast self (UpdateExtent p)
                    (Storage st))
             {| xHist := replicate (Z.to_nat (NumberOfBins self).1) 0;
                yEntropy := 0; xyEntropy := 0;
                outPtr := []; errors := ErrorLog st |}
             (seq 0 (Z.to_nat (NumberOfBins self).2)) in
  xHist OutValue r = column_totals self (Storage st) /\
  yEntropy OutValue r = spec_S log (row_totals self (Storage st)) /\
  xyEntropy OutValue r = spec_S log (concat (joint_histogram self (Storage st))).
Proof. apply reduce_rows_spec. Qed.

(** The scalars the reduction stores, as a function of the merged histogram. *)
Lemma reduce_scalars (self : vtkImageMutualInformation) (p : Pipeline)
    (st : RunState) :
  let out := ReduceRequestData log OutValue static_cast self p st in
  let N := total_count self (Storage st) in
  (MutualInformation (Self out), NormalizedMutualInformation (Self out),
   Divisors out)
  = if N =? 0 then (0%float, 1%float, [])
    else (spec_metrics log self (Storage st),
          [of_int N; of_int N; of_int N;
           (spec_entropies log self (Storage st)).2]).
Proof.
  intros out N. subst out. unfold ReduceRequestData.
  destruct (reduce_accumulators self p st) as (Hx & Hy & Hxy).
  cbn zeta in Hx, Hy, Hxy.
  rewrite count_and_entropy_spec, Hx, Hy, Hxy.
  unfold spec_metrics, spec_entropies. fold (total_count self (Storage st)). fold N.
  destruct (N =? 0); reflexivity.
Qed.

End Reduce.

(** * The kernels as histogram updates *)

Lemma foldl_opt_app {A B : Type} (f : A -> B -> option A) (a : A) (l1 l2 : list B) :
  foldl_opt f a (l1 ++ l2) = a' ← foldl_opt f a l1; foldl_opt f a' l2.
Proof.
  revert a. induction l1 as [ | b l1 IH]; intros a; [reflexivity | ].
  cbn [app foldl_opt]. destruct (f a b) as [a' | ]; [apply IH | reflexivity].
Qed.

Lemma foldl_opt_ext {A B : Type} (f g : A -> B -> option A) (a : A) (l : list B) :
  (forall a b, f a b = g a b) -> foldl_opt f a l = foldl_opt g a l.
Proof.
  intros Hfg. revert a. induction l as [ | b l IH]; intros a; [reflexivity | ].
  cbn [foldl_opt]. rewrite Hfg. destruct (g a b); [apply IH | reflexivity].
Qed.

Lemma spans_accumulate (step : list Z -> Pixel * Pixel -> option (list Z))
    (spans : list Span) (outPtr : list Z) :
  foldl_opt (fun outPtr span =>
               if IsInStencil span then foldl_opt step outPtr (Voxels span)
               else Some outPtr) outPtr spans
  = foldl_opt step outPtr (in_stencil spans).
Proof.
  revert outPtr. induction spans as [ | span spans IH]; intros outPtr;
    [reflexivity | ].
  cbn [foldl_opt in_stencil]. rewrite foldl_opt_app.
  destruct (IsInStencil span); cbn [foldl_opt mbind option_bind]; [ | apply IH].
  destruct (foldl_opt step outPtr (Voxels span)); [apply IH | reflexivity].
Qed.

Lemma Execute_accumulate (spans : list Span) (outPtr : list Z)
    (numBins : Z * Z) (binOrigin binSpacing : float * float) :
  vtkImageMutualInformationExecute spans outPtr numBins binOrigin binSpacing
  = accumulate (affine_offset numBins binOrigin binSpacing) outPtr
               (in_stencil spans).
Proof.
  unfold vtkImageMutualInformationExecute. cbn zeta.
  rewrite spans_accumulate. apply foldl_opt_ext. intros out v.
  unfold affine_offset, kernel_bin.
  destruct (affine_bin _ _ _ _ (to_double v.1)); [ | reflexivity].
  destruct (affine_bin _ _ _ _ (to_double v.2)); reflexivity.
Qed.

Lemma ExecutePreScaled_accumulate (spans : list Span) (outPtr : list Z)
    (numBins : Z * Z) :
  vtkImageMutualInformationExecutePreScaled spans outPtr numBins
  = accumulate (prescaled_offset numBins) outPtr (in_stencil spans).
Proof.
  unfold vtkImageMutualInformationExecutePreScaled. cbn zeta.
  rewrite spans_accumulate. apply foldl_opt_ext. intros out v.
  unfold prescaled_offset.
  destruct (read_uchar v.1); [ | reflexivity].
  destruct (read_uchar v.2); reflexivity.
Qed.

Lemma length_count_offsets (offs : list Z) (h : list Z) :
  length (count_offsets h offs) = length h.
Proof.
  revert h. induction offs as [ | off offs IH]; intros h; [reflexivity | ].
  cbn [count_offsets foldl]. fold (count_offsets (alter Z.succ (Z.to_nat off) h) offs).
  rewrite IH. apply length_alter.
Qed.

(** When every voxel has an offset inside the buffer, the kernel counts each
    voxel once, in its cell. *)
Lemma accumulate_in_bounds (offset : Pixel * Pixel -> option Z)
    (vs : list (Pixel * Pixel)) (outPtr : list Z) :
  Forall (fun v => exists off, offset v = Some off
                               /\ 0 <= off < Z.of_nat (length outPtr)) vs ->
  accumulate offset outPtr vs = Some (count_offsets outPtr (offsets offset vs)).
Proof.
  revert outPtr. induction vs as [ | v vs IH]; intros outPtr Hall; [reflexivity | ].
  apply Forall_cons in Hall. destruct Hall as [(off & Hoff & Hr) Hall].
  unfold accumulate, offsets, count_offsets.
  cbn [foldl_opt fmap list_fmap foldl]. rewrite Hoff. cbn [mbind option_bind default].
  unfold increment.
  replace ((0 <=? off) && (off <? Z.of_nat (length outPtr))) with true
    by (symmetry; apply andb_true_iff; split; [apply Z.leb_le | apply Z.ltb_lt]; lia).
  apply IH. rewrite length_alter. exact Hall.
Qed.

(** * The workers' storage *)

Lemma zip_with_add_alter_l (k : nat) (d T : list Z) :
  zip_with Z.add (alter Z.succ k d) T = alter Z.succ k (zip_with Z.add d T).
Proof.
  revert k T. induction d as [ | x d IH]; intros k T; [reflexivity | ].
  destruct T as [ | y T]; [destruct k; reflexivity | ].
  destruct k as [ | k]; cbn.
  - f_equal. lia.
  - f_equal. apply IH.
Qed.

Lemma zip_with_add_alter_r (k : nat) (d T : list Z) :
  zip_with Z.add d (alter Z.succ k T) = alter Z.succ k (zip_with Z.add d T).
Proof.
  revert k T. induction d as [ | x d IH]; intros k T; [reflexivity | ].
  destruct T as [ | y T]; [destruct k; reflexivity | ].
  destruct k as [ | k]; cbn.
  - f_equal. lia.
  - f_equal. apply IH.
Qed.

Lemma zip_with_add_count_l (offs d T : list Z) :
  zip_with Z.add (count_offsets d offs) T = count_offsets (zip_with Z.add d T) offs.
Proof.
  revert d. induction offs as [ | off offs IH]; intros d; [reflexivity | ].
  unfold count_offsets in *. cbn [foldl]. rewrite IH, zip_with_add_alter_l.
  reflexivity.
Qed.

Lemma zip_with_add_count_r (offs d T : list Z) :
  zip_with Z.add d (count_offsets T offs) = count_offsets (zip_with Z.add d T) offs.
Proof.
  revert T. induction offs as [ | off offs IH]; intros T; [reflexivity | ].
  unfold count_offsets in *. cbn [foldl]. rewrite IH, zip_with_add_alter_r.
  reflexivity.
Qed.

Lemma zip_with_add_zeros_l (L : nat) (T : list Z) :
  (length T <= L)%nat -> zip_with Z.add (replicate L 0) T = T.
Proof.
  revert L. induction T as [ | y T IH]; intros L HL.
  - destruct L; reflexivity.
  - destruct L as [ | L]; [cbn in HL; lia | ].
    cbn. f_equal. apply IH. cbn in HL. lia.
Qed.

Lemma length_zip_with_add (d T : list Z) :
  length d = length T -> length (zip_with Z.add d T) = length T.
Proof. intros H. rewrite length_zip_with. lia. Qed.

Lemma storage_total_cons (L : nat) (td : ThreadData) (tls : list ThreadData) :
  storage_total L (td :: tls)
  = match td with
    | Some d => zip_with Z.add d (storage_total L tls)
    | None => storage_total L tls
    end.
Proof. reflexivity. Qed.

Lemma length_storage_total (L : nat) (tls : list ThreadData) :
  storage_wf L tls -> length (storage_total L tls) = L.
Proof.
  induction 1 as [ | td tls Htd _ IH]; [apply length_replicate | ].
  rewrite storage_total_cons. destruct td as [d | ]; [ | exact IH].
  rewrite length_zip_with_add; congruence.
Qed.

Lemma storage_wf_insert (L : nat) (tls : list ThreadData) (i : nat) (d : list Z) :
  storage_wf L tls -> length d = L -> storage_wf L (<[i := Some d]> tls).
Proof. intros Hwf Hd. apply Forall_insert; assumption. Qed.

Lemma storage_total_alloc (L : nat) (tls : list ThreadData) (i : nat) :
  storage_wf L tls -> tls !! i = Some None ->
  storage_total L (<[i := Some (replicate L 0)]> tls) = storage_total L tls.
Proof.
  intros Hwf. revert i. induction Hwf as [ | td tls Htd Hwf IH]; intros i Hi;
    [discriminate | ].
  destruct i as [ | i].
  - injection Hi as ->.
    change (<[0%nat := Some (replicate L 0)]> (None :: tls))
      with (Some (replicate L 0) :: tls).
    rewrite !storage_total_cons.
    apply zip_with_add_zeros_l. rewrite length_storage_total by assumption. lia.
  - change (<[S i := Some (replicate L 0)]> (td :: tls))
      with (td :: <[i := Some (replicate L 0)]> tls).
    rewrite !storage_total_cons, IH by exact Hi. reflexivity.
Qed.

Lemma storage_total_count (L : nat) (tls : list ThreadData) (i : nat)
    (d offs : list Z) :
  tls !! i = Some (Some d) ->
  storage_total L (<[i := Some (count_offsets d offs)]> tls)
  = count_offsets (storage_total L tls) offs.
Proof.
  revert i. induction tls as [ | td tls IH]; intros i Hi; [discriminate | ].
  destruct i as [ | i].
  - injection Hi as ->.
    change (<[0%nat := Some (count_offsets d offs)]> (Some d :: tls))
      with (Some (count_offsets d offs) :: tls).
    rewrite !storage_total_cons. apply zip_with_add_count_l.
  - change (<[S i := Some (count_offsets d offs)]> (td :: tls))
      with (td :: <[i := Some (count_offsets d offs)]> tls).
    rewrite !storage_total_cons, IH by exact Hi.
    destruct td as [d' | ]; [apply zip_with_add_count_r | reflexivity].
Qed.

(** * One call of ThreadedRequestData, and a whole run *)

Lemma offsets_ext (f g : Pixel * Pixel -> option Z) (vs : list (Pixel * Pixel)) :
  (forall v, f v = g v) -> offsets f vs = offsets g vs.
Proof.
  intros Hfg. unfold offsets. induction vs as [ | v vs IH]; [reflexivity | ].
  cbn [fmap list_fmap]. rewrite Hfg. f_equal. exact IH.
Qed.

Lemma allocate_cells (self : vtkImageMutualInformation) :
  0 < (NumberOfBins self).1 * (NumberOfBins self).2 ->
  allocate self = Some (replicate (cells self) 0).
Proof.
  intros H. unfold allocate, cells.
  replace (0 <? _) with true by (symmetry; apply Z.ltb_lt; exact H). reflexivity.
Qed.

Lemma completes_Some {A : Type} (o : option A) (P : A -> Prop) :
  completes o P <-> exists a, o = Some a /\ P a.
Proof.
  destruct o as [a | ]; cbn; split.
  - intros H. exists a. auto.
  - intros (a' & [= ->] & H). exact H.
  - contradiction.
  - intros (a' & [=] & _).
Qed.

Lemma completes_impl {A : Type} (o : option A) (P Q : A -> Prop) :
  completes o P -> (forall a, P a -> Q a) -> completes o Q.
Proof. destruct o as [a | ]; cbn; [auto | tauto]. Qed.

Lemma ThreadedRequestData_total (self : vtkImageMutualInformation) (p : Pipeline)
    (extent : Extent) (slot : nat) (st : RunState) :
  0 < (NumberOfBins self).1 * (NumberOfBins self).2 ->
  storage_wf (cells self) (Storage st) ->
  (slot < length (Storage st))%nat ->
  Forall (in_buffer self p) (request_voxels self p extent) ->
  completes (ThreadedRequestData self p extent slot st) (fun st' =>
    storage_wf (cells self) (Storage st') /\
    length (Storage st') = length (Storage st) /\
    storage_total (cells self) (Storage st')
    = count_offsets (storage_total (cells self) (Storage st))
        (offsets (selected_offset self p) (request_voxels self p extent))).
Proof.
  intros Hbins Hwf Hslot Hall. set (L := cells self) in *.
  unfold ThreadedRequestData.
  destruct (lookup_lt_is_Some_2 _ _ Hslot) as [td Htd].
  rewrite Htd. cbn [mbind option_bind].
  (* the worker's buffer, allocated on first use *)
  assert (Hbuf : exists outPtr,
    match td with Some data => Some data | None => allocate self end = Some outPtr
    /\ length outPtr = L
    /\ storage_wf L (<[slot := Some outPtr]> (Storage st))
    /\ storage_total L (<[slot := Some outPtr]> (Storage st))
       = storage_total L (Storage st)).
  { destruct td as [d | ].
    - exists d. split; [reflexivity | ].
      assert (Hd : length d = L).
      { unfold storage_wf in Hwf. rewrite Forall_lookup in Hwf.
        apply (Hwf slot (Some d) Htd). }
      rewrite list_insert_id by exact Htd. auto.
    - exists (replicate L 0). split; [apply allocate_cells; exact Hbins | ].
      split; [apply length_replicate | ].
      split; [apply storage_wf_insert; [exact Hwf | apply length_replicate] | ].
      apply storage_total_alloc; assumption. }
  destruct Hbuf as (outPtr & -> & Hlen & Hwf1 & Htot1).
  cbn [mbind option_bind].
  assert (Hl1 : <[slot := Some outPtr]> (Storage st) !! slot = Some (Some outPtr))
    by (apply list_lookup_insert_eq; exact Hslot).
  (* what a kernel that counts every voxel leaves behind *)
  assert (Hkernel : forall offset,
    (forall v, selected_offset self p v = offset v) ->
    forall vs, Forall (in_buffer self p) vs ->
    completes
      (outPtr' ← accumulate offset outPtr vs;
       Some (store slot outPtr' (store slot outPtr st)))
      (fun st' =>
         storage_wf L (Storage st') /\
         length (Storage st') = length (Storage st) /\
         storage_total L (Storage st')
         = count_offsets (storage_total L (Storage st))
             (offsets (selected_offset self p) vs))).
  { intros offset Hsel vs Hvs.
    rewrite accumulate_in_bounds.
    2:{ eapply Forall_impl; [exact Hvs | ].
        intros v (off & Hoff & Hr). exists off. rewrite <- Hsel, Hlen. auto. }
    cbn [mbind option_bind completes store Storage].
    rewrite <- (offsets_ext _ _ vs Hsel).
    split; [apply storage_wf_insert;
            [exact Hwf1 | rewrite length_count_offsets; exact Hlen] | ].
    split; [rewrite !length_insert; reflexivity | ].
    rewrite storage_total_count by exact Hl1. rewrite Htot1. reflexivity. }
  assert (Hidle : storage_wf L (<[slot := Some outPtr]> (Storage st)) /\
    length (<[slot := Some outPtr]> (Storage st)) = length (Storage st) /\
    storage_total L (<[slot := Some outPtr]> (Storage st))
    = count_offsets (storage_total L (Storage st))
        (offsets (selected_offset self p) [])).
  { split; [exact Hwf1 | ]. split; [apply length_insert | exact Htot1]. }
  unfold request_voxels in Hall |- *.
  destruct (clip_extent extent (Extent0 p) (Extent1 p)) as [ext | ];
    [ | exact Hidle].
  unfold kernel_runs in Hall |- *.
  destruct (prescaled_selected self p) eqn:Hpre.
  - rewrite ExecutePreScaled_accumulate. cbn [orb] in Hall |- *.
    apply Hkernel; [ | exact Hall].
    intros v. unfold selected_offset. rewrite Hpre. reflexivity.
  - cbn [orb] in Hall |- *.
    destruct (vtkTemplateAliasMacro false (ScalarType0 p));
      [destruct (vtkTemplateAliasMacro false (ScalarType1 p)) | ];
      cbn [andb] in Hall |- *; [ | exact Hidle | exact Hidle].
    rewrite Execute_accumulate. apply Hkernel; [ | exact Hall].
    intros v. unfold selected_offset. rewrite Hpre. reflexivity.
Qed.

Lemma count_offsets_app (h offs1 offs2 : list Z) :
  count_offsets h (offs1 ++ offs2) = count_offsets (count_offsets h offs1) offs2.
Proof. unfold count_offsets. apply foldl_app. Qed.

Lemma offsets_app (f : Pixel * Pixel -> option Z) (vs1 vs2 : list (Pixel * Pixel)) :
  offsets f (vs1 ++ vs2) = offsets f vs1 ++ offsets f vs2.
Proof. unfold offsets. apply fmap_app. Qed.

Section Runs.

Variable SplitExtent : Extent -> nat -> nat -> Extent * nat.

(** Tasks run one after the other; when every voxel they process has its
    offset inside the buffers, the run completes and the cell-wise sum of the
    workers' histograms counts every processed voxel once. *)
Lemma run_tasks_total (self : vtkImageMutualInformation) (p : Pipeline)
    (total : nat) (l : list (nat * nat)) (st : RunState) :
  0 < (NumberOfBins self).1 * (NumberOfBins self).2 ->
  storage_wf (cells self) (Storage st) ->
  Forall (fun t : nat * nat => (t.1 < length (Storage st))%nat) l ->
  Forall (in_buffer self p) (processed SplitExtent self p total l) ->
  completes (run_tasks SplitExtent self p total l st) (fun st' =>
    storage_wf (cells self) (Storage st') /\
    length (Storage st') = length (Storage st) /\
    storage_total (cells self) (Storage st')
    = count_offsets (storage_total (cells self) (Storage st))
        (offsets (selected_offset self p)
                 (processed SplitExtent self p total l))).
Proof.
  intros Hbins. revert st. induction l as [ | t l IH]; intros st Hwf Hslots Hall.
  - cbn. auto.
  - apply Forall_cons in Hslots. destruct Hslots as [Hslot Hslots].
    unfold processed in Hall. cbn [fmap list_fmap concat] in Hall.
    fold (processed SplitExtent self p total l) in Hall.
    apply Forall_app in Hall. destruct Hall as [Hhere Hrest].
    unfold run_tasks. cbn [foldl_opt].
    fold (run_tasks SplitExtent self p total l).
    unfold processed. cbn [fmap list_fmap concat].
    fold (processed SplitExtent self p total l).
    rewrite offsets_app, count_offsets_app.
    unfold vtkImageMutualInformationThreadedExecute.
    destruct (SplitExtent (Extent0 p) t.2 total) as [splitExt pieces].
    destruct ((t.2 <? pieces)%nat && ext_nonempty splitExt).
    + pose proof (ThreadedRequestData_total self p splitExt t.1 st
                    Hbins Hwf Hslot Hhere) as Hstep.
      destruct (ThreadedRequestData self p splitExt t.1 st) as [st1 | ];
        [ | contradiction].
      destruct Hstep as (Hwf1 & Hlen1 & Htot1).
      rewrite <- Htot1, <- Hlen1.
      rewrite <- Hlen1 in Hslots.
      exact (IH st1 Hwf1 Hslots Hrest).
    + cbn [offsets fmap list_fmap count_offsets foldl].
      apply IH; assumption.
Qed.

End Runs.

(** * The reduction reads the cell-wise sum of the storage *)

Lemma row_of_zip_with (nx iy : nat) (d T : list Z) :
  row_of nx iy (zip_with Z.add d T)
  = zip_with Z.add (row_of nx iy d) (row_of nx iy T).
Proof. unfold row_of. rewrite zip_with_drop, zip_with_take. reflexivity. Qed.

Lemma length_row_of (nx ny iy : nat) (d : list Z) :
  length d = (nx * ny)%nat -> (iy < ny)%nat -> length (row_of nx iy d) = nx.
Proof.
  intros Hd Hiy. unfold row_of. rewrite length_take, length_drop, Hd. nia.
Qed.

Lemma row_of_zeros (nx ny iy : nat) :
  (iy < ny)%nat -> row_of nx iy (replicate (nx * ny) 0) = replicate nx 0.
Proof.
  intros Hiy. unfold row_of. rewrite drop_replicate, take_replicate.
  f_equal. nia.
Qed.

Lemma sumZ_zip_with_add (a b : list Z) :
  length a = length b -> sumZ (zip_with Z.add a b) = sumZ a + sumZ b.
Proof.
  revert b. induction a as [ | x a IH]; intros [ | y b] Hlen;
    try discriminate; [reflexivity | ].
  cbn [zip_with]. rewrite !sumZ_cons, IH by (cbn in Hlen; lia). lia.
Qed.

Lemma sumZ_zeros (n : nat) : sumZ (replicate n 0) = 0.
Proof. induction n as [ | n IH]; [reflexivity | ]. cbn [replicate]. rewrite sumZ_cons, IH. lia. Qed.

Lemma zip_with_add_assoc (a b c : list Z) :
  zip_with Z.add (zip_with Z.add a b) c = zip_with Z.add a (zip_with Z.add b c).
Proof.
  revert b c. induction a as [ | x a IH]; intros [ | y b] [ | z c];
    try reflexivity.
  cbn [zip_with]. f_equal; [lia | apply IH].
Qed.

Lemma zip_with_add_zeros_r (n : nat) (a : list Z) :
  (length a <= n)%nat -> zip_with Z.add a (replicate n 0) = a.
Proof.
  revert n. induction a as [ | x a IH]; intros n Hn; [reflexivity | ].
  destruct n as [ | n]; [cbn in Hn; lia | ].
  cbn. f_equal; [lia | apply IH; cbn in Hn; lia].
Qed.

(** "add the contribution from thread j", over all workers. *)
Lemma add_contributions (nx ny iy : nat) (tls : list ThreadData)
    (acc : list Z) (a : Z) :
  storage_wf (nx * ny) tls -> (iy < ny)%nat -> length acc = nx ->
  foldl (add_contribution nx iy) (acc, a) tls
  = (zip_with Z.add acc (row_of nx iy (storage_total (nx * ny) tls)),
     a + sumZ (row_of nx iy (storage_total (nx * ny) tls))).
Proof.
  intros Hwf Hiy. revert acc a.
  induction Hwf as [ | td tls Htd Hwf IH]; intros acc a Hacc.
  - cbn [foldl storage_total foldr]. rewrite row_of_zeros by exact Hiy.
    rewrite zip_with_add_zeros_r by lia. rewrite sumZ_zeros. f_equal. lia.
  - cbn [foldl]. rewrite storage_total_cons.
    destruct td as [d | ]; cbn [add_contribution]; [ | apply IH; exact Hacc].
    cbn [fst snd].
    pose proof (length_row_of nx ny iy d Htd Hiy) as Hrd.
    pose proof (length_row_of nx ny iy _ (length_storage_total _ _ Hwf) Hiy) as HrT.
    rewrite IH by (rewrite length_zip_with_add; lia).
    rewrite row_of_zip_with, zip_with_add_assoc.
    rewrite sumZ_zip_with_add by lia. f_equal. lia.
Qed.

Lemma merged_row_total (nx ny iy : nat) (tls : list ThreadData) :
  storage_wf (nx * ny) tls -> (iy < ny)%nat ->
  merged_row nx tls iy = row_of nx iy (storage_total (nx * ny) tls) /\
  row_total nx tls iy = sumZ (row_of nx iy (storage_total (nx * ny) tls)).
Proof.
  intros Hwf Hiy. unfold merged_row, row_total.
  rewrite (add_contributions nx ny) by (try assumption; apply length_replicate).
  cbn [fst snd].
  rewrite zip_with_add_zeros_l; [split; [reflexivity | lia] | ].
  rewrite (length_row_of nx ny); [lia | | exact Hiy].
  apply length_storage_total. exact Hwf.
Qed.

Lemma concat_rows (nx ny : nat) (T : list Z) :
  concat ((fun iy => row_of nx iy T) <$> seq 0 ny) = take (nx * ny) T.
Proof.
  induction ny as [ | ny IH].
  - rewrite Nat.mul_0_r. reflexivity.
  - rewrite seq_S, fmap_app, concat_app, IH. cbn [fmap list_fmap concat].
    rewrite app_nil_r. unfold row_of. rewrite take_take_drop. f_equal. lia.
Qed.

Lemma sumZ_column_fold (rows : list (list Z)) (acc : list Z) :
  Forall (fun r => length r = length acc) rows ->
  sumZ (foldl (zip_with Z.add) acc rows) = sumZ acc + sumZ (concat rows).
Proof.
  intros Hrows. revert acc Hrows.
  induction rows as [ | r rows IH]; intros acc Hrows.
  - cbn [foldl concat]. change (sumZ []) with 0. lia.
  - apply Forall_cons in Hrows. destruct Hrows as [Hr Hrows].
    cbn [foldl concat]. rewrite IH.
    + rewrite sumZ_zip_with_add, sumZ_app by lia. lia.
    + eapply Forall_impl; [exact Hrows | ].
      intros r' Hr'. cbn beta in Hr' |- *. rewrite length_zip_with_add; lia.
Qed.

Lemma bins_cells (self : vtkImageMutualInformation) :
  0 < (NumberOfBins self).1 -> 0 < (NumberOfBins self).2 ->
  cells self
  = (Z.to_nat (NumberOfBins self).1 * Z.to_nat (NumberOfBins self).2)%nat.
Proof. intros Hx Hy. unfold cells. lia. Qed.

(** The merged histogram is the cell-wise sum of the workers' histograms, cut
    into rows of [numBins[0]] cells. *)
Lemma joint_histogram_total (self : vtkImageMutualInformation)
    (tls : list ThreadData) :
  0 < (NumberOfBins self).1 -> 0 < (NumberOfBins self).2 ->
  storage_wf (cells self) tls ->
  joint_histogram self tls
  = (fun iy => row_of (Z.to_nat (NumberOfBins self).1) iy
                      (storage_total (cells self) tls))
      <$> seq 0 (Z.to_nat (NumberOfBins self).2) /\
  row_totals self tls
  = (fun iy => sumZ (row_of (Z.to_nat (NumberOfBins self).1) iy
                            (storage_total (cells self) tls)))
      <$> seq 0 (Z.to_nat (NumberOfBins self).2).
Proof.
  intros Hx Hy Hwf. rewrite (bins_cells self Hx Hy) in *.
  unfold joint_histogram, row_totals.
  split; apply list_fmap_ext; intros i iy Hi;
    apply lookup_seq in Hi; destruct Hi as [-> Hi];
    apply merged_row_total; assumption.
Qed.

Lemma total_count_storage (self : vtkImageMutualInformation)
    (tls : list ThreadData) :
  0 < (NumberOfBins self).1 -> 0 < (NumberOfBins self).2 ->
  storage_wf (cells self) tls ->
  total_count self tls = sumZ (storage_total (cells self) tls).
Proof.
  intros Hx Hy Hwf. unfold total_count, column_totals.
  destruct (joint_histogram_total self tls Hx Hy Hwf) as [-> _].
  pose proof (length_storage_total _ _ Hwf) as HT.
  rewrite (bins_cells self Hx Hy) in *.
  rewrite sumZ_column_fold.
  - rewrite sumZ_zeros, concat_rows, firstn_all2 by lia. lia.
  - apply Forall_fmap, Forall_forall. intros iy Hiy.
    apply elem_of_seq in Hiy. cbn.
    rewrite length_replicate. apply (length_row_of _ _ _ _ HT). lia.
Qed.

(** * Every processed voxel is counted once *)

Lemma sumZ_alter_succ (k : nat) (h : list Z) :
  (k < length h)%nat -> sumZ (alter Z.succ k h) = sumZ h + 1.
Proof.
  revert k. induction h as [ | x h IH]; intros k Hk; [cbn in Hk; lia | ].
  destruct k as [ | k].
  - change (alter Z.succ 0%nat (x :: h)) with (Z.succ x :: h).
    rewrite !sumZ_cons. lia.
  - change (alter Z.succ (S k) (x :: h)) with (x :: alter Z.succ k h).
    rewrite !sumZ_cons, IH by (cbn in Hk; lia). lia.
Qed.

Lemma sumZ_count_offsets (offs h : list Z) :
  Forall (fun off => 0 <= off < Z.of_nat (length h)) offs ->
  sumZ (count_offsets h offs) = sumZ h + Z.of_nat (length offs).
Proof.
  revert h. induction offs as [ | off offs IH]; intros h Hall.
  - unfold count_offsets. cbn [foldl length]. lia.
  - apply Forall_cons in Hall. destruct Hall as [Hoff Hall].
    unfold count_offsets. cbn [foldl].
    fold (count_offsets (alter Z.succ (Z.to_nat off) h) offs).
    rewrite IH by (rewrite length_alter; exact Hall).
    rewrite sumZ_alter_succ by lia. cbn [length]. lia.
Qed.

Lemma offsets_in_range (self : vtkImageMutualInformation) (p : Pipeline)
    (vs : list (Pixel * Pixel)) :
  Forall (in_buffer self p) vs ->
  Forall (fun off => 0 <= off < Z.of_nat (cells self))
         (offsets (selected_offset self p) vs).
Proof.
  intros Hall. unfold offsets. apply Forall_fmap.
  eapply Forall_impl; [exact Hall | ].
  intros v (off & Hoff & Hr). unfold compose. rewrite Hoff. exact Hr.
Qed.

Lemma storage_total_initial (L slots : nat) :
  storage_total L (replicate slots None) = replicate L 0.
Proof.
  induction slots as [ | n IH]; [reflexivity | ].
  cbn [replicate]. rewrite storage_total_cons. exact IH.
Qed.

Lemma storage_wf_initial (L slots : nat) : storage_wf L (replicate slots None).
Proof. apply Forall_replicate. exact I. Qed.

(** The offsets of the generic kernel stay inside the buffer exactly because
    the row stride [numBins[1]] does not exceed the row length [numBins[0]]
    the buffer was allocated with. *)
Lemma affine_offset_in_range (numBins : Z * Z) (binOrigin binSpacing : float * float)
    (v : Pixel * Pixel) :
  1 <= numBins.2 <= numBins.1 -> numBins.1 * numBins.2 <= INT_MAX ->
  exists off, affine_offset numBins binOrigin binSpacing v = Some off
              /\ 0 <= off < numBins.1 * numBins.2.
Proof.
  intros Hb Hmax. unfold affine_offset, kernel_bin.
  assert (Hi : numBins.1 <= INT_MAX) by nia.
  destruct (affine_bin_range (- binOrigin.1) (1 / binSpacing.1) (to_double v.1)
              (numBins.1 - 1) ltac:(lia)) as (xi & -> & Hxi).
  destruct (affine_bin_range (- binOrigin.2) (1 / binSpacing.2) (to_double v.2)
              (numBins.2 - 1) ltac:(lia)) as (yi & -> & Hyi).
  cbn [mbind option_bind]. unfold cell_offset, int_range.
  assert (Hy : 0 <= yi * numBins.2 <= (numBins.2 - 1) * numBins.1) by nia.
  replace ((INT_MIN <=? yi * numBins.2) && (yi * numBins.2 <=? INT_MAX)) with true.
  - eexists. split; [reflexivity | ]. nia.
  - symmetry. apply andb_true_iff. unfold INT_MIN.
    split; apply Z.leb_le; nia.
Qed.

Lemma prescaled_offset_in_range (numBins : Z * Z) (v : Pixel * Pixel) :
  1 <= numBins.2 <= numBins.1 -> numBins.1 * numBins.2 <= INT_MAX ->
  pixel_of_type VTK_UNSIGNED_CHAR v.1 -> pixel_of_type VTK_UNSIGNED_CHAR v.2 ->
  exists off, prescaled_offset numBins v = Some off
              /\ 0 <= off < numBins.1 * numBins.2.
Proof.
  intros Hb Hmax H1 H2. unfold prescaled_offset.
  destruct (H1 eq_refl) as (x & -> & Hx). destruct (H2 eq_refl) as (y & -> & Hy).
  unfold read_uchar.
  replace ((0 <=? x) && (x <=? 255)) with true
    by (symmetry; apply andb_true_iff; split; apply Z.leb_le; lia).
  replace ((0 <=? y) && (y <=? 255)) with true
    by (symmetry; apply andb_true_iff; split; apply Z.leb_le; lia).
  cbn [mbind option_bind].
  set (xi := if x <? numBins.1 - 1 then x else numBins.1 - 1).
  set (yi := if y <? numBins.2 - 1 then y else numBins.2 - 1).
  assert (Hxi : 0 <= xi <= numBins.1 - 1) by (unfold xi; destruct (Z.ltb_spec x (numBins.1 - 1)); lia).
  assert (Hyi : 0 <= yi <= numBins.2 - 1) by (unfold yi; destruct (Z.ltb_spec y (numBins.2 - 1)); lia).
  unfold cell_offset, int_range.
  assert (Hyb : 0 <= yi * numBins.2 <= (numBins.2 - 1) * numBins.1) by nia.
  replace ((INT_MIN <=? yi * numBins.2) && (yi * numBins.2 <=? INT_MAX)) with true.
  - eexists. split; [reflexivity | ]. nia.
  - symmetry. apply andb_true_iff. unfold INT_MIN.
    split; apply Z.leb_le; nia.
Qed.

Lemma prescaled_selected_types (self : vtkImageMutualInformation) (p : Pipeline) :
  prescaled_selected self p = true ->
  ScalarType0 p = VTK_UNSIGNED_CHAR /\ ScalarType1 p = VTK_UNSIGNED_CHAR.
Proof.
  unfold prescaled_selected. rewrite !andb_true_iff.
  intros [[_ H0] H1].
  destruct (ScalarType0 p); try discriminate;
    destruct (ScalarType1 p); try discriminate. auto.
Qed.

Lemma request_voxels_in_buffer (self : vtkImageMutualInformation) (p : Pipeline)
    (extent : Extent) :
  1 <= (NumberOfBins self).2 <= (NumberOfBins self).1 ->
  (NumberOfBins self).1 * (NumberOfBins self).2 <= INT_MAX ->
  well_typed p ->
  Forall (in_buffer self p) (request_voxels self p extent).
Proof.
  intros Hb Hmax Hty. unfold request_voxels.
  destruct (clip_extent extent (Extent0 p) (Extent1 p)) as [ext | ];
    [ | constructor].
  destruct (kernel_runs self p); [ | constructor].
  eapply Forall_impl; [apply (Hty ext) | ].
  intros v [H1 H2]. unfold in_buffer, selected_offset, cells.
  rewrite Z2Nat.id by nia.
  destruct (prescaled_selected self p) eqn:Hpre.
  - destruct (prescaled_selected_types self p Hpre) as [E0 E1].
    rewrite E0 in H1. rewrite E1 in H2.
    apply prescaled_offset_in_range; assumption.
  - apply affine_offset_in_range; assumption.
Qed.

Section Counting.

Variable SplitExtent : Extent -> nat -> nat -> Extent * nat.

Lemma processed_in_buffer (self : vtkImageMutualInformation) (p : Pipeline)
    (total : nat) (l : list (nat * nat)) :
  1 <= (NumberOfBins self).2 <= (NumberOfBins self).1 ->
  (NumberOfBins self).1 * (NumberOfBins self).2 <= INT_MAX ->
  well_typed p ->
  Forall (in_buffer self p) (processed SplitExtent self p total l).
Proof.
  intros Hb Hmax Hty. unfold processed.
  induction l as [ | t l IH]; [constructor | ].
  cbn [fmap list_fmap concat]. apply Forall_app. split; [ | exact IH].
  destruct (SplitExtent (Extent0 p) t.2 total) as [splitExt pieces].
  destruct ((t.2 <? pieces)%nat && ext_nonempty splitExt); [ | constructor].
  apply request_voxels_in_buffer; assumption.
Qed.

(** Both strategies hand every task a storage slot that exists. *)
Lemma tasks_slots (p : Pipeline) (numberOfThreads : nat) (s : Strategy) :
  let '(total, slots, l) := tasks SplitExtent p numberOfThreads s in
  Forall (fun t : nat * nat => (t.1 < slots)%nat) l.
Proof.
  destruct s as [ | schedule]; cbn [tasks].
  - apply Forall_fmap, Forall_forall. intros i Hi.
    apply elem_of_seq in Hi. cbn. lia.
  - apply Forall_forall. intros t Ht.
    assert (t.1 ∈ schedule.*1) by (apply list_elem_of_fmap; eauto).
    pose proof (max_list_elem_of_le _ _ H). lia.
Qed.

End Counting.

(** * The pre-scaled kernel against the generic one *)

Lemma accumulate_ext (f g : Pixel * Pixel -> option Z)
    (vs : list (Pixel * Pixel)) (outPtr : list Z) :
  Forall (fun v => f v = g v) vs -> accumulate f outPtr vs = accumulate g outPtr vs.
Proof.
  intros Hall. revert outPtr. induction Hall as [ | v vs Hv _ IH]; intros outPtr;
    [reflexivity | ].
  unfold accumulate in *. cbn [foldl_opt]. rewrite Hv.
  destruct (off ← g v; increment outPtr off); [apply IH | reflexivity].
Qed.

(** Under the identity mapping a byte is scaled to itself. *)
Lemma byte_identity_scaling (z : Z) :
  0 <= z <= 255 -> ((of_int z + - 0) * (1 / 1))%float = of_int z.
Proof.
  intros Hz.
  assert (H : forallb (fun n => PrimFloat.Leibniz.eqb
                         ((of_int (Z.of_nat n) + - 0) * (1 / 1))%float
                         (of_int (Z.of_nat n))) (seq 0 256) = true)
    by (vm_compute; reflexivity).
  rewrite forallb_forall in H. specialize (H (Z.to_nat z)).
  rewrite Z2Nat.id in H by lia.
  apply FloatAxioms.Leibniz.eqb_spec, H, in_seq. lia.
Qed.

Lemma clamp_of_int (z N : Z) :
  0 <= z <= 255 -> 0 <= N <= INT_MAX ->
  clamp 0 (of_int N) (of_int z) = of_int (if z <? N then z else N).
Proof.
  intros Hz HN. pose proof INT_MAX_lt. unfold clamp.
  assert (H0 : (if (0 <? of_int z)%float then of_int z else 0%float) = of_int z).
  { change 0%float with (of_int 0) at 1. rewrite of_int_ltb by lia.
    destruct (Z.ltb_spec 0 z); [reflexivity | ].
    replace z with 0 by lia. reflexivity. }
  rewrite H0, of_int_ltb by lia.
  destruct (z <? N); reflexivity.
Qed.

Lemma kernel_bin_identity (numBins z : Z) :
  0 <= z <= 255 -> 1 <= numBins <= INT_MAX ->
  kernel_bin numBins 0 1 (of_int z)
  = Some (if z <? numBins - 1 then z else numBins - 1).
Proof.
  intros Hz HN. unfold kernel_bin. rewrite affine_bin_clamp.
  rewrite byte_identity_scaling, clamp_of_int by lia.
  apply cast_of_int_half.
  destruct (Z.ltb_spec z (numBins - 1)); lia.
Qed.

Lemma offsets_agree_on_identity (numBins : Z * Z) (v : Pixel * Pixel) :
  1 <= numBins.1 <= INT_MAX -> 1 <= numBins.2 <= INT_MAX ->
  pixel_of_type VTK_UNSIGNED_CHAR v.1 -> pixel_of_type VTK_UNSIGNED_CHAR v.2 ->
  prescaled_offset numBins v
  = affine_offset numBins (0%float, 0%float) (1%float, 1%float) v.
Proof.
  intros Hx Hy H1 H2.
  destruct (H1 eq_refl) as (x & Ex & Hxr). destruct (H2 eq_refl) as (y & Ey & Hyr).
  unfold prescaled_offset, affine_offset. rewrite Ex, Ey.
  cbn [to_double read_uchar fst snd].
  replace ((0 <=? x) && (x <=? 255)) with true
    by (symmetry; apply andb_true_iff; split; apply Z.leb_le; lia).
  replace ((0 <=? y) && (y <=? 255)) with true
    by (symmetry; apply andb_true_iff; split; apply Z.leb_le; lia).
  rewrite !kernel_bin_identity by assumption.
  reflexivity.
Qed.

(** C5, as amended.  Whenever the pre-scaled fast kernel is selected and the
    bin mapping is exactly the identity (binOrigin = 0 and binSpacing = 1 on
    both axes, with 1 <= numBins[k] <= INT_MAX), the histogram it produces is
    identical to the one the generic affine kernel produces for the same
    inputs, mask, extent and starting buffer. *)
Theorem prescaled_kernel_matches_generic_on_identity
    (self : vtkImageMutualInformation) (p : Pipeline) (extent : Extent)
    (outPtr : list Z) :
  prescaled_selected self p = true ->
  BinOrigin self = (0%float, 0%float) ->
  BinSpacing self = (1%float, 1%float) ->
  1 <= (NumberOfBins self).1 <= INT_MAX ->
  1 <= (NumberOfBins self).2 <= INT_MAX ->
  well_typed p ->
  vtkImageMutualInformationExecutePreScaled
    (StencilSpans p extent) outPtr (NumberOfBins self)
  = vtkImageMutualInformationExecute
      (StencilSpans p extent) outPtr (NumberOfBins self)
      (BinOrigin self) (BinSpacing self).
Proof.
  intros Hsel Ho Hs Hx Hy Hty.
  destruct (prescaled_selected_types self p Hsel) as [E0 E1].
  rewrite ExecutePreScaled_accumulate, Execute_accumulate, Ho, Hs.
  apply accumulate_ext.
  eapply Forall_impl; [apply (Hty extent) | ].
  intros v [H1 H2]. rewrite E0 in H1. rewrite E1 in H2.
  apply offsets_agree_on_identity; assumption.
Qed.

(** * Exchanging the two inputs *)

Lemma add_comm (x y : float) : (x + y)%float = (y + x)%float.
Proof.
  apply Prim2SF_inj. rewrite !FloatAxioms.add_spec.
  destruct (Prim2SF x) as [sx | sx | | sx mx ex];
    destruct (Prim2SF y) as [sy | sy | | sy my ey];
    try destruct sx; try destruct sy; try reflexivity.
  all: unfold SF64add, SFadd; rewrite (Z.min_comm ex ey), Z.add_comm;
    reflexivity.
Qed.

Lemma in_stencil_swap (spans : list Span) :
  in_stencil (swap_span <$> spans) = prod_swap <$> in_stencil spans.
Proof.
  induction spans as [ | s spans IH]; [reflexivity | ].
  cbn [fmap list_fmap in_stencil]. rewrite fmap_app.
  fold (swap_span <$> spans). rewrite IH.
  destruct s as [[ | ] vs]; reflexivity.
Qed.

Lemma prescaled_selected_swap (self : vtkImageMutualInformation) (p : Pipeline) :
  symmetric_bins self ->
  prescaled_selected self (swap_inputs p) = prescaled_selected self p.
Proof.
  intros (Hn & Ho & Hs). unfold prescaled_selected. cbn [swap_inputs ScalarType0 ScalarType1].
  rewrite <- !andb_assoc. do 4 f_equal. apply andb_comm.
Qed.

Lemma kernel_runs_swap (self : vtkImageMutualInformation) (p : Pipeline) :
  symmetric_bins self -> kernel_runs self (swap_inputs p) = kernel_runs self p.
Proof.
  intros Hsym. unfold kernel_runs. rewrite prescaled_selected_swap by exact Hsym.
  cbn [swap_inputs ScalarType0 ScalarType1]. f_equal. apply andb_comm.
Qed.

Lemma request_voxels_swap (self : vtkImageMutualInformation) (p : Pipeline)
    (extent : Extent) :
  symmetric_bins self -> Extent0 p = Extent1 p ->
  request_voxels self (swap_inputs p) extent
  = prod_swap <$> request_voxels self p extent.
Proof.
  intros Hsym Hext. unfold request_voxels.
  rewrite kernel_runs_swap by exact Hsym.
  cbn [swap_inputs Extent0 Extent1 StencilSpans]. rewrite <- Hext.
  destruct (clip_extent extent (Extent0 p) (Extent0 p)); [ | reflexivity].
  destruct (kernel_runs self p); [apply in_stencil_swap | reflexivity].
Qed.

Lemma well_typed_swap (p : Pipeline) : well_typed p -> well_typed (swap_inputs p).
Proof.
  intros Hty extent. cbn [swap_inputs ScalarType0 ScalarType1 StencilSpans].
  rewrite in_stencil_swap. apply Forall_fmap.
  eapply Forall_impl; [apply (Hty extent) | ].
  intros [a b] [H1 H2]. cbn. auto.
Qed.

Section Swapping.

Variable SplitExtent : Extent -> nat -> nat -> Extent * nat.

Lemma processed_swap (self : vtkImageMutualInformation) (p : Pipeline)
    (total : nat) (l : list (nat * nat)) :
  symmetric_bins self -> Extent0 p = Extent1 p ->
  processed SplitExtent self (swap_inputs p) total l
  = prod_swap <$> processed SplitExtent self p total l.
Proof.
  intros Hsym Hext. unfold processed.
  induction l as [ | t l IH]; [reflexivity | ].
  cbn [fmap list_fmap concat]. rewrite fmap_app.
  fold (fmap (M := list)
          (fun t : nat * nat =>
             let '(splitExt, pieces) := SplitExtent (Extent0 (swap_inputs p)) t.2 total in
             if (t.2 <? pieces)%nat && ext_nonempty splitExt
             then request_voxels self (swap_inputs p) splitExt else []) l).
  fold (fmap (M := list)
          (fun t : nat * nat =>
             let '(splitExt, pieces) := SplitExtent (Extent0 p) t.2 total in
             if (t.2 <? pieces)%nat && ext_nonempty splitExt
             then request_voxels self p splitExt else []) l).
  rewrite IH. f_equal.
  cbn [swap_inputs Extent0]. rewrite <- Hext.
  destruct (SplitExtent (Extent0 p) t.2 total) as [splitExt pieces].
  destruct ((t.2 <? pieces)%nat && ext_nonempty splitExt); [ | reflexivity].
  apply request_voxels_swap; assumption.
Qed.

Lemma tasks_swap (p : Pipeline) (numberOfThreads : nat) (s : Strategy) :
  Extent0 p = Extent1 p ->
  tasks SplitExtent (swap_inputs p) numberOfThreads s
  = tasks SplitExtent p numberOfThreads s.
Proof.
  intros Hext. destruct s; cbn [tasks swap_inputs Extent0]; [reflexivity | ].
  rewrite <- Hext. reflexivity.
Qed.

End Swapping.

(** ** Cells of a buffer after counting *)

Lemma lookup_count_offsets (offs h : list Z) (k : nat) :
  count_offsets h offs !! k
  = (fun c => c + Z.of_nat (count_at k offs)) <$> h !! k.
Proof.
  revert h. induction offs as [ | off offs IH]; intros h.
  - unfold count_at. cbn. destruct (h !! k) as [c | ]; cbn; [ | reflexivity].
    f_equal. lia.
  - cbn [count_offsets foldl].
    fold (count_offsets (alter Z.succ (Z.to_nat off) h) offs).
    rewrite IH, list_lookup_alter. unfold count_at. rewrite filter_cons.
    destruct (decide (Z.to_nat off = k)) as [E | Hne]; [ | reflexivity].
    rewrite E. destruct (h !! k) as [c | ]; cbn; [ | reflexivity].
    f_equal. lia.
Qed.

Lemma offset_unique (N a b c d : Z) :
  0 <= b < N -> 0 <= d < N -> a * N + b = c * N + d -> a = c /\ b = d.
Proof. intros Hb Hd E. assert (a = c) by nia. subst. lia. Qed.

Lemma fmap_seq_ext {A : Type} (f g : nat -> A) (n : nat) :
  (forall i, (i < n)%nat -> f i = g i) -> f <$> seq 0 n = g <$> seq 0 n.
Proof.
  intros H. apply Forall_fmap_ext_1, Forall_forall.
  intros i Hi%elem_of_seq. apply H. lia.
Qed.

Lemma cell_offset_in_range (xi yi N : Z) :
  0 <= xi < N -> 0 <= yi < N -> N * N <= INT_MAX ->
  cell_offset yi N xi = Some (yi * N + xi).
Proof.
  intros Hx Hy Hmax. unfold cell_offset, int_range.
  replace ((INT_MIN <=? yi * N) && (yi * N <=? INT_MAX)) with true; [reflexivity | ].
  symmetry. apply andb_true_iff. unfold INT_MIN. split; apply Z.leb_le; nia.
Qed.

Lemma affine_offset_mirrored (N : Z) (o s : float) (v : Pixel * Pixel) :
  1 <= N -> N * N <= INT_MAX ->
  mirrored N (affine_offset (N, N) (o, o) (s, s))
             (affine_offset (N, N) (o, o) (s, s)) v.
Proof.
  intros HN Hmax. destruct v as [a b]. unfold mirrored, affine_offset, kernel_bin.
  cbn [fst snd prod_swap].
  assert (Hi : N <= INT_MAX) by nia.
  destruct (affine_bin_range (- o) (1 / s) (to_double a) (N - 1) ltac:(lia))
    as (xi & -> & Hxi).
  destruct (affine_bin_range (- o) (1 / s) (to_double b) (N - 1) ltac:(lia))
    as (yi & -> & Hyi).
  cbn [mbind option_bind]. exists xi, yi.
  rewrite !cell_offset_in_range by lia. repeat split; lia.
Qed.

Lemma prescaled_offset_mirrored (N : Z) (v : Pixel * Pixel) :
  1 <= N -> N * N <= INT_MAX ->
  pixel_of_type VTK_UNSIGNED_CHAR v.1 -> pixel_of_type VTK_UNSIGNED_CHAR v.2 ->
  mirrored N (prescaled_offset (N, N)) (prescaled_offset (N, N)) v.
Proof.
  intros HN Hmax H1 H2. destruct v as [a b]. cbn [fst snd] in H1, H2.
  destruct (H1 eq_refl) as (x & -> & Hx). destruct (H2 eq_refl) as (y & -> & Hy).
  unfold mirrored, prescaled_offset, read_uchar. cbn [fst snd prod_swap].
  replace ((0 <=? x) && (x <=? 255)) with true
    by (symmetry; apply andb_true_iff; split; apply Z.leb_le; lia).
  replace ((0 <=? y) && (y <=? 255)) with true
    by (symmetry; apply andb_true_iff; split; apply Z.leb_le; lia).
  cbn [mbind option_bind].
  set (xi := if x <? N - 1 then x else N - 1).
  set (yi := if y <? N - 1 then y else N - 1).
  assert (Hxi : 0 <= xi < N) by (unfold xi; destruct (Z.ltb_spec x (N - 1)); lia).
  assert (Hyi : 0 <= yi < N) by (unfold yi; destruct (Z.ltb_spec y (N - 1)); lia).
  exists xi, yi. rewrite !cell_offset_in_range by lia. repeat split; lia.
Qed.

Lemma selected_offset_mirrored (self : vtkImageMutualInformation) (p : Pipeline)
    (v : Pixel * Pixel) :
  symmetric_bins self -> 1 <= (NumberOfBins self).1 ->
  (NumberOfBins self).1 * (NumberOfBins self).1 <= INT_MAX ->
  pixel_of_type (ScalarType0 p) v.1 -> pixel_of_type (ScalarType1 p) v.2 ->
  mirrored (NumberOfBins self).1 (selected_offset self p)
           (selected_offset self (swap_inputs p)) v.
Proof.
  intros Hsym HN Hmax H1 H2. unfold mirrored, selected_offset.
  rewrite prescaled_selected_swap by exact Hsym.
  destruct Hsym as (Hn & Ho & Hs).
  destruct (NumberOfBins self) as [N N']. destruct (BinOrigin self) as [o o'].
  destruct (BinSpacing self) as [s s']. cbn [fst snd] in *. subst N' o' s'.
  destruct (prescaled_selected _ p) eqn:Hpre.
  - destruct (prescaled_selected_types _ p Hpre) as [E0 E1].
    rewrite E0 in H1. rewrite E1 in H2.
    apply prescaled_offset_mirrored; assumption.
  - apply affine_offset_mirrored; assumption.
Qed.

Lemma count_at_mirrored (N : Z) (f g : Pixel * Pixel -> option Z)
    (vs : list (Pixel * Pixel)) (ix iy : nat) :
  Z.of_nat ix < N -> Z.of_nat iy < N ->
  Forall (mirrored N f g) vs ->
  count_at (Z.to_nat N * iy + ix) (offsets g (prod_swap <$> vs))
  = count_at (Z.to_nat N * ix + iy) (offsets f vs).
Proof.
  intros Hix Hiy Hvs. unfold count_at.
  induction Hvs as [ | v vs (xi & yi & Hxi & Hyi & Ef & Eg) _ IH]; [reflexivity | ].
  cbn [fmap list_fmap offsets]. rewrite Ef, Eg. cbn [default from_option id].
  rewrite !filter_cons.
  fold (fmap (M := list) (@prod_swap Pixel Pixel) vs).
  fold (offsets g (prod_swap <$> vs)). fold (offsets f vs).
  destruct (decide (Z.to_nat (xi * N + yi) = (Z.to_nat N * iy + ix)%nat)) as [E1 | E1];
    destruct (decide (Z.to_nat (yi * N + xi) = (Z.to_nat N * ix + iy)%nat)) as [E2 | E2];
    cbn [length]; [f_equal; exact IH | exfalso | exfalso | exact IH].
  - apply E2.
    assert (E : xi * N + yi = Z.of_nat iy * N + Z.of_nat ix) by nia.
    apply offset_unique in E; [ | lia | lia]. nia.
  - apply E1.
    assert (E : yi * N + xi = Z.of_nat ix * N + Z.of_nat iy) by nia.
    apply offset_unique in E; [ | lia | lia]. nia.
Qed.

(** ** Rows, columns and cells of the merged histogram *)

Lemma lookup_row_of (nx iy j : nat) (T : list Z) :
  (j < nx)%nat -> row_of nx iy T !! j = T !! (nx * iy + j)%nat.
Proof.
  intros Hj. unfold row_of. rewrite lookup_take, lookup_drop.
  destruct (decide (j < nx)%nat); [reflexivity | lia].
Qed.

Lemma row_of_cells (nx ny iy : nat) (T : list Z) :
  length T = (nx * ny)%nat -> (iy < ny)%nat ->
  row_of nx iy T = (fun j => default 0 (T !! (nx * iy + j)%nat)) <$> seq 0 nx.
Proof.
  intros HT Hiy. apply list_eq. intros j. rewrite list_lookup_fmap.
  destruct (decide (j < nx)%nat) as [Hj | Hj].
  - rewrite lookup_row_of, lookup_seq_lt by exact Hj. cbn.
    destruct (lookup_lt_is_Some_2 T (nx * iy + j)) as [c ->]; [nia | reflexivity].
  - rewrite lookup_seq_ge by lia. apply lookup_ge_None_2.
    rewrite (length_row_of nx ny) by assumption. lia.
Qed.

Lemma replicate_seq (n : nat) : replicate n 0 = (fun _ => 0) <$> seq 0 n.
Proof.
  apply list_eq. intros j. rewrite list_lookup_fmap.
  destruct (decide (j < n)%nat) as [Hj | Hj].
  - rewrite lookup_seq_lt by exact Hj. apply lookup_replicate_2. exact Hj.
  - rewrite lookup_seq_ge by lia. apply lookup_ge_None_2.
    rewrite length_replicate. lia.
Qed.

Lemma zip_with_add_fmap (f g : nat -> Z) (l : list nat) :
  zip_with Z.add (f <$> l) (g <$> l) = (fun j => f j + g j) <$> l.
Proof.
  induction l as [ | x l IH]; [reflexivity | ].
  cbn [fmap list_fmap zip_with]. f_equal. exact IH.
Qed.

Lemma column_fold (M : nat -> nat -> Z) (n : nat) (rows : list nat)
    (A : nat -> Z) :
  foldl (zip_with Z.add) (A <$> seq 0 n)
        ((fun i => (fun j => M i j) <$> seq 0 n) <$> rows)
  = (fun j => A j + sumZ ((fun i => M i j) <$> rows)) <$> seq 0 n.
Proof.
  revert A. induction rows as [ | i rows IH]; intros A.
  - cbn [fmap list_fmap foldl]. apply fmap_seq_ext. intros j _.
    change (sumZ []) with 0. lia.
  - cbn [fmap list_fmap foldl]. rewrite zip_with_add_fmap.
    fold (fmap (M := list) (fun i => (fun j => M i j) <$> seq 0 n) rows).
    rewrite IH. apply fmap_seq_ext. intros j _.
    fold (fmap (M := list) (fun i => M i j) rows). rewrite sumZ_cons. lia.
Qed.

(** The marginal histograms, cell by cell of the summed storage. *)
Lemma marginals_of_total (self : vtkImageMutualInformation)
    (tls : list ThreadData) :
  0 < (NumberOfBins self).1 -> 0 < (NumberOfBins self).2 ->
  storage_wf (cells self) tls ->
  let nx := Z.to_nat (NumberOfBins self).1 in
  let ny := Z.to_nat (NumberOfBins self).2 in
  let M := fun i j => default 0 (storage_total (cells self) tls !! (nx * i + j)%nat) in
  joint_histogram self tls = (fun i => (fun j => M i j) <$> seq 0 nx) <$> seq 0 ny /\
  column_totals self tls
  = (fun j => sumZ ((fun i => M i j) <$> seq 0 ny)) <$> seq 0 nx /\
  row_totals self tls
  = (fun i => sumZ ((fun j => M i j) <$> seq 0 nx)) <$> seq 0 ny.
Proof.
  intros Hx Hy Hwf nx ny M.
  destruct (joint_histogram_total self tls Hx Hy Hwf) as [HJ HR].
  assert (HT : length (storage_total (cells self) tls) = (nx * ny)%nat)
    by (rewrite length_storage_total by exact Hwf; apply bins_cells; assumption).
  fold nx ny in HJ, HR.
  assert (HJ' : joint_histogram self tls
                = (fun i => (fun j => M i j) <$> seq 0 nx) <$> seq 0 ny).
  { rewrite HJ. apply fmap_seq_ext. intros i Hi.
    apply (row_of_cells nx ny); assumption. }
  split; [exact HJ' | split].
  - unfold column_totals. rewrite HJ'. fold nx. rewrite replicate_seq, column_fold.
    apply fmap_seq_ext. intros j _. lia.
  - rewrite HR. apply fmap_seq_ext. intros i Hi.
    rewrite (row_of_cells nx ny) by assumption. reflexivity.
Qed.

Lemma cell_of_rows (M : nat -> nat -> Z) (n i j : nat) :
  (i < n)%nat -> (j < n)%nat ->
  cell ((fun i => (fun j => M i j) <$> seq 0 n) <$> seq 0 n) i j = M i j.
Proof.
  intros Hi Hj. unfold cell.
  rewrite list_lookup_fmap, lookup_seq_lt by exact Hi. cbn.
  rewrite list_lookup_fmap, lookup_seq_lt by exact Hj. reflexivity.
Qed.

(** * The emitted histogram image *)

Section Emitted.

Variable log : float -> float.
Variable OutValue : Type.
Variable static_cast : ScalarType -> Z -> OutValue.

(** With a supported output type the row loop emits, for each requested row,
    the requested columns of the merged row, cast to the output type. *)
Lemma reduce_rows_output (self : vtkImageMutualInformation) (upd : Extent)
    (tls : list ThreadData) (rows : list nat) (r0 : Reduction OutValue) :
  vtkTemplateAliasMacro true (OutputScalarType self) = true ->
  outPtr OutValue (foldl (reduce_row log OutValue static_cast self upd tls) r0 rows)
  = outPtr OutValue r0
    ++ (static_cast (OutputScalarType self)
          <$> concat ((fun iy =>
                if row_requested upd iy
                then take (Z.to_nat ((ext_x upd).2 - (ext_x upd).1 + 1))
                          (drop (Z.to_nat (ext_x upd).1)
                                (merged_row (Z.to_nat (NumberOfBins self).1) tls iy))
                else []) <$> rows)).
Proof.
  intros Hsup. revert r0. induction rows as [ | iy rows IH]; intros r0.
  - cbn. rewrite app_nil_r. reflexivity.
  - cbn [foldl fmap list_fmap concat]. rewrite IH. clear IH.
    rewrite fmap_app, app_assoc. f_equal.
    unfold reduce_row, row_requested, merged_row, vtkImageMutualInformationCopyRow.
    rewrite Hsup.
    destruct (foldl (add_contribution _ iy) (replicate _ 0, 0) tls) as [xyHist a].
    destruct ((Z.of_nat iy <? (ext_y upd).1) || ((ext_y upd).2 <? Z.of_nat iy)).
    + cbn. rewrite app_nil_r. reflexivity.
    + destruct (ext_x upd) as [x1 x2]. cbn [negb andb fst snd].
      destruct (x1 <=? x2); cbn [outPtr fst snd]; [reflexivity | ].
      cbn. rewrite app_nil_r. reflexivity.
Qed.

(** When the whole image is requested, the emitted image is the merged
    histogram, row after row. *)
Lemma emitted_image (self : vtkImageMutualInformation) (p : Pipeline)
    (st : RunState) :
  0 < (NumberOfBins self).1 -> 0 < (NumberOfBins self).2 ->
  storage_wf (cells self) (Storage st) ->
  vtkTemplateAliasMacro true (OutputScalarType self) = true ->
  whole_update self (UpdateExtent p) ->
  OutData (ReduceRequestData log OutValue static_cast self p st)
  = static_cast (OutputScalarType self)
      <$> concat (joint_histogram self (Storage st)).
Proof.
  intros Hx Hy Hwf Hsup (Hux & Hy1 & Hy2). unfold ReduceRequestData.
  destruct (count_and_entropy log _) as [count xEntropy].
  destruct (if count =? 0 then _ else _) as [[mi nmi] divs].
  cbn [OutData]. rewrite reduce_rows_output by exact Hsup.
  cbn [outPtr app]. f_equal. f_equal. unfold joint_histogram.
  apply fmap_seq_ext. intros iy Hiy.
  unfold row_requested. rewrite Hux. cbn [fst snd].
  replace (Z.of_nat iy <? (ext_y (UpdateExtent p)).1) with false
    by (symmetry; apply Z.ltb_ge; lia).
  replace ((ext_y (UpdateExtent p)).2 <? Z.of_nat iy) with false
    by (symmetry; apply Z.ltb_ge; lia).
  replace (0 <=? (NumberOfBins self).1 - 1) with true
    by (symmetry; apply Z.leb_le; lia).
  cbn [orb negb andb Z.to_nat drop].
  apply take_ge.
  destruct (merged_row_total (Z.to_nat (NumberOfBins self).1)
              (Z.to_nat (NumberOfBins self).2) iy (Storage st)) as [-> _];
    [rewrite <- bins_cells by assumption; exact Hwf | exact Hiy | ].
  rewrite (length_row_of _ (Z.to_nat (NumberOfBins self).2)); [lia | | exact Hiy].
  rewrite length_storage_total; [reflexivity | ].
  rewrite <- bins_cells by assumption. exact Hwf.
Qed.

End Emitted.

(** * Claims about a whole run *)

Section RunClaims.

Variable log : float -> float.
Variable SplitExtent : Extent -> nat -> nat -> Extent * nat.
Variable OutValue : Type.
Variable static_cast : ScalarType -> Z -> OutValue.

(** X1.  Where the row stride of the kernels does not exceed the row length of
    the buffers, a run completes and the merged histogram counts every processed
    in-mask voxel pair exactly once, under either strategy and for any number
    of workers. *)
Theorem joint_histogram_counts_every_voxel
    (self : vtkImageMutualInformation) (p : Pipeline)
    (numberOfThreads : nat) (s : Strategy) :
  1 <= (NumberOfBins self).2 <= (NumberOfBins self).1 ->
  (NumberOfBins self).1 * (NumberOfBins self).2 <= INT_MAX ->
  well_typed p ->
  let '(total, slots, l) := tasks SplitExtent p numberOfThreads s in
  completes (run_tasks SplitExtent self p total l (initial_state slots))
    (fun st =>
       sumZ (concat (joint_histogram self (Storage st)))
       = Z.of_nat (length (processed SplitExtent self p total l)) /\
       total_count self (Storage st)
       = Z.of_nat (length (processed SplitExtent self p total l))).
Proof.
  intros Hb Hmax Hty.
  pose proof (tasks_slots SplitExtent p numberOfThreads s) as Hslots.
  destruct (tasks SplitExtent p numberOfThreads s) as [[total slots] l].
  pose proof (processed_in_buffer SplitExtent self p total l Hb Hmax Hty) as Hin.
  assert (Hx : 0 < (NumberOfBins self).1) by lia.
  assert (Hy : 0 < (NumberOfBins self).2) by lia.
  pose proof (run_tasks_total SplitExtent self p total l (initial_state slots)
                ltac:(nia) (storage_wf_initial _ _)) as Hrun.
  cbn [initial_state Storage] in Hrun.
  rewrite length_replicate in Hrun. specialize (Hrun Hslots Hin).
  destruct (run_tasks SplitExtent self p total l (initial_state slots))
    as [st | ]; [ | contradiction].
  cbn [completes] in Hrun |- *. destruct Hrun as (Hwf & _ & Htot).
  rewrite storage_total_initial in Htot.
  assert (Hsum : sumZ (storage_total (cells self) (Storage st))
                 = Z.of_nat (length (processed SplitExtent self p total l))).
  { rewrite Htot, sumZ_count_offsets.
    - rewrite sumZ_zeros. unfold offsets. rewrite length_fmap. lia.
    - rewrite length_replicate. apply offsets_in_range. exact Hin. }
  split.
  - destruct (joint_histogram_total self (Storage st) Hx Hy Hwf) as [-> _].
    pose proof (length_storage_total _ _ Hwf) as HT.
    rewrite (bins_cells self Hx Hy) in *.
    rewrite concat_rows, firstn_all2 by lia. exact Hsum.
  - rewrite total_count_storage by assumption. exact Hsum.
Qed.

(** C3.  For every configuration with at least one bin per axis, every pair of
    inputs, either strategy and any number of workers: a run that processes no
    in-mask voxel pair (an empty mask, an empty extent intersection) completes,
    and every run that completes with a total count N = 0 leaves
    MutualInformation = 0.0 and NormalizedMutualInformation = 1.0 without
    evaluating any division. *)
Theorem empty_run_yields_floor_values
    (self : vtkImageMutualInformation) (p : Pipeline)
    (numberOfThreads : nat) (s : Strategy) :
  0 < (NumberOfBins self).1 -> 0 < (NumberOfBins self).2 ->
  let floor_values := fun out : Outcome OutValue =>
    MutualInformation (Self out) = 0%float /\
    NormalizedMutualInformation (Self out) = 1%float /\
    Divisors out = [] in
  let '(total, slots, l) := tasks SplitExtent p numberOfThreads s in
  (processed SplitExtent self p total l = [] ->
   completes (RequestData log SplitExtent OutValue static_cast self p
                numberOfThreads s) floor_values) /\
  (forall st,
     run_tasks SplitExtent self p total l (initial_state slots) = Some st ->
     total_count self (Storage st) = 0 ->
     completes (RequestData log SplitExtent OutValue static_cast self p
                  numberOfThreads s) floor_values).
Proof.
  intros Hx Hy floor_values. unfold RequestData.
  pose proof (tasks_slots SplitExtent p numberOfThreads s) as Hslots.
  destruct (tasks SplitExtent p numberOfThreads s) as [[total slots] l].
  fold (initial_state slots).
  assert (Hzero : forall st,
            run_tasks SplitExtent self p total l (initial_state slots) = Some st ->
            total_count self (Storage st) = 0 ->
            completes (st ← run_tasks SplitExtent self p total l (initial_state slots);
                       Some (ReduceRequestData log OutValue static_cast self p st))
                      floor_values).
  { intros st Hst HN. rewrite Hst. cbn [completes mbind option_bind].
    pose proof (reduce_scalars log OutValue static_cast self p st) as Hred.
    cbn zeta in Hred. rewrite HN in Hred. cbn [Z.eqb] in Hred.
    injection Hred as E1 E2 E3. unfold floor_values. auto. }
  split; [ | exact Hzero].
  intros Hempty.
  pose proof (run_tasks_total SplitExtent self p total l (initial_state slots)
                ltac:(nia) (storage_wf_initial _ _)) as Hrun.
  cbn [initial_state Storage] in Hrun.
  rewrite length_replicate, Hempty in Hrun.
  specialize (Hrun Hslots (Forall_nil_2 _)).
  fold (initial_state slots) in Hrun.
  destruct (run_tasks SplitExtent self p total l (initial_state slots))
    as [st | ] eqn:Hst; [ | contradiction].
  cbn [completes] in Hrun. destruct Hrun as (Hwf & _ & Htot).
  rewrite storage_total_initial in Htot.
  cbn [offsets fmap list_fmap count_offsets foldl] in Htot.
  apply (Hzero st eq_refl).
  rewrite total_count_storage, Htot, sumZ_zeros by assumption. reflexivity.
Qed.

End RunClaims.

(** * A run on exchanged inputs *)

Section SwapRun.

Variable SplitExtent : Extent -> nat -> nat -> Extent * nat.

Lemma processed_well_typed (self : vtkImageMutualInformation) (p : Pipeline)
    (total : nat) (l : list (nat * nat)) :
  well_typed p ->
  Forall (fun v : Pixel * Pixel =>
            pixel_of_type (ScalarType0 p) v.1 /\ pixel_of_type (ScalarType1 p) v.2)
         (processed SplitExtent self p total l).
Proof.
  intros Hty. unfold processed.
  induction l as [ | t l IH]; [constructor | ].
  cbn [fmap list_fmap concat]. apply Forall_app. split; [ | exact IH].
  destruct (SplitExtent (Extent0 p) t.2 total) as [splitExt pieces].
  destruct ((t.2 <? pieces)%nat && ext_nonempty splitExt); [ | constructor].
  unfold request_voxels.
  destruct (clip_extent splitExt (Extent0 p) (Extent1 p)) as [ext | ];
    [ | constructor].
  destruct (kernel_runs self p); [apply Hty | constructor].
Qed.

(** With the same bin mapping on both axes, the run on the exchanged inputs
    completes like the original one, and the summed storage of the one is
    the mirror image of the other's. *)
Lemma swapped_storage (self : vtkImageMutualInformation) (p : Pipeline)
    (total slots : nat) (l : list (nat * nat)) :
  symmetric_bins self -> 1 <= (NumberOfBins self).1 ->
  (NumberOfBins self).1 * (NumberOfBins self).1 <= INT_MAX ->
  well_typed p -> Extent0 p = Extent1 p ->
  Forall (fun t : nat * nat => (t.1 < slots)%nat) l ->
  let n := Z.to_nat (NumberOfBins self).1 in
  completes (run_tasks SplitExtent self p total l (initial_state slots)) (fun st =>
  completes (run_tasks SplitExtent self (swap_inputs p) total l (initial_state slots))
    (fun st' =>
       let T := storage_total (cells self) (Storage st) in
       let T' := storage_total (cells self) (Storage st') in
       storage_wf (cells self) (Storage st) /\
       storage_wf (cells self) (Storage st') /\
       (forall ix iy, (ix < n)%nat -> (iy < n)%nat ->
          T' !! (n * iy + ix)%nat = T !! (n * ix + iy)%nat) /\
       sumZ T' = sumZ T)).
Proof.
  intros Hsym HN Hmax Hty Hext Hslots n.
  pose proof Hsym as (Hn & _ & _).
  assert (Hb : 1 <= (NumberOfBins self).2 <= (NumberOfBins self).1) by lia.
  assert (Hmax' : (NumberOfBins self).1 * (NumberOfBins self).2 <= INT_MAX)
    by (rewrite <- Hn; exact Hmax).
  pose proof (well_typed_swap p Hty) as Hty'.
  pose proof (processed_in_buffer SplitExtent self p total l Hb Hmax' Hty) as Hin.
  pose proof (processed_in_buffer SplitExtent self (swap_inputs p) total l
                Hb Hmax' Hty') as Hin'.
  pose proof (run_tasks_total SplitExtent self p total l (initial_state slots)
                ltac:(nia) (storage_wf_initial _ _)) as Hrun.
  pose proof (run_tasks_total SplitExtent self (swap_inputs p) total l
                (initial_state slots) ltac:(nia) (storage_wf_initial _ _)) as Hrun'.
  cbn [initial_state Storage] in Hrun, Hrun'.
  rewrite length_replicate in Hrun, Hrun'.
  specialize (Hrun Hslots Hin). specialize (Hrun' Hslots Hin').
  destruct (run_tasks SplitExtent self p total l (initial_state slots))
    as [st | ]; [ | contradiction].
  destruct (run_tasks SplitExtent self (swap_inputs p) total l (initial_state slots))
    as [st' | ]; [ | contradiction].
  cbn [completes] in Hrun, Hrun' |- *.
  destruct Hrun as (Hwf & _ & Htot). destruct Hrun' as (Hwf' & _ & Htot').
  rewrite storage_total_initial in Htot, Htot'.
  rewrite processed_swap in Htot' by assumption.
  split; [exact Hwf | split; [exact Hwf' | split]].
  - intros ix iy Hix Hiy. rewrite Htot, Htot', !lookup_count_offsets.
    assert (Hc : cells self = (n * n)%nat).
    { rewrite bins_cells by lia. rewrite <- Hn. reflexivity. }
    rewrite !lookup_replicate_2 by (rewrite Hc; nia).
    cbn [fmap option_fmap option_map]. f_equal. f_equal. f_equal.
    apply (count_at_mirrored (NumberOfBins self).1); [unfold n in Hix; lia | unfold n in Hiy; lia | ].
    eapply Forall_impl; [apply (processed_well_typed self p total l Hty) | ].
    intros v [H1 H2]. apply selected_offset_mirrored; assumption.
  - rewrite Htot, Htot'.
    rewrite !sumZ_count_offsets.
    + unfold offsets. rewrite !length_fmap. reflexivity.
    + rewrite length_replicate. apply offsets_in_range. exact Hin.
    + rewrite length_replicate. rewrite <- processed_swap by assumption.
      apply offsets_in_range. exact Hin'.
Qed.

End SwapRun.
(** * Rounding errors of the binary64 operations

    The value of a finite double as a real number, and the error of one
    addition and of one division, derived from [SFadd] and [SFdiv]. *)

(** The sign only labels the result of a rounding. *)
Lemma binary_round_aux_sign (s : bool) (m e : Z) (l : location) :
  binary_round_aux prec emax s m e l
  = with_sign s (binary_round_aux prec emax false m e l).
Proof.
  unfold binary_round_aux.
  destruct (shr_fexp prec emax m e l) as [mrs' e'].
  destruct (shr_fexp prec emax _ e' loc_Exact) as [mrs'' e''].
  destruct (shr_m mrs''); try reflexivity.
  destruct (e'' <=? emax - prec); reflexivity.
Qed.

Lemma shr_iter_m (k : nat) (rec : shr_record) :
  0 <= shr_m rec ->
  shr_m (Nat.iter k shr_1 rec) = shr_m rec / 2 ^ Z.of_nat k.
Proof.
  intros HM. induction k as [ | k IH].
  - cbn. rewrite Z.div_1_r. reflexivity.
  - rewrite Nat.iter_succ.
    destruct (Nat.iter k shr_1 rec) as [mk rk sk] eqn:E. cbn [shr_m] in IH.
    assert (Hk : 0 < 2 ^ Z.of_nat k) by (apply Z.pow_pos_nonneg; lia).
    assert (Hmk : 0 <= mk) by (subst mk; apply Z.div_pos; lia).
    rewrite shr_1_nonneg by assumption. cbn [shr_m].
    rewrite Nat2Z.inj_succ, Z.pow_succ_r by lia.
    subst mk. rewrite Z.div_div by lia. f_equal. lia.
Qed.

Lemma shr_m_spec (rec : shr_record) (e n : Z) :
  0 <= shr_m rec -> 0 <= n ->
  exists rec', shr rec e n = (rec', e + n) /\ shr_m rec' = shr_m rec / 2 ^ n.
Proof.
  intros HM Hn. destruct n as [ | p | p]; [ | | lia].
  - exists rec. cbn [shr]. rewrite Z.add_0_r, Z.div_1_r. auto.
  - cbn [shr]. rewrite iter_pos_nat. eexists. split; [reflexivity | ].
    rewrite shr_iter_m by assumption. rewrite positive_nat_Z. reflexivity.
Qed.

Lemma shr_record_of_loc_m (m : Z) (l : location) : shr_m (shr_record_of_loc m l) = m.
Proof. destruct l as [ | [ | | ]]; reflexivity. Qed.

(** Rounding of a mantissa of at least 53 bits, whatever lies beyond it. *)
Lemma binary_round_aux_wide (s : bool) (M : positive) (ex : Z) (l : location) :
  53 <= Zpos (digits2_pos M) -> -1074 <= ex ->
  let n := Zpos (digits2_pos M) - 53 in
  exists m2 : Z,
    (m2 = Zpos M / 2 ^ n \/ m2 = Zpos M / 2 ^ n + 1) /\
    2 ^ 52 <= Zpos M / 2 ^ n < 2 ^ 53 /\
    binary_round_aux prec emax s (Zpos M) ex l =
      if m2 =? 2 ^ 53
      then (if ex + n + 1 <=? 971 then S754_finite s (2 ^ 52)%positive (ex + n + 1)
            else S754_infinity s)
      else (if ex + n <=? 971 then S754_finite s (Z.to_pos m2) (ex + n)
            else S754_infinity s).
Proof.
  intros HD Hex n.
  pose proof (digits2_pos_bounds M) as [Blo Bhi].
  set (D := Zpos (digits2_pos M)) in *.
  assert (Hn : 0 <= n) by (unfold n; lia).
  assert (Hpn : 0 < 2 ^ n) by (apply Z.pow_pos_nonneg; lia).
  assert (HDn : D = 53 + n) by (unfold n; lia).
  assert (Hm1 : 2 ^ 52 <= Zpos M / 2 ^ n < 2 ^ 53).
  { split.
    - apply Z.div_le_lower_bound; [lia | ].
      rewrite Z.mul_comm, <- Z.pow_add_r by lia.
      replace (52 + n) with (D - 1) by lia. assumption.
    - apply Z.div_lt_upper_bound; [lia | ].
      rewrite <- Z.pow_add_r by lia.
      replace (n + 53) with D by lia. assumption. }
  rewrite binary_round_aux_sign.
  unfold binary_round_aux, shr_fexp. cbn [Zdigits2].
  fold D. rewrite fexp_normal by assumption.
  replace (D + ex - 53 - ex) with n by lia.
  destruct (shr_m_spec (shr_record_of_loc (Zpos M) l) ex n) as (rec & -> & Hrm);
    [rewrite shr_record_of_loc_m; lia | exact Hn | ].
  rewrite shr_record_of_loc_m in Hrm.
  set (m2 := round_nearest_even (shr_m rec) (loc_of_shr_record rec)).
  exists m2.
  assert (Hm2 : m2 = Zpos M / 2 ^ n \/ m2 = Zpos M / 2 ^ n + 1).
  { unfold m2. rewrite Hrm.
    destruct (round_nearest_even_cases (Zpos M / 2 ^ n) (loc_of_shr_record rec))
      as [-> | [-> _]]; auto. }
  split; [exact Hm2 | ]. split; [exact Hm1 | ].
  assert (Hb : 2 ^ 52 <= m2 <= 2 ^ 53) by lia.
  destruct (Z.eqb_spec m2 (2 ^ 53)) as [E | NE].
  - rewrite E. change (Zdigits2 (2 ^ 53)) with 54.
    rewrite fexp_normal by lia.
    replace (54 + (ex + n) - 53 - (ex + n)) with 1 by lia.
    cbn [shr SpecFloat.iter_pos shr_record_of_loc].
    change (shr_1 {| shr_m := 2 ^ 53; shr_r := false; shr_s := false |})
      with {| shr_m := 2 ^ 52; shr_r := false; shr_s := false |}.
    cbn [shr_m]. change (2 ^ 52) with (Zpos (2 ^ 52)%positive) at 1.
    cbn iota beta. change (emax - prec) with 971.
    destruct (ex + n + 1 <=? 971); reflexivity.
  - assert (Hd2 : Zdigits2 m2 = 53).
    { destruct m2 as [ | p2 | p2]; try lia. cbn [Zdigits2].
      apply digits2_pos_unique. lia. }
    rewrite Hd2, fexp_normal by lia.
    replace (53 + (ex + n) - 53 - (ex + n)) with 0 by lia.
    cbn [shr shr_m shr_record_of_loc].
    destruct m2 as [ | p2 | p2]; try lia. change (emax - prec) with 971.
    cbn [Z.to_pos]. destruct (ex + n <=? 971); reflexivity.
Qed.

(** Rounding at the smallest exponent: the mantissa stays below 2^52. *)
Lemma binary_round_aux_tiny (s : bool) (q ex : Z) (l : location) :
  0 <= q -> ex <= -1074 ->
  let n := -1074 - ex in
  q / 2 ^ n < 2 ^ 52 ->
  exists m2 : Z,
    (m2 = q / 2 ^ n \/ m2 = q / 2 ^ n + 1) /\
    (n = 0 -> l = loc_Exact -> m2 = q) /\
    binary_round_aux prec emax s q ex l =
      match m2 with
      | Zpos p => S754_finite s p (-1074)
      | _ => S754_zero s
      end.
Proof.
  intros Hq Hex n Hsmall.
  assert (Hn : 0 <= n) by (unfold n; lia).
  assert (Hpn : 0 < 2 ^ n) by (apply Z.pow_pos_nonneg; lia).
  assert (Hqb : q < 2 ^ (52 + n)).
  { rewrite Z.pow_add_r by lia.
    pose proof (Z.div_mod q (2 ^ n) ltac:(lia)).
    pose proof (Z.mod_pos_bound q (2 ^ n) Hpn). nia. }
  assert (Hdq : Zdigits2 q <= 52 + n).
  { destruct q as [ | p | p]; [cbn; lia | | lia]. cbn [Zdigits2].
    pose proof (digits2_pos_bounds p) as [Blo _].
    assert (Zpos (digits2_pos p) - 1 < 52 + n); [ | lia].
    apply pow2_lt_inv; lia. }
  assert (Hdq0 : 0 <= Zdigits2 q) by (destruct q; cbn; lia).
  rewrite binary_round_aux_sign.
  unfold binary_round_aux, shr_fexp.
  assert (Hf : fexp prec emax (Zdigits2 q + ex) = -1074).
  { unfold fexp, SpecFloat.emin, prec, emax. unfold n in Hdq. lia. }
  rewrite Hf. fold n.
  destruct (shr_m_spec (shr_record_of_loc q l) ex n) as (rec & Hshr & Hrm);
    [rewrite shr_record_of_loc_m; lia | exact Hn | ].
  rewrite Hshr. rewrite shr_record_of_loc_m in Hrm.
  set (m2 := round_nearest_even (shr_m rec) (loc_of_shr_record rec)).
  exists m2.
  assert (Hm2 : m2 = q / 2 ^ n \/ m2 = q / 2 ^ n + 1).
  { unfold m2. rewrite Hrm.
    destruct (round_nearest_even_cases (q / 2 ^ n) (loc_of_shr_record rec))
      as [-> | [-> _]]; auto. }
  split; [exact Hm2 | ].
  split.
  { intros Hn0 ->. unfold m2. rewrite Hn0 in Hshr. cbn [shr] in Hshr.
    injection Hshr as <- _. reflexivity. }
  assert (Hfl : 0 <= q / 2 ^ n) by (apply Z.div_pos; lia).
  assert (Hb : 0 <= m2 <= 2 ^ 52) by lia.
  replace (ex + n) with (-1074) by (unfold n; lia).
  assert (Hd2 : Zdigits2 m2 <= 53).
  { destruct m2 as [ | p | p]; [cbn; lia | | lia]. cbn [Zdigits2].
    pose proof (digits2_pos_bounds p) as [Blo _].
    assert (Zpos (digits2_pos p) - 1 < 53); [ | lia].
    apply pow2_lt_inv; lia. }
  assert (Hd20 : 0 <= Zdigits2 m2) by (destruct m2; cbn; lia).
  assert (Hf2 : fexp prec emax (Zdigits2 m2 + -1074) - -1074 = 0).
  { unfold fexp, SpecFloat.emin, prec, emax. lia. }
  rewrite Hf2. cbn [shr shr_record_of_loc shr_m].
  destruct m2 as [ | p | p]; [reflexivity | | lia].
  reflexivity.
Qed.

Section Rounding.
Import Reals Lra.
Local Open Scope R_scope.

Lemma abs_le_inv (a b : R) : Rabs a <= b -> - b <= a <= b.
Proof. unfold Rabs. destruct (Rcase_abs a); lra. Qed.

Lemma pow2_pos (e : Z) : 0 < powerRZ 2 e.
Proof. apply powerRZ_lt. lra. Qed.

Lemma pow2_add (a b : Z) : powerRZ 2 (a + b) = powerRZ 2 a * powerRZ 2 b.
Proof. apply powerRZ_add. lra. Qed.

Lemma IZR_pow2 (n : Z) : (0 <= n)%Z -> IZR (2 ^ n) = powerRZ 2 n.
Proof.
  intros Hn. destruct n as [ | p | p]; [reflexivity | | lia].
  change (2 ^ Zpos p)%Z with (Z.pow_pos 2 p). apply Zpower_pos_powerRZ.
Qed.

Lemma eps_pos : 0 < eps.
Proof. apply pow2_pos. Qed.

Lemma eta_pos : 0 < eta.
Proof. apply pow2_pos. Qed.

Lemma eps_52 : eps * powerRZ 2 52 = 1.
Proof. unfold eps. rewrite <- pow2_add. reflexivity. Qed.

Lemma sign_of_abs (s : bool) (x : R) : Rabs (sign_of s * x) = Rabs x.
Proof.
  destruct s; cbn [sign_of].
  - replace (-1 * x) with (- x) by ring. apply Rabs_Ropp.
  - f_equal. ring.
Qed.

(** A mantissa within one unit of the truncated quotient is within one unit
    in the last place of the exact value. *)
Lemma faithful_round (q n m2 e : Z) (X : R) :
  (0 <= n)%Z -> (0 <= q)%Z ->
  (m2 = q / 2 ^ n \/ m2 = q / 2 ^ n + 1)%Z ->
  IZR q <= X < IZR q + 1 ->
  Rabs (IZR m2 * powerRZ 2 (e + n) - X * powerRZ 2 e) <= powerRZ 2 (e + n)
  /\ IZR (q / 2 ^ n) * powerRZ 2 (e + n) <= X * powerRZ 2 e.
Proof.
  intros Hn Hq Hm2 [HX1 HX2].
  assert (Hpn : (0 < 2 ^ n)%Z) by (apply Z.pow_pos_nonneg; lia).
  set (fl := (q / 2 ^ n)%Z) in *.
  assert (Hfl : (fl * 2 ^ n <= q < (fl + 1) * 2 ^ n)%Z).
  { unfold fl. pose proof (Z.div_mod q (2 ^ n) ltac:(lia)).
    pose proof (Z.mod_pos_bound q (2 ^ n) Hpn). nia. }
  destruct Hfl as [Hf1 Hf2].
  apply IZR_le in Hf1. assert (Hf2' : (q + 1 <= (fl + 1) * 2 ^ n)%Z) by lia.
  apply IZR_le in Hf2'.
  rewrite mult_IZR, IZR_pow2 in Hf1 by exact Hn.
  rewrite plus_IZR, mult_IZR, plus_IZR, IZR_pow2 in Hf2' by exact Hn.
  rewrite pow2_add.
  pose proof (pow2_pos e) as He. pose proof (pow2_pos n) as Hpn'.
  set (a := powerRZ 2 e) in *. set (b := powerRZ 2 n) in *.
  assert (Hlo : IZR fl * b <= X) by lra.
  assert (Hhi : X <= (IZR fl + 1) * b) by lra.
  split.
  - apply Rabs_le.
    destruct Hm2 as [-> | ->]; [ | rewrite plus_IZR]; split; nra.
  - nra.
Qed.

Lemma SF2R_finite_round (s : bool) (m2 E : Z) :
  (0 < m2)%Z -> SF2R (S754_finite s (Z.to_pos m2) E) = sign_of s * IZR m2 * powerRZ 2 E.
Proof. intros H. cbn [SF2R]. rewrite Z2Pos.id by exact H. reflexivity. Qed.

(** The value [binary_round_aux] gives a mantissa of at least 53 bits that
    stands for the number [X * 2^e], [q <= X < q + 1]. *)
Lemma binary_round_aux_wide_value (s : bool) (M : positive) (ex : Z) (l : location)
    (X : R) :
  (53 <= Zpos (digits2_pos M))%Z -> (-1074 <= ex)%Z ->
  IZR (Zpos M) <= X < IZR (Zpos M) + 1 ->
  let r := binary_round_aux prec emax s (Zpos M) ex l in
  finite_SF r = true ->
  Rabs (SF2R r - sign_of s * (X * powerRZ 2 ex)) <= eps * (X * powerRZ 2 ex).
Proof.
  intros HD Hex HX r Hfin. subst r.
  destruct (binary_round_aux_wide s M ex l HD Hex) as (m2 & Hm2 & Hfl & Hr).
  cbv zeta in Hm2, Hfl, Hr. set (n := (Zpos (digits2_pos M) - 53)%Z) in *.
  assert (Hn : (0 <= n)%Z) by (unfold n; lia).
  destruct (faithful_round (Zpos M) n m2 ex X Hn ltac:(lia) Hm2 HX) as [Herr Hlow].
  assert (Hbig : powerRZ 2 (ex + n) <= eps * (X * powerRZ 2 ex)).
  { assert (H52 : IZR (2 ^ 52) <= IZR (Zpos M / 2 ^ n)) by (apply IZR_le; lia).
    rewrite IZR_pow2 in H52 by lia.
    pose proof (pow2_pos (ex + n)) as Hp. pose proof eps_52 as He. pose proof eps_pos.
    assert (powerRZ 2 52 * powerRZ 2 (ex + n) <= X * powerRZ 2 ex) by nra.
    nra. }
  assert (Hval : SF2R (binary_round_aux prec emax s (Zpos M) ex l)
                 = sign_of s * IZR m2 * powerRZ 2 (ex + n)).
  { rewrite Hr in Hfin |- *.
    destruct (Z.eqb_spec m2 (2 ^ 53)) as [E | NE].
    - destruct (ex + n + 1 <=? 971)%Z; [ | discriminate].
      cbn [SF2R]. rewrite E. replace (ex + n + 1)%Z with (1 + (ex + n))%Z by lia.
      rewrite pow2_add. replace (2 ^ 53)%Z with (Zpos (2 ^ 52) * 2)%Z by reflexivity.
      rewrite mult_IZR. replace (powerRZ 2 1) with 2 by (symmetry; exact (powerRZ_1 2)). ring.
    - destruct (ex + n <=? 971)%Z; [ | discriminate].
      apply SF2R_finite_round. lia. }
  rewrite Hval.
  replace (sign_of s * IZR m2 * powerRZ 2 (ex + n) - sign_of s * (X * powerRZ 2 ex))
    with (sign_of s * (IZR m2 * powerRZ 2 (ex + n) - X * powerRZ 2 ex)) by ring.
  rewrite sign_of_abs. lra.
Qed.

(** The same at the smallest exponent, where the error is absolute. *)
Lemma binary_round_aux_tiny_value (s : bool) (q ex : Z) (l : location) (X : R) :
  (0 <= q)%Z -> (ex <= -1074)%Z ->
  (q / 2 ^ (-1074 - ex) < 2 ^ 52)%Z ->
  IZR q <= X < IZR q + 1 ->
  let r := binary_round_aux prec emax s q ex l in
  finite_SF r = true
  /\ Rabs (SF2R r - sign_of s * (X * powerRZ 2 ex)) <= eta
  /\ (ex = (-1074)%Z -> l = loc_Exact -> SF2R r = sign_of s * (IZR q * powerRZ 2 ex)).
Proof.
  intros Hq Hex Hsmall HX r. subst r.
  destruct (binary_round_aux_tiny s q ex l Hq Hex Hsmall) as (m2 & Hm2 & Hexact & Hr).
  cbv zeta in Hm2, Hexact, Hr. set (n := (-1074 - ex)%Z) in *.
  assert (Hn : (0 <= n)%Z) by (unfold n; lia).
  destruct (faithful_round q n m2 ex X Hn Hq Hm2 HX) as [Herr _].
  replace (ex + n)%Z with (-1074)%Z in Herr by (unfold n; lia).
  assert (Hfl : (0 <= q / 2 ^ n)%Z) by (apply Z.div_pos; [lia | apply Z.pow_pos_nonneg; lia]).
  assert (Hval : SF2R (binary_round_aux prec emax s q ex l)
                 = sign_of s * IZR m2 * powerRZ 2 (-1074)).
  { rewrite Hr. destruct m2 as [ | p | p]; [cbn [SF2R]; ring | reflexivity | lia]. }
  split; [rewrite Hr; destruct m2; reflexivity | ].
  split.
  - rewrite Hval.
    replace (sign_of s * IZR m2 * powerRZ 2 (-1074) - sign_of s * (X * powerRZ 2 ex))
      with (sign_of s * (IZR m2 * powerRZ 2 (-1074) - X * powerRZ 2 ex)) by ring.
    rewrite sign_of_abs. exact Herr.
  - intros -> ->. rewrite Hval. rewrite (Hexact eq_refl eq_refl). ring.
Qed.

Lemma IZR_cond_Zopp (s : bool) (z : Z) : IZR (cond_Zopp s z) = sign_of s * IZR z.
Proof. destruct s; cbn [cond_Zopp sign_of]; [rewrite opp_IZR | ]; ring. Qed.

Lemma digits_lt_pow (m : positive) (k : Z) :
  (Zpos (digits2_pos m) <= k)%Z -> (Zpos m < 2 ^ k)%Z.
Proof.
  intros H. pose proof (digits2_pos_bounds m) as [_ B].
  assert (2 ^ Zpos (digits2_pos m) <= 2 ^ k)%Z by (apply Z.pow_le_mono_r; lia). lia.
Qed.

(** Rounding of an exact sum [m * 2^e]: finite results have a relative error
    of at most [eps]. *)
Lemma binary_round_value (s : bool) (m : positive) (e : Z) :
  (-1074 <= e)%Z ->
  finite_SF (binary_round prec emax s m e) = true ->
  Rabs (SF2R (binary_round prec emax s m e)
        - sign_of s * (IZR (Zpos m) * powerRZ 2 e))
  <= eps * (IZR (Zpos m) * powerRZ 2 e).
Proof.
  intros He. unfold binary_round.
  pose proof (digits2_pos_bounds m) as [Blo Bhi].
  set (d := Zpos (digits2_pos m)) in *.
  assert (Hd0 : (0 < d)%Z) by (unfold d; lia).
  destruct (Z_le_gt_dec 53 d) as [Hwide | Hnarrow].
  - rewrite shl_align_id by (rewrite fexp_normal by lia; lia).
    intros Hfin. apply binary_round_aux_wide_value; [exact Hwide | exact He | lra | exact Hfin].
  - set (f := fexp prec emax (d + e)).
    assert (Hf : (f = Z.max (d + e - 53) (-1074))%Z) by reflexivity.
    destruct (shl_align_spec m e f ltac:(lia)) as (m' & -> & Hm').
    assert (Hp : (0 < 2 ^ (e - f))%Z) by (apply Z.pow_pos_nonneg; lia).
    assert (Hdig : Zpos (digits2_pos m') = (d + (e - f))%Z).
    { apply digits2_pos_unique. rewrite Hm'. split.
      - replace (d + (e - f) - 1)%Z with ((d - 1) + (e - f))%Z by lia.
        rewrite Z.pow_add_r by lia. apply Z.mul_le_mono_nonneg_r; lia.
      - rewrite Z.pow_add_r by lia. apply Z.mul_lt_mono_pos_r; lia. }
    assert (Hval : IZR (Zpos m') * powerRZ 2 f = IZR (Zpos m) * powerRZ 2 e).
    { rewrite Hm', mult_IZR, IZR_pow2 by lia.
      replace e with ((e - f) + f)%Z at 2 by lia. rewrite pow2_add. ring. }
    rewrite <- Hval.
    destruct (Z_le_gt_dec 53 (Zpos (digits2_pos m'))) as [H53 | Hsub].
    + intros Hfin. apply binary_round_aux_wide_value; [exact H53 | lia | lra | exact Hfin].
    + assert (Hf' : f = (-1074)%Z) by lia.
      intros _. rewrite Hf'.
      destruct (binary_round_aux_tiny_value s (Zpos m') (-1074) loc_Exact
                  (IZR (Zpos m')) ltac:(lia) ltac:(lia)) as (_ & _ & Hexact).
      { change (-1074 - -1074)%Z with 0%Z. rewrite Z.div_1_r.
        apply digits_lt_pow. lia. }
      { lra. }
      cbv zeta in Hexact. rewrite (Hexact eq_refl eq_refl).
      replace (_ - _) with 0 by ring. rewrite Rabs_R0.
      assert (0 < IZR (Zpos m')) by (apply IZR_lt; lia).
      apply Rlt_le, Rmult_lt_0_compat; [exact eps_pos | ].
      apply Rmult_lt_0_compat; [assumption | apply pow2_pos].
Qed.

Lemma binary_normalize_value (M e : Z) :
  (-1074 <= e)%Z ->
  finite_SF (binary_normalize prec emax M e false) = true ->
  Rabs (SF2R (binary_normalize prec emax M e false) - IZR M * powerRZ 2 e)
  <= eps * Rabs (IZR M * powerRZ 2 e).
Proof.
  intros He Hfin. pose proof (pow2_pos e) as Hp.
  destruct M as [ | m | m]; cbn [binary_normalize] in *.
  - cbn [SF2R]. replace (0 - 0 * powerRZ 2 e) with 0 by ring.
    rewrite Rabs_R0. rewrite Rmult_0_l, Rabs_R0. lra.
  - pose proof (binary_round_value false m e He Hfin) as H.
    cbn [sign_of] in H. rewrite Rmult_1_l in H.
    assert (0 < IZR (Zpos m)) by (apply IZR_lt; lia).
    rewrite (Rabs_pos_eq (IZR (Zpos m) * powerRZ 2 e)) by nra. exact H.
  - pose proof (binary_round_value true m e He Hfin) as H.
    cbn [sign_of] in H.
    assert (0 < IZR (Zpos m)) by (apply IZR_lt; lia).
    change (Zneg m) with (- Zpos m)%Z. rewrite opp_IZR.
    replace (- IZR (Zpos m) * powerRZ 2 e) with (- (IZR (Zpos m) * powerRZ 2 e)) by ring.
    rewrite Rabs_Ropp, (Rabs_pos_eq (IZR (Zpos m) * powerRZ 2 e)) by nra.
    replace (-1 * (IZR (Zpos m) * powerRZ 2 e)) with (- (IZR (Zpos m) * powerRZ 2 e)) in H by ring.
    exact H.
Qed.

Lemma shl_align_value (s : bool) (m : positive) (e ez : Z) :
  (ez <= e)%Z ->
  IZR (cond_Zopp s (Zpos (shl_align m e ez).1)) * powerRZ 2 ez
  = SF2R (S754_finite s m e).
Proof.
  intros Hle. destruct (shl_align_spec m e ez Hle) as (m' & -> & Hm').
  cbn [fst SF2R]. rewrite IZR_cond_Zopp, Hm', mult_IZR, IZR_pow2 by lia.
  replace e with ((e - ez) + ez)%Z at 2 by lia. rewrite pow2_add. ring.
Qed.

(** Addition of doubles: a finite sum has finite operands and a relative
    error of at most [eps]. *)
Lemma SFadd_value (x y : spec_float) :
  valid_binary x = true -> valid_binary y = true ->
  finite_SF (SFadd prec emax x y) = true ->
  finite_SF x = true /\ finite_SF y = true
  /\ Rabs (SF2R (SFadd prec emax x y) - (SF2R x + SF2R y))
     <= eps * Rabs (SF2R x + SF2R y).
Proof.
  intros Hvx Hvy Hfin. pose proof eps_pos as Heps.
  destruct x as [sx | sx | | sx mx ex], y as [sy | sy | | sy my ey];
    try discriminate;
    try (destruct sx, sy; discriminate).
  - split; [reflexivity | split; [reflexivity | ]].
    replace (SF2R (SFadd prec emax (S754_zero sx) (S754_zero sy))) with 0
      by (destruct sx, sy; reflexivity).
    cbn [SF2R]. replace (0 - (0 + 0)) with 0 by ring. rewrite Rabs_R0.
    pose proof (Rabs_pos (0 + 0)). nra.
  - split; [reflexivity | split; [reflexivity | ]].
    cbn [SFadd]. cbn [SF2R]. rewrite Rplus_0_l.
    replace (_ - _) with 0 by ring. rewrite Rabs_R0.
    pose proof (Rabs_pos (sign_of sy * IZR (Zpos my) * powerRZ 2 ey)). nra.
  - split; [reflexivity | split; [reflexivity | ]].
    cbn [SFadd]. cbn [SF2R]. rewrite Rplus_0_r.
    replace (_ - _) with 0 by ring. rewrite Rabs_R0.
    pose proof (Rabs_pos (sign_of sx * IZR (Zpos mx) * powerRZ 2 ex)). nra.
  - split; [reflexivity | split; [reflexivity | ]].
    apply valid_finite in Hvx, Hvy.
    cbn [SFadd] in Hfin |- *. cbv zeta in Hfin |- *.
    set (ez := Z.min ex ey) in *.
    rewrite <- (shl_align_value sx mx ex ez) by (unfold ez; lia).
    rewrite <- (shl_align_value sy my ey ez) by (unfold ez; lia).
    rewrite <- Rmult_plus_distr_r, <- plus_IZR.
    apply binary_normalize_value; [unfold ez; lia | exact Hfin].
Qed.

(** The same for the primitive operations. *)
Lemma add_value (x y : float) :
  finite (x + y) = true ->
  finite x = true /\ finite y = true
  /\ Rabs (F2R (x + y) - (F2R x + F2R y)) <= eps * Rabs (F2R x + F2R y).
Proof.
  unfold finite, F2R. rewrite add_spec. apply SFadd_value; apply Prim2SF_valid.
Qed.

Lemma opp_value (x : float) : F2R (- x) = - F2R x /\ finite (- x) = finite x.
Proof.
  unfold finite, F2R. rewrite opp_spec.
  destruct (Prim2SF x) as [s | s | | s m e]; cbn [SFopp SF2R finite_SF];
    split; try reflexivity; try ring.
  destruct s; cbn [negb sign_of]; ring.
Qed.

Lemma sign_of_xorb (a b : bool) : sign_of (xorb a b) = sign_of a * sign_of b.
Proof. destruct a, b; cbn; ring. Qed.

Lemma sign_of_inv (a : bool) : / sign_of a = sign_of a.
Proof. destruct a; cbn [sign_of]; [ | apply Rinv_1]. lra. Qed.

(** The quotient of two finite non-zero doubles. *)
Lemma SFdiv_finite_value (sx sy : bool) (mx my : positive) (ex ey : Z) :
  valid_binary (S754_finite sx mx ex) = true ->
  valid_binary (S754_finite sy my ey) = true ->
  let r := SFdiv prec emax (S754_finite sx mx ex) (S754_finite sy my ey) in
  let X := SF2R (S754_finite sx mx ex) / SF2R (S754_finite sy my ey) in
  finite_SF r = true ->
  Rabs (SF2R r - X) <= eps * Rabs X + eta.
Proof.
  intros Hvx Hvy r X Hfin. subst r.
  apply valid_finite in Hvx, Hvy.
  destruct Hvx as (Hex & Hdx & _). destruct Hvy as (Hey & Hdy & _).
  pose proof (digits2_pos_bounds mx) as [Bxl Bxh].
  pose proof (digits2_pos_bounds my) as [Byl Byh].
  cbn [SFdiv] in Hfin |- *. unfold SFdiv_core_binary in Hfin |- *.
  cbn [Zdigits2] in Hfin |- *.
  set (d1 := Zpos (digits2_pos mx)) in *. set (d2 := Zpos (digits2_pos my)) in *.
  assert (Hd1 : (1 <= d1)%Z) by (unfold d1; lia).
  assert (Hd2 : (1 <= d2)%Z) by (unfold d2; lia).
  set (E0 := (d1 + ex - d2 - ey - 53)%Z).
  assert (Hfexp : fexp prec emax (d1 + ex - (d2 + ey)) = Z.max E0 (-1074)).
  { unfold fexp, SpecFloat.emin, prec, emax, E0. lia. }
  rewrite Hfexp in Hfin |- *.
  set (e' := Z.min (Z.max E0 (-1074)) (ex - ey)) in *.
  set (s := (ex - ey - e')%Z) in *.
  assert (Hs : (0 <= s)%Z) by (unfold s, e'; lia).
  set (m' := match s with
             | 0%Z => Zpos mx
             | Zpos _ => Z.shiftl (Zpos mx) s
             | Zneg _ => 0%Z
             end) in *.
  assert (Hm' : m' = (Zpos mx * 2 ^ s)%Z).
  { unfold m'. destruct s as [ | p | p] eqn:Es; [cbn; lia | | lia].
    apply Z.shiftl_mul_pow2. lia. }
  assert (Hps : (0 < 2 ^ s)%Z) by (apply Z.pow_pos_nonneg; lia).
  pose proof (Z.div_eucl_eq m' (Zpos my) ltac:(lia)) as Hdiv.
  pose proof (Z.mod_pos_bound m' (Zpos my) ltac:(lia)) as Hmod.
  unfold Z.modulo in Hmod.
  destruct (Z.div_eucl m' (Zpos my)) as [q rem].
  assert (Hq0 : (0 <= q)%Z) by nia.
  (* the real quotient of the mantissas *)
  set (Xq := IZR m' / IZR (Zpos my)).
  assert (Hmy : 0 < IZR (Zpos my)) by (apply IZR_lt; lia).
  assert (HXq : IZR q <= Xq < IZR q + 1).
  { assert (Hmul : Xq * IZR (Zpos my) = IZR m') by (unfold Xq; field; lra).
    split.
    - apply Rmult_le_reg_r with (r := IZR (Zpos my)); [exact Hmy | ].
      rewrite Hmul, <- mult_IZR. apply IZR_le. lia.
    - apply Rmult_lt_reg_r with (r := IZR (Zpos my)); [exact Hmy | ].
      rewrite Hmul, <- plus_IZR, <- mult_IZR. apply IZR_lt. lia. }
  assert (HXq0 : 0 <= Xq).
  { assert (0 <= IZR q) by (apply IZR_le; lia). lra. }
  assert (HX : X = sign_of (xorb sx sy) * (Xq * powerRZ 2 e')).
  { unfold X, Xq. cbn [SF2R]. rewrite Hm', mult_IZR, IZR_pow2 by lia.
    rewrite sign_of_xorb.
    replace ex with ((s + e') + ey)%Z at 1 by (unfold s; lia).
    rewrite !pow2_add.
    pose proof (pow2_pos ey). pose proof (pow2_pos e'). pose proof (pow2_pos s).
    assert (Hsy : sign_of sy <> 0) by (destruct sy; cbn; lra).
    rewrite <- (sign_of_inv sy) at 2.
    field. repeat split; lra. }
  assert (HXabs : Rabs X = Xq * powerRZ 2 e').
  { rewrite HX, sign_of_abs. apply Rabs_pos_eq.
    pose proof (pow2_pos e'). nra. }
  rewrite HXabs, HX.
  pose proof eps_pos as Heps. pose proof eta_pos as Heta.
  assert (HXe : 0 <= Xq * powerRZ 2 e').
  { pose proof (pow2_pos e'). nra. }
  destruct (Z_lt_le_dec e' (-1074)) as [Hlow | Hhigh].
  - (* below the smallest exponent *)
    assert (He' : e' = (ex - ey)%Z) by (unfold e'; lia).
    assert (Hs0 : s = 0%Z) by (unfold s; lia).
    assert (Hq53 : (q < 2 ^ 53)%Z).
    { rewrite Hs0 in Hm'. change (2 ^ 0)%Z with 1%Z in Hm'.
      assert (Zpos mx < 2 ^ 53)%Z by (apply digits_lt_pow; exact Hdx). nia. }
    destruct (binary_round_aux_tiny_value (xorb sx sy) q e'
                (new_location (Zpos my) rem) Xq Hq0 ltac:(lia))
      as (_ & Herr & _); [ | exact HXq | ].
    { set (n := (-1074 - e')%Z). assert (Hn : (1 <= n)%Z) by (unfold n; lia).
      apply Z.div_lt_upper_bound; [apply Z.pow_pos_nonneg; lia | ].
      assert (2 ^ 1 <= 2 ^ n)%Z by (apply Z.pow_le_mono_r; lia).
      change (2 ^ 1)%Z with 2%Z in *. change (2 ^ 53)%Z with (2 * 2 ^ 52)%Z in Hq53.
      nia. }
    cbv zeta in Herr. nra.
  - destruct (Z_lt_le_dec q (2 ^ 52)) as [Hsmall | Hbig].
    + (* a subnormal quotient *)
      assert (He' : e' = (-1074)%Z).
      { destruct (Z.eq_dec e' (-1074)) as [ | Hne]; [assumption | exfalso].
        assert (HE : e' = E0) by (unfold e' in *; lia).
        assert (Hsv : s = (53 + d2 - d1)%Z) by (unfold s, E0 in *; lia).
        assert (Hlow : (2 ^ (52 + d2) <= m')%Z).
        { rewrite Hm', Hsv.
          replace (52 + d2)%Z with ((d1 - 1) + (53 + d2 - d1))%Z by lia.
          rewrite Z.pow_add_r by lia. apply Z.mul_le_mono_nonneg_r; lia. }
        rewrite Z.pow_add_r in Hlow by lia.
        assert (Hq' : (q * Zpos my < 2 ^ 52 * 2 ^ d2)%Z) by nia.
        nia. }
      rewrite He' in *.
      destruct (binary_round_aux_tiny_value (xorb sx sy) q (-1074)
                  (new_location (Zpos my) rem) Xq Hq0 ltac:(lia))
        as (_ & Herr & _); [ | exact HXq | ].
      { change (-1074 - -1074)%Z with 0%Z. rewrite Z.div_1_r. exact Hsmall. }
      cbv zeta in Herr. nra.
    + (* a normal quotient *)
      destruct q as [ | Q | Q]; try lia.
      assert (HD : (53 <= Zpos (digits2_pos Q))%Z).
      { pose proof (digits2_pos_bounds Q) as [_ B].
        assert (52 < Zpos (digits2_pos Q))%Z; [ | lia].
        apply pow2_lt_inv; lia. }
      pose proof (binary_round_aux_wide_value (xorb sx sy) Q e'
                    (new_location (Zpos my) rem) Xq HD Hhigh HXq Hfin) as Herr.
      lra.
Qed.

(** Division of doubles: a finite quotient by a finite divisor has a finite
    dividend and a non-zero divisor, a relative error of at most [eps] and,
    where it underflows, an absolute error of at most [eta]. *)
Lemma SFdiv_value (x y : spec_float) :
  valid_binary x = true -> valid_binary y = true ->
  finite_SF y = true ->
  finite_SF (SFdiv prec emax x y) = true ->
  finite_SF x = true /\ SF2R y <> 0
  /\ Rabs (SF2R (SFdiv prec emax x y) - SF2R x / SF2R y)
     <= eps * Rabs (SF2R x / SF2R y) + eta.
Proof.
  intros Hvx Hvy Hfy Hfin. pose proof eps_pos as Heps. pose proof eta_pos as Heta.
  destruct x as [sx | sx | | sx mx ex], y as [sy | sy | | sy my ey];
    try discriminate.
  - split; [reflexivity | ].
    assert (Hy : SF2R (S754_finite sy my ey) <> 0).
    { cbn [SF2R]. pose proof (pow2_pos ey).
      assert (0 < IZR (Zpos my)) by (apply IZR_lt; lia).
      destruct sy; cbn [sign_of]; nra. }
    split; [exact Hy | ].
    cbn [SFdiv SF2R]. unfold Rdiv. rewrite Rmult_0_l.
    replace (0 - 0) with 0 by ring. rewrite Rabs_R0. lra.
  - split; [reflexivity | ].
    assert (Hy : SF2R (S754_finite sy my ey) <> 0).
    { cbn [SF2R]. pose proof (pow2_pos ey).
      assert (0 < IZR (Zpos my)) by (apply IZR_lt; lia).
      destruct sy; cbn [sign_of]; nra. }
    split; [exact Hy | ].
    apply SFdiv_finite_value; assumption.
Qed.

Lemma div_value (x y : float) :
  finite y = true -> finite (x / y) = true ->
  finite x = true /\ F2R y <> 0
  /\ Rabs (F2R (x / y) - F2R x / F2R y) <= eps * Rabs (F2R x / F2R y) + eta.
Proof.
  unfold finite, F2R. rewrite div_spec. apply SFdiv_value; apply Prim2SF_valid.
Qed.

Lemma eps_small : eps <= / 4.
Proof.
  pose proof eps_52 as H. pose proof eps_pos as Hp.
  assert (4 <= powerRZ 2 52).
  { rewrite <- IZR_pow2 by lia. apply IZR_le. lia. }
  nra.
Qed.

Lemma eps_tiny : eps <= / 1000.
Proof.
  pose proof eps_52 as H. pose proof eps_pos as Hp.
  assert (1000 <= powerRZ 2 52).
  { rewrite <- IZR_pow2 by lia. apply IZR_le. lia. }
  nra.
Qed.

Lemma eta_le_eps : eta <= eps.
Proof.
  unfold eta, eps. replace (-1074)%Z with (-1022 + -52)%Z by lia.
  rewrite pow2_add. pose proof (pow2_pos (-52)). pose proof (pow2_pos (-1022)).
  assert (H1 : powerRZ 2 (-1022) * powerRZ 2 1022 = 1)
    by (rewrite <- pow2_add; reflexivity).
  assert (1 <= powerRZ 2 1022).
  { rewrite <- IZR_pow2 by lia. apply IZR_le.
    change 1%Z with (2 ^ 0)%Z. apply Z.pow_le_mono_r; lia. }
  assert (powerRZ 2 (-1022) <= 1) by nra.
  nra.
Qed.

(** The value of a positive double with a negative exponent, as a
    quotient of integers. *)
Lemma F2R_eval (x : float) (m : positive) (e : Z) :
  Prim2SF x = S754_finite false m (- e) -> (0 <= e)%Z ->
  F2R x = IZR (Zpos m) / IZR (2 ^ e).
Proof.
  intros E He. unfold F2R. rewrite E. cbn [SF2R sign_of].
  rewrite powerRZ_neg', IZR_pow2 by exact He. field.
  pose proof (pow2_pos e). lra.
Qed.

Lemma pow_up (k : nat) : 2 * INR k * eps <= 1 -> (1 + eps) ^ k <= 1 + 2 * INR k * eps.
Proof.
  pose proof eps_pos as He.
  induction k as [ | k IH]; intros Hk.
  - cbn. lra.
  - rewrite S_INR in Hk |- *. pose proof (pos_INR k) as Hpos.
    rewrite <- tech_pow_Rmult.
    assert (Hk' : 2 * INR k * eps <= 1) by nra.
    specialize (IH Hk').
    assert (0 <= (1 + eps) ^ k) by (apply pow_le; lra).
    nra.
Qed.

Lemma pow_lo (k : nat) : 1 - INR k * eps <= (1 - eps) ^ k.
Proof.
  pose proof eps_pos as He. pose proof eps_small as He4.
  induction k as [ | k IH].
  - cbn. lra.
  - rewrite S_INR. pose proof (pos_INR k) as Hpos.
    rewrite <- tech_pow_Rmult.
    assert (0 <= (1 - eps) ^ k) by (apply pow_le; lra).
    nra.
Qed.

Lemma of_int_value (N : Z) :
  (0 < N < 2 ^ 53)%Z -> finite (of_int N) = true /\ F2R (of_int N) = IZR N.
Proof.
  intros HN. unfold finite, F2R.
  destruct (of_int_pos N HN) as (m & e & -> & He & Hm & _).
  split; [reflexivity | ]. cbn [SF2R sign_of].
  rewrite Hm, mult_IZR, IZR_pow2 by lia.
  rewrite Rmult_1_l, Rmult_assoc, <- pow2_add.
  replace (- e + e)%Z with 0%Z by lia. cbn [powerRZ]. ring.
Qed.

Lemma zero_value : finite 0 = true /\ F2R 0 = 0.
Proof. split; reflexivity. Qed.

End Rounding.

(** * Rounding errors of the entropies *)

Section EntropyValues.
Import Reals Lra.
Local Open Scope R_scope.

Variable log : float -> float.

Lemma finite_value_zero (x : float) : finite x = false -> F2R x = 0.
Proof.
  unfold finite, F2R. destruct (Prim2SF x); cbn; congruence.
Qed.

Lemma not_negative_value (t : float) : (t <? 0)%float = false -> 0 <= F2R t.
Proof.
  unfold F2R. rewrite ltb_spec. change (Prim2SF 0) with (S754_zero false).
  destruct (Prim2SF t) as [s | s | | [ | ] m e]; cbn [SF2R]; intros H;
    try lra; try discriminate H.
  cbn [sign_of]. pose proof (pow2_pos e).
  assert (0 < IZR (Zpos m)) by (apply IZR_lt; lia). nra.
Qed.

Lemma term_value_nonneg (c : Z) :
  (of_int c * log (of_int c) <? 0)%float = false -> 0 <= term_value log c.
Proof.
  intros H. unfold term_value. destruct (0 <? of_int c)%float; [ | lra].
  apply not_negative_value, H.
Qed.

Lemma sum_of_terms_nonneg (counts : list Z) :
  terms_not_negative log counts -> 0 <= sum_of_terms log counts.
Proof.
  induction 1 as [ | c l Hc _ IH]; cbn [sum_of_terms foldr]; [lra | ].
  pose proof (term_value_nonneg c Hc). unfold sum_of_terms in IH. lra.
Qed.

Lemma add_value_nonneg (x y : float) :
  finite (x + y) = true -> 0 <= F2R x -> 0 <= F2R y ->
  finite x = true /\ finite y = true
  /\ (F2R x + F2R y) * (1 - eps) <= F2R (x + y) <= (F2R x + F2R y) * (1 + eps).
Proof.
  intros Hfin Hx Hy. destruct (add_value x y Hfin) as (Hfx & Hfy & Herr).
  split; [exact Hfx | split; [exact Hfy | ]].
  rewrite (Rabs_pos_eq (F2R x + F2R y)) in Herr by lra.
  apply abs_le_inv in Herr. lra.
Qed.

(** The accumulator of an entropy: a finite result has been finite all
    along, and lies within the factors (1 - eps)^n and (1 + eps)^n of the
    exact sum. *)
Lemma accumulator_bounds (counts : list Z) (acc : float) :
  terms_not_negative log counts ->
  finite (foldl (accumulate_entropy log) acc counts) = true ->
  0 <= F2R acc ->
  finite acc = true
  /\ (F2R acc + sum_of_terms log counts) * (1 - eps) ^ length counts
     <= F2R (foldl (accumulate_entropy log) acc counts)
     <= (F2R acc + sum_of_terms log counts) * (1 + eps) ^ length counts.
Proof.
  pose proof eps_pos as He. pose proof eps_small as He4.
  intros Hnn. revert acc. induction Hnn as [ | c l Hc Hl IH]; intros acc Hfin Hacc.
  - cbn [foldl sum_of_terms foldr length pow] in *. split; [exact Hfin | lra].
  - cbn [foldl] in Hfin |- *.
    pose proof (sum_of_terms_nonneg l Hl) as HE.
    pose proof (term_value_nonneg c Hc) as Ht.
    change (sum_of_terms log (c :: l)) with (term_value log c + sum_of_terms log l).
    cbn [length]. rewrite <- !tech_pow_Rmult.
    assert (Hup : 1 <= (1 + eps) ^ length l) by (apply pow_R1_Rle; lra).
    assert (Hlo : 0 <= (1 - eps) ^ length l <= 1).
    { split; [apply pow_le; lra | ].
      apply Rle_trans with (1 ^ length l); [apply pow_incr; lra | ].
      rewrite pow1. lra. }
    set (U := (1 + eps) ^ length l) in *. set (L := (1 - eps) ^ length l) in *.
    change (accumulate_entropy log acc c)
      with (if (0 <? of_int c)%float
            then (acc + of_int c * log (of_int c))%float else acc) in *.
    unfold term_value in *.
    destruct (0 <? of_int c)%float.
    + set (t := (of_int c * log (of_int c))%float) in *.
      assert (Hacc' : 0 <= F2R (acc + t)).
      { destruct (finite (acc + t)) eqn:Ef.
        - destruct (add_value_nonneg acc t Ef Hacc Ht) as (_ & _ & Hb). nra.
        - rewrite finite_value_zero by exact Ef. lra. }
      destruct (IH (acc + t)%float Hfin Hacc') as (Hf' & Hb').
      destruct (add_value_nonneg acc t Hf' Hacc Ht) as (Hfa & _ & Hb).
      split; [exact Hfa | ].
      set (S' := F2R (foldl (accumulate_entropy log) (acc + t)%float l)) in *.
      set (E := sum_of_terms log l) in *. set (a := F2R acc) in *. set (tv := F2R t) in *.
      set (v := F2R (acc + t)%float) in *.
      assert (H1 : v + E <= (a + (tv + E)) * (1 + eps)) by nra.
      assert (H2 : (a + (tv + E)) * (1 - eps) <= v + E) by nra.
      assert (H3 : (v + E) * U <= (a + (tv + E)) * (1 + eps) * U)
        by (apply Rmult_le_compat_r; lra).
      assert (H4 : (a + (tv + E)) * (1 - eps) * L <= (v + E) * L)
        by (apply Rmult_le_compat_r; lra).
      split; lra.
    + destruct (IH acc Hfin Hacc) as (Hf' & Hb').
      split; [exact Hf' | ].
      set (S' := F2R (foldl (accumulate_entropy log) acc l)) in *.
      set (E := sum_of_terms log l) in *. set (a := F2R acc) in *.
      rewrite Rplus_0_l.
      assert (H0 : 0 <= a + E) by lra.
      assert (H1 : (a + E) * ((1 - eps) * L) <= (a + E) * L).
      { apply Rmult_le_compat_l; [exact H0 | ]. nra. }
      assert (H2 : (a + E) * U <= (a + E) * ((1 + eps) * U)).
      { apply Rmult_le_compat_l; [exact H0 | ]. nra. }
      split; lra.
Qed.

(** The accumulator [S] of an entropy is within the relative error
    [2*k*eps] of the exact sum of its terms. *)
Lemma spec_S_value (counts : list Z) (k : nat) :
  terms_not_negative log counts ->
  (length counts <= k)%nat -> 2 * INR k * eps <= 1 ->
  finite (spec_S log counts) = true ->
  let T := sum_of_terms log counts in
  0 <= T /\ Rabs (F2R (spec_S log counts) - T) <= 2 * INR k * eps * T.
Proof.
  intros Hnn Hlen Hk Hfin T. pose proof eps_pos as He. pose proof eps_small as He4.
  pose proof (sum_of_terms_nonneg counts Hnn) as HT. fold T in HT.
  split; [exact HT | ].
  destruct (accumulator_bounds counts 0%float Hnn Hfin) as (_ & Hlo & Hhi).
  { destruct zero_value as [_ ->]. lra. }
  destruct zero_value as [_ Hz]. rewrite Hz, Rplus_0_l in Hlo, Hhi. fold T in Hlo, Hhi.
  fold (spec_S log counts) in Hlo, Hhi.
  assert (Hup : (1 + eps) ^ length counts <= 1 + 2 * INR k * eps).
  { apply Rle_trans with ((1 + eps) ^ k); [apply Rle_pow; [lra | exact Hlen] | ].
    apply pow_up, Hk. }
  assert (Hdn : 1 - 2 * INR k * eps <= (1 - eps) ^ length counts).
  { pose proof (pow_lo (length counts)) as Hl.
    assert (INR (length counts) <= INR k) by (apply le_INR; exact Hlen).
    pose proof (pos_INR (length counts)). nra. }
  apply Rabs_le. split; nra.
Qed.

(** The entropy [H = -S/N + log(N)] against its reference value
    [log(N) - T/N]. *)
Lemma spec_H_value (counts : list Z) (k : nat) (N : Z) :
  terms_not_negative log counts ->
  (length counts <= k)%nat -> 2 * INR k * eps <= 1 ->
  (0 < N < 2 ^ 53)%Z ->
  finite (spec_H log (spec_S log counts) N) = true ->
  let a := sum_of_terms log counts / IZR N in
  let h := F2R (log (of_int N)) - a in
  0 <= a
  /\ Rabs (F2R (spec_H log (spec_S log counts) N) - h) <= entropy_tolerance k a h.
Proof.
  intros Hnn Hlen Hk HN Hfin a h.
  pose proof eps_pos as He. pose proof eps_small as He4. pose proof eta_pos as Heta.
  unfold spec_H in Hfin |- *.
  destruct (of_int_value N HN) as [HfN HvN].
  destruct (add_value _ _ Hfin) as (HfQ & _ & HerrH).
  destruct (div_value _ _ HfN HfQ) as (HfS & _ & HerrQ).
  destruct (opp_value (spec_S log counts)) as [HvS HfS'].
  rewrite HfS' in HfS. rewrite HvS, HvN in HerrQ.
  destruct (spec_S_value counts k Hnn Hlen Hk HfS) as [HT HerrS].
  cbv zeta in HT, HerrS.
  set (T := sum_of_terms log counts) in *.
  set (sigma := F2R (spec_S log counts)) in *.
  set (q := F2R (- spec_S log counts / of_int N)) in *.
  set (Lr := F2R (log (of_int N))) in *.
  set (Hr := F2R (- spec_S log counts / of_int N + log (of_int N))) in *.
  assert (HNr : 0 < IZR N) by (apply IZR_lt; lia).
  assert (Ha : 0 <= a).
  { unfold a. apply Rmult_le_pos; [exact HT | ]. apply Rlt_le, Rinv_0_lt_compat, HNr. }
  split; [exact Ha | ].
  set (th := 2 * INR k * eps) in *.
  assert (Hth : 0 <= th).
  { unfold th. pose proof (pos_INR k). nra. }
  (* the quotient against -T/N *)
  assert (Hsig : Rabs (sigma / IZR N - a) <= th * a).
  { unfold a. replace (sigma / IZR N - T / IZR N) with ((sigma - T) * / IZR N)
      by (field; lra).
    rewrite Rabs_mult, (Rabs_pos_eq (/ IZR N))
      by (apply Rlt_le, Rinv_0_lt_compat, HNr).
    replace (th * (T / IZR N)) with (th * T * / IZR N) by (field; lra).
    apply Rmult_le_compat_r; [apply Rlt_le, Rinv_0_lt_compat, HNr | exact HerrS]. }
  assert (Hsa : Rabs (sigma / IZR N) <= (1 + th) * a).
  { replace (sigma / IZR N) with ((sigma / IZR N - a) + a) by ring.
    eapply Rle_trans; [apply Rabs_triang | ].
    rewrite (Rabs_pos_eq a) by exact Ha. lra. }
  replace (- sigma / IZR N) with (- (sigma / IZR N)) in HerrQ by (field; lra).
  rewrite Rabs_Ropp in HerrQ.
  assert (HQ : Rabs (q + a) <= accumulation_error k * a + eta).
  { replace (q + a) with ((q - - (sigma / IZR N)) + - (sigma / IZR N - a)) by ring.
    eapply Rle_trans; [apply Rabs_triang | ].
    rewrite Rabs_Ropp. unfold accumulation_error. fold th. nra. }
  set (BQ := accumulation_error k * a + eta) in *.
  assert (HqL : Rabs (q + Lr) <= Rabs h + BQ).
  { replace (q + Lr) with (h + (q + a)) by (unfold h; ring).
    eapply Rle_trans; [apply Rabs_triang | ]. lra. }
  unfold entropy_tolerance. fold BQ.
  replace (Hr - h) with ((Hr - (q + Lr)) + (q + a)) by (unfold h; ring).
  eapply Rle_trans; [apply Rabs_triang | ].
  pose proof (Rabs_pos h). nra.
Qed.

(** MI = H(A) + H(B) - H(A,B) against its reference value. *)
Lemma spec_MI_value (HA HB HAB : float) (h BH : R) :
  finite (spec_MI HA HB HAB) = true ->
  Rabs (F2R HAB - h) <= BH ->
  finite HAB = true
  /\ Rabs (F2R (spec_MI HA HB HAB) - (F2R (HA + HB) - h))
     <= eps * Rabs (F2R (HA + HB) - h) + (1 + eps) * BH.
Proof.
  intros Hfin Herr. pose proof eps_pos as He.
  unfold spec_MI in Hfin |- *. rewrite sub_as_add in Hfin |- *.
  destruct (add_value _ _ Hfin) as (_ & HfH & HerrM).
  destruct (opp_value HAB) as [HvH HfH']. rewrite HfH' in HfH. rewrite HvH in HerrM.
  split; [exact HfH | ].
  set (A := F2R (HA + HB)) in *. set (x := F2R HAB) in *.
  set (M := F2R (HA + HB + - HAB)) in *.
  assert (HAx : Rabs (A + - x) <= Rabs (A - h) + BH).
  { replace (A + - x) with ((A - h) + - (x - h)) by ring.
    eapply Rle_trans; [apply Rabs_triang | ]. rewrite Rabs_Ropp. lra. }
  replace (M - (A - h)) with ((M - (A + - x)) + - (x - h)) by ring.
  eapply Rle_trans; [apply Rabs_triang | ]. rewrite Rabs_Ropp.
  pose proof (Rabs_pos (x - h)). nra.
Qed.

(** NMI = (H(A) + H(B)) / H(A,B) against its reference value, where the
    tolerance of the joint entropy is at most half its size. *)
Lemma spec_NMI_value (HA HB HAB : float) (h BH : R) :
  finite HAB = true ->
  finite (spec_NMI HA HB HAB) = true ->
  Rabs (F2R HAB - h) <= BH -> 2 * BH <= Rabs h -> h <> 0 ->
  Rabs (F2R (spec_NMI HA HB HAB) - F2R (HA + HB) / h)
  <= Rabs (F2R (HA + HB)) / Rabs h * (2 * eps + 2 * BH / Rabs h) + eta.
Proof.
  intros HfH Hfin Herr Hhalf Hh0. pose proof eps_pos as He. pose proof eta_pos as Heta.
  unfold spec_NMI in Hfin |- *.
  destruct (div_value _ _ HfH Hfin) as (_ & Hx0 & HerrN).
  set (A := F2R (HA + HB)) in *. set (x := F2R HAB) in *.
  set (Nv := F2R ((HA + HB) / HAB)) in *.
  assert (Hhp : 0 < Rabs h) by (apply Rabs_pos_lt, Hh0).
  assert (HBH : 0 <= BH) by (pose proof (Rabs_pos (x - h)); lra).
  assert (Htri : Rabs h <= Rabs x + Rabs (x - h)).
  { replace h with (x + - (x - h)) at 1 by ring.
    eapply Rle_trans; [apply Rabs_triang | ]. rewrite Rabs_Ropp. lra. }
  assert (Hx : Rabs h / 2 <= Rabs x) by lra.
  assert (Hxp : 0 < Rabs x) by lra.
  assert (Hquot : Rabs (A / x) <= 2 * (Rabs A / Rabs h)).
  { unfold Rdiv. rewrite Rabs_mult, Rabs_inv.
    replace (2 * (Rabs A * / Rabs h)) with (Rabs A * (2 * / Rabs h)) by ring.
    apply Rmult_le_compat_l; [apply Rabs_pos | ].
    apply Rmult_le_reg_r with (r := Rabs x); [exact Hxp | ].
    rewrite Rinv_l by lra.
    apply Rmult_le_reg_r with (r := Rabs h); [exact Hhp | ].
    replace (2 * / Rabs h * Rabs x * Rabs h) with (2 * Rabs x * (/ Rabs h * Rabs h)) by ring.
    rewrite Rinv_l by lra. lra. }
  assert (Hdiff : Rabs (A / x - A / h) <= Rabs A / Rabs h * (2 * BH / Rabs h)).
  { replace (A / x - A / h) with (A / x * (- (x - h) / h)) by (field; split; assumption).
    rewrite Rabs_mult. unfold Rdiv at 2. rewrite Rabs_mult, Rabs_Ropp, Rabs_inv.
    replace (Rabs A / Rabs h * (2 * BH / Rabs h))
      with (2 * (Rabs A / Rabs h) * (BH * / Rabs h)) by (field; lra).
    apply Rmult_le_compat; [apply Rabs_pos | | exact Hquot | ].
    - apply Rmult_le_pos; [apply Rabs_pos | ]. apply Rlt_le, Rinv_0_lt_compat, Hhp.
    - apply Rmult_le_compat_r; [apply Rlt_le, Rinv_0_lt_compat, Hhp | exact Herr]. }
  replace (Nv - A / h) with ((Nv - A / x) + (A / x - A / h)) by ring.
  eapply Rle_trans; [apply Rabs_triang | ].
  assert (0 <= Rabs A / Rabs h).
  { apply Rmult_le_pos; [apply Rabs_pos | ]. apply Rlt_le, Rinv_0_lt_compat, Hhp. }
  nra.
Qed.

End EntropyValues.

Lemma concat_nils {A B : Type} (l : list B) :
  concat ((fun _ : B => @nil A) <$> l) = [].
Proof. induction l as [ | b l IH]; [reflexivity | exact IH]. Qed.

Lemma concat_cons_Permutation {A B : Type} (g : B -> A) (G : B -> list A)
    (l : list B) :
  concat ((fun j => g j :: G j) <$> l) ≡ₚ (g <$> l) ++ concat (G <$> l).
Proof.
  induction l as [ | b l IH]; [reflexivity | ].
  cbn [fmap list_fmap concat app]. constructor.
  rewrite IH. apply Permutation_app_swap_app.
Qed.

(** The cells of a grid read column after column are the cells read row
    after row, in another order. *)
Lemma grid_Permutation {A : Type} (f : nat -> nat -> A) (l1 l2 : list nat) :
  concat ((fun j => (fun i => f i j) <$> l1) <$> l2)
  ≡ₚ concat ((fun i => (fun j => f i j) <$> l2) <$> l1).
Proof.
  induction l1 as [ | a l1 IH].
  - cbn [fmap list_fmap concat]. rewrite concat_nils. reflexivity.
  - cbn [fmap list_fmap concat].
    rewrite (concat_cons_Permutation (fun j => f a j)
               (fun j => (fun i => f i j) <$> l1) l2).
    rewrite IH. reflexivity.
Qed.

Lemma grid_length {A : Type} (f : nat -> nat -> A) (l1 l2 : list nat) :
  length (concat ((fun i => (fun j => f i j) <$> l2) <$> l1))
  = (length l1 * length l2)%nat.
Proof.
  induction l1 as [ | a l1 IH]; [reflexivity | ].
  cbn [fmap list_fmap concat length]. rewrite length_app, length_fmap, IH. lia.
Qed.

(** * The metrics of two accumulation orders *)

Section ReorderedEntropies.
Import Reals Lra.
Local Open Scope R_scope.

Variable log : float -> float.

Lemma sum_of_terms_Permutation (l l' : list Z) :
  l ≡ₚ l' -> sum_of_terms log l = sum_of_terms log l'.
Proof.
  unfold sum_of_terms.
  induction 1 as [ | x l l' _ IH | x y l | l l' l'' _ IH1 _ IH2];
    cbn [foldr]; [reflexivity | rewrite IH; reflexivity | ring | congruence].
Qed.

Lemma MI_tolerance_le (k : nat) (a h A : R) :
  2 * INR k * eps <= 1 -> 0 <= a ->
  2 * MI_tolerance k a h A
  <= powerRZ 2 (-49) * ((INR k + 1) * a + Rabs h + Rabs (A - h))
     + powerRZ 2 (-1072).
Proof.
  intros Hk Ha. pose proof eps_pos as He. pose proof eps_small as He4.
  pose proof eta_pos as Heta. pose proof (pos_INR k) as Hpos.
  pose proof (Rabs_pos h) as Hh. pose proof (Rabs_pos (A - h)) as HAh.
  assert (H49 : powerRZ 2 (-49) = 8 * eps).
  { unfold eps. replace (-49)%Z with (3 + -52)%Z by lia. rewrite pow2_add.
    rewrite <- (IZR_pow2 3) by lia. reflexivity. }
  assert (H1072 : powerRZ 2 (-1072) = 4 * eta).
  { unfold eta. replace (-1072)%Z with (2 + -1074)%Z by lia. rewrite pow2_add.
    rewrite <- (IZR_pow2 2) by lia. reflexivity. }
  rewrite H49, H1072.
  unfold MI_tolerance, entropy_tolerance, accumulation_error.
  set (th := 2 * INR k * eps) in *.
  assert (Hth : 0 <= th) by (unfold th; nra).
  assert (Hke : 0 <= (INR k + 1) * eps) by nra.
  assert (Hacc : th + eps * (1 + th) <= 2 * ((INR k + 1) * eps)) by (unfold th in *; nra).
  set (c := th + eps * (1 + th)) in *.
  assert (Hc : 0 <= c) by (unfold c; nra).
  assert (Hsq : (1 + eps) * (1 + eps) <= 2) by nra.
  set (u := (INR k + 1) * eps * a).
  assert (Hu : 0 <= u) by (unfold u; apply Rmult_le_pos; lra).
  assert (Hca : c * a <= 2 * u).
  { unfold u. replace (2 * ((INR k + 1) * eps * a)) with (2 * ((INR k + 1) * eps) * a) by ring.
    apply Rmult_le_compat_r; lra. }
  assert (Hca0 : 0 <= c * a) by (apply Rmult_le_pos; lra).
  assert (Hq : (1 + eps) * ((1 + eps) * (c * a + eta)) <= 2 * (2 * u + eta)).
  { rewrite <- Rmult_assoc.
    apply Rle_trans with (2 * (c * a + eta)); [ | lra].
    apply Rmult_le_compat_r; lra. }
  assert (Hhe' : 0 <= eps * Rabs h) by (apply Rmult_le_pos; lra).
  assert (Hhe : (1 + eps) * (eps * Rabs h) <= 2 * (eps * Rabs h)).
  { apply Rmult_le_compat_r; lra. }
  assert (HAe : 0 <= eps * Rabs (A - h)) by (apply Rmult_le_pos; lra).
  replace ((1 + eps) * (eps * Rabs h + (1 + eps) * (c * a + eta)))
    with ((1 + eps) * (eps * Rabs h) + (1 + eps) * ((1 + eps) * (c * a + eta)))
    by ring.
  replace (8 * eps * ((INR k + 1) * a + Rabs h + Rabs (A - h)))
    with (8 * u + 8 * (eps * Rabs h) + 8 * (eps * Rabs (A - h)))
    by (unfold u; ring).
  lra.
Qed.

(** Two entropies accumulated over the same counts in two orders, and the
    metrics computed from them with the same marginal entropies. *)
Lemma reordered_metrics (counts counts' : list Z) (HA HB : float) (N : Z) (k : nat) :
  counts' ≡ₚ counts -> (length counts <= k)%nat -> 2 * INR k * eps <= 1 ->
  terms_not_negative log counts -> (0 < N < 2 ^ 53)%Z ->
  let HAB := spec_H log (spec_S log counts) N in
  let HAB' := spec_H log (spec_S log counts') N in
  let a := sum_of_terms log counts / IZR N in
  let h := F2R (log (of_int N)) - a in
  let A := F2R (HA + HB) in
  finite (spec_MI HA HB HAB) = true -> finite (spec_MI HA HB HAB') = true ->
  Rabs (F2R (spec_MI HA HB HAB) - (A - h)) <= MI_tolerance k a h A /\
  Rabs (F2R (spec_MI HA HB HAB') - (A - h)) <= MI_tolerance k a h A /\
  Rabs (F2R (spec_MI HA HB HAB') - F2R (spec_MI HA HB HAB))
  <= powerRZ 2 (-49) * ((INR k + 1) * a + Rabs h + Rabs (A - h))
     + powerRZ 2 (-1072) /\
  (finite (spec_NMI HA HB HAB) = true -> finite (spec_NMI HA HB HAB') = true ->
   2 * entropy_tolerance k a h <= Rabs h ->
   Rabs (F2R (spec_NMI HA HB HAB) - A / h) <= NMI_tolerance k a h A /\
   Rabs (F2R (spec_NMI HA HB HAB') - A / h) <= NMI_tolerance k a h A /\
   Rabs (F2R (spec_NMI HA HB HAB') - F2R (spec_NMI HA HB HAB))
   <= 2 * NMI_tolerance k a h A).
Proof.
  intros Hperm Hlen Hk Hnn HN HAB HAB' a h A Hfin Hfin'.
  assert (Hnn' : terms_not_negative log counts').
  { unfold terms_not_negative in *. rewrite Hperm. exact Hnn. }
  assert (Hlen' : (length counts' <= k)%nat) by (rewrite Hperm; exact Hlen).
  assert (HT : sum_of_terms log counts' = sum_of_terms log counts)
    by (apply sum_of_terms_Permutation, Hperm).
  (* finiteness of the two joint entropies *)
  assert (HfH : finite HAB = true).
  { unfold spec_MI in Hfin. rewrite sub_as_add in Hfin.
    destruct (add_value _ _ Hfin) as (_ & Hf & _).
    destruct (opp_value HAB) as [_ E]. rewrite E in Hf. exact Hf. }
  assert (HfH' : finite HAB' = true).
  { unfold spec_MI in Hfin'. rewrite sub_as_add in Hfin'.
    destruct (add_value _ _ Hfin') as (_ & Hf & _).
    destruct (opp_value HAB') as [_ E]. rewrite E in Hf. exact Hf. }
  destruct (spec_H_value log counts k N Hnn Hlen Hk HN HfH) as [Ha HerrH].
  destruct (spec_H_value log counts' k N Hnn' Hlen' Hk HN HfH') as [_ HerrH'].
  cbv zeta in Ha, HerrH, HerrH'. rewrite HT in HerrH'.
  fold a in Ha, HerrH, HerrH'. fold h in HerrH, HerrH'.
  fold HAB in HerrH. fold HAB' in HerrH'.
  destruct (spec_MI_value HA HB HAB h _ Hfin HerrH) as [_ HM].
  destruct (spec_MI_value HA HB HAB' h _ Hfin' HerrH') as [_ HM'].
  fold A in HM, HM'. fold (MI_tolerance k a h A) in HM, HM'.
  split; [exact HM | split; [exact HM' | split]].
  - eapply Rle_trans; [ | apply MI_tolerance_le; assumption].
    set (x := F2R (spec_MI HA HB HAB)) in *.
    set (x' := F2R (spec_MI HA HB HAB')) in *.
    replace (x' - x) with ((x' - (A - h)) + - (x - (A - h))) by ring.
    eapply Rle_trans; [apply Rabs_triang | ]. rewrite Rabs_Ropp. lra.
  - intros HfN HfN' Hhalf.
    assert (Hh0 : h <> 0).
    { intros E. rewrite E, Rabs_R0 in Hhalf.
      unfold entropy_tolerance in Hhalf. rewrite Rabs_R0 in Hhalf.
      pose proof eps_pos. pose proof eta_pos. pose proof (pos_INR k).
      assert (0 <= accumulation_error k * a).
      { apply Rmult_le_pos; [ | exact Ha]. unfold accumulation_error. nra. }
      nra. }
    pose proof (spec_NMI_value HA HB HAB h _ HfH HfN HerrH Hhalf Hh0) as HNv.
    pose proof (spec_NMI_value HA HB HAB' h _ HfH' HfN' HerrH' Hhalf Hh0) as HNv'.
    fold A in HNv, HNv'. fold (NMI_tolerance k a h A) in HNv, HNv'.
    split; [exact HNv | split; [exact HNv' | ]].
    set (x := F2R (spec_NMI HA HB HAB)) in *.
    set (x' := F2R (spec_NMI HA HB HAB')) in *.
    replace (x' - x) with ((x' - A / h) + - (x - A / h)) by ring.
    eapply Rle_trans; [apply Rabs_triang | ]. rewrite Rabs_Ropp. lra.
Qed.

End ReorderedEntropies.

(** * Exchanging the inputs of a whole run *)

Section SymmetryClaim.
Import Reals Lra.

Variable log : float -> float.
Variable SplitExtent : Extent -> nat -> nat -> Extent * nat.
Variable OutValue : Type.
Variable static_cast : ScalarType -> Z -> OutValue.

(** C7 (amended).  When both axes use the same bin mapping (equal bin counts,
    origins and spacings) and the two inputs have the same extent, the run on
    the exchanged inputs completes like the original run, and: its merged
    joint histogram is the transpose of the original one (and so is the
    emitted image when the whole image is requested with a supported output
    type); the total count is the same; the two marginal entropies are
    exchanged bit for bit; the joint entropy is the one of the transposed
    histogram, that is the same counts accumulated in another order.  MI and
    NMI are computed from these.  They are bit-identical to the original
    values whenever the joint entropy accumulated in that order equals the
    original one, and in any case they agree within a tolerance: where no
    term c*log(c) is negative, the count N is below 2^53 and the metrics are
    finite, both values of MI lie within [MI_tolerance] of the same reference
    value A - h, and they differ by at most
    2^-49 * ((n*n + 1) * T/N + |h| + |A - h|) + 2^-1072,
    where T is the exact sum of the terms of the joint accumulator,
    h = log(N) - T/N and A is the computed H(A) + H(B); both values of NMI
    lie within [NMI_tolerance] of A / h as long as the tolerance of the joint
    entropy is at most half of |h|. *)
Theorem exchanged_inputs_transpose_histogram
    (self : vtkImageMutualInformation) (p : Pipeline)
    (numberOfThreads : nat) (s : Strategy) :
  symmetric_bins self -> 1 <= (NumberOfBins self).1 ->
  (NumberOfBins self).1 * (NumberOfBins self).1 <= INT_MAX ->
  well_typed p -> Extent0 p = Extent1 p ->
  let n := Z.to_nat (NumberOfBins self).1 in
  let '(total, slots, l) := tasks SplitExtent p numberOfThreads s in
  completes (run_tasks SplitExtent self p total l (initial_state slots)) (fun st =>
  completes (run_tasks SplitExtent self (swap_inputs p) total l (initial_state slots))
    (fun st' =>
       let out := ReduceRequestData log OutValue static_cast self p st in
       let out' :=
         ReduceRequestData log OutValue static_cast self (swap_inputs p) st' in
       let H := joint_histogram self (Storage st) in
       let N := total_count self (Storage st) in
       let '(HA, HB, HAB) := spec_entropies log self (Storage st) in
       let HAB' := spec_H log (spec_S log (concat (transpose n H))) N in
       RequestData log SplitExtent OutValue static_cast self p numberOfThreads s
       = Some out /\
       RequestData log SplitExtent OutValue static_cast self (swap_inputs p)
                   numberOfThreads s
       = Some out' /\
       joint_histogram self (Storage st') = transpose n H /\
       (vtkTemplateAliasMacro true (OutputScalarType self) = true ->
        whole_update self (UpdateExtent p) ->
        OutData out = static_cast (OutputScalarType self) <$> concat H /\
        OutData out'
        = static_cast (OutputScalarType self) <$> concat (transpose n H)) /\
       total_count self (Storage st') = N /\
       spec_entropies log self (Storage st') = (HB, HA, HAB') /\
       (N <> 0 ->
        MutualInformation (Self out) = spec_MI HA HB HAB /\
        NormalizedMutualInformation (Self out) = spec_NMI HA HB HAB /\
        MutualInformation (Self out') = spec_MI HA HB HAB' /\
        NormalizedMutualInformation (Self out') = spec_NMI HA HB HAB') /\
       (HAB' = HAB ->
        MutualInformation (Self out') = MutualInformation (Self out) /\
        NormalizedMutualInformation (Self out')
        = NormalizedMutualInformation (Self out)) /\
       concat (transpose n H) ≡ₚ concat H /\
       (terms_not_negative log (concat H) -> 0 < N < 2 ^ 53 ->
        finite (MutualInformation (Self out)) = true ->
        finite (MutualInformation (Self out')) = true ->
        let k := (n * n)%nat in
        let a := (sum_of_terms log (concat H) / IZR N)%R in
        let h := (F2R (log (of_int N)) - a)%R in
        let A := F2R (HA + HB) in
        (Rabs (F2R (MutualInformation (Self out)) - (A - h))
         <= MI_tolerance k a h A)%R /\
        (Rabs (F2R (MutualInformation (Self out')) - (A - h))
         <= MI_tolerance k a h A)%R /\
        (Rabs (F2R (MutualInformation (Self out'))
               - F2R (MutualInformation (Self out)))
         <= powerRZ 2 (-49) * ((INR k + 1) * a + Rabs h + Rabs (A - h))
            + powerRZ 2 (-1072))%R /\
        (finite (NormalizedMutualInformation (Self out)) = true ->
         finite (NormalizedMutualInformation (Self out')) = true ->
         (2 * entropy_tolerance k a h <= Rabs h)%R ->
         (Rabs (F2R (NormalizedMutualInformation (Self out)) - A / h)
          <= NMI_tolerance k a h A)%R /\
         (Rabs (F2R (NormalizedMutualInformation (Self out')) - A / h)
          <= NMI_tolerance k a h A)%R /\
         (Rabs (F2R (NormalizedMutualInformation (Self out'))
                - F2R (NormalizedMutualInformation (Self out)))
          <= 2 * NMI_tolerance k a h A)%R)))).
Proof.
  intros Hsym HN Hmax Hty Hext n.
  pose proof (tasks_slots SplitExtent p numberOfThreads s) as Hslots.
  unfold RequestData. rewrite tasks_swap by exact Hext.
  destruct (tasks SplitExtent p numberOfThreads s) as [[total slots] l].
  pose proof (swapped_storage SplitExtent self p total slots l
                Hsym HN Hmax Hty Hext Hslots) as Hs.
  fold (initial_state slots). cbn zeta in Hs. fold n in Hs.
  destruct (run_tasks SplitExtent self p total l (initial_state slots))
    as [st | ]; [ | contradiction].
  destruct (run_tasks SplitExtent self (swap_inputs p) total l (initial_state slots))
    as [st' | ]; [ | contradiction].
  cbn [completes mbind option_bind] in Hs |- *.
  destruct Hs as (Hwf & Hwf' & Hcell & Hsum).
  pose proof Hsym as (Hn & _ & _).
  assert (Hx : 0 < (NumberOfBins self).1) by lia.
  assert (Hy : 0 < (NumberOfBins self).2) by lia.
  destruct (marginals_of_total self (Storage st) Hx Hy Hwf) as (HJ & HC & HR).
  destruct (marginals_of_total self (Storage st') Hx Hy Hwf') as (HJ' & HC' & HR').
  cbn zeta in HJ, HC, HR, HJ', HC', HR'.
  rewrite <- Hn in HJ, HC, HR, HJ', HC', HR'. fold n in HJ, HC, HR, HJ', HC', HR'.
  set (M := fun i j : nat =>
              default 0 (storage_total (cells self) (Storage st) !! (n * i + j)%nat))
    in HJ, HC, HR.
  set (M' := fun i j : nat =>
               default 0 (storage_total (cells self) (Storage st') !! (n * i + j)%nat))
    in HJ', HC', HR'.
  assert (HM : forall i j, (i < n)%nat -> (j < n)%nat -> M' i j = M j i).
  { intros i j Hi Hj. unfold M', M. rewrite Hcell by assumption. reflexivity. }
  assert (Ht : joint_histogram self (Storage st')
               = transpose n (joint_histogram self (Storage st))).
  { rewrite HJ', HJ. unfold transpose. apply fmap_seq_ext. intros i Hi.
    apply fmap_seq_ext. intros j Hj.
    rewrite cell_of_rows by assumption. apply HM; assumption. }
  assert (Hcol : column_totals self (Storage st') = row_totals self (Storage st)).
  { rewrite HC', HR. apply fmap_seq_ext. intros j Hj. f_equal.
    apply fmap_seq_ext. intros i Hi. apply HM; assumption. }
  assert (Hrow : row_totals self (Storage st') = column_totals self (Storage st)).
  { rewrite HR', HC. apply fmap_seq_ext. intros i Hi. f_equal.
    apply fmap_seq_ext. intros j Hj. apply HM; assumption. }
  assert (Hcount : total_count self (Storage st') = total_count self (Storage st)).
  { rewrite !total_count_storage by assumption. exact Hsum. }
  assert (Hent : spec_entropies log self (Storage st')
                 = ((spec_entropies log self (Storage st)).1.2,
                    (spec_entropies log self (Storage st)).1.1,
                    spec_H log (spec_S log (concat (transpose n
                                  (joint_histogram self (Storage st)))))
                           (total_count self (Storage st)))).
  { unfold spec_entropies. cbn [fst snd]. rewrite Hcol, Hrow, Ht, Hcount.
    reflexivity. }
  assert (Hperm : concat (transpose n (joint_histogram self (Storage st)))
                  ≡ₚ concat (joint_histogram self (Storage st))).
  { rewrite HJ. unfold transpose.
    rewrite (fmap_seq_ext
               (fun j => (fun i => cell ((fun i => (fun j => M i j) <$> seq 0 n)
                                           <$> seq 0 n) i j) <$> seq 0 n)
               (fun j => (fun i => M i j) <$> seq 0 n)).
    - apply grid_Permutation.
    - intros j Hj. apply fmap_seq_ext. intros i Hi.
      apply cell_of_rows; assumption. }
  assert (Hcells : length (concat (joint_histogram self (Storage st)))
                   = (n * n)%nat).
  { rewrite HJ, grid_length, !length_seq. reflexivity. }
  assert (Hk : (2 * INR (n * n) * eps <= 1)%R).
  { assert (Hnn : (INR (n * n) <= powerRZ 2 31)%R).
    { rewrite INR_IZR_INZ, <- IZR_pow2 by lia. apply IZR_le.
      unfold n. unfold INT_MAX in Hmax. lia. }
    pose proof eps_52 as H52. pose proof eps_pos as He.
    assert (H21 : (powerRZ 2 52 = powerRZ 2 21 * powerRZ 2 31)%R)
      by (rewrite <- pow2_add; reflexivity).
    assert (H2 : (2 <= powerRZ 2 21)%R).
    { rewrite <- IZR_pow2 by lia. apply IZR_le. lia. }
    pose proof (pow2_pos 31) as H31. pose proof (pos_INR (n * n)) as Hpos.
    assert ((INR (n * n) * eps <= powerRZ 2 31 * eps)%R)
      by (apply Rmult_le_compat_r; lra).
    assert ((2 * (powerRZ 2 31 * eps) <= powerRZ 2 21 * (powerRZ 2 31 * eps))%R).
    { apply Rmult_le_compat_r; [ | exact H2].
      apply Rmult_le_pos; lra. }
    rewrite H21 in H52. lra. }
  pose proof (reduce_scalars log OutValue static_cast self p st) as Hred.
  pose proof (reduce_scalars log OutValue static_cast self (swap_inputs p) st')
    as Hred'.
  cbn zeta in Hred, Hred'. rewrite Hcount in Hred'.
  unfold spec_metrics in Hred, Hred'. rewrite Hent in Hred'.
  assert (EHAB : (spec_entropies log self (Storage st)).2
                 = spec_H log (spec_S log (concat (joint_histogram self (Storage st))))
                     (total_count self (Storage st))) by reflexivity.
  destruct (spec_entropies log self (Storage st)) as [[HA HB] HAB].
  cbn [fst snd] in Hent, Hred', EHAB.
  split; [reflexivity | split; [reflexivity | ]].
  split; [exact Ht | split].
  { intros Hsup Hwhole. split.
    - apply emitted_image; assumption.
    - rewrite <- Ht. apply emitted_image; assumption. }
  split; [exact Hcount | split; [exact Hent | ]].
  destruct (total_count self (Storage st) =? 0) eqn:HN0.
  - injection Hred as -> -> _. injection Hred' as -> -> _.
    split; [intros Hne; apply Z.eqb_eq in HN0; contradiction | ].
    split; [auto | ]. split; [exact Hperm | ].
    intros _ HNpos. apply Z.eqb_eq in HN0. lia.
  - injection Hred as -> -> _. injection Hred' as -> -> _.
    assert (EM : forall x, spec_MI HB HA x = spec_MI HA HB x)
      by (intros x; unfold spec_MI; rewrite (add_comm HB HA); reflexivity).
    assert (EN : forall x, spec_NMI HB HA x = spec_NMI HA HB x)
      by (intros x; unfold spec_NMI; rewrite (add_comm HB HA); reflexivity).
    rewrite !EM, !EN.
    split; [auto | ]. split; [intros ->; auto | ].
    split; [exact Hperm | ].
    intros Hnn HNpos Hfin Hfin'. rewrite EHAB in Hfin |- *.
    apply (reordered_metrics log _ _ HA HB _ (n * n) Hperm
             ltac:(rewrite Hcells; reflexivity) Hk Hnn HNpos Hfin Hfin').
Qed.

End SymmetryClaim.

(** * Further properties of a run *)

Lemma concat_Permutation {A : Type} (ls ls' : list (list A)) :
  ls ≡ₚ ls' -> concat ls ≡ₚ concat ls'.
Proof.
  induction 1 as [ | x l l' _ IH | x y l | l l' l'' _ IH1 _ IH2]; cbn [concat].
  - reflexivity.
  - rewrite IH. reflexivity.
  - rewrite !app_assoc. rewrite (Permutation_app_comm y x). reflexivity.
  - etransitivity; eassumption.
Qed.

Lemma count_offsets_Permutation (h offs offs' : list Z) :
  offs ≡ₚ offs' -> count_offsets h offs = count_offsets h offs'.
Proof.
  intros Hperm. apply list_eq. intros k. rewrite !lookup_count_offsets.
  assert (E : count_at k offs = count_at k offs')
    by (unfold count_at; rewrite Hperm; reflexivity).
  rewrite E. reflexivity.
Qed.

(** The marginal histograms, the total count and the entropies are functions
    of the cell-wise sum of the workers' histograms. *)
Lemma entropies_of_total (log : float -> float) (self : vtkImageMutualInformation)
    (tls tls' : list ThreadData) :
  0 < (NumberOfBins self).1 -> 0 < (NumberOfBins self).2 ->
  storage_wf (cells self) tls -> storage_wf (cells self) tls' ->
  storage_total (cells self) tls = storage_total (cells self) tls' ->
  joint_histogram self tls = joint_histogram self tls' /\
  total_count self tls = total_count self tls' /\
  spec_entropies log self tls = spec_entropies log self tls'.
Proof.
  intros Hx Hy Hwf Hwf' HT.
  destruct (marginals_of_total self tls Hx Hy Hwf) as (HJ & HC & HR).
  destruct (marginals_of_total self tls' Hx Hy Hwf') as (HJ' & HC' & HR').
  cbn zeta in HJ, HC, HR, HJ', HC', HR'. rewrite <- HT in HJ', HC', HR'.
  assert (EJ : joint_histogram self tls = joint_histogram self tls') by congruence.
  assert (EN : total_count self tls = total_count self tls')
    by (unfold total_count; congruence).
  split; [exact EJ | split; [exact EN | ]].
  unfold spec_entropies. rewrite EJ, EN, HC, HR, <- HC', <- HR'. reflexivity.
Qed.

Section Schedules.

Variable log : float -> float.
Variable SplitExtent : Extent -> nat -> nat -> Extent * nat.
Variable OutValue : Type.
Variable static_cast : ScalarType -> Z -> OutValue.

(** The voxels a run processes depend on the pieces of its tasks only, not on
    the storage slots the tasks accumulate into. *)
Lemma processed_pieces (self : vtkImageMutualInformation) (p : Pipeline)
    (total : nat) (l : list (nat * nat)) :
  processed SplitExtent self p total l
  = concat ((fun piece : nat =>
               let '(splitExt, pieces) := SplitExtent (Extent0 p) piece total in
               if (piece <? pieces)%nat && ext_nonempty splitExt
               then request_voxels self p splitExt else []) <$> l.*2).
Proof. unfold processed. rewrite <- list_fmap_compose. reflexivity. Qed.

(** X3.  Under vtkSMPTools, where the row stride of the kernels does not exceed the
    row length of the buffers: whichever pool thread runs which piece, and in
    whichever order the pieces run, the run completes with the same merged
    joint histogram, the same total count and bit-identical MI, NMI and
    divisors. *)
Theorem schedule_does_not_change_result
    (self : vtkImageMutualInformation) (p : Pipeline) (numberOfThreads : nat)
    (schedule schedule' : list (nat * nat)) :
  1 <= (NumberOfBins self).2 <= (NumberOfBins self).1 ->
  (NumberOfBins self).1 * (NumberOfBins self).2 <= INT_MAX ->
  well_typed p ->
  schedule.*2 ≡ₚ schedule'.*2 ->
  let total := (SplitExtent (Extent0 p) 0 numberOfThreads).2 in
  completes (run_tasks SplitExtent self p total schedule
               (initial_state (S (max_list (schedule.*1))))) (fun st =>
  completes (run_tasks SplitExtent self p total schedule'
               (initial_state (S (max_list (schedule'.*1))))) (fun st' =>
    let out := ReduceRequestData log OutValue static_cast self p st in
    let out' := ReduceRequestData log OutValue static_cast self p st' in
    RequestData log SplitExtent OutValue static_cast self p numberOfThreads
                (SMPTools schedule) = Some out /\
    RequestData log SplitExtent OutValue static_cast self p numberOfThreads
                (SMPTools schedule') = Some out' /\
    joint_histogram self (Storage st') = joint_histogram self (Storage st) /\
    total_count self (Storage st') = total_count self (Storage st) /\
    MutualInformation (Self out') = MutualInformation (Self out) /\
    NormalizedMutualInformation (Self out')
    = NormalizedMutualInformation (Self out) /\
    Divisors out' = Divisors out)).
Proof.
  intros Hb Hmax Hty Hperm total.
  pose proof (tasks_slots SplitExtent p numberOfThreads (SMPTools schedule)) as Hsl.
  pose proof (tasks_slots SplitExtent p numberOfThreads (SMPTools schedule')) as Hsl'.
  unfold RequestData. cbn [tasks] in Hsl, Hsl' |- *. fold total.
  pose proof (processed_in_buffer SplitExtent self p total schedule Hb Hmax Hty) as Hin.
  pose proof (processed_in_buffer SplitExtent self p total schedule' Hb Hmax Hty) as Hin'.
  pose proof (run_tasks_total SplitExtent self p total schedule
                (initial_state (S (max_list (schedule.*1))))
                ltac:(nia) (storage_wf_initial _ _)) as Hrun.
  pose proof (run_tasks_total SplitExtent self p total schedule'
                (initial_state (S (max_list (schedule'.*1))))
                ltac:(nia) (storage_wf_initial _ _)) as Hrun'.
  cbn [initial_state Storage] in Hrun, Hrun'.
  rewrite length_replicate in Hrun, Hrun'.
  specialize (Hrun Hsl Hin). specialize (Hrun' Hsl' Hin').
  fold (initial_state (S (max_list (schedule.*1)))).
  fold (initial_state (S (max_list (schedule'.*1)))).
  destruct (run_tasks SplitExtent self p total schedule _) as [st | ];
    [ | contradiction].
  destruct (run_tasks SplitExtent self p total schedule' _) as [st' | ];
    [ | contradiction].
  cbn [completes mbind option_bind] in Hrun, Hrun' |- *.
  destruct Hrun as (Hwf & _ & Htot). destruct Hrun' as (Hwf' & _ & Htot').
  rewrite storage_total_initial in Htot, Htot'.
  assert (HT : storage_total (cells self) (Storage st')
               = storage_total (cells self) (Storage st)).
  { rewrite Htot, Htot'. apply count_offsets_Permutation.
    unfold offsets. apply fmap_Permutation.
    rewrite !processed_pieces. apply concat_Permutation, fmap_Permutation.
    symmetry. exact Hperm. }
  destruct (entropies_of_total log self (Storage st') (Storage st)
              ltac:(lia) ltac:(lia) Hwf' Hwf HT) as (EJ & EN & EH).
  pose proof (reduce_scalars log OutValue static_cast self p st) as Hred.
  pose proof (reduce_scalars log OutValue static_cast self p st') as Hred'.
  cbn zeta in Hred, Hred'. unfold spec_metrics in Hred, Hred'.
  rewrite EN, EH in Hred'. rewrite <- Hred in Hred'.
  injection Hred' as -> -> ->. auto 10.
Qed.

(** X4.  A reduction that finds no count in the workers' histograms stores the
    floor values, without evaluating any division. *)
Theorem zero_count_yields_floor_values
    (self : vtkImageMutualInformation) (p : Pipeline) (st : RunState) :
  total_count self (Storage st) = 0 ->
  let out := ReduceRequestData log OutValue static_cast self p st in
  MutualInformation (Self out) = 0%float /\
  NormalizedMutualInformation (Self out) = 1%float /\
  Divisors out = [].
Proof.
  intros HN out. subst out.
  pose proof (reduce_scalars log OutValue static_cast self p st) as Hred.
  cbn zeta in Hred. rewrite HN in Hred. cbn [Z.eqb] in Hred.
  injection Hred as -> -> ->. auto.
Qed.

Lemma processed_excluded
    (self : vtkImageMutualInformation) (p : Pipeline) (total : nat)
    (l : list (nat * nat)) :
  (forall extent, clip_extent extent (Extent0 p) (Extent1 p) = None)
  \/ (forall extent,
        Forall (fun span => IsInStencil span = false) (StencilSpans p extent)) ->
  processed SplitExtent self p total l = [].
Proof.
  intros Hout. unfold processed.
  induction l as [ | t l IH]; [reflexivity | ].
  cbn [fmap list_fmap concat]. rewrite IH, app_nil_r.
  destruct (SplitExtent (Extent0 p) t.2 total) as [splitExt pieces].
  destruct ((t.2 <? pieces)%nat && ext_nonempty splitExt); [ | reflexivity].
  unfold request_voxels.
  destruct Hout as [Hnone | Hmask]; [rewrite Hnone; reflexivity | ].
  destruct (clip_extent splitExt (Extent0 p) (Extent1 p)) as [ext | ];
    [ | reflexivity].
  destruct (kernel_runs self p); [ | reflexivity].
  induction (Hmask ext) as [ | span spans Hs _ IHs]; [reflexivity | ].
  cbn [in_stencil]. rewrite Hs, IHs. reflexivity.
Qed.

End Schedules.

(** X2.  In the generic kernel a non-finite intensity is binned like any other
    value: NaN in bin 0, an infinity in an edge bin; and where the row stride
    numBins[1] does not exceed the row length numBins[0], the cell that is
    incremented lies inside the worker's histogram. *)
Theorem nonfinite_values_counted_in_bounds
    (numBins : Z * Z) (binOrigin binSpacing : float * float) (v : Pixel * Pixel) :
  1 <= numBins.2 <= numBins.1 -> numBins.1 * numBins.2 <= INT_MAX ->
  (exists off, affine_offset numBins binOrigin binSpacing v = Some off
               /\ 0 <= off < numBins.1 * numBins.2) /\
  (is_nan (to_double v.1) = true ->
   kernel_bin numBins.1 binOrigin.1 binSpacing.1 (to_double v.1) = Some 0) /\
  (is_nan (to_double v.2) = true ->
   kernel_bin numBins.2 binOrigin.2 binSpacing.2 (to_double v.2) = Some 0) /\
  (is_infinity (to_double v.1) = true ->
   kernel_bin numBins.1 binOrigin.1 binSpacing.1 (to_double v.1) = Some 0 \/
   kernel_bin numBins.1 binOrigin.1 binSpacing.1 (to_double v.1)
   = Some (numBins.1 - 1)) /\
  (is_infinity (to_double v.2) = true ->
   kernel_bin numBins.2 binOrigin.2 binSpacing.2 (to_double v.2) = Some 0 \/
   kernel_bin numBins.2 binOrigin.2 binSpacing.2 (to_double v.2)
   = Some (numBins.2 - 1)).
Proof.
  intros Hb Hmax. assert (Hi : numBins.1 <= INT_MAX) by nia.
  split; [apply affine_offset_in_range; assumption | ].
  unfold kernel_bin.
  repeat split; intros Hv;
    first [apply affine_bin_nan; [lia | exact Hv]
          | apply affine_bin_infinity; [lia | exact Hv]].
Qed.

(** * Extent clipping *)

Lemma clip_axis_spec (r a b : Z * Z) :
  match clip_axis r a b with
  | Some c =>
      (forall x, in_range c x <-> in_range r x /\ in_range a x /\ in_range b x)
      /\ c.1 <= c.2
  | None => forall x, ~ (in_range r x /\ in_range a x /\ in_range b x)
  end.
Proof.
  unfold clip_axis, in_range. destruct r as [r1 r2], a as [a1 a2], b as [b1 b2].
  cbn [fst snd]. cbv zeta.
  repeat match goal with
         | |- context [?x <? ?y] =>
             is_var x; is_var y; destruct (Z.ltb_spec x y); cbv iota
         end;
    cbn [fst snd]; first [intros x; lia | split; [intros x; lia | lia]].
Qed.

(** X7.  The loop that keeps the execute extent inside both inputs computes
    the intersection of the three extents: when it goes on, the clipped
    extent is not empty and holds exactly the points that lie in the piece and
    in both inputs; it returns early exactly when no point lies in all
    three. *)
Theorem clip_extent_is_intersection (extent inExt0 inExt1 : Extent) :
  match clip_extent extent inExt0 inExt1 with
  | Some clipped =>
      ext_nonempty clipped = true /\
      forall pt, in_extent clipped pt
                 <-> in_extent extent pt /\ in_extent inExt0 pt
                     /\ in_extent inExt1 pt
  | None =>
      forall pt, ~ (in_extent extent pt /\ in_extent inExt0 pt
                    /\ in_extent inExt1 pt)
  end.
Proof.
  unfold clip_extent, in_extent.
  pose proof (clip_axis_spec (ext_x extent) (ext_x inExt0) (ext_x inExt1)) as Hx.
  pose proof (clip_axis_spec (ext_y extent) (ext_y inExt0) (ext_y inExt1)) as Hy.
  pose proof (clip_axis_spec (ext_z extent) (ext_z inExt0) (ext_z inExt1)) as Hz.
  destruct (clip_axis (ext_x extent) _ _) as [x | ]; cbn [mbind option_bind];
    [ | intros pt H; apply (Hx pt.1.1); tauto].
  destruct (clip_axis (ext_y extent) _ _) as [y | ]; cbn [mbind option_bind];
    [ | intros pt H; apply (Hy pt.1.2); tauto].
  destruct (clip_axis (ext_z extent) _ _) as [z | ]; cbn [mbind option_bind];
    [ | intros pt H; apply (Hz pt.2); tauto].
  destruct Hx as [Hx Hx'], Hy as [Hy Hy'], Hz as [Hz Hz'].
  split.
  - unfold ext_nonempty, ext_x, ext_y, ext_z. cbn [fst snd].
    rewrite !andb_true_iff, !Z.leb_le. auto.
  - intros pt. unfold ext_x at 1, ext_y at 1, ext_z at 1. cbn [fst snd].
    rewrite (Hx pt.1.1), (Hy pt.1.2), (Hz pt.2). tauto.
Qed.

(** * The cells of the merged histogram *)

Lemma selected_offset_bins (self : vtkImageMutualInformation) (p : Pipeline)
    (v : Pixel * Pixel) :
  selected_offset self p v
  = (b ← voxel_bins self p v; cell_offset b.2 (NumberOfBins self).2 b.1).
Proof.
  unfold selected_offset, voxel_bins, prescaled_offset, affine_offset.
  destruct (prescaled_selected self p).
  - destruct (read_uchar v.1) as [x | ]; [ | reflexivity].
    destruct (read_uchar v.2) as [y | ]; reflexivity.
  - destruct (kernel_bin _ _ _ (to_double v.1)) as [xi | ]; [ | reflexivity].
    destruct (kernel_bin _ _ _ (to_double v.2)) as [yi | ]; reflexivity.
Qed.

Lemma voxel_bins_in_range (self : vtkImageMutualInformation) (p : Pipeline)
    (v : Pixel * Pixel) :
  1 <= (NumberOfBins self).1 <= INT_MAX -> 1 <= (NumberOfBins self).2 <= INT_MAX ->
  pixel_of_type (ScalarType0 p) v.1 -> pixel_of_type (ScalarType1 p) v.2 ->
  exists xi yi, voxel_bins self p v = Some (xi, yi)
                /\ 0 <= xi < (NumberOfBins self).1
                /\ 0 <= yi < (NumberOfBins self).2.
Proof.
  intros Hx Hy H1 H2. unfold voxel_bins.
  destruct (prescaled_selected self p) eqn:Hpre.
  - destruct (prescaled_selected_types self p Hpre) as [E0 E1].
    destruct (H1 E0) as (x & -> & Hxr). destruct (H2 E1) as (y & -> & Hyr).
    unfold read_uchar.
    replace ((0 <=? x) && (x <=? 255)) with true
      by (symmetry; apply andb_true_iff; split; apply Z.leb_le; lia).
    replace ((0 <=? y) && (y <=? 255)) with true
      by (symmetry; apply andb_true_iff; split; apply Z.leb_le; lia).
    cbn [mbind option_bind]. eexists _, _. split; [reflexivity | ].
    destruct (Z.ltb_spec x ((NumberOfBins self).1 - 1));
      destruct (Z.ltb_spec y ((NumberOfBins self).2 - 1)); lia.
  - unfold kernel_bin.
    destruct (affine_bin_range (- (BinOrigin self).1) (1 / (BinSpacing self).1)
                (to_double v.1) ((NumberOfBins self).1 - 1) ltac:(lia))
      as (xi & -> & Hxi).
    destruct (affine_bin_range (- (BinOrigin self).2) (1 / (BinSpacing self).2)
                (to_double v.2) ((NumberOfBins self).2 - 1) ltac:(lia))
      as (yi & -> & Hyi).
    cbn [mbind option_bind]. exists xi, yi. repeat split; lia.
Qed.

Lemma length_filter_ext {A : Type} (P Q : A -> Prop)
    `{!forall x, Decision (P x)} `{!forall x, Decision (Q x)} (l : list A) :
  Forall (fun x => P x <-> Q x) l -> length (filter P l) = length (filter Q l).
Proof.
  induction 1 as [ | x l Hx _ IH]; [reflexivity | ].
  rewrite !filter_cons.
  destruct (decide (P x)), (decide (Q x)); cbn [length]; try tauto; lia.
Qed.

Lemma count_at_offsets (f : Pixel * Pixel -> option Z) (k : nat)
    (vs : list (Pixel * Pixel)) :
  Forall (fun v => exists off, f v = Some off /\ 0 <= off) vs ->
  count_at k (offsets f vs)
  = length (filter (fun v => f v = Some (Z.of_nat k)) vs).
Proof.
  intros Hvs. unfold count_at, offsets.
  induction Hvs as [ | v vs (off & Hoff & Hpos) _ IH]; [reflexivity | ].
  cbn [fmap list_fmap]. rewrite !filter_cons, Hoff. cbn [default from_option id].
  fold (fmap (M := list) (fun v => default 0 (f v)) vs).
  destruct (decide (Z.to_nat off = k)) as [E | E];
    destruct (decide (Some off = Some (Z.of_nat k))) as [E' | E'];
    cbn [length]; rewrite ?IH; try reflexivity; exfalso.
  - apply E'. f_equal. lia.
  - apply E. injection E' as ->. lia.
Qed.

Lemma cell_of_rows_rect (M : nat -> nat -> Z) (nx ny i j : nat) :
  (i < ny)%nat -> (j < nx)%nat ->
  cell ((fun i => (fun j => M i j) <$> seq 0 nx) <$> seq 0 ny) i j = M i j.
Proof.
  intros Hi Hj. unfold cell.
  rewrite list_lookup_fmap, lookup_seq_lt by exact Hi. cbn.
  rewrite list_lookup_fmap, lookup_seq_lt by exact Hj. reflexivity.
Qed.

Section Cells.

Variable SplitExtent : Extent -> nat -> nat -> Extent * nat.

(** X8.  Where the row stride of the kernels does not exceed the row length of
    the buffers, a run completes and cell (ix, iy) of the merged joint
    histogram holds the number of processed voxel pairs the kernel counted at
    offset numBins[0]*iy + ix, that is those whose bins satisfy
    yi*numBins[1] + xi = numBins[0]*iy + ix.  With numBins[0] = numBins[1]
    these are exactly the pairs whose bin for image A is ix and whose bin for
    image B is iy. *)
Theorem joint_histogram_cells_count_bin_pairs
    (self : vtkImageMutualInformation) (p : Pipeline)
    (numberOfThreads : nat) (s : Strategy) :
  1 <= (NumberOfBins self).2 <= (NumberOfBins self).1 ->
  (NumberOfBins self).1 * (NumberOfBins self).2 <= INT_MAX ->
  well_typed p ->
  let nx := Z.to_nat (NumberOfBins self).1 in
  let ny := Z.to_nat (NumberOfBins self).2 in
  let '(total, slots, l) := tasks SplitExtent p numberOfThreads s in
  completes (run_tasks SplitExtent self p total l (initial_state slots))
    (fun st =>
       let H := joint_histogram self (Storage st) in
       let vs := processed SplitExtent self p total l in
       (forall ix iy, (ix < nx)%nat -> (iy < ny)%nat ->
          cell H iy ix = Z.of_nat (pairs_at_offset self p (nx * iy + ix) vs)) /\
       ((NumberOfBins self).1 = (NumberOfBins self).2 ->
        forall ix iy, (ix < nx)%nat -> (iy < ny)%nat ->
          cell H iy ix = Z.of_nat (pairs_in_bin self p ix iy vs))).
Proof.
  intros Hb Hmax Hty nx ny.
  pose proof (tasks_slots SplitExtent p numberOfThreads s) as Hslots.
  destruct (tasks SplitExtent p numberOfThreads s) as [[total slots] l].
  pose proof (processed_in_buffer SplitExtent self p total l Hb Hmax Hty) as Hin.
  pose proof (processed_well_typed SplitExtent self p total l Hty) as Htyped.
  assert (Hx : 0 < (NumberOfBins self).1) by lia.
  assert (Hy : 0 < (NumberOfBins self).2) by lia.
  pose proof (run_tasks_total SplitExtent self p total l (initial_state slots)
                ltac:(nia) (storage_wf_initial _ _)) as Hrun.
  cbn [initial_state Storage] in Hrun.
  rewrite length_replicate in Hrun. specialize (Hrun Hslots Hin).
  destruct (run_tasks SplitExtent self p total l (initial_state slots))
    as [st | ]; [ | contradiction].
  cbn [completes] in Hrun |- *. destruct Hrun as (Hwf & _ & Htot).
  rewrite storage_total_initial in Htot.
  destruct (marginals_of_total self (Storage st) Hx Hy Hwf) as (HJ & _ & _).
  cbn zeta in HJ. fold nx ny in HJ.
  set (vs := processed SplitExtent self p total l) in *.
  assert (Hcell : forall ix iy, (ix < nx)%nat -> (iy < ny)%nat ->
            cell (joint_histogram self (Storage st)) iy ix
            = Z.of_nat (pairs_at_offset self p (nx * iy + ix) vs)).
  { intros ix iy Hix Hiy. rewrite HJ, cell_of_rows_rect by assumption.
    rewrite Htot, lookup_count_offsets, lookup_replicate_2
      by (rewrite (bins_cells self Hx Hy); fold nx ny; nia).
    cbn [fmap option_fmap option_map default from_option id].
    rewrite Z.add_0_l. f_equal.
    rewrite count_at_offsets.
    - unfold pairs_at_offset. apply length_filter_ext.
      eapply Forall_impl; [exact Hin | ]. intros v (off & Hoff & _).
      rewrite selected_offset_bins in Hoff |- *.
      destruct (voxel_bins self p v) as [[xi yi] | ];
        cbn [mbind option_bind fmap option_fmap option_map fst snd] in Hoff |- *;
        [ | discriminate].
      unfold cell_offset in Hoff |- *.
      destruct (int_range (yi * (NumberOfBins self).2)); [tauto | discriminate].
    - eapply Forall_impl; [exact Hin | ]. intros v (off & Hoff & Hr).
      exists off. split; [exact Hoff | lia]. }
  split; [exact Hcell | ].
  intros Hsq ix iy Hix Hiy. rewrite Hcell by assumption. f_equal.
  unfold pairs_at_offset, pairs_in_bin. apply length_filter_ext.
  eapply Forall_impl; [exact Htyped | ]. intros v [H1 H2].
  destruct (voxel_bins_in_range self p v ltac:(nia) ltac:(nia) H1 H2)
    as (xi & yi & -> & Hxi & Hyi).
  cbn [fmap option_fmap option_map fst snd].
  unfold nx, ny in Hix, Hiy |- *. rewrite <- Hsq in *.
  split; intros E; injection E as E.
  - assert (E' : yi * (NumberOfBins self).1 + xi
                 = Z.of_nat iy * (NumberOfBins self).1 + Z.of_nat ix) by nia.
    apply offset_unique in E'; [ | lia | lia]. destruct E' as [-> ->]. reflexivity.
  - subst. f_equal. nia.
Qed.

End Cells.

(** * Input types the dispatch has no kernel for *)




Section UnknownInputs.

Variable log : float -> float.
Variable SplitExtent : Extent -> nat -> nat -> Extent * nat.
Variable OutValue : Type.
Variable static_cast : ScalarType -> Z -> OutValue.




End UnknownInputs.

(** * Voxels outside the stencil or outside the common extent *)

Lemma kernels_skip_excluded_spans (spans : list Span) (outPtr : list Z)
    (numBins : Z * Z) (binOrigin binSpacing : float * float) :
  Forall (fun span => IsInStencil span = false) spans ->
  vtkImageMutualInformationExecute spans outPtr numBins binOrigin binSpacing
  = Some outPtr
  /\ vtkImageMutualInformationExecutePreScaled spans outPtr numBins = Some outPtr.
Proof.
  intros Hout.
  unfold vtkImageMutualInformationExecute, vtkImageMutualInformationExecutePreScaled.
  cbv zeta.
  induction Hout as [ | span spans Hs _ [IH1 IH2]]; [split; reflexivity | ].
  cbn [foldl_opt]. rewrite Hs. split; assumption.
Qed.

Section ExcludedVoxels.

Variable log : float -> float.
Variable SplitExtent : Extent -> nat -> nat -> Extent * nat.
Variable OutValue : Type.
Variable static_cast : ScalarType -> Z -> OutValue.

(** X5.  Voxels the stencil excludes, and pieces outside the common extent of
    the two inputs, are not counted.  Both kernels hand back the histogram
    they were given when every span they iterate over lies outside the
    stencil.  And when the stencil excludes every voxel, or the common extent
    of the inputs misses every piece, the run completes (with positive bin
    counts) with a merged joint histogram of zeros, the reduction stores the
    floor values MI = 0 and NMI = 1 without dividing, and the emitted image
    is all zeros. *)
Theorem excluded_voxels_are_not_processed
    (self : vtkImageMutualInformation) (p : Pipeline)
    (numberOfThreads : nat) (s : Strategy) :
  0 < (NumberOfBins self).1 -> 0 < (NumberOfBins self).2 ->
  (forall extent, clip_extent extent (Extent0 p) (Extent1 p) = None)
  \/ (forall extent,
        Forall (fun span => IsInStencil span = false) (StencilSpans p extent)) ->
  (forall spans outPtr,
     Forall (fun span => IsInStencil span = false) spans ->
     vtkImageMutualInformationExecute spans outPtr
       (NumberOfBins self) (BinOrigin self) (BinSpacing self) = Some outPtr
     /\ vtkImageMutualInformationExecutePreScaled spans outPtr
          (NumberOfBins self) = Some outPtr) /\
  let '(total, slots, l) := tasks SplitExtent p numberOfThreads s in
  completes (run_tasks SplitExtent self p total l (initial_state slots))
    (fun st =>
       let out := ReduceRequestData log OutValue static_cast self p st in
       RequestData log SplitExtent OutValue static_cast self p numberOfThreads s
       = Some out /\
       concat (joint_histogram self (Storage st))
       = replicate (Z.to_nat (NumberOfBins self).1 * Z.to_nat (NumberOfBins self).2) 0 /\
       MutualInformation (Self out) = 0%float /\
       NormalizedMutualInformation (Self out) = 1%float /\
       Divisors out = [] /\
       (vtkTemplateAliasMacro true (OutputScalarType self) = true ->
        whole_update self (UpdateExtent p) ->
        OutData out
        = replicate (Z.to_nat (NumberOfBins self).1 * Z.to_nat (NumberOfBins self).2)
                    (static_cast (OutputScalarType self) 0))).
Proof.
  intros Hx Hy Hout.
  split; [intros spans outPtr; apply kernels_skip_excluded_spans | ].
  unfold RequestData.
  pose proof (tasks_slots SplitExtent p numberOfThreads s) as Hslots.
  destruct (tasks SplitExtent p numberOfThreads s) as [[total slots] l].
  fold (initial_state slots).
  pose proof (run_tasks_total SplitExtent self p total l (initial_state slots)
                ltac:(nia) (storage_wf_initial _ _)) as Hrun.
  cbn [initial_state Storage] in Hrun.
  rewrite length_replicate, (processed_excluded SplitExtent) in Hrun by exact Hout.
  specialize (Hrun Hslots (Forall_nil_2 _)). fold (initial_state slots) in Hrun.
  destruct (run_tasks SplitExtent self p total l (initial_state slots)) as [st | ];
    [ | contradiction].
  cbn [completes mbind option_bind] in Hrun |- *.
  destruct Hrun as (Hwf & _ & Htot).
  rewrite storage_total_initial in Htot.
  cbn [offsets fmap list_fmap count_offsets foldl] in Htot.
  pose proof (reduce_scalars log OutValue static_cast self p st) as Hred.
  cbn zeta in Hred.
  rewrite total_count_storage, Htot, sumZ_zeros in Hred by assumption.
  cbn [Z.eqb] in Hred. injection Hred as -> -> ->.
  assert (Hzero : concat (joint_histogram self (Storage st))
                  = replicate (Z.to_nat (NumberOfBins self).1
                               * Z.to_nat (NumberOfBins self).2) 0).
  { destruct (joint_histogram_total self (Storage st) Hx Hy Hwf) as [-> _].
    rewrite concat_rows, Htot, (bins_cells self Hx Hy).
    rewrite take_replicate, Nat.min_id. reflexivity. }
  split; [reflexivity | ].
  split; [exact Hzero | ].
  split; [reflexivity | split; [reflexivity | split; [reflexivity | ]]].
  intros Hsup Hwhole. rewrite emitted_image by assumption.
  rewrite Hzero, fmap_replicate. reflexivity.
Qed.

End ExcludedVoxels.

(** * The emitted image and the update extent *)

Lemma concat_if_filter {A B : Type} (P : A -> bool) (f : A -> list B)
    (l : list A) :
  concat ((fun x => if P x then f x else []) <$> l)
  = concat (f <$> filter (fun x => P x = true) l).
Proof.
  induction l as [ | x l IH]; [reflexivity | ].
  cbn [fmap list_fmap concat]. rewrite filter_cons, IH.
  destruct (P x) eqn:E.
  - rewrite decide_True by reflexivity. reflexivity.
  - rewrite decide_False by discriminate. reflexivity.
Qed.

Lemma length_concat_uniform {A : Type} (n : nat) (ls : list (list A)) :
  Forall (fun r => length r = n) ls ->
  length (concat ls) = (n * length ls)%nat.
Proof.
  induction 1 as [ | r ls Hr _ IH]; cbn [concat length]; [lia | ].
  rewrite length_app, IH, Hr. lia.
Qed.

Lemma length_merged_row (nx ny iy : nat) (tls : list ThreadData) :
  storage_wf (nx * ny) tls -> (iy < ny)%nat -> length (merged_row nx tls iy) = nx.
Proof.
  intros Hwf Hiy. destruct (merged_row_total nx ny iy tls Hwf Hiy) as [-> _].
  apply (length_row_of nx ny); [ | exact Hiy].
  apply length_storage_total. exact Hwf.
Qed.

Section Emission.

Variable log : float -> float.
Variable OutValue : Type.
Variable static_cast : ScalarType -> Z -> OutValue.

(** X10.  With a supported output type and an update extent whose columns lie
    inside the histogram, the reduction emits exactly the requested block:
    for each requested row the requested columns of the merged row, cast to
    the output type, so (x1 - x0 + 1) values per requested row; the scalars
    MI and NMI are computed from the whole histogram and do not depend on the
    update extent. *)
Theorem partial_update_emits_requested_block
    (self : vtkImageMutualInformation) (p : Pipeline) (st : RunState)
    (update' : Extent) :
  vtkTemplateAliasMacro true (OutputScalarType self) = true ->
  0 < (NumberOfBins self).1 -> 0 < (NumberOfBins self).2 ->
  storage_wf (cells self) (Storage st) ->
  0 <= (ext_x (UpdateExtent p)).1 ->
  (ext_x (UpdateExtent p)).2 < (NumberOfBins self).1 ->
  let out := ReduceRequestData log OutValue static_cast self p st in
  let out' :=
    ReduceRequestData log OutValue static_cast self (with_update p update') st in
  let rows := requested_rows self (UpdateExtent p) in
  OutData out
  = static_cast (OutputScalarType self)
      <$> concat ((fun iy =>
                     requested_columns (UpdateExtent p)
                       (merged_row (Z.to_nat (NumberOfBins self).1) (Storage st) iy))
                    <$> rows) /\
  Z.of_nat (length (OutData out))
  = ((ext_x (UpdateExtent p)).2 - (ext_x (UpdateExtent p)).1 + 1)
    * Z.of_nat (length rows) /\
  MutualInformation (Self out') = MutualInformation (Self out) /\
  NormalizedMutualInformation (Self out')
  = NormalizedMutualInformation (Self out).
Proof.
  intros Hsup Hx Hy Hwf Hx0 Hx1 out out' rows.
  assert (Hdata : OutData out
                  = static_cast (OutputScalarType self)
                      <$> concat ((fun iy =>
                             requested_columns (UpdateExtent p)
                               (merged_row (Z.to_nat (NumberOfBins self).1)
                                           (Storage st) iy)) <$> rows)).
  { subst out rows. unfold ReduceRequestData.
    destruct (count_and_entropy log _) as [count xEntropy].
    destruct (if count =? 0 then _ else _) as [[mi nmi] divs].
    cbn [OutData]. rewrite reduce_rows_output by exact Hsup.
    cbn [outPtr app]. f_equal.
    apply (concat_if_filter (row_requested (UpdateExtent p))
             (fun iy => requested_columns (UpdateExtent p)
                          (merged_row (Z.to_nat (NumberOfBins self).1)
                                      (Storage st) iy))). }
  split; [exact Hdata | split].
  - rewrite Hdata, length_fmap.
    destruct (Z.leb_spec (ext_x (UpdateExtent p)).1 (ext_x (UpdateExtent p)).2)
      as [Hle | Hgt].
    + rewrite (length_concat_uniform
                 (Z.to_nat ((ext_x (UpdateExtent p)).2
                            - (ext_x (UpdateExtent p)).1 + 1))).
      * rewrite length_fmap. lia.
      * apply Forall_fmap, Forall_forall. intros iy Hiy.
        subst rows. unfold requested_rows in Hiy.
        apply list_elem_of_filter in Hiy as [_ Hiy]. apply elem_of_seq in Hiy.
        unfold compose, requested_columns.
        rewrite length_take, length_drop.
        rewrite (length_merged_row _ (Z.to_nat (NumberOfBins self).2));
          [lia | | lia].
        rewrite <- bins_cells by assumption. exact Hwf.
    + assert (Hrows : rows = []).
      { subst rows. unfold requested_rows.
        induction (seq 0 (Z.to_nat (NumberOfBins self).2)) as [ | iy l IH];
          [reflexivity | ].
        rewrite filter_cons, IH. unfold row_requested.
        replace ((ext_x (UpdateExtent p)).1 <=? (ext_x (UpdateExtent p)).2)
          with false by (symmetry; apply Z.leb_gt; lia).
        rewrite andb_false_r, decide_False by discriminate. reflexivity. }
      rewrite Hrows. cbn. lia.
  - subst out out'.
    pose proof (reduce_scalars log OutValue static_cast self p st) as Hred.
    pose proof (reduce_scalars log OutValue static_cast self
                  (with_update p update') st) as Hred'.
    cbn zeta in Hred, Hred'. rewrite <- Hred in Hred'.
    injection Hred' as -> -> _. auto.
Qed.

(** X11.  [RequestInformation] advertises an output of numBins[0] by
    numBins[1] by 1 cells, placed at the bin origin with the bin spacing, of
    the configured output type.  When the pipeline requests that whole extent
    and the type is supported, the reduction emits numBins[0]*numBins[1]
    values of that type: the merged joint histogram, row after row. *)
Theorem advertised_extent_receives_whole_histogram
    (self : vtkImageMutualInformation) (p : Pipeline) (st : RunState) :
  0 < (NumberOfBins self).1 -> 0 < (NumberOfBins self).2 ->
  storage_wf (cells self) (Storage st) ->
  vtkTemplateAliasMacro true (OutputScalarType self) = true ->
  let info := RequestInformation self in
  let out := ReduceRequestData log OutValue static_cast self
               (with_update p (WHOLE_EXTENT info)) st in
  OutData out
  = static_cast (ActiveScalarType info) <$> concat (joint_histogram self (Storage st))
  /\ length (OutData out) = cells self
  /\ (forall pt, in_extent (WHOLE_EXTENT info) pt
                 <-> (0 <= pt.1.1 < (NumberOfBins self).1
                      /\ 0 <= pt.1.2 < (NumberOfBins self).2 /\ pt.2 = 0)).
Proof.
  intros Hx Hy Hwf Hsup info out.
  assert (Hwhole : whole_update self (UpdateExtent (with_update p (WHOLE_EXTENT info)))).
  { unfold whole_update. cbn. repeat split; lia. }
  assert (Hdata : OutData out
                  = static_cast (ActiveScalarType info)
                      <$> concat (joint_histogram self (Storage st))).
  { subst out. rewrite emitted_image by assumption. reflexivity. }
  split; [exact Hdata | split].
  - rewrite Hdata, length_fmap.
    destruct (joint_histogram_total self (Storage st) Hx Hy Hwf) as [-> _].
    rewrite concat_rows, length_take, length_storage_total by exact Hwf.
    rewrite <- bins_cells by assumption. lia.
  - intros [[x y] z]. unfold in_extent, in_range. cbn. lia.
Qed.

End Emission.

(** * The floor-value guard over a whole run *)

Section Guard.

Variable log : float -> float.
Variable SplitExtent : Extent -> nat -> nat -> Extent * nat.
Variable OutValue : Type.
Variable static_cast : ScalarType -> Z -> OutValue.

(** X12.  Where the row stride of the kernels does not exceed the row length
    of the buffers, a run completes and the reduction's count is the number N
    of in-mask voxel pairs the workers processed.  The floor values are
    stored, without any division, exactly when N = 0; otherwise every entropy
    is divided by N converted to double, a positive divisor, and MI and NMI
    are the values computed from the three normalised entropies. *)
Theorem floor_guard_tracks_voxel_count
    (self : vtkImageMutualInformation) (p : Pipeline)
    (numberOfThreads : nat) (s : Strategy) :
  1 <= (NumberOfBins self).2 <= (NumberOfBins self).1 ->
  (NumberOfBins self).1 * (NumberOfBins self).2 <= INT_MAX ->
  well_typed p ->
  let '(total, slots, l) := tasks SplitExtent p numberOfThreads s in
  let N := Z.of_nat (length (processed SplitExtent self p total l)) in
  completes (run_tasks SplitExtent self p total l (initial_state slots))
    (fun st =>
       let out := ReduceRequestData log OutValue static_cast self p st in
       RequestData log SplitExtent OutValue static_cast self p numberOfThreads s
       = Some out /\
       (N = 0 ->
        MutualInformation (Self out) = 0%float /\
        NormalizedMutualInformation (Self out) = 1%float /\
        Divisors out = []) /\
       (0 < N ->
        (MutualInformation (Self out), NormalizedMutualInformation (Self out))
        = spec_metrics log self (Storage st) /\
        Divisors out = [of_int N; of_int N; of_int N;
                        (spec_entropies log self (Storage st)).2] /\
        (N < 2 ^ 53 -> (0 <? of_int N)%float = true))).
Proof.
  intros Hb Hmax Hty. unfold RequestData.
  pose proof (tasks_slots SplitExtent p numberOfThreads s) as Hslots.
  destruct (tasks SplitExtent p numberOfThreads s) as [[total slots] l].
  pose proof (processed_in_buffer SplitExtent self p total l Hb Hmax Hty) as Hin.
  assert (Hx : 0 < (NumberOfBins self).1) by lia.
  assert (Hy : 0 < (NumberOfBins self).2) by lia.
  pose proof (run_tasks_total SplitExtent self p total l (initial_state slots)
                ltac:(nia) (storage_wf_initial _ _)) as Hrun.
  cbn [initial_state Storage] in Hrun.
  rewrite length_replicate in Hrun. specialize (Hrun Hslots Hin).
  fold (initial_state slots) in Hrun |- *.
  destruct (run_tasks SplitExtent self p total l (initial_state slots))
    as [st | ]; [ | contradiction].
  cbn [completes mbind option_bind] in Hrun |- *.
  destruct Hrun as (Hwf & _ & Htot).
  rewrite storage_total_initial in Htot.
  assert (HN : total_count self (Storage st)
               = Z.of_nat (length (processed SplitExtent self p total l))).
  { rewrite total_count_storage by assumption. rewrite Htot, sumZ_count_offsets.
    - rewrite sumZ_zeros. unfold offsets. rewrite length_fmap. lia.
    - rewrite length_replicate. apply offsets_in_range. exact Hin. }
  pose proof (reduce_scalars log OutValue static_cast self p st) as Hred.
  cbn zeta in Hred. rewrite HN in Hred.
  split; [reflexivity | split].
  - intros E. rewrite E in Hred. cbn [Z.eqb] in Hred.
    injection Hred as -> -> ->. auto.
  - intros Hpos.
    destruct (Z.eqb_spec (Z.of_nat (length (processed SplitExtent self p total l))) 0)
      as [E | _]; [lia | ].
    pose proof (f_equal fst Hred) as H1. pose proof (f_equal snd Hred) as H2.
    cbn [fst snd] in H1, H2.
    split; [exact H1 | split; [exact H2 | ]].
    intros Hlt.
    {
      pose proof (of_int_ltb 0 (Z.of_nat (length (processed SplitExtent self p total l)))
                    ltac:(lia) ltac:(lia)) as Hl.
      change (of_int 0) with 0%float in Hl. rewrite Hl. apply Z.ltb_lt. lia. }
Qed.

(** X13.  The workers' histograms are allocated and zeroed without a check of
    the bin counts: when numBins[0]*numBins[1] is not positive, the first task
    that reaches [ThreadedRequestData] writes outside its allocation, and the
    run does not complete. *)
Theorem nonpositive_bin_count_breaks_allocation
    (self : vtkImageMutualInformation) (p : Pipeline)
    (numberOfThreads : nat) (s : Strategy) :
  (NumberOfBins self).1 * (NumberOfBins self).2 <= 0 ->
  (let '(total, slots, l) := tasks SplitExtent p numberOfThreads s in
   Exists (fun t => executes SplitExtent p total t = true) l) ->
  RequestData log SplitExtent OutValue static_cast self p numberOfThreads s = None.
Proof.
  intros Hbins Hex. unfold RequestData.
  pose proof (tasks_slots SplitExtent p numberOfThreads s) as Hslots.
  destruct (tasks SplitExtent p numberOfThreads s) as [[total slots] l].
  assert (Hrun : run_tasks SplitExtent self p total l
                   {| Storage := replicate slots None; ErrorLog := [] |} = None).
  { induction l as [ | t l IH]; [inversion Hex | ].
    apply Forall_cons in Hslots as [Ht Hslots].
    unfold run_tasks. cbn [foldl_opt].
    unfold vtkImageMutualInformationThreadedExecute at 1.
    destruct (executes SplitExtent p total t) eqn:Hexec;
      pose proof Hexec as Hexec'; unfold executes in Hexec';
      destruct (SplitExtent (Extent0 p) t.2 total) as [splitExt pieces];
      rewrite Hexec'.
    - unfold ThreadedRequestData. cbn [Storage].
      rewrite lookup_replicate_2 by exact Ht. cbn [mbind option_bind].
      unfold allocate.
      replace (0 <? (NumberOfBins self).1 * (NumberOfBins self).2) with false
        by (symmetry; apply Z.ltb_ge; lia).
      reflexivity.
    - apply IH; [ | exact Hslots].
      apply Exists_cons in Hex as [Hd | Hl]; [congruence | exact Hl]. }
  rewrite Hrun. reflexivity.
Qed.

End Guard.

(** * The extent a worker splits *)

Lemma found_extent_spec (ports : list InputPort) :
  match found_extent ports with
  | Some extent =>
      exists i port,
        ports !! i = Some port
        /\ (0 < NumberOfInputConnections port)%nat
        /\ DATA_OBJECT port = ImageData extent
        /\ Forall (fun port' => NumberOfInputConnections port' = 0%nat
                                \/ DATA_OBJECT port' = NotImageData)
                  (take i ports)
  | None =>
      Forall (fun port' => NumberOfInputConnections port' = 0%nat
                           \/ DATA_OBJECT port' = NotImageData) ports
  end.
Proof.
  induction ports as [ | port ports IH]; [constructor | ].
  cbn [found_extent].
  destruct (Nat.ltb_spec 0 (NumberOfInputConnections port)) as [Hc | Hc].
  - destruct (DATA_OBJECT port) as [extent | ] eqn:Hd.
    + exists 0%nat, port. cbn. auto.
    + destruct (found_extent ports) as [extent | ].
      * destruct IH as (i & port' & Hi & Hc' & Hd' & Hbefore).
        exists (S i), port'. cbn [take]. repeat split; try assumption.
        constructor; auto.
      * constructor; auto.
  - destruct (found_extent ports) as [extent | ].
    + destruct IH as (i & port' & Hi & Hc' & Hd' & Hbefore).
      exists (S i), port'. cbn [take]. repeat split; try assumption.
      constructor; [left; lia | exact Hbefore].
    + constructor; [left; lia | exact IH].
Qed.

Section WorkerExtent.

Variable SplitExtent : Extent -> nat -> nat -> Extent * nat.

(** X14.  A worker of the fixed pool splits the extent of the first input
    port that is connected and holds image data, skipping unconnected ports
    and ports that hold something else (the stencil); when that is the first
    input, the worker does what a task of the run does.  When no port holds an
    image the worker returns without touching its storage. *)
Theorem worker_splits_first_connected_image
    (self : vtkImageMutualInformation) (p : Pipeline) (ports : list InputPort)
    (num total slot : nat) (st : RunState) :
  match found_extent ports with
  | Some extent =>
      (exists i port,
         ports !! i = Some port
         /\ (0 < NumberOfInputConnections port)%nat
         /\ DATA_OBJECT port = ImageData extent
         /\ Forall (fun port' => NumberOfInputConnections port' = 0%nat
                                 \/ DATA_OBJECT port' = NotImageData)
                   (take i ports)) /\
      (extent = Extent0 p ->
       ThreadedExecute_from_ports SplitExtent self p ports num total slot st
       = vtkImageMutualInformationThreadedExecute SplitExtent self p
           num total slot st)
  | None =>
      Forall (fun port' => NumberOfInputConnections port' = 0%nat
                           \/ DATA_OBJECT port' = NotImageData) ports /\
      ThreadedExecute_from_ports SplitExtent self p ports num total slot st
      = Some st
  end.
Proof.
  pose proof (found_extent_spec ports) as Hspec.
  unfold ThreadedExecute_from_ports.
  destruct (found_extent ports) as [extent | ].
  - split; [exact Hspec | ]. intros ->. reflexivity.
  - split; [exact Hspec | reflexivity].
Qed.

End WorkerExtent.

(** * Thread-local storage *)

Section ThreadLocalFacts.

Variable T : Type.
Variable T_default : T.

Lemma TLS_loop_pointer (tls : vtkImageSimilarityMetricTLS T) (mt : list T)
    (it : option nat) (k : nat) :
  MT tls = Some mt ->
  forall (i fuel : nat),
    (i + k = length mt)%nat -> (k < fuel)%nat ->
    TLS_loop fuel tls {| Pter := Some i; Iter := it |}
             {| Pter := Some (length mt); Iter := None |}
    = Some (drop i mt).
Proof.
  intros HMT. induction k as [ | k IH]; intros i fuel Hi Hfuel;
    (destruct fuel as [ | fuel]; [lia | ]); cbn [TLS_loop].
  - unfold iterator_ne. cbn [Pter mbind option_bind].
    rewrite bool_decide_eq_true_2 by (f_equal; lia). cbn [negb].
    rewrite drop_ge by lia. reflexivity.
  - unfold iterator_ne. cbn [Pter mbind option_bind].
    rewrite bool_decide_eq_false_2 by (intros E; injection E; lia). cbn [negb].
    unfold iterator_deref, iterator_increment. cbn [Pter Iter].
    rewrite HMT. cbn [mbind option_bind].
    destruct (lookup_lt_is_Some_2 mt i ltac:(lia)) as [x Hx].
    rewrite Hx. cbn [mbind option_bind].
    rewrite (IH (S i) fuel) by lia. cbn [mbind option_bind].
    rewrite (drop_S mt x i Hx). reflexivity.
Qed.

Lemma TLS_loop_smp (tls : vtkImageSimilarityMetricTLS T) (smp : list T)
    (k : nat) :
  SMP tls = Some smp ->
  forall (i fuel : nat),
    (i + k = length smp)%nat -> (k < fuel)%nat ->
    TLS_loop fuel tls {| Pter := None; Iter := Some i |}
             {| Pter := None; Iter := Some (length smp) |}
    = Some (drop i smp).
Proof.
  intros HSMP. induction k as [ | k IH]; intros i fuel Hi Hfuel;
    (destruct fuel as [ | fuel]; [lia | ]); cbn [TLS_loop].
  - unfold iterator_ne. cbn [Pter Iter mbind option_bind].
    rewrite bool_decide_eq_true_2 by lia. cbn [negb].
    rewrite drop_ge by lia. reflexivity.
  - unfold iterator_ne. cbn [Pter Iter mbind option_bind].
    rewrite bool_decide_eq_false_2 by lia. cbn [negb].
    unfold iterator_deref, iterator_increment. cbn [Pter Iter].
    rewrite HSMP. cbn [mbind option_bind].
    destruct (lookup_lt_is_Some_2 smp i ltac:(lia)) as [x Hx].
    rewrite Hx. cbn [mbind option_bind].
    rewrite (IH (S i) fuel) by lia. cbn [mbind option_bind].
    rewrite (drop_S smp x i Hx). reflexivity.
Qed.

(** X15.  The loop [for (iter = begin(); iter != end(); ++iter)] over a
    thread-local storage terminates and visits every element exactly once, in
    order: the storage of every thread under vtkSMPTools, the
    [NumberOfThreads] elements of the array for the fixed pool.  It never
    dereferences [end()]. *)
Theorem TLS_loop_visits_every_element
    (tls : vtkImageSimilarityMetricTLS T) (contents : list T) (fuel : nat) :
  SMP tls = Some contents
  \/ (SMP tls = None /\ MT tls = Some contents
      /\ NumberOfThreads tls = length contents) ->
  (length contents < fuel)%nat ->
  TLS_loop fuel tls (TLS_begin tls) (TLS_end tls) = Some contents.
Proof.
  intros [HSMP | (HSMP & HMT & HN)] Hfuel; unfold TLS_begin, TLS_end;
    rewrite HSMP.
  - unfold iterator_of_TLS.
    rewrite (TLS_loop_smp tls contents (length contents) HSMP 0 fuel) by lia.
    reflexivity.
  - rewrite HMT, HN. unfold iterator_of_pointer. cbn [Nat.add].
    rewrite (TLS_loop_pointer tls contents None (length contents) HMT 0 fuel)
      by lia.
    reflexivity.
Qed.

(** X16.  For a storage constructed for [threads] > 0 threads of the fixed
    pool: what a worker assigns through [Local(threadId)], with
    [threadId < threads], is what [Local(threadId)] reads back and what the
    loop from [begin()] to [end()] finds at position [threadId], every other
    element keeping its default value; [Local] does not check its index, and
    an index of [threads] or more falls outside the array. *)
Theorem MT_Local_round_trip (threads threadId : nat) (x : T) :
  (0 < threads)%nat ->
  let tls := TLS_new T_default threads in
  ((threadId < threads)%nat ->
   exists tls',
     MT_Local_assign tls threadId x = Some tls'
     /\ MT_Local tls' threadId = Some x
     /\ TLS_loop (S threads) tls' (TLS_begin tls') (TLS_end tls')
        = Some (<[threadId := x]> (replicate threads T_default))) /\
  ((threads <= threadId)%nat ->
   MT_Local tls threadId = None /\ MT_Local_assign tls threadId x = None).
Proof.
  intros Hthreads tls. subst tls. unfold TLS_new.
  replace (0 <? threads)%nat with true by (symmetry; apply Nat.ltb_lt; lia).
  unfold MT_Local_assign, MT_Local. cbn [MT SMP NumberOfThreads mbind option_bind].
  rewrite length_replicate. split.
  - intros Hlt.
    replace (threadId <? threads)%nat with true by (symmetry; apply Nat.ltb_lt; lia).
    set (mt' := <[threadId := x]> (replicate threads T_default)).
    assert (Hlen : length mt' = threads)
      by (unfold mt'; rewrite length_insert, length_replicate; reflexivity).
    exists {| SMP := None; MT := Some mt'; NumberOfThreads := threads |}.
    split; [reflexivity | ]. cbn [MT mbind option_bind]. split.
    + apply list_lookup_insert_eq. rewrite length_replicate. exact Hlt.
    + unfold TLS_begin, TLS_end, iterator_of_pointer.
      cbn [SMP MT NumberOfThreads Nat.add].
      replace (Some threads) with (Some (length mt')) by (f_equal; exact Hlen).
      apply (TLS_loop_pointer
               {| SMP := None; MT := Some mt'; NumberOfThreads := threads |}
               mt' None threads eq_refl 0%nat (S threads)); lia.
  - intros Hge.
    replace (threadId <? threads)%nat with false by (symmetry; apply Nat.ltb_ge; lia).
    split; [ | reflexivity].
    apply lookup_ge_None_2. rewrite length_replicate. exact Hge.
Qed.

End ThreadLocalFacts.

(** * When a run completes *)

Lemma accumulate_Some_inv (offset : Pixel * Pixel -> option Z)
    (vs : list (Pixel * Pixel)) (outPtr r : list Z) :
  accumulate offset outPtr vs = Some r ->
  Forall (fun v => exists off, offset v = Some off
                               /\ 0 <= off < Z.of_nat (length outPtr)) vs.
Proof.
  revert outPtr. induction vs as [ | v vs IH]; intros outPtr Hr; [constructor | ].
  unfold accumulate in Hr. cbn [foldl_opt] in Hr.
  destruct (offset v) as [off | ] eqn:Hoff; cbn [mbind option_bind] in Hr;
    [ | discriminate].
  unfold increment in Hr.
  destruct ((0 <=? off) && (off <? Z.of_nat (length outPtr))) eqn:Hrange;
    [ | discriminate].
  apply andb_true_iff in Hrange as [H0 H1].
  apply Z.leb_le in H0. apply Z.ltb_lt in H1.
  constructor; [exists off; auto | ].
  rewrite <- (length_alter Z.succ outPtr (Z.to_nat off)).
  apply IH. exact Hr.
Qed.

Lemma ThreadedRequestData_Some_inv (self : vtkImageMutualInformation)
    (p : Pipeline) (extent : Extent) (slot : nat) (st st' : RunState) :
  storage_wf (cells self) (Storage st) ->
  ThreadedRequestData self p extent slot st = Some st' ->
  Forall (in_buffer self p) (request_voxels self p extent).
Proof.
  intros Hwf. unfold ThreadedRequestData.
  destruct (Storage st !! slot) as [td | ] eqn:Htd; cbn [mbind option_bind];
    [ | discriminate].
  assert (Hbuf : forall outPtr,
            match td with Some data => Some data | None => allocate self end
            = Some outPtr -> length outPtr = cells self).
  { intros outPtr. destruct td as [d | ].
    - intros [= <-]. unfold storage_wf in Hwf. rewrite Forall_lookup in Hwf.
      apply (Hwf slot (Some d) Htd).
    - unfold allocate.
      destruct (0 <? (NumberOfBins self).1 * (NumberOfBins self).2);
        [ | discriminate].
      intros [= <-]. apply length_replicate. }
  destruct (match td with Some data => Some data | None => allocate self end)
    as [outPtr | ]; cbn [mbind option_bind]; [ | discriminate].
  specialize (Hbuf outPtr eq_refl).
  unfold request_voxels, kernel_runs.
  destruct (clip_extent extent (Extent0 p) (Extent1 p)) as [ext | ];
    [ | constructor].
  assert (Hkernel : forall offset r,
            (forall v, selected_offset self p v = offset v) ->
            accumulate offset outPtr (in_stencil (StencilSpans p ext)) = Some r ->
            Forall (in_buffer self p) (in_stencil (StencilSpans p ext))).
  { intros offset r Hsel Hr. apply accumulate_Some_inv in Hr.
    eapply Forall_impl; [exact Hr | ].
    intros v (off & Hoff & Hrange). exists off. rewrite Hsel, <- Hbuf. auto. }
  destruct (prescaled_selected self p) eqn:Hpre; cbn [orb].
  - rewrite ExecutePreScaled_accumulate.
    destruct (accumulate _ outPtr _) as [r | ] eqn:Hr; [ | discriminate].
    intros _. refine (Hkernel _ r _ Hr).
    intros v. unfold selected_offset. rewrite Hpre. reflexivity.
  - destruct (vtkTemplateAliasMacro false (ScalarType0 p));
      [destruct (vtkTemplateAliasMacro false (ScalarType1 p)) | ];
      cbn [andb]; try (intros _; constructor).
    rewrite Execute_accumulate.
    destruct (accumulate _ outPtr _) as [r | ] eqn:Hr; [ | discriminate].
    intros _. refine (Hkernel _ r _ Hr).
    intros v. unfold selected_offset. rewrite Hpre. reflexivity.
Qed.

Section Completion.

Variable log : float -> float.
Variable SplitExtent : Extent -> nat -> nat -> Extent * nat.
Variable OutValue : Type.
Variable static_cast : ScalarType -> Z -> OutValue.

Lemma run_tasks_Some_inv (self : vtkImageMutualInformation) (p : Pipeline)
    (total : nat) (l : list (nat * nat)) (st st' : RunState) :
  0 < (NumberOfBins self).1 * (NumberOfBins self).2 ->
  storage_wf (cells self) (Storage st) ->
  Forall (fun t : nat * nat => (t.1 < length (Storage st))%nat) l ->
  run_tasks SplitExtent self p total l st = Some st' ->
  Forall (in_buffer self p) (processed SplitExtent self p total l).
Proof.
  intros Hbins. revert st. induction l as [ | t l IH]; intros st Hwf Hslots Hrun;
    [constructor | ].
  apply Forall_cons in Hslots as [Hslot Hslots].
  unfold processed. cbn [fmap list_fmap concat].
  fold (processed SplitExtent self p total l).
  unfold run_tasks in Hrun. cbn [foldl_opt] in Hrun.
  fold (run_tasks SplitExtent self p total l) in Hrun.
  unfold vtkImageMutualInformationThreadedExecute in Hrun.
  destruct (SplitExtent (Extent0 p) t.2 total) as [splitExt pieces].
  destruct ((t.2 <? pieces)%nat && ext_nonempty splitExt).
  - destruct (ThreadedRequestData self p splitExt t.1 st) as [st1 | ] eqn:Hstep;
      [ | discriminate].
    pose proof (ThreadedRequestData_Some_inv self p splitExt t.1 st st1 Hwf Hstep)
      as Hhere.
    pose proof (ThreadedRequestData_total self p splitExt t.1 st
                  Hbins Hwf Hslot Hhere) as Htot.
    rewrite Hstep in Htot. cbn [completes] in Htot.
    destruct Htot as (Hwf1 & Hlen1 & _).
    apply Forall_app. split; [exact Hhere | ].
    apply (IH st1); [exact Hwf1 | rewrite Hlen1; exact Hslots | exact Hrun].
  - cbn [app]. apply (IH st); assumption.
Qed.

(** X20.  With positive bin counts, a run completes exactly when the cell of
    every in-mask voxel pair it processes, at offset yi*numBins[1] + xi from
    the kernel's bin pair, lies inside the numBins[0]*numBins[1] cells of the
    worker's histogram; the first voxel pair beyond them stops the run. *)
Theorem run_completes_iff_cells_in_buffer
    (self : vtkImageMutualInformation) (p : Pipeline)
    (numberOfThreads : nat) (s : Strategy) :
  0 < (NumberOfBins self).1 -> 0 < (NumberOfBins self).2 ->
  let '(total, slots, l) := tasks SplitExtent p numberOfThreads s in
  is_Some (RequestData log SplitExtent OutValue static_cast self p
             numberOfThreads s)
  <-> Forall (in_buffer self p) (processed SplitExtent self p total l).
Proof.
  intros Hx Hy. unfold RequestData.
  pose proof (tasks_slots SplitExtent p numberOfThreads s) as Hslots.
  destruct (tasks SplitExtent p numberOfThreads s) as [[total slots] l].
  fold (initial_state slots).
  assert (Hsl : Forall (fun t : nat * nat =>
                          (t.1 < length (Storage (initial_state slots)))%nat) l).
  { cbn [initial_state Storage]. rewrite length_replicate. exact Hslots. }
  split.
  - intros [out Hout].
    destruct (run_tasks SplitExtent self p total l (initial_state slots))
      as [st | ] eqn:Hrun; [ | discriminate].
    apply (run_tasks_Some_inv self p total l (initial_state slots) st);
      [nia | apply storage_wf_initial | exact Hsl | exact Hrun].
  - intros Hin.
    pose proof (run_tasks_total SplitExtent self p total l (initial_state slots)
                  ltac:(nia) (storage_wf_initial _ _) Hsl Hin) as Hrun.
    destruct (run_tasks SplitExtent self p total l (initial_state slots))
      as [st | ]; [ | contradiction].
    cbn [mbind option_bind]. eauto.
Qed.

End Completion.

(** * What the reduction reads from the workers *)

Lemma foldl_ext_in {A B : Type} (f g : A -> B -> A) (l : list B) (a : A) :
  (forall a b, b ∈ l -> f a b = g a b) -> foldl f a l = foldl g a l.
Proof.
  revert a. induction l as [ | b l IH]; intros a H; [reflexivity | ].
  cbn [foldl]. rewrite (H a b) by (left). apply IH.
  intros a' b' Hb'. apply H. right. exact Hb'.
Qed.

Section CellwiseSum.

Variable log : float -> float.
Variable OutValue : Type.
Variable static_cast : ScalarType -> Z -> OutValue.

(** X21.  The reduction reads the workers' histograms through their cell-wise
    sum only: two storages of well-formed histograms with the same cell-wise
    sum, however the counts are spread over the workers, yield the same
    emitted image, the same diagnostics and bit-identical MI and NMI. *)
Theorem reduction_reads_cellwise_sum
    (self : vtkImageMutualInformation) (p : Pipeline) (st st' : RunState) :
  0 < (NumberOfBins self).1 -> 0 < (NumberOfBins self).2 ->
  storage_wf (cells self) (Storage st) ->
  storage_wf (cells self) (Storage st') ->
  storage_total (cells self) (Storage st')
  = storage_total (cells self) (Storage st) ->
  ErrorLog st' = ErrorLog st ->
  ReduceRequestData log OutValue static_cast self p st'
  = ReduceRequestData log OutValue static_cast self p st.
Proof.
  intros Hx Hy Hwf Hwf' HT Hlog. unfold ReduceRequestData. rewrite Hlog.
  rewrite (bins_cells self Hx Hy) in Hwf, Hwf', HT.
  assert (Hrows :
    foldl (reduce_row log OutValue static_cast self (UpdateExtent p) (Storage st'))
          {| xHist := replicate (Z.to_nat (NumberOfBins self).1) 0;
             yEntropy := 0; xyEntropy := 0; outPtr := []; errors := ErrorLog st |}
          (seq 0 (Z.to_nat (NumberOfBins self).2))
    = foldl (reduce_row log OutValue static_cast self (UpdateExtent p) (Storage st))
            {| xHist := replicate (Z.to_nat (NumberOfBins self).1) 0;
               yEntropy := 0; xyEntropy := 0; outPtr := []; errors := ErrorLog st |}
            (seq 0 (Z.to_nat (NumberOfBins self).2))).
  { apply foldl_ext_in. intros r iy Hiy. apply elem_of_seq in Hiy.
    unfold reduce_row.
    rewrite (add_contributions _ (Z.to_nat (NumberOfBins self).2) iy (Storage st'))
      by (first [assumption | lia | apply length_replicate]).
    rewrite (add_contributions _ (Z.to_nat (NumberOfBins self).2) iy (Storage st))
      by (first [assumption | lia | apply length_replicate]).
    rewrite HT. reflexivity. }
  rewrite Hrows. reflexivity.
Qed.

End CellwiseSum.

(** * The two execution strategies *)

Section Strategies.

Variable log : float -> float.
Variable SplitExtent : Extent -> nat -> nat -> Extent * nat.
Variable OutValue : Type.
Variable static_cast : ScalarType -> Z -> OutValue.

(** X22.  Suppose [SplitExtent] cuts the extent of the first input into
    [pieces] pieces when asked for one per thread, the same pieces when asked
    for [pieces] of them, and vtkSMPTools runs each piece once.  Then, where
    the row stride of the kernels does not exceed the row length of the
    buffers, the fixed pool and vtkSMPTools complete with the same merged
    joint histogram, the same total count and bit-identical MI, NMI and
    divisors. *)
Theorem strategies_agree
    (self : vtkImageMutualInformation) (p : Pipeline) (numberOfThreads : nat)
    (schedule : list (nat * nat)) :
  1 <= (NumberOfBins self).2 <= (NumberOfBins self).1 ->
  (NumberOfBins self).1 * (NumberOfBins self).2 <= INT_MAX ->
  well_typed p ->
  let pieces := (SplitExtent (Extent0 p) 0 numberOfThreads).2 in
  (pieces <= numberOfThreads)%nat ->
  (forall i, (SplitExtent (Extent0 p) i numberOfThreads).2 = pieces) ->
  (forall i, SplitExtent (Extent0 p) i pieces
             = SplitExtent (Extent0 p) i numberOfThreads) ->
  schedule.*2 ≡ₚ seq 0 pieces ->
  completes (run_tasks SplitExtent self p numberOfThreads
               ((fun i => (i, i)) <$> seq 0 numberOfThreads)
               (initial_state numberOfThreads)) (fun st =>
  completes (run_tasks SplitExtent self p pieces schedule
               (initial_state (S (max_list (schedule.*1))))) (fun st' =>
    let out := ReduceRequestData log OutValue static_cast self p st in
    let out' := ReduceRequestData log OutValue static_cast self p st' in
    RequestData log SplitExtent OutValue static_cast self p numberOfThreads
                MultiThreader = Some out /\
    RequestData log SplitExtent OutValue static_cast self p numberOfThreads
                (SMPTools schedule) = Some out' /\
    joint_histogram self (Storage st') = joint_histogram self (Storage st) /\
    total_count self (Storage st') = total_count self (Storage st) /\
    MutualInformation (Self out') = MutualInformation (Self out) /\
    NormalizedMutualInformation (Self out')
    = NormalizedMutualInformation (Self out) /\
    Divisors out' = Divisors out)).
Proof.
  intros Hb Hmax Hty pieces Hle Hcount Hsame Hperm.
  pose proof (tasks_slots SplitExtent p numberOfThreads MultiThreader) as Hsl.
  pose proof (tasks_slots SplitExtent p numberOfThreads (SMPTools schedule)) as Hsl'.
  unfold RequestData. cbn [tasks] in Hsl, Hsl' |- *. fold pieces in Hsl' |- *.
  set (mt := (fun i : nat => (i, i)) <$> seq 0 numberOfThreads) in *.
  pose proof (processed_in_buffer SplitExtent self p numberOfThreads mt
                Hb Hmax Hty) as Hin.
  pose proof (processed_in_buffer SplitExtent self p pieces schedule
                Hb Hmax Hty) as Hin'.
  pose proof (run_tasks_total SplitExtent self p numberOfThreads mt
                (initial_state numberOfThreads)
                ltac:(nia) (storage_wf_initial _ _)) as Hrun.
  pose proof (run_tasks_total SplitExtent self p pieces schedule
                (initial_state (S (max_list (schedule.*1))))
                ltac:(nia) (storage_wf_initial _ _)) as Hrun'.
  cbn [initial_state Storage] in Hrun, Hrun'.
  rewrite length_replicate in Hrun, Hrun'.
  specialize (Hrun Hsl Hin). specialize (Hrun' Hsl' Hin').
  fold (initial_state numberOfThreads).
  fold (initial_state (S (max_list (schedule.*1)))).
  destruct (run_tasks SplitExtent self p numberOfThreads mt _) as [st | ];
    [ | contradiction].
  destruct (run_tasks SplitExtent self p pieces schedule _) as [st' | ];
    [ | contradiction].
  cbn [completes mbind option_bind] in Hrun, Hrun' |- *.
  destruct Hrun as (Hwf & _ & Htot). destruct Hrun' as (Hwf' & _ & Htot').
  rewrite storage_total_initial in Htot, Htot'.
  assert (Hmt2 : mt.*2 = seq 0 numberOfThreads).
  { unfold mt. rewrite <- list_fmap_compose. apply list_fmap_id. }
  assert (HT : storage_total (cells self) (Storage st')
               = storage_total (cells self) (Storage st)).
  { rewrite Htot, Htot'. apply count_offsets_Permutation.
    unfold offsets. apply fmap_Permutation.
    rewrite !processed_pieces, Hmt2.
    assert (Hseq : seq 0 numberOfThreads
                   = seq 0 pieces ++ seq pieces (numberOfThreads - pieces)).
    { change pieces with (0 + pieces)%nat at 2. rewrite <- seq_app.
      f_equal. lia. }
    rewrite Hseq, fmap_app, concat_app.
    replace (concat (_ <$> seq pieces (numberOfThreads - pieces)))
      with (@nil (Pixel * Pixel)).
    - rewrite app_nil_r. apply concat_Permutation.
      rewrite Hperm.
      match goal with
      | |- ?A ≡ₚ ?B => assert (E : A = B); [ | rewrite E; reflexivity]
      end.
      apply Forall_fmap_ext_1, Forall_forall.
      intros i _. rewrite Hsame. reflexivity.
    - symmetry.
      assert (Hidle : forall l : list nat,
                Forall (fun i => (pieces <= i)%nat) l ->
                concat ((fun piece : nat =>
                           let '(splitExt, pcs) :=
                             SplitExtent (Extent0 p) piece numberOfThreads in
                           if (piece <? pcs)%nat && ext_nonempty splitExt
                           then request_voxels self p splitExt else []) <$> l)
                = []).
      { induction 1 as [ | i l Hi _ IH]; [reflexivity | ].
        cbn [fmap list_fmap concat]. rewrite IH, app_nil_r.
        pose proof (Hcount i) as Hc.
        destruct (SplitExtent (Extent0 p) i numberOfThreads) as [splitExt pcs].
        cbn [snd] in Hc. subst pcs.
        replace (i <? pieces)%nat with false
          by (symmetry; apply Nat.ltb_ge; exact Hi).
        reflexivity. }
      apply Hidle, Forall_forall. intros i Hi%elem_of_seq. lia. }
  destruct (entropies_of_total log self (Storage st') (Storage st)
              ltac:(lia) ltac:(lia) Hwf' Hwf HT) as (EJ & EN & EH).
  pose proof (reduce_scalars log OutValue static_cast self p st) as Hred.
  pose proof (reduce_scalars log OutValue static_cast self p st') as Hred'.
  cbn zeta in Hred, Hred'. unfold spec_metrics in Hred, Hred'.
  rewrite EN, EH in Hred'. rewrite <- Hred in Hred'.
  injection Hred' as -> -> ->. auto 10.
Qed.

End Strategies.

(** * The default bin mapping *)

Lemma of_int_mantissa (N : Z) :
  0 < N < 2 ^ 53 ->
  exists (m : positive) (e : Z),
    Prim2SF (of_int N) = S754_finite false m e /\ -52 <= e <= 0
    /\ 2 ^ 52 <= Zpos m < 2 ^ 53.
Proof.
  intros HN. destruct (of_int_pos N HN) as (m & e & Hf & He & Hm & Hlog).
  exists m, e. split; [exact Hf | ].
  pose proof (Z.log2_nonneg N) as Hl0.
  destruct (Z.log2_spec N ltac:(lia)) as [Hlo Hhi].
  assert (Hl52 : Z.log2 N <= 52).
  { destruct (Z_le_gt_dec (Z.log2 N) 52); [assumption | exfalso].
    assert (2 ^ 53 <= 2 ^ Z.log2 N) by (apply Z.pow_le_mono_r; lia). lia. }
  split; [lia | ].
  rewrite Hm. replace (- e) with (52 - Z.log2 N) by lia.
  assert (Hp : 0 < 2 ^ (52 - Z.log2 N)) by (apply Z.pow_pos_nonneg; lia).
  assert (E52 : 2 ^ 52 = 2 ^ Z.log2 N * 2 ^ (52 - Z.log2 N)).
  { rewrite <- Z.pow_add_r by lia. f_equal. lia. }
  assert (E53 : 2 ^ 53 = 2 ^ Z.succ (Z.log2 N) * 2 ^ (52 - Z.log2 N)).
  { rewrite <- Z.pow_add_r by lia. f_equal. lia. }
  rewrite E52, E53. split.
  - apply Z.mul_le_mono_nonneg_r; lia.
  - apply Z.mul_lt_mono_pos_r; lia.
Qed.

Lemma round_shifted_mantissa (m : positive) (e : Z) :
  2 ^ 52 <= Zpos m < 2 ^ 53 -> -1022 <= e <= 971 ->
  binary_round_aux prec emax false (Zpos (m * 2 ^ 52)) (e + -52) loc_Exact
  = S754_finite false m e.
Proof.
  intros Hm He.
  assert (HM : Zpos (m * 2 ^ 52) = Zpos m * 2 ^ 52) by reflexivity.
  assert (Hd : Zpos (digits2_pos (m * 2 ^ 52)) = 105).
  { apply digits2_pos_unique. rewrite HM.
    change (2 ^ (105 - 1)) with (2 ^ 52 * 2 ^ 52).
    change (2 ^ 105) with (2 ^ 53 * 2 ^ 52). lia. }
  destruct (binary_round_aux_normal (m * 2 ^ 52) (e + -52) ltac:(lia) ltac:(lia))
    as (m2 & Hm2 & Hb & ->).
  rewrite Hd in Hm2 |- *. change (105 - 53) with 52 in Hm2 |- *.
  rewrite HM, Z.div_mul, Z.mod_mul in Hm2 by lia.
  assert (E : m2 = Zpos m) by (destruct Hm2 as [-> | [_ Hne]]; [reflexivity | lia]).
  subst m2.
  destruct (Z.eqb_spec (Zpos m) (2 ^ 53)) as [E | _]; [lia | ].
  replace (e + -52 + 52) with e by lia.
  destruct (Z.leb_spec e 971); [reflexivity | lia].
Qed.

Lemma one_spec : Prim2SF 1 = S754_finite false (2 ^ 52)%positive (-52).
Proof. reflexivity. Qed.

Lemma mul_one_r_of_int (N : Z) :
  0 <= N < 2 ^ 53 -> (of_int N * 1)%float = of_int N.
Proof.
  intros HN. destruct (Z.eq_dec N 0) as [-> | Hne]; [reflexivity | ].
  destruct (of_int_mantissa N ltac:(lia)) as (m & e & Hf & He & Hm).
  apply Prim2SF_inj. rewrite FloatAxioms.mul_spec, Hf, one_spec.
  unfold SF64mul, SFmul. cbn [xorb].
  apply round_shifted_mantissa; lia.
Qed.

Lemma mul_one_l_of_int (N : Z) :
  0 <= N < 2 ^ 53 -> (1 * of_int N)%float = of_int N.
Proof.
  intros HN. destruct (Z.eq_dec N 0) as [-> | Hne]; [reflexivity | ].
  destruct (of_int_mantissa N ltac:(lia)) as (m & e & Hf & He & Hm).
  apply Prim2SF_inj. rewrite FloatAxioms.mul_spec, Hf, one_spec.
  unfold SF64mul, SFmul. cbn [xorb].
  rewrite (Pos.mul_comm (2 ^ 52) m), (Z.add_comm (-52) e).
  apply round_shifted_mantissa; lia.
Qed.

Lemma add_neg_zero_of_int (N : Z) :
  0 <= N < 2 ^ 53 -> (of_int N + - 0)%float = of_int N.
Proof.
  intros HN. destruct (Z.eq_dec N 0) as [-> | Hne]; [reflexivity | ].
  destruct (of_int_mantissa N ltac:(lia)) as (m & e & Hf & _).
  apply Prim2SF_inj. rewrite FloatAxioms.add_spec, Hf. reflexivity.
Qed.

Lemma add_zero_l_of_int (N : Z) :
  0 <= N < 2 ^ 53 -> (0 + of_int N)%float = of_int N.
Proof.
  intros HN. destruct (Z.eq_dec N 0) as [-> | Hne]; [reflexivity | ].
  destruct (of_int_mantissa N ltac:(lia)) as (m & e & Hf & _).
  apply Prim2SF_inj. rewrite FloatAxioms.add_spec, Hf. reflexivity.
Qed.

Lemma identity_scaling (z : Z) :
  0 <= z < 2 ^ 53 -> ((of_int z + - 0) * (1 / 1))%float = of_int z.
Proof.
  intros Hz. rewrite add_neg_zero_of_int by exact Hz.
  change (1 / 1)%float with 1%float. apply mul_one_r_of_int. exact Hz.
Qed.

Lemma clamp_of_int_wide (z N : Z) :
  0 <= z < 2 ^ 53 -> 0 <= N <= INT_MAX ->
  clamp 0 (of_int N) (of_int z) = of_int (Z.min z N).
Proof.
  intros Hz HN. pose proof INT_MAX_lt. unfold clamp.
  assert (H0 : (if (0 <? of_int z)%float then of_int z else 0%float) = of_int z).
  { change 0%float with (of_int 0) at 1. rewrite of_int_ltb by lia.
    destruct (Z.ltb_spec 0 z); [reflexivity | ].
    replace z with 0 by lia. reflexivity. }
  rewrite H0, of_int_ltb by lia.
  destruct (Z.ltb_spec z N); f_equal; lia.
Qed.

Lemma floor_of_int_half (N : Z) :
  0 <= N <= INT_MAX -> vtkMath_Floor (of_int N + 0.5) = Some N.
Proof.
  intros HN. destruct (Z.eq_dec N 0) as [-> | Hne]; [reflexivity | ].
  pose proof (cast_of_int_half N HN) as Hc.
  unfold static_cast_int in Hc. unfold vtkMath_Floor.
  destruct (Prim2SF (of_int N + 0.5)) as [s | s | | s m e]; try discriminate.
  - injection Hc as <-. contradiction.
  - destruct s.
    + exfalso. cbn [cond_Zopp] in Hc.
      destruct (int_range (- Z.shiftl (Zpos m) e)); [ | discriminate].
      injection Hc as Hc. pose proof (Z.shiftl_nonneg (Zpos m) e). lia.
    + exact Hc.
Qed.

Lemma kernel_bin_identity_wide (numBins z : Z) :
  0 <= z < 2 ^ 53 -> 1 <= numBins <= INT_MAX ->
  kernel_bin numBins 0 1 (of_int z) = Some (Z.min z (numBins - 1)).
Proof.
  intros Hz HN. unfold kernel_bin. rewrite affine_bin_clamp.
  rewrite identity_scaling, clamp_of_int_wide by lia.
  apply cast_of_int_half. lia.
Qed.

(** X17.  With the default bin mapping (binOrigin = 0, binSpacing = 1) and
    any bin counts from 1 to INT_MAX, [ThreadedRequestData] takes the
    pre-scaled kernel exactly when both inputs are unsigned char images. *)
Theorem default_mapping_selects_prescaled
    (self : vtkImageMutualInformation) (p : Pipeline) :
  BinOrigin self = (0%float, 0%float) -> BinSpacing self = (1%float, 1%float) ->
  1 <= (NumberOfBins self).1 <= INT_MAX -> 1 <= (NumberOfBins self).2 <= INT_MAX ->
  prescaled_selected self p = true
  <-> ScalarType0 p = VTK_UNSIGNED_CHAR /\ ScalarType1 p = VTK_UNSIGNED_CHAR.
Proof.
  intros Ho Hs Hx Hy. pose proof INT_MAX_lt.
  split; [apply prescaled_selected_types | ].
  intros [E0 E1]. unfold prescaled_selected. rewrite Ho, Hs, E0, E1.
  cbn [fst snd is_unsigned_char].
  rewrite !mul_one_l_of_int, !add_zero_l_of_int, !floor_of_int_half by lia.
  rewrite !bool_decide_eq_true_2 by reflexivity. reflexivity.
Qed.

(** X18.  With the default bin mapping, whichever kernel is selected, a pair
    of non-negative integer intensities (a, b) is binned at
    (min(a, numBins[0]-1), min(b, numBins[1]-1)): every intensity below the
    last bin has a bin of its own, and the larger ones saturate in the last
    bin. *)
Theorem default_mapping_bins_integers
    (self : vtkImageMutualInformation) (p : Pipeline) (a b : Z) :
  BinOrigin self = (0%float, 0%float) -> BinSpacing self = (1%float, 1%float) ->
  1 <= (NumberOfBins self).1 <= INT_MAX -> 1 <= (NumberOfBins self).2 <= INT_MAX ->
  0 <= a < 2 ^ 53 -> 0 <= b < 2 ^ 53 ->
  pixel_of_type (ScalarType0 p) (IntegralPixel a) ->
  pixel_of_type (ScalarType1 p) (IntegralPixel b) ->
  voxel_bins self p (IntegralPixel a, IntegralPixel b)
  = Some (Z.min a ((NumberOfBins self).1 - 1), Z.min b ((NumberOfBins self).2 - 1)).
Proof.
  intros Ho Hs Hx Hy Ha Hb H1 H2. unfold voxel_bins.
  destruct (prescaled_selected self p) eqn:Hpre.
  - destruct (prescaled_selected_types self p Hpre) as [E0 E1].
    destruct (H1 E0) as (x & Ex & Hxr). destruct (H2 E1) as (y & Ey & Hyr).
    injection Ex as <-. injection Ey as <-.
    cbn [fst snd read_uchar].
    replace ((0 <=? a) && (a <=? 255)) with true
      by (symmetry; apply andb_true_iff; split; apply Z.leb_le; lia).
    replace ((0 <=? b) && (b <=? 255)) with true
      by (symmetry; apply andb_true_iff; split; apply Z.leb_le; lia).
    cbn [mbind option_bind]. f_equal. f_equal.
    + destruct (Z.ltb_spec a ((NumberOfBins self).1 - 1)); lia.
    + destruct (Z.ltb_spec b ((NumberOfBins self).2 - 1)); lia.
  - rewrite Ho, Hs. cbn [fst snd to_double].
    rewrite !kernel_bin_identity_wide by assumption. reflexivity.
Qed.

(** * Empty bins *)

Lemma spec_S_skips_zeros (log : float -> float) (counts : list Z) (e : float) :
  foldl (accumulate_entropy log) e counts
  = foldl (accumulate_entropy log) e (filter (fun c => c <> 0) counts).
Proof.
  revert e. induction counts as [ | c counts IH]; intros e; [reflexivity | ].
  rewrite filter_cons. destruct (decide (c <> 0)) as [Hc | Hc].
  - cbn [foldl]. apply IH.
  - assert (c = 0) as -> by lia. cbn [foldl].
    change (accumulate_entropy log e 0) with e. apply IH.
Qed.

(** X19.  The entropy accumulators skip empty bins: a zero count never reaches
    [log], so that MI and NMI depend on the non-zero column totals, row totals
    and cells only, in their order. *)
Theorem empty_bins_do_not_reach_log
    (log : float -> float) (OutValue : Type)
    (static_cast : ScalarType -> Z -> OutValue)
    (self : vtkImageMutualInformation) (p : Pipeline) (st : RunState) :
  let N := total_count self (Storage st) in
  N <> 0 ->
  let nonzero := filter (fun c : Z => c <> 0) in
  let HA := spec_H log (spec_S log (nonzero (column_totals self (Storage st)))) N in
  let HB := spec_H log (spec_S log (nonzero (row_totals self (Storage st)))) N in
  let HAB :=
    spec_H log (spec_S log (nonzero (concat (joint_histogram self (Storage st))))) N in
  let out := ReduceRequestData log OutValue static_cast self p st in
  MutualInformation (Self out) = spec_MI HA HB HAB /\
  NormalizedMutualInformation (Self out) = spec_NMI HA HB HAB.
Proof.
  intros N HN nonzero HA HB HAB out. subst out HA HB HAB nonzero.
  pose proof (reduce_scalars log OutValue static_cast self p st) as Hred.
  cbn zeta in Hred. fold N in Hred.
  destruct (Z.eqb_spec N 0) as [E | _]; [contradiction | ].
  pose proof (f_equal fst Hred) as H1. cbn [fst] in H1.
  unfold spec_metrics, spec_entropies in H1. fold N in H1.
  unfold spec_S in *. rewrite <- !spec_S_skips_zeros.
  injection H1 as -> ->. auto.
Qed.

(** * Identical inputs *)

Lemma sumZ_fmap_zero {A : Type} (f : A -> Z) (l : list A) :
  Forall (fun x => f x = 0) l -> sumZ (f <$> l) = 0.
Proof.
  induction 1 as [ | x l Hx _ IH]; [reflexivity | ].
  cbn [fmap list_fmap]. rewrite sumZ_cons, Hx, IH. reflexivity.
Qed.

Lemma filter_nonzero_fmap_zero {A : Type} (f : A -> Z) (l : list A) :
  Forall (fun x => f x = 0) l -> filter (fun c : Z => c <> 0) (f <$> l) = [].
Proof.
  induction 1 as [ | x l Hx _ IH]; [reflexivity | ].
  cbn [fmap list_fmap]. rewrite filter_cons, IH.
  rewrite decide_False by lia. reflexivity.
Qed.

Lemma seq_split_at (n k : nat) :
  (k < n)%nat -> seq 0 n = seq 0 k ++ k :: seq (S k) (n - S k).
Proof.
  intros Hk. replace n with (k + S (n - S k))%nat at 1 by lia.
  rewrite seq_app. reflexivity.
Qed.

Lemma sumZ_single (f : nat -> Z) (n k : nat) :
  (k < n)%nat -> (forall i, (i < n)%nat -> i <> k -> f i = 0) ->
  sumZ (f <$> seq 0 n) = f k.
Proof.
  intros Hk Hz. rewrite (seq_split_at n k Hk), fmap_app, sumZ_app.
  cbn [fmap list_fmap]. rewrite sumZ_cons.
  rewrite !sumZ_fmap_zero; [lia | | ];
    apply Forall_forall; intros i Hi%elem_of_seq; apply Hz; lia.
Qed.

Lemma filter_nonzero_single (f : nat -> Z) (n k : nat) :
  (k < n)%nat -> (forall i, (i < n)%nat -> i <> k -> f i = 0) ->
  filter (fun c : Z => c <> 0) (f <$> seq 0 n)
  = filter (fun c : Z => c <> 0) [f k].
Proof.
  intros Hk Hz. rewrite (seq_split_at n k Hk), fmap_app, filter_app.
  cbn [fmap list_fmap]. rewrite (filter_cons _ (f k)), (filter_cons _ (f k) []).
  rewrite !filter_nonzero_fmap_zero;
    [ | apply Forall_forall; intros i Hi%elem_of_seq; apply Hz; lia
      | apply Forall_forall; intros i Hi%elem_of_seq; apply Hz; lia].
  rewrite filter_nil. destruct (decide (f k <> 0)); reflexivity.
Qed.

Lemma filter_concat {A : Type} (P : A -> Prop) `{!forall x, Decision (P x)}
    (ls : list (list A)) :
  filter P (concat ls) = concat (filter P <$> ls).
Proof.
  induction ls as [ | l ls IH]; [reflexivity | ].
  cbn [concat fmap list_fmap]. rewrite filter_app, IH. reflexivity.
Qed.

Lemma concat_filter_singletons {A : Type} (P : A -> Prop)
    `{!forall x, Decision (P x)} (l : list A) :
  concat ((fun x => filter P [x]) <$> l) = filter P l.
Proof.
  induction l as [ | x l IH]; [reflexivity | ].
  cbn [fmap list_fmap concat]. rewrite IH, (filter_cons P x l), (filter_cons P x []).
  rewrite filter_nil. destruct (decide (P x)); reflexivity.
Qed.

(** A histogram that is zero off its diagonal has the diagonal as both of its
    marginals, and the diagonal holds all of its non-zero cells. *)
Lemma diagonal_marginals (M : nat -> nat -> Z) (n : nat) :
  (forall i j, (i < n)%nat -> (j < n)%nat -> i <> j -> M i j = 0) ->
  (fun j => sumZ ((fun i => M i j) <$> seq 0 n)) <$> seq 0 n
  = (fun k => M k k) <$> seq 0 n /\
  (fun i => sumZ ((fun j => M i j) <$> seq 0 n)) <$> seq 0 n
  = (fun k => M k k) <$> seq 0 n /\
  filter (fun c : Z => c <> 0)
         (concat ((fun i => (fun j => M i j) <$> seq 0 n) <$> seq 0 n))
  = filter (fun c : Z => c <> 0) ((fun k => M k k) <$> seq 0 n).
Proof.
  intros Hz. split; [ | split].
  - apply fmap_seq_ext. intros j Hj.
    apply (sumZ_single (fun i => M i j) n j Hj). intros i Hi Hne. apply Hz; auto.
  - apply fmap_seq_ext. intros i Hi.
    apply (sumZ_single (fun j => M i j) n i Hi). intros j Hj Hne. apply Hz; auto.
  - rewrite filter_concat, <- list_fmap_compose.
    rewrite <- (concat_filter_singletons (fun c : Z => c <> 0)
                  ((fun k => M k k) <$> seq 0 n)).
    rewrite <- list_fmap_compose. f_equal.
    apply fmap_seq_ext. intros i Hi. unfold compose.
    apply (filter_nonzero_single (fun j => M i j) n i Hi).
    intros j Hj Hne. apply Hz; auto.
Qed.

Lemma count_at_none (k : nat) (offs : list Z) :
  Forall (fun off => Z.to_nat off <> k) offs -> count_at k offs = 0%nat.
Proof.
  unfold count_at. induction 1 as [ | off offs Hoff _ IH]; [reflexivity | ].
  rewrite filter_cons, decide_False by exact Hoff. exact IH.
Qed.

Lemma selected_offset_swap (self : vtkImageMutualInformation) (p : Pipeline)
    (v : Pixel * Pixel) :
  symmetric_bins self ->
  selected_offset self (swap_inputs p) v = selected_offset self p v.
Proof.
  intros Hsym. unfold selected_offset.
  rewrite prescaled_selected_swap by exact Hsym. reflexivity.
Qed.

Section IdenticalInputs.

Variable log : float -> float.
Variable SplitExtent : Extent -> nat -> nat -> Extent * nat.
Variable OutValue : Type.
Variable static_cast : ScalarType -> Z -> OutValue.

Lemma processed_Forall (P : Pixel * Pixel -> Prop)
    (self : vtkImageMutualInformation) (p : Pipeline)
    (total : nat) (l : list (nat * nat)) :
  (forall extent, Forall P (in_stencil (StencilSpans p extent))) ->
  Forall P (processed SplitExtent self p total l).
Proof.
  intros HP. unfold processed.
  induction l as [ | t l IH]; [constructor | ].
  cbn [fmap list_fmap concat]. apply Forall_app. split; [ | exact IH].
  destruct (SplitExtent (Extent0 p) t.2 total) as [splitExt pieces].
  destruct ((t.2 <? pieces)%nat && ext_nonempty splitExt); [ | constructor].
  unfold request_voxels.
  destruct (clip_extent splitExt (Extent0 p) (Extent1 p)) as [ext | ];
    [ | constructor].
  destruct (kernel_runs self p); [apply HP | constructor].
Qed.

(** X23.  When the two inputs hold the same intensities and both axes use the
    same bin mapping, every count lands on the diagonal of the joint
    histogram, and the reduction computes one and the same entropy H three
    times, bit for bit: H(A) = H(B) = H(A,B), so that a run with at least one
    voxel stores MI = H + H - H and NMI = (H + H) / H. *)
Theorem identical_inputs_share_one_entropy
    (self : vtkImageMutualInformation) (p : Pipeline)
    (numberOfThreads : nat) (s : Strategy) :
  symmetric_bins self -> 1 <= (NumberOfBins self).1 ->
  (NumberOfBins self).1 * (NumberOfBins self).1 <= INT_MAX ->
  well_typed p ->
  (forall extent,
     Forall (fun v : Pixel * Pixel => v.1 = v.2) (in_stencil (StencilSpans p extent))) ->
  let n := Z.to_nat (NumberOfBins self).1 in
  let '(total, slots, l) := tasks SplitExtent p numberOfThreads s in
  completes (run_tasks SplitExtent self p total l (initial_state slots))
    (fun st =>
       let out := ReduceRequestData log OutValue static_cast self p st in
       let H := joint_histogram self (Storage st) in
       let entropy :=
         spec_H log (spec_S log ((fun k => cell H k k) <$> seq 0 n))
                (total_count self (Storage st)) in
       RequestData log SplitExtent OutValue static_cast self p numberOfThreads s
       = Some out /\
       (forall i j, (i < n)%nat -> (j < n)%nat -> i <> j -> cell H i j = 0) /\
       spec_entropies log self (Storage st) = (entropy, entropy, entropy) /\
       (total_count self (Storage st) <> 0 ->
        MutualInformation (Self out) = (entropy + entropy - entropy)%float /\
        NormalizedMutualInformation (Self out)
        = ((entropy + entropy) / entropy)%float)).
Proof.
  intros Hsym HN Hmax Hty Hsame n.
  pose proof Hsym as (Hn & _ & _).
  assert (Hb : 1 <= (NumberOfBins self).2 <= (NumberOfBins self).1) by lia.
  assert (Hmax' : (NumberOfBins self).1 * (NumberOfBins self).2 <= INT_MAX)
    by (rewrite <- Hn; exact Hmax).
  assert (Hx : 0 < (NumberOfBins self).1) by lia.
  assert (Hy : 0 < (NumberOfBins self).2) by lia.
  unfold RequestData.
  pose proof (tasks_slots SplitExtent p numberOfThreads s) as Hslots.
  destruct (tasks SplitExtent p numberOfThreads s) as [[total slots] l].
  pose proof (processed_in_buffer SplitExtent self p total l Hb Hmax' Hty) as Hin.
  pose proof (run_tasks_total SplitExtent self p total l (initial_state slots)
                ltac:(nia) (storage_wf_initial _ _)) as Hrun.
  cbn [initial_state Storage] in Hrun.
  rewrite length_replicate in Hrun. specialize (Hrun Hslots Hin).
  fold (initial_state slots) in Hrun |- *.
  destruct (run_tasks SplitExtent self p total l (initial_state slots))
    as [st | ]; [ | contradiction].
  cbn [completes mbind option_bind] in Hrun |- *.
  destruct Hrun as (Hwf & _ & Htot).
  rewrite storage_total_initial in Htot.
  (* every voxel pair is counted on the diagonal *)
  assert (Hdiag : Forall (fun v => exists b, 0 <= b < (NumberOfBins self).1
                            /\ selected_offset self p v
                               = Some (b * (NumberOfBins self).1 + b))
                         (processed SplitExtent self p total l)).
  { apply processed_Forall. intros extent.
    pose proof (Hty extent) as Ht. pose proof (Hsame extent) as Hs.
    rewrite Forall_forall in Ht, Hs |- *. intros v Hv.
    destruct (Ht v Hv) as [H1 H2]. specialize (Hs v Hv).
    destruct (selected_offset_mirrored self p v Hsym HN Hmax H1 H2)
      as (xi & yi & Hxi & Hyi & Ef & Eg).
    rewrite selected_offset_swap in Eg by exact Hsym.
    replace (prod_swap v) with v in Eg by (destruct v; cbn in Hs |- *; congruence).
    rewrite Ef in Eg. injection Eg as Eg.
    apply offset_unique in Eg; [ | lia | lia]. destruct Eg as [-> _].
    exists xi. auto. }
  destruct (marginals_of_total self (Storage st) Hx Hy Hwf) as (HJ & HC & HR).
  cbn zeta in HJ, HC, HR. rewrite <- Hn in HJ, HC, HR. fold n in HJ, HC, HR.
  set (M := fun i j : nat =>
              default 0 (storage_total (cells self) (Storage st) !! (n * i + j)%nat)).
  change (joint_histogram self (Storage st)
          = (fun i => (fun j => M i j) <$> seq 0 n) <$> seq 0 n) in HJ.
  change (column_totals self (Storage st)
          = (fun j => sumZ ((fun i => M i j) <$> seq 0 n)) <$> seq 0 n) in HC.
  change (row_totals self (Storage st)
          = (fun i => sumZ ((fun j => M i j) <$> seq 0 n)) <$> seq 0 n) in HR.
  assert (Hzero : forall i j, (i < n)%nat -> (j < n)%nat -> i <> j -> M i j = 0).
  { intros i j Hi Hj Hne. unfold M.
    rewrite Htot, lookup_count_offsets, lookup_replicate_2
      by (rewrite (bins_cells self Hx Hy), <- Hn; fold n; nia).
    cbn [fmap option_fmap option_map default from_option id].
    rewrite count_at_none; [reflexivity | ].
    unfold offsets. apply Forall_fmap.
    eapply Forall_impl; [exact Hdiag | ].
    intros v (b & Hbr & Hoff). unfold compose. cbn beta. rewrite Hoff.
    cbn [default from_option id].
    intros E. unfold n in *.
    assert (E' : b * (NumberOfBins self).1 + b
                 = Z.of_nat i * (NumberOfBins self).1 + Z.of_nat j) by nia.
    apply offset_unique in E'; [ | lia | lia]. lia. }
  assert (Hcell : forall i j, (i < n)%nat -> (j < n)%nat ->
            cell (joint_histogram self (Storage st)) i j = M i j).
  { intros i j Hi Hj. rewrite HJ. apply cell_of_rows; assumption. }
  destruct (diagonal_marginals M n Hzero) as (Dc & Dr & Dj).
  assert (Hdiagonal : (fun k => cell (joint_histogram self (Storage st)) k k)
                        <$> seq 0 n
                      = (fun k => M k k) <$> seq 0 n).
  { apply fmap_seq_ext. intros k Hk. apply Hcell; exact Hk. }
  assert (Hent : spec_entropies log self (Storage st)
                 = (spec_H log (spec_S log ((fun k => M k k) <$> seq 0 n))
                           (total_count self (Storage st)),
                    spec_H log (spec_S log ((fun k => M k k) <$> seq 0 n))
                           (total_count self (Storage st)),
                    spec_H log (spec_S log ((fun k => M k k) <$> seq 0 n))
                           (total_count self (Storage st)))).
  { assert (ES : spec_S log (concat (joint_histogram self (Storage st)))
                 = spec_S log ((fun k => M k k) <$> seq 0 n)).
    { unfold spec_S. rewrite spec_S_skips_zeros, HJ, Dj, <- spec_S_skips_zeros.
      reflexivity. }
    unfold spec_entropies. rewrite HC, HR, Dc, Dr, ES. reflexivity. }
  split; [reflexivity | split; [ | split]].
  - intros i j Hi Hj Hne. rewrite Hcell by assumption. apply Hzero; assumption.
  - rewrite Hdiagonal. exact Hent.
  - intros HN0. rewrite Hdiagonal.
    pose proof (reduce_scalars log OutValue static_cast self p st) as Hred.
    cbn zeta in Hred.
    destruct (Z.eqb_spec (total_count self (Storage st)) 0) as [E | _];
      [contradiction | ].
    pose proof (f_equal fst Hred) as H1. cbn [fst] in H1.
    unfold spec_metrics in H1. rewrite Hent in H1.
    injection H1 as -> ->. auto.
Qed.

End IdenticalInputs.

(** * Claims about the reduction and the stored scalars *)

Section ReduceClaims.

Variable log : float -> float.
Variable OutValue : Type.
Variable static_cast : ScalarType -> Z -> OutValue.

(** C2.  For every storage the workers can leave and every configuration: when
    the total count N of the merged histogram is positive, the reduction
    stores MI = H(A) + H(B) - H(A,B) and NMI = (H(A) + H(B)) / H(A,B), where
    each entropy is H = -S/N + log(N) of its accumulator S (the sum of
    c*log(c) over the column totals, the row totals and the cells); nothing
    clamps either value. *)
Theorem reduction_normalises_entropies
    (self : vtkImageMutualInformation) (p : Pipeline) (st : RunState) :
  0 < total_count self (Storage st) ->
  let out := ReduceRequestData log OutValue static_cast self p st in
  (MutualInformation (Self out), NormalizedMutualInformation (Self out))
  = spec_metrics log self (Storage st).
Proof.
  intros HN out. subst out.
  pose proof (reduce_scalars log OutValue static_cast self p st) as H.
  cbn zeta in H.
  destruct (Z.eqb_spec (total_count self (Storage st)) 0) as [E | _]; [lia | ].
  congruence.
Qed.




End ReduceClaims.

(** C9.  A freshly constructed filter holds NormalizedMutualInformation = 0.0,
    which is below the floor 1.0: "NMI >= 1" does not hold before the first
    run has completed. *)
Theorem initial_nmi_is_below_floor :
  NormalizedMutualInformation constructor = 0%float /\
  (NormalizedMutualInformation constructor <? 1)%float = true /\
  (1 <=? NormalizedMutualInformation constructor)%float = false.
Proof. repeat split. Qed.

(** * The claims at concrete inputs *)

Lemma reduction_normalises_entropies_witness :
  (MutualInformation
     (Self (ReduceRequestData log_at_16 Z keep_count (two_bins VTK_INT)
              zeros_and_ones
              {| Storage := [Some [0; 0; 16; 0]]; ErrorLog := [] |})),
   NormalizedMutualInformation
     (Self (ReduceRequestData log_at_16 Z keep_count (two_bins VTK_INT)
              zeros_and_ones
              {| Storage := [Some [0; 0; 16; 0]]; ErrorLog := [] |})))
  = spec_metrics log_at_16 (two_bins VTK_INT) [Some [0; 0; 16; 0]].
Proof.
  apply (reduction_normalises_entropies log_at_16 Z keep_count
           (two_bins VTK_INT) zeros_and_ones
           {| Storage := [Some [0; 0; 16; 0]]; ErrorLog := [] |}).
  vm_compute. reflexivity.
Defined.

Lemma empty_run_yields_floor_values_witness :
  completes (RequestData log_at_16 one_piece Z keep_count (two_bins VTK_INT)
               masked_out 1 MultiThreader)
    (fun out =>
       MutualInformation (Self out) = 0%float /\
       NormalizedMutualInformation (Self out) = 1%float /\
       Divisors out = []).
Proof.
  refine (proj1 (empty_run_yields_floor_values log_at_16 one_piece Z keep_count
                   (two_bins VTK_INT) masked_out 1 MultiThreader _ _) _).
  - vm_compute. reflexivity.
  - vm_compute. reflexivity.
  - vm_compute. reflexivity.
Defined.

(** C4, as amended.  For two 4x4x1 byte images, A all zeros and B all ones,
    with 2 bins per axis, the identity bin mapping, one worker and a logarithm
    for which the entropy of 16 voxels in one bin evaluates to 0: the joint
    histogram has its only non-zero cell at (0,1), with count 16, and MI = 0;
    the reduction then divides 0 + 0 by the joint entropy 0, so that NMI is
    NaN.  The only guard is the one on a zero total count. *)
Theorem one_bin_scenario (log : float -> float) :
  one_bin_entropy log 16 = 0%float ->
  RequestData log one_piece Z keep_count (two_bins VTK_INT) zeros_and_ones
              1 MultiThreader
  = Some {| Self := {| NumberOfBins := (2, 2);
                       BinOrigin := (0%float, 0%float);
                       BinSpacing := (1%float, 1%float);
                       OutputScalarType := VTK_INT;
                       MutualInformation := 0%float;
                       NormalizedMutualInformation := nan |};
            OutData := [0; 0; 16; 0];
            Diagnostics := [];
            Divisors := [16%float; 16%float; 16%float; 0%float] |}.
Proof.
  intros H. vm_compute in H. vm_compute. rewrite !H. reflexivity.
Qed.

Lemma one_bin_scenario_witness :
  RequestData log_at_16 one_piece Z keep_count (two_bins VTK_INT) zeros_and_ones
              1 MultiThreader
  = Some {| Self := {| NumberOfBins := (2, 2);
                       BinOrigin := (0%float, 0%float);
                       BinSpacing := (1%float, 1%float);
                       OutputScalarType := VTK_INT;
                       MutualInformation := 0%float;
                       NormalizedMutualInformation := nan |};
            OutData := [0; 0; 16; 0];
            Diagnostics := [];
            Divisors := [16%float; 16%float; 16%float; 0%float] |}.
Proof.
  apply (one_bin_scenario log_at_16). vm_compute. reflexivity.
Defined.

Lemma nan_is_not_one : nan <> 1%float.
Proof. intros H. apply (f_equal is_nan) in H. vm_compute in H. discriminate. Qed.

(** C4 as stated fails: in the scenario the run divides by the joint entropy
    0 and stores NaN, not the floor value 1.0. *)
Lemma one_bin_scenario_nmi_is_nan :
  exists out,
    RequestData log_at_16 one_piece Z keep_count (two_bins VTK_INT)
                zeros_and_ones 1 MultiThreader = Some out /\
    one_bin_entropy log_at_16 16 = 0%float /\
    OutData out = [0; 0; 16; 0] /\
    MutualInformation (Self out) = 0%float /\
    is_nan (NormalizedMutualInformation (Self out)) = true /\
    NormalizedMutualInformation (Self out) <> 1%float /\
    Divisors out = [16%float; 16%float; 16%float; 0%float].
Proof.
  eexists. split; [vm_compute; reflexivity | ].
  cbn [Self OutData Divisors MutualInformation NormalizedMutualInformation].
  repeat split; try (vm_compute; reflexivity). exact nan_is_not_one.
Qed.




(** C1 at the failing input.  With one bin for image A and two for image B the
    worker's buffer has 1*2 cells, addressed by the reduction with row stride
    numBins[0] = 1; both kernels address it with row stride numBins[1] = 2, so
    the voxel pair (0,1) (bin x = 0, bin y = 1) is counted at offset 2, past
    the end of the buffer, under either strategy. *)
Theorem row_stride_overruns_histogram (log : float -> float) :
  allocate one_by_two = Some [0; 0] /\
  prescaled_offset (1, 2) (IntegralPixel 0, IntegralPixel 1) = Some 2 /\
  affine_offset (1, 2) (0%float, 0%float) (1%float, 1%float)
                (IntegralPixel 0, IntegralPixel 1) = Some 2 /\
  RequestData log one_piece Z keep_count one_by_two zeros_and_ones
              1 MultiThreader = None /\
  RequestData log one_piece Z keep_count one_by_two zeros_and_ones
              1 (SMPTools [(0, 0)%nat]) = None /\
  RequestData log one_piece Z keep_count one_by_two
              (constant_images VTK_SHORT VTK_SHORT
                 (IntegralPixel 0) (IntegralPixel 1) true
                 ((0, 0), (0, 1), (0, 0)))
              1 MultiThreader = None.
Proof. repeat split; vm_compute; reflexivity. Qed.

(** C10 at the failing input.  A NaN in image A and +infinity in image B are
    binned at (0,1), inside the bin range of both axes, but with
    numBins = (1,2) the kernel counts the pair at offset 1*2 + 0 = 2 of a
    buffer of 2 cells. *)
Theorem nonfinite_voxel_overruns_histogram :
  kernel_bin 1 0 1 nan = Some 0 /\
  kernel_bin 2 0 1 infinity = Some 1 /\
  allocate one_by_two = Some [0; 0] /\
  affine_offset (1, 2) (0%float, 0%float) (1%float, 1%float)
                (RealPixel nan, RealPixel infinity) = Some 2 /\
  vtkImageMutualInformationExecute
    [{| IsInStencil := true; Voxels := [(RealPixel nan, RealPixel infinity)] |}]
    [0; 0] (1, 2) (0%float, 0%float) (1%float, 1%float) = None.
Proof. repeat split; vm_compute; reflexivity. Qed.

Lemma constant_bytes_well_typed (a b : Z) (inside : bool) (update : Extent) :
  0 <= a <= 255 -> 0 <= b <= 255 ->
  well_typed (constant_images VTK_UNSIGNED_CHAR VTK_UNSIGNED_CHAR
                (IntegralPixel a) (IntegralPixel b) inside update).
Proof.
  intros Ha Hb extent.
  assert (H : pixel_of_type VTK_UNSIGNED_CHAR (IntegralPixel a, IntegralPixel b).1
              /\ pixel_of_type VTK_UNSIGNED_CHAR (IntegralPixel a, IntegralPixel b).2)
    by (split; intros _; eexists; split; try reflexivity; assumption).
  destruct inside; cbn; repeat (constructor; [exact H | ]); constructor.
Qed.

Lemma prescaled_kernel_matches_generic_on_identity_witness :
  vtkImageMutualInformationExecutePreScaled
    (StencilSpans zeros_and_ones extent_4x4) [0; 0; 0; 0]
    (NumberOfBins (two_bins VTK_INT))
  = vtkImageMutualInformationExecute
      (StencilSpans zeros_and_ones extent_4x4) [0; 0; 0; 0]
      (NumberOfBins (two_bins VTK_INT))
      (BinOrigin (two_bins VTK_INT)) (BinSpacing (two_bins VTK_INT)).
Proof.
  apply (prescaled_kernel_matches_generic_on_identity
           (two_bins VTK_INT) zeros_and_ones extent_4x4 [0; 0; 0; 0]).
  - vm_compute. reflexivity.
  - reflexivity.
  - reflexivity.
  - cbn. unfold INT_MAX. lia.
  - cbn. unfold INT_MAX. lia.
  - apply constant_bytes_well_typed; lia.
Defined.

(** C5 as stated fails: with binOrigin = -0.5 and binSpacing = 1 on three bins
    the integer-endpoint check passes and the pre-scaled kernel is selected;
    it counts the 16 byte pairs (1,0) in cell (1,0), where the generic kernel
    rounds (1 + 0.5)*1 and (0 + 0.5)*1 to the cell (2,1). *)
Lemma prescaled_kernel_differs_off_identity :
  prescaled_selected half_bin_shift ones_and_zeros = true /\
  vtkImageMutualInformationExecutePreScaled
    (StencilSpans ones_and_zeros extent_4x4) (replicate 9 0)
    (NumberOfBins half_bin_shift)
  = Some [0; 16; 0; 0; 0; 0; 0; 0; 0] /\
  vtkImageMutualInformationExecute
    (StencilSpans ones_and_zeros extent_4x4) (replicate 9 0)
    (NumberOfBins half_bin_shift) (BinOrigin half_bin_shift)
    (BinSpacing half_bin_shift)
  = Some [0; 0; 0; 0; 0; 16; 0; 0; 0] /\
  vtkImageMutualInformationExecutePreScaled
    (StencilSpans ones_and_zeros extent_4x4) (replicate 9 0)
    (NumberOfBins half_bin_shift)
  <> vtkImageMutualInformationExecute
       (StencilSpans ones_and_zeros extent_4x4) (replicate 9 0)
       (NumberOfBins half_bin_shift) (BinOrigin half_bin_shift)
       (BinSpacing half_bin_shift).
Proof.
  split; [vm_compute; reflexivity | ].
  split; [vm_compute; reflexivity | ].
  split; [vm_compute; reflexivity | ].
  vm_compute. discriminate.
Qed.

Lemma shorts_well_typed (spans : Extent -> list Span) (e0 e1 update : Extent) :
  well_typed {| ScalarType0 := VTK_SHORT; ScalarType1 := VTK_SHORT;
                Extent0 := e0; Extent1 := e1;
                StencilSpans := spans; UpdateExtent := update |}.
Proof.
  intros extent. apply Forall_forall. intros v _.
  split; intros E; discriminate E.
Qed.

Section ExchangedInputs.
Import Reals Lra.

Lemma exchanged_inputs_transpose_histogram_witness :
  completes (run_tasks one_piece (two_bins VTK_INT) eleven_voxels 1
               [(0, 0)%nat] (initial_state 1))
    (fun st =>
  completes (run_tasks one_piece (two_bins VTK_INT) (swap_inputs eleven_voxels) 1
               [(0, 0)%nat] (initial_state 1))
    (fun st' =>
       let out := ReduceRequestData log_of_counts Z keep_count (two_bins VTK_INT)
                    eleven_voxels st in
       let out' := ReduceRequestData log_of_counts Z keep_count (two_bins VTK_INT)
                     (swap_inputs eleven_voxels) st' in
       let HA := (spec_entropies log_of_counts (two_bins VTK_INT) (Storage st)).1.1 in
       let HB := (spec_entropies log_of_counts (two_bins VTK_INT) (Storage st)).1.2 in
       let a := (sum_of_terms log_of_counts [4%Z; 3%Z; 4%Z; 0%Z] / 11)%R in
       let h := (F2R (log_of_counts (of_int 11)) - a)%R in
       let A := F2R (HA + HB) in
       joint_histogram (two_bins VTK_INT) (Storage st) = [[4; 3]; [4; 0]] /\
       joint_histogram (two_bins VTK_INT) (Storage st') = [[4; 4]; [3; 0]] /\
       transpose 2 [[4; 3]; [4; 0]] = [[4; 4]; [3; 0]] /\
       MutualInformation (Self out) = 0x1.3603f4ce6294p-3%float /\
       MutualInformation (Self out') = 0x1.3603f4ce62938p-3%float /\
       NormalizedMutualInformation (Self out) = 0x1.238cdf7e016c9p+0%float /\
       NormalizedMutualInformation (Self out') = 0x1.238cdf7e016c8p+0%float /\
       (13 / 10 <= a <= 131 / 100)%R /\ (108 / 100 <= h <= 11 / 10)%R /\
       (Rabs (F2R (MutualInformation (Self out')) - F2R (MutualInformation (Self out)))
        <= powerRZ 2 (-49) * ((INR 4 + 1) * a + Rabs h + Rabs (A - h))
           + powerRZ 2 (-1072))%R /\
       (Rabs (F2R (NormalizedMutualInformation (Self out'))
              - F2R (NormalizedMutualInformation (Self out)))
        <= 2 * NMI_tolerance 4 a h A)%R)).
Proof.
  assert (Hsym : symmetric_bins (two_bins VTK_INT)) by (repeat split).
  assert (HN : 1 <= (NumberOfBins (two_bins VTK_INT)).1) by (cbn; lia).
  assert (Hmax : (NumberOfBins (two_bins VTK_INT)).1
                 * (NumberOfBins (two_bins VTK_INT)).1 <= INT_MAX)
    by (cbn; unfold INT_MAX; lia).
  assert (Hty : well_typed eleven_voxels) by apply shorts_well_typed.
  pose proof (exchanged_inputs_transpose_histogram log_of_counts one_piece Z
                keep_count (two_bins VTK_INT) eleven_voxels 1 MultiThreader
                Hsym HN Hmax Hty eq_refl) as H.
  cbv beta zeta iota delta [tasks fmap list_fmap seq] in H.
  assert (E : run_tasks one_piece (two_bins VTK_INT) eleven_voxels 1
                [(0, 0)%nat] (initial_state 1)
              = Some {| Storage := [Some [4; 3; 4; 0]]; ErrorLog := [] |})
    by (vm_compute; reflexivity).
  assert (E' : run_tasks one_piece (two_bins VTK_INT) (swap_inputs eleven_voxels) 1
                 [(0, 0)%nat] (initial_state 1)
               = Some {| Storage := [Some [4; 4; 3; 0]]; ErrorLog := [] |})
    by (vm_compute; reflexivity).
  rewrite E, E' in H |- *. cbn [completes Storage] in H |- *. cbv zeta.
  destruct (spec_entropies log_of_counts (two_bins VTK_INT) [Some [4; 3; 4; 0]])
    as [[HA HB] HAB] eqn:Eent.
  destruct H as (_ & _ & _ & _ & _ & _ & _ & _ & _ & Htol).
  assert (EJ : joint_histogram (two_bins VTK_INT) [Some [4; 3; 4; 0]]
               = [[4; 3]; [4; 0]]) by (vm_compute; reflexivity).
  assert (EN : total_count (two_bins VTK_INT) [Some [4; 3; 4; 0]] = 11)
    by (vm_compute; reflexivity).
  rewrite EJ, EN in Htol. cbn [concat app Z.to_nat NumberOfBins two_bins configure fst] in Htol.
  change (Z.to_nat 2 * Z.to_nat 2)%nat with 4%nat in Htol.
  assert (Hb : (13 / 10 <= sum_of_terms log_of_counts [4%Z; 3%Z; 4%Z; 0%Z] / 11 <= 131 / 100
                /\ 108 / 100 <= F2R (log_of_counts (of_int 11))
                                 - sum_of_terms log_of_counts [4%Z; 3%Z; 4%Z; 0%Z] / 11
                   <= 11 / 10)%R).
  { unfold sum_of_terms, term_value. cbn [foldr].
    replace (0 <? of_int 4)%float with true by (vm_compute; reflexivity).
    replace (0 <? of_int 3)%float with true by (vm_compute; reflexivity).
    replace (0 <? of_int 0)%float with false by (vm_compute; reflexivity).
    rewrite (F2R_eval (of_int 4 * log_of_counts (of_int 4)) 6243314768165359 50)
      by (first [vm_compute; reflexivity | lia]).
    rewrite (F2R_eval (of_int 3 * log_of_counts (of_int 3)) 7421564840805520 51)
      by (first [vm_compute; reflexivity | lia]).
    rewrite (F2R_eval (log_of_counts (of_int 11)) 5399580128524108 51)
      by (first [vm_compute; reflexivity | lia]).
    change (2 ^ 50) with 1125899906842624.
    change (2 ^ 51) with 2251799813685248.
    lra. }
  destruct Htol as (_ & _ & Hdiff & Hnmi).
  - repeat constructor.
  - lia.
  - vm_compute. reflexivity.
  - vm_compute. reflexivity.
  - destruct Hnmi as (_ & _ & Hnmi).
    + vm_compute. reflexivity.
    + vm_compute. reflexivity.
    + destruct Hb as [Ha Hh].
      set (a := (sum_of_terms log_of_counts [4%Z; 3%Z; 4%Z; 0%Z] / 11)%R) in *.
      set (h := (F2R (log_of_counts (of_int 11)) - a)%R) in *.
      unfold entropy_tolerance, accumulation_error.
      rewrite (Rabs_pos_eq h) by lra.
      replace (INR 4) with 4%R by (cbn; lra).
      pose proof eps_pos as He. pose proof eps_tiny as Het.
      pose proof eta_pos as Hn. pose proof eta_le_eps as Hne.
      set (t := (2 * 4 * eps + eps * (1 + 2 * 4 * eps))%R).
      assert (Ht : (0 <= t <= / 50)%R) by (unfold t; nra).
      assert (Hta : (0 <= t * a <= / 10)%R) by nra.
      assert (Hprod : ((1 + eps) * (t * a + eta) <= / 2)%R) by nra.
      assert (Heh : (eps * h <= / 100)%R) by nra.
      lra.
    + split; [exact EJ | ].
      split; [vm_compute; reflexivity | ].
      split; [vm_compute; reflexivity | ].
      split; [vm_compute; reflexivity | ].
      split; [vm_compute; reflexivity | ].
      split; [vm_compute; reflexivity | ].
      split; [vm_compute; reflexivity | ].
      split; [exact (proj1 Hb) | split; [exact (proj2 Hb) | ]].
      cbn [fst snd]. split; [exact Hdiff | exact Hnmi].
Defined.

End ExchangedInputs.

(** C7 as stated fails where the two axes are binned differently.  With bins
    of width 1 for the first input and of width 4 for the second, and the
    voxel pairs (0,0) and (1,4): the original run counts the cells (0,0) and
    (1,1) and reports MI = ln 2; the run on the exchanged inputs counts the
    cells (0,0) and (1,0), which is not the transpose, and reports MI = 0. *)
Lemma exchanged_inputs_change_asymmetric_binning :
  completes (RequestData log_1_2 one_piece Z keep_count coarse_second_axis
               two_voxels 1 MultiThreader)
    (fun out =>
  completes (RequestData log_1_2 one_piece Z keep_count coarse_second_axis
               (swap_inputs two_voxels) 1 MultiThreader)
    (fun out' =>
       OutData out = concat [[1; 0]; [0; 1]] /\
       OutData out' = concat [[1; 1]; [0; 0]] /\
       transpose 2 [[1; 0]; [0; 1]] = [[1; 0]; [0; 1]] /\
       MutualInformation (Self out) = ln2 /\
       MutualInformation (Self out') = 0%float /\
       NormalizedMutualInformation (Self out) = 2%float /\
       NormalizedMutualInformation (Self out') = 1%float)).
Proof. vm_compute. repeat split. Qed.

Lemma joint_histogram_counts_every_voxel_witness :
  completes (run_tasks one_piece (two_bins VTK_INT) zeros_and_ones 1
               [(0, 0)%nat] (initial_state 1))
    (fun st =>
       sumZ (concat (joint_histogram (two_bins VTK_INT) (Storage st))) = 16 /\
       total_count (two_bins VTK_INT) (Storage st) = 16).
Proof.
  assert (Hb : 1 <= (NumberOfBins (two_bins VTK_INT)).2
               <= (NumberOfBins (two_bins VTK_INT)).1) by (cbn; lia).
  assert (Hmax : (NumberOfBins (two_bins VTK_INT)).1
                 * (NumberOfBins (two_bins VTK_INT)).2 <= INT_MAX)
    by (cbn; unfold INT_MAX; lia).
  assert (Hty : well_typed zeros_and_ones)
    by (apply constant_bytes_well_typed; lia).
  pose proof (joint_histogram_counts_every_voxel one_piece
                (two_bins VTK_INT) zeros_and_ones 1 MultiThreader
                Hb Hmax Hty) as H.
  cbv beta zeta iota delta [tasks fmap list_fmap seq] in H.
  eapply completes_impl; [exact H | ]. intros st [H1 H2].
  rewrite H1, H2. split; vm_compute; reflexivity.
Defined.

Lemma schedule_does_not_change_result_witness :
  completes (run_tasks two_slabs (two_bins VTK_INT) two_halves 2
               [(0, 0); (1, 1)]%nat (initial_state 2)) (fun st =>
  completes (run_tasks two_slabs (two_bins VTK_INT) two_halves 2
               [(3, 1); (3, 0)]%nat (initial_state 4)) (fun st' =>
    let out := ReduceRequestData log_8_16 Z keep_count (two_bins VTK_INT)
                 two_halves st in
    let out' := ReduceRequestData log_8_16 Z keep_count (two_bins VTK_INT)
                  two_halves st' in
    Storage st = [Some [8; 0; 0; 0]; Some [0; 0; 0; 8]] /\
    Storage st' = [None; None; None; Some [8; 0; 0; 8]] /\
    RequestData log_8_16 two_slabs Z keep_count (two_bins VTK_INT) two_halves 2
      (SMPTools [(0, 0); (1, 1)]%nat) = Some out /\
    RequestData log_8_16 two_slabs Z keep_count (two_bins VTK_INT) two_halves 2
      (SMPTools [(3, 1); (3, 0)]%nat) = Some out' /\
    joint_histogram (two_bins VTK_INT) (Storage st') = [[8; 0]; [0; 8]] /\
    joint_histogram (two_bins VTK_INT) (Storage st) = [[8; 0]; [0; 8]] /\
    MutualInformation (Self out') = MutualInformation (Self out) /\
    NormalizedMutualInformation (Self out')
    = NormalizedMutualInformation (Self out) /\
    MutualInformation (Self out) = 0x1.62e42fefa39fp-1%float /\
    NormalizedMutualInformation (Self out) = 2%float)).
Proof.
  assert (Hb : 1 <= (NumberOfBins (two_bins VTK_INT)).2
               <= (NumberOfBins (two_bins VTK_INT)).1) by (cbn; lia).
  assert (Hmax : (NumberOfBins (two_bins VTK_INT)).1
                 * (NumberOfBins (two_bins VTK_INT)).2 <= INT_MAX)
    by (cbn; unfold INT_MAX; lia).
  assert (Hty : well_typed two_halves) by apply shorts_well_typed.
  assert (Hperm : ([(0, 0); (1, 1)]%nat : list (nat * nat)).*2
                  ≡ₚ ([(3, 1); (3, 0)]%nat : list (nat * nat)).*2)
    by (cbn; apply perm_swap).
  pose proof (schedule_does_not_change_result log_8_16 two_slabs Z keep_count
                (two_bins VTK_INT) two_halves 2
                [(0, 0); (1, 1)]%nat [(3, 1); (3, 0)]%nat
                Hb Hmax Hty Hperm) as H.
  cbv beta zeta in H.
  change ((two_slabs (Extent0 two_halves) 0 2).2) with 2%nat in H.
  change (S (max_list ([(0, 0); (1, 1)]%nat : list (nat * nat)).*1)) with 2%nat in H.
  change (S (max_list ([(3, 1); (3, 0)]%nat : list (nat * nat)).*1)) with 4%nat in H.
  assert (E : run_tasks two_slabs (two_bins VTK_INT) two_halves 2
                [(0, 0); (1, 1)]%nat (initial_state 2)
              = Some {| Storage := [Some [8; 0; 0; 0]; Some [0; 0; 0; 8]];
                        ErrorLog := [] |}) by (vm_compute; reflexivity).
  assert (E' : run_tasks two_slabs (two_bins VTK_INT) two_halves 2
                 [(3, 1); (3, 0)]%nat (initial_state 4)
               = Some {| Storage := [None; None; None; Some [8; 0; 0; 8]];
                         ErrorLog := [] |}) by (vm_compute; reflexivity).
  rewrite E, E' in H |- *. cbn [completes] in H |- *.
  destruct H as (Hout & Hout' & HJ & _ & HMI & HNMI & _).
  cbv zeta.
  split; [reflexivity | split; [reflexivity | ]].
  split; [exact Hout | split; [exact Hout' | ]].
  split; [vm_compute; reflexivity | split; [vm_compute; reflexivity | ]].
  split; [exact HMI | split; [exact HNMI | ]].
  split; vm_compute; reflexivity.
Defined.

Lemma zero_count_yields_floor_values_witness :
  MutualInformation
    (Self (ReduceRequestData log_at_16 Z keep_count (two_bins VTK_INT)
             zeros_and_ones (initial_state 1))) = 0%float /\
  NormalizedMutualInformation
    (Self (ReduceRequestData log_at_16 Z keep_count (two_bins VTK_INT)
             zeros_and_ones (initial_state 1))) = 1%float.
Proof.
  destruct (zero_count_yields_floor_values log_at_16 Z keep_count
              (two_bins VTK_INT) zeros_and_ones (initial_state 1))
    as (H1 & H2 & _); [vm_compute; reflexivity | ].
  auto.
Defined.

Lemma nonfinite_values_counted_in_bounds_witness :
  kernel_bin 2 0 1 nan = Some 0 /\
  (kernel_bin 2 0 1 infinity = Some 0 \/ kernel_bin 2 0 1 infinity = Some 1).
Proof.
  destruct (nonfinite_values_counted_in_bounds (2, 2) (0%float, 0%float)
              (1%float, 1%float) (RealPixel nan, RealPixel infinity))
    as (_ & Hnan & _ & _ & Hinf).
  - cbn. lia.
  - cbn. unfold INT_MAX. lia.
  - split; [apply Hnan; reflexivity | apply Hinf; reflexivity].
Defined.

(** X6.  With four bins for image A and two for image B the kernels' row
    stride numBins[1] = 2 sends the bin pairs (2,0) and (0,1) to the same cell
    of the worker's histogram, which the reduction reads with row stride
    numBins[0] = 4: the emitted histogram shows both voxels at (2,0) and none
    at (0,1). *)
Lemma row_stride_merges_distinct_bins :
  affine_offset (NumberOfBins wide_bins) (BinOrigin wide_bins)
                (BinSpacing wide_bins) (IntegralPixel 2, IntegralPixel 0)
  = Some 2 /\
  affine_offset (NumberOfBins wide_bins) (BinOrigin wide_bins)
                (BinSpacing wide_bins) (IntegralPixel 0, IntegralPixel 1)
  = Some 2 /\
  completes (RequestData log_1_2 one_piece Z keep_count wide_bins
               crossing_voxels 1 MultiThreader)
    (fun out => OutData out = concat [[0; 0; 2; 0]; [0; 0; 0; 0]]).
Proof. vm_compute. repeat split. Qed.

(** * The further properties at concrete inputs *)

Lemma joint_histogram_cells_count_bin_pairs_witness :
  completes (run_tasks one_piece (two_bins VTK_INT) zeros_and_ones 1
               [(0, 0)%nat] (initial_state 1))
    (fun st =>
       cell (joint_histogram (two_bins VTK_INT) (Storage st)) 1 0 = 16 /\
       cell (joint_histogram (two_bins VTK_INT) (Storage st)) 0 1 = 0).
Proof.
  assert (Hb : 1 <= (NumberOfBins (two_bins VTK_INT)).2
               <= (NumberOfBins (two_bins VTK_INT)).1) by (cbn; lia).
  assert (Hmax : (NumberOfBins (two_bins VTK_INT)).1
                 * (NumberOfBins (two_bins VTK_INT)).2 <= INT_MAX)
    by (cbn; unfold INT_MAX; lia).
  assert (Hty : well_typed zeros_and_ones)
    by (apply constant_bytes_well_typed; lia).
  pose proof (joint_histogram_cells_count_bin_pairs one_piece
                (two_bins VTK_INT) zeros_and_ones 1 MultiThreader
                Hb Hmax Hty) as H.
  cbv beta zeta iota delta [tasks fmap list_fmap seq] in H.
  eapply completes_impl; [exact H | ]. intros st [_ Hsq].
  rewrite (Hsq eq_refl 0%nat 1%nat), (Hsq eq_refl 1%nat 0%nat) by (cbn; lia).
  split; vm_compute; reflexivity.
Defined.


Lemma excluded_voxels_are_not_processed_witness :
  completes (run_tasks one_piece (two_bins VTK_INT) masked_out 1
               [(0, 0)%nat] (initial_state 1))
    (fun st =>
       let out := ReduceRequestData log_at_16 Z keep_count (two_bins VTK_INT)
                    masked_out st in
       RequestData log_at_16 one_piece Z keep_count (two_bins VTK_INT)
         masked_out 1 MultiThreader = Some out /\
       OutData out = [0; 0; 0; 0] /\
       MutualInformation (Self out) = 0%float /\
       NormalizedMutualInformation (Self out) = 1%float)
  /\ completes (run_tasks one_piece (two_bins VTK_INT) images_apart 1
                  [(0, 0)%nat] (initial_state 1))
       (fun st =>
          let out := ReduceRequestData log_at_16 Z keep_count (two_bins VTK_INT)
                       images_apart st in
          RequestData log_at_16 one_piece Z keep_count (two_bins VTK_INT)
            images_apart 1 MultiThreader = Some out /\
          OutData out = [0; 0; 0; 0] /\
          MutualInformation (Self out) = 0%float /\
          NormalizedMutualInformation (Self out) = 1%float).
Proof.
  assert (Hx : 0 < (NumberOfBins (two_bins VTK_INT)).1) by (cbn; lia).
  assert (Hy : 0 < (NumberOfBins (two_bins VTK_INT)).2) by (cbn; lia).
  split.
  - destruct (excluded_voxels_are_not_processed log_at_16 one_piece Z keep_count
                (two_bins VTK_INT) masked_out 1 MultiThreader Hx Hy) as [_ H].
    { right. intros extent. cbn. repeat constructor. }
    cbv beta zeta iota delta [tasks fmap list_fmap seq] in H.
    eapply completes_impl; [exact H | ].
    intros st (Hreq & _ & Hmi & Hnmi & _ & Hdata).
    split; [exact Hreq | ].
    rewrite (Hdata eq_refl) by (split; [reflexivity | cbn; lia]).
    auto.
  - destruct (excluded_voxels_are_not_processed log_at_16 one_piece Z keep_count
                (two_bins VTK_INT) images_apart 1 MultiThreader Hx Hy) as [_ H].
    { left. intros extent. unfold clip_extent.
      pose proof (clip_axis_spec (ext_x extent) (ext_x (Extent0 images_apart))
                    (ext_x (Extent1 images_apart))) as Hc.
      destruct (clip_axis _ _ _) as [c | ]; [exfalso | reflexivity].
      destruct Hc as [Hc Hle].
      destruct (proj1 (Hc c.1)) as (_ & Ha & Hb);
        unfold in_range in *; cbn in *; lia. }
    cbv beta zeta iota delta [tasks fmap list_fmap seq] in H.
    eapply completes_impl; [exact H | ].
    intros st (Hreq & _ & Hmi & Hnmi & _ & Hdata).
    split; [exact Hreq | ].
    rewrite (Hdata eq_refl) by (split; [reflexivity | cbn; lia]).
    auto.
Defined.

Lemma partial_update_emits_requested_block_witness :
  OutData (ReduceRequestData log_at_16 Z keep_count (two_bins VTK_INT)
             (with_update zeros_and_ones lower_left) one_worker_counts)
  = [16].
Proof.
  assert (Hwf : storage_wf (cells (two_bins VTK_INT)) (Storage one_worker_counts))
    by (repeat constructor).
  destruct (partial_update_emits_requested_block log_at_16 Z keep_count
              (two_bins VTK_INT) (with_update zeros_and_ones lower_left)
              one_worker_counts lower_left eq_refl)
    as (Hdata & _); [cbn; lia | cbn; lia | exact Hwf | cbn; lia | cbn; lia | ].
  rewrite Hdata. vm_compute. reflexivity.
Defined.

Lemma advertised_extent_receives_whole_histogram_witness :
  OutData (ReduceRequestData log_at_16 Z keep_count (two_bins VTK_INT)
             (with_update zeros_and_ones
                (WHOLE_EXTENT (RequestInformation (two_bins VTK_INT))))
             one_worker_counts)
  = [0; 0; 16; 0].
Proof.
  assert (Hwf : storage_wf (cells (two_bins VTK_INT)) (Storage one_worker_counts))
    by (repeat constructor).
  destruct (advertised_extent_receives_whole_histogram log_at_16 Z keep_count
              (two_bins VTK_INT) zeros_and_ones one_worker_counts)
    as (Hdata & _); [cbn; lia | cbn; lia | exact Hwf | reflexivity | ].
  rewrite Hdata. vm_compute. reflexivity.
Defined.

Lemma floor_guard_tracks_voxel_count_witness :
  completes (run_tasks one_piece (two_bins VTK_INT) zeros_and_ones 1
               [(0, 0)%nat] (initial_state 1))
    (fun st =>
       take 3 (Divisors (ReduceRequestData log_at_16 Z keep_count
                           (two_bins VTK_INT) zeros_and_ones st))
       = [16%float; 16%float; 16%float]).
Proof.
  assert (Hb : 1 <= (NumberOfBins (two_bins VTK_INT)).2
               <= (NumberOfBins (two_bins VTK_INT)).1) by (cbn; lia).
  assert (Hmax : (NumberOfBins (two_bins VTK_INT)).1
                 * (NumberOfBins (two_bins VTK_INT)).2 <= INT_MAX)
    by (cbn; unfold INT_MAX; lia).
  assert (Hty : well_typed zeros_and_ones)
    by (apply constant_bytes_well_typed; lia).
  pose proof (floor_guard_tracks_voxel_count log_at_16 one_piece Z keep_count
                (two_bins VTK_INT) zeros_and_ones 1 MultiThreader
                Hb Hmax Hty) as H.
  cbv beta zeta iota delta [tasks fmap list_fmap seq] in H.
  eapply completes_impl; [exact H | ]. intros st (_ & _ & Hpos).
  destruct Hpos as (_ & -> & _); [vm_compute; reflexivity | ].
  vm_compute. reflexivity.
Defined.

Lemma nonpositive_bin_count_breaks_allocation_witness :
  RequestData log_at_16 one_piece Z keep_count no_bins zeros_and_ones
              1 MultiThreader = None.
Proof.
  apply nonpositive_bin_count_breaks_allocation.
  - cbn. lia.
  - cbn [tasks fmap list_fmap seq]. constructor. vm_compute. reflexivity.
Defined.

Lemma TLS_loop_visits_every_element_witness :
  TLS_loop 4 (TLS_new 0 3) (TLS_begin (TLS_new 0 3)) (TLS_end (TLS_new 0 3))
  = Some [0; 0; 0].
Proof.
  apply (TLS_loop_visits_every_element Z (TLS_new 0 3) [0; 0; 0] 4).
  - right. repeat split.
  - cbn. lia.
Defined.

Lemma MT_Local_round_trip_witness :
  exists tls',
    MT_Local_assign (TLS_new 0 3) 1 7 = Some tls'
    /\ MT_Local tls' 1 = Some 7
    /\ TLS_loop 4 tls' (TLS_begin tls') (TLS_end tls') = Some [0; 7; 0].
Proof.
  apply (proj1 (MT_Local_round_trip Z 0 3 1 7 ltac:(lia))). lia.
Defined.

Lemma default_mapping_selects_prescaled_witness :
  prescaled_selected (two_bins VTK_INT) zeros_and_ones = true.
Proof.
  apply (default_mapping_selects_prescaled (two_bins VTK_INT) zeros_and_ones).
  - reflexivity.
  - reflexivity.
  - cbn. unfold INT_MAX. lia.
  - cbn. unfold INT_MAX. lia.
  - split; reflexivity.
Defined.

Lemma default_mapping_bins_integers_witness :
  voxel_bins (two_bins VTK_INT) two_voxels (IntegralPixel 1, IntegralPixel 4)
  = Some (1, 1).
Proof.
  apply (default_mapping_bins_integers (two_bins VTK_INT) two_voxels 1 4).
  - reflexivity.
  - reflexivity.
  - cbn. unfold INT_MAX. lia.
  - cbn. unfold INT_MAX. lia.
  - lia.
  - lia.
  - intros E. discriminate E.
  - intros E. discriminate E.
Defined.

Lemma empty_bins_do_not_reach_log_witness :
  MutualInformation
    (Self (ReduceRequestData log_at_16 Z keep_count (two_bins VTK_INT)
             zeros_and_ones one_worker_counts))
  = spec_MI (spec_H log_at_16 (spec_S log_at_16 [16]) 16)
            (spec_H log_at_16 (spec_S log_at_16 [16]) 16)
            (spec_H log_at_16 (spec_S log_at_16 [16]) 16).
Proof.
  destruct (empty_bins_do_not_reach_log log_at_16 Z keep_count
              (two_bins VTK_INT) zeros_and_ones one_worker_counts)
    as [H _]; [vm_compute; discriminate | ].
  exact H.
Defined.

Lemma run_completes_iff_cells_in_buffer_witness :
  is_Some (RequestData log_at_16 one_piece Z keep_count (two_bins VTK_INT)
             zeros_and_ones 1 MultiThreader)
  /\ ~ is_Some (RequestData log_at_16 one_piece Z keep_count one_by_two
                  zeros_and_ones 1 MultiThreader).
Proof.
  split.
  - apply (proj2 (run_completes_iff_cells_in_buffer log_at_16 one_piece Z
                    keep_count (two_bins VTK_INT) zeros_and_ones 1 MultiThreader
                    ltac:(cbn; lia) ltac:(cbn; lia))).
    apply processed_in_buffer;
      [cbn; lia | cbn; unfold INT_MAX; lia
      | apply constant_bytes_well_typed; lia].
  - intros [out Hout]. vm_compute in Hout. discriminate Hout.
Defined.

Lemma reduction_reads_cellwise_sum_witness :
  ReduceRequestData log_at_16 Z keep_count (two_bins VTK_INT) zeros_and_ones
                    two_workers_counts
  = ReduceRequestData log_at_16 Z keep_count (two_bins VTK_INT) zeros_and_ones
                      one_worker_counts.
Proof.
  apply reduction_reads_cellwise_sum.
  - cbn. lia.
  - cbn. lia.
  - repeat constructor.
  - repeat constructor.
  - reflexivity.
  - reflexivity.
Defined.

Lemma strategies_agree_witness :
  completes (run_tasks two_slabs (two_bins VTK_INT) two_halves 3
               [(0, 0); (1, 1); (2, 2)]%nat (initial_state 3)) (fun st =>
  completes (run_tasks two_slabs (two_bins VTK_INT) two_halves 2
               [(0, 1); (0, 0)]%nat (initial_state 1)) (fun st' =>
    let out := ReduceRequestData log_8_16 Z keep_count (two_bins VTK_INT)
                 two_halves st in
    let out' := ReduceRequestData log_8_16 Z keep_count (two_bins VTK_INT)
                  two_halves st' in
    Storage st = [Some [8; 0; 0; 0]; Some [0; 0; 0; 8]; None] /\
    Storage st' = [Some [8; 0; 0; 8]] /\
    RequestData log_8_16 two_slabs Z keep_count (two_bins VTK_INT) two_halves 3
      MultiThreader = Some out /\
    RequestData log_8_16 two_slabs Z keep_count (two_bins VTK_INT) two_halves 3
      (SMPTools [(0, 1); (0, 0)]%nat) = Some out' /\
    joint_histogram (two_bins VTK_INT) (Storage st') = [[8; 0]; [0; 8]] /\
    joint_histogram (two_bins VTK_INT) (Storage st) = [[8; 0]; [0; 8]] /\
    MutualInformation (Self out') = MutualInformation (Self out) /\
    NormalizedMutualInformation (Self out')
    = NormalizedMutualInformation (Self out) /\
    MutualInformation (Self out) = 0x1.62e42fefa39fp-1%float /\
    NormalizedMutualInformation (Self out) = 2%float)).
Proof.
  assert (Hb : 1 <= (NumberOfBins (two_bins VTK_INT)).2
               <= (NumberOfBins (two_bins VTK_INT)).1) by (cbn; lia).
  assert (Hmax : (NumberOfBins (two_bins VTK_INT)).1
                 * (NumberOfBins (two_bins VTK_INT)).2 <= INT_MAX)
    by (cbn; unfold INT_MAX; lia).
  assert (Hty : well_typed two_halves) by apply shorts_well_typed.
  assert (Hperm : ([(0, 1); (0, 0)]%nat : list (nat * nat)).*2 ≡ₚ seq 0 2)
    by (cbn; apply perm_swap).
  pose proof (strategies_agree log_8_16 two_slabs Z keep_count
                (two_bins VTK_INT) two_halves 3 [(0, 1); (0, 0)]%nat
                Hb Hmax Hty ltac:(cbn; lia) ltac:(reflexivity)
                ltac:(reflexivity) Hperm) as H.
  cbv beta zeta in H.
  change ((two_slabs (Extent0 two_halves) 0 3).2) with 2%nat in H.
  change (S (max_list ([(0, 1); (0, 0)]%nat : list (nat * nat)).*1)) with 1%nat in H.
  change ((fun i : nat => (i, i)) <$> seq 0 3)
    with ([(0, 0); (1, 1); (2, 2)]%nat : list (nat * nat)) in H.
  assert (E : run_tasks two_slabs (two_bins VTK_INT) two_halves 3
                [(0, 0); (1, 1); (2, 2)]%nat (initial_state 3)
              = Some {| Storage := [Some [8; 0; 0; 0]; Some [0; 0; 0; 8]; None];
                        ErrorLog := [] |}) by (vm_compute; reflexivity).
  assert (E' : run_tasks two_slabs (two_bins VTK_INT) two_halves 2
                 [(0, 1); (0, 0)]%nat (initial_state 1)
               = Some {| Storage := [Some [8; 0; 0; 8]]; ErrorLog := [] |})
    by (vm_compute; reflexivity).
  rewrite E, E' in H |- *. cbn [completes] in H |- *.
  destruct H as (Hout & Hout' & HJ & _ & HMI & HNMI & _).
  cbv zeta.
  split; [reflexivity | split; [reflexivity | ]].
  split; [exact Hout | split; [exact Hout' | ]].
  split; [vm_compute; reflexivity | split; [vm_compute; reflexivity | ]].
  split; [exact HMI | split; [exact HNMI | ]].
  split; vm_compute; reflexivity.
Defined.

Lemma identical_inputs_share_one_entropy_witness :
  completes (run_tasks one_piece (two_bins VTK_INT) ones_and_ones 1
               [(0, 0)%nat] (initial_state 1))
    (fun st =>
       cell (joint_histogram (two_bins VTK_INT) (Storage st)) 0 1 = 0 /\
       cell (joint_histogram (two_bins VTK_INT) (Storage st)) 1 0 = 0 /\
       (spec_entropies log_at_16 (two_bins VTK_INT) (Storage st)).1.2
       = (spec_entropies log_at_16 (two_bins VTK_INT) (Storage st)).1.1 /\
       (spec_entropies log_at_16 (two_bins VTK_INT) (Storage st)).2
       = (spec_entropies log_at_16 (two_bins VTK_INT) (Storage st)).1.1).
Proof.
  assert (Hsym : symmetric_bins (two_bins VTK_INT)) by (repeat split).
  assert (HN : 1 <= (NumberOfBins (two_bins VTK_INT)).1) by (cbn; lia).
  assert (Hmax : (NumberOfBins (two_bins VTK_INT)).1
                 * (NumberOfBins (two_bins VTK_INT)).1 <= INT_MAX)
    by (cbn; unfold INT_MAX; lia).
  assert (Hty : well_typed ones_and_ones)
    by (apply constant_bytes_well_typed; lia).
  assert (Hsame : forall extent,
            Forall (fun v : Pixel * Pixel => v.1 = v.2)
                   (in_stencil (StencilSpans ones_and_ones extent)))
    by (intros extent; cbn; repeat constructor).
  pose proof (identical_inputs_share_one_entropy log_at_16 one_piece Z keep_count
                (two_bins VTK_INT) ones_and_ones 1 MultiThreader
                Hsym HN Hmax Hty Hsame) as H.
  cbv beta zeta iota delta [tasks fmap list_fmap seq] in H.
  eapply completes_impl; [exact H | ]. intros st (_ & Hoff & Hent & _).
  rewrite Hent. cbn [fst snd].
  repeat split; try reflexivity; apply Hoff; cbn; lia.
Defined.
